(* ===== verification/_CoqProject ===== *)
-Q . S2P
Prelude.v
CFmt.v
PtPkt.v
ListHead.v
OrderedEvents.v
KBuffer.v
Bits.v
Sample.v
SampleTrip.v
Insn.v
InsnStable.v
PtInsn.v
PtStack.v
PtOverlap.v
PtDec.v
PtTime.v
PtFetch.v
PtDecode.v
