(* ===== verification/Prelude.v ===== *)
(** * perf: the trace decoders and the event plumbing under tools/

    The repository is the perf tool of the Linux kernel.  This development is
    about the parts of it that carry algorithms and data formats of their own;
    the commands, the user interfaces and everything that is mostly input and
    output around them is left out (see the end of this comment).

    ** The parts and the files that model them

    - [Prelude.v]: undefined behaviour as [None], reading and writing
      little-endian integers in byte lists, wrap-around at a width, bit
      manipulation, tactics and the hint database [perf].
    - [CFmt.v]: the conversions of [snprintf] that the printers use.
    - [PtPkt.v]: [src/tools/perf/util/intel-pt-decoder/intel-pt-pkt-decoder.c],
      the packets of an Intel PT trace.  C7,
      C23, C13, C38.
    - [ListHead.v]: [src/tools/include/linux/list.h], intrusive lists in a
      memory of links.  C12.
    - [OrderedEvents.v]: [src/tools/perf/util/ordered-events.c], the queue that
      brings events of several CPUs into the order of their timestamps; uses
      [ListHead].  C9, C10, C3, C34.
    - [KBuffer.v]: [src/tools/lib/traceevent/kbuffer-parse.c], the reader of
      ftrace ring-buffer pages.  C5, C30, C37.
    - [Bits.v]: [src/tools/lib/hweight.c], [find_bit.c], [bitmap.c],
      [vsprintf.c] and the inline bit operations under [src/tools/include].
      C25, C11, C26, C27.
    - [Sample.v], [SampleTrip.v]: the sample records of
      [src/tools/perf/util/evsel.c]: layout bookkeeping, parser, size and
      writer, tracepoint fields; uses the population count of [Bits].
      C8, C4, C35, C28, C29.
    - [Insn.v], [InsnStable.v]: the x86 instruction decoder [insn.c], [inat.c]
      with their headers; [PtInsn.v]: its client
      [intel-pt-insn-decoder.c], which classifies branches.
      C6, C20, C21, C36, C22, C39.
    - The Intel PT decoder [intel-pt-decoder.c], which follows the packets of
      [PtPkt] and the instructions of [PtInsn] and reconstructs the control
      flow: [PtStack.v] its call stack (C19), [PtOverlap.v] the detection of
      overlapping buffers (C18, C17, C40), [PtDec.v] the state and every other
      function, [PtTime.v] the arithmetic of periods, clocks, addresses and
      timestamps (C32, C31,
      C24, C16, C15), [PtFetch.v] the packets of a trace that arrives
      in buffers (C2, C33), [PtDecode.v] the decoder as a whole (C1,
      C14).

    ** How the code is represented

    Integers are [Z], with the wrap-around of their width written out ([u32],
    [u64], [s32] and the like of [Prelude]); booleans and enumerations are
    types of their own.  A memory object is the list of its bytes and a pointer
    into it an offset, or the bytes behind it where only these matter; linked
    structures live in an explicit memory.  A function that changes a structure
    takes the old value of the structure and returns the new one.  Error codes
    are ordinary values; [None] is undefined behaviour: a read or a write
    outside of an object, the use of NULL or of an unassigned variable, an
    oversized shift, a signed overflow.  A theorem that a function is [Some] is
    thus a theorem that its behaviour is defined.  The host is little-endian and
    64-bit.  Names are those of the source; a definition that has no name there
    is a loop body or a block of the function it is mapped to.

    A loop is structural where its bound is known (the bits of a word, the
    bytes of a buffer) and otherwise takes fuel, of which running out is [None]
    as well; the theorems say how much is enough.  For lists it is the number of
    nodes, for buffers the number of bytes, for the decoder the bytes of trace
    left and the answers of [get_trace] to come, because every round consumes
    one of either.  [power_loop] of [PtDec] is the exception: C32 shows that no
    fuel is enough for a period of zero.

    ** What the theorems show

    - Memory safety of the parsers on arbitrary input, with the conditions under
      which they fail: C7 for packets, C8 for samples, C6 for
      instructions.
    - Formats: encoding and decoding are inverse for packets (C13), addresses
      (C24), ring-buffer pages (C5) and samples (C4); the bytes of every direct
      branch give its kind and target (C22); decoders do not depend on what
      follows (C23, C21).
    - Refinement of abstract specifications: lists by sequences (C12), the event
      queue by a stable sorted insertion and a prefix removal, with any callback
      (C9, C10), the
      blocks of the call stack by a stack (C19), buffered fetching by parsing
      one stream (C2).
    - System-level invariants: no event is lost or delivered out of order (C3),
      the cached size of a selector follows from the changes of its sample type
      (C29; C28 for the positions of the id), timestamps never decrease (C15).
    - Algorithms against a reference: C25, C11, C26, C27,
      C18, C17, C31.
    - Termination and totality: of the whole Intel PT decoder C1, with its
      detection of loops C14; and in C5, C6, C18, C17, C32.
    - Defects, stated as what the code does: C34, C30, C37, C35,
      C36, C32, C33.

    ** Assumptions

    What the source calls but does not define is a parameter.  The attribute
    tables of the instruction decoder, which an awk script generates, are a
    record with the decidable hypothesis [tables_ok] (sizes, no opcode of more
    than three bytes); C22 and C36 also name the entries of the opcode map that
    they are about.  The callbacks of the Intel PT decoder are the class
    [PtEnv] and the list of answers of [get_trace]; [EnvOk] says that the results
    of [walk_insn] and [malloc] have their types.  The decoder as a whole (C1) is
    defined under four conditions, none of which the code checks:
    [no_overlong_cyc] excludes the one packet on which the packet decoder is
    undefined (C7); the answers of [get_trace] are errors other than [-EAGAIN],
    empty, or at least 16 bytes long (otherwise: C33); [offsets_fit], the length
    and the offset of a direct branch add up to an [int] (otherwise:
    [branch_offset_undefined]); [conversions_defined], a [double] out of range
    converts to some value, as Annex F of ISO C has it (otherwise:
    [cyc_time_undefined]).  Every theorem with a
    hypothesis is followed by an instance on concrete values.

    ** Not modelled

    Printing and logging; freeing of memory other than what later behaviour
    depends on; in [evsel.c] the opening of counters, event names and error
    texts; in libtraceevent the parser of format files, filters and plugins; of
    perf the sessions, file headers, machines, symbols, histograms, probes,
    scripting, architecture support, commands and user interfaces, libbpf,
    libsubcmd, liblockdep and the tests: they are input and output, glue around
    external libraries, or presentation. *)

From stdpp Require Import base option list numbers gmap sorting.
From Stdlib Require Import ZArith Lia Bool.

#[global] Open Scope Z_scope.

(** * Undefined behaviour

    A C expression that may run into undefined behaviour (an out-of-bounds
    read, a NULL dereference, an oversized shift) is modelled in the [option]
    monad; [None] is undefined behaviour and never an error code of the
    program: error codes are ordinary values. *)

Declare Scope cmonad_scope.
Delimit Scope cmonad_scope with cm.
Notation "'let*' x ':=' m 'in' k" := (mbind (fun x => k) m)
  (at level 10, x pattern, m at level 100, k at level 200) : cmonad_scope.
#[global] Open Scope cmonad_scope.

(** [ub_unless b k]: [k] is only reached when the guard of the C standard
    holds. *)
Definition ub_unless {A} (b : bool) (k : option A) : option A :=
  if b then k else None.

(** * Machine integers *)

Definition u8 (x : Z) : Z := x mod 2 ^ 8.
Definition u16 (x : Z) : Z := x mod 2 ^ 16.
Definition u32 (x : Z) : Z := x mod 2 ^ 32.
Definition u64 (x : Z) : Z := x mod 2 ^ 64.

(** Conversion to a signed [w]-bit integer (two's complement). *)
Definition sN (w : Z) (x : Z) : Z :=
  let y := x mod 2 ^ w in if y <? 2 ^ (w - 1) then y else y - 2 ^ w.
Definition s32 := sN 32.
Definition s64 := sN 64.

(** [x & m] used as a condition. *)
Definition tst (x m : Z) : bool := negb (Z.land x m =? 0).

Definition BIT (n : Z) : Z := Z.shiftl 1 n.
Definition BIT63 : Z := 2 ^ 63.

Definition is_byte (b : Z) : Prop := 0 <= b < 256.
#[global] Instance is_byte_dec b : Decision (is_byte b).
Proof. unfold is_byte. apply _. Defined.

(** * Byte buffers *)

(** [*(buf + i)]: undefined outside of the object. *)
Definition rd (buf : list Z) (i : Z) : option Z :=
  if 0 <=? i then buf !! Z.to_nat i else None.

(** Little-endian value of a byte string. *)
Fixpoint le_combine (bs : list Z) : Z :=
  match bs with
  | [] => 0
  | b :: r => b + 256 * le_combine r
  end.

Fixpoint le_split (n : nat) (v : Z) : list Z :=
  match n with
  | O => []
  | S n => v mod 256 :: le_split n (v / 256)
  end.

(** The [n] bytes at offset [off], if they are all inside the object. *)
Definition rd_bytes (buf : list Z) (off : Z) (n : nat) : option (list Z) :=
  if (0 <=? off) && (off + Z.of_nat n <=? Z.of_nat (length buf))
  then Some (take n (drop (Z.to_nat off) buf)) else None.

(** A little-endian load of [n] bytes. *)
Definition rd_le (buf : list Z) (off : Z) (n : nat) : option Z :=
  let* bs := rd_bytes buf off n in Some (le_combine bs).

(** * Lemmas on machine integers *)

Lemma u8_range x : 0 <= u8 x < 2 ^ 8.
Proof. apply Z.mod_pos_bound; lia. Qed.
Lemma u16_range x : 0 <= u16 x < 2 ^ 16.
Proof. apply Z.mod_pos_bound; lia. Qed.
Lemma u32_range x : 0 <= u32 x < 2 ^ 32.
Proof. apply Z.mod_pos_bound; lia. Qed.
Lemma u64_range x : 0 <= u64 x < 2 ^ 64.
Proof. apply Z.mod_pos_bound; lia. Qed.

Lemma u32_small x : 0 <= x < 2 ^ 32 -> u32 x = x.
Proof. apply Z.mod_small. Qed.
Lemma u64_small x : 0 <= x < 2 ^ 64 -> u64 x = x.
Proof. apply Z.mod_small. Qed.

Lemma s32_small x : - 2 ^ 31 <= x < 2 ^ 31 -> s32 x = x.
Proof.
  intros Hx. unfold s32, sN. change (32 - 1) with 31.
  destruct (Z.lt_ge_cases x 0) as [Hn|Hn].
  - rewrite <-(Z_mod_plus_full x 1), Z.mod_small, (proj2 (Z.ltb_ge _ _)); lia.
  - rewrite Z.mod_small, (proj2 (Z.ltb_lt _ _)); lia.
Qed.

(** A single-bit mask test is a [testbit]. *)
Lemma tst_pow2 x n : 0 <= n -> tst x (2 ^ n) = Z.testbit x n.
Proof.
  intros Hn. unfold tst. destruct (Z.testbit x n) eqn:E.
  - destruct (Z.eqb_spec (Z.land x (2 ^ n)) 0) as [H|]; [|done].
    exfalso. assert (Z.testbit (Z.land x (2 ^ n)) n = true) as Hb.
    { rewrite Z.land_spec, E, Z.pow2_bits_true by done. done. }
    rewrite H, Z.bits_0 in Hb. done.
  - destruct (Z.eqb_spec (Z.land x (2 ^ n)) 0) as [|H]; [done|].
    exfalso. apply H. apply Z.bits_inj'. intros k Hk.
    rewrite Z.land_spec, Z.bits_0, Z.pow2_bits_eqb by done.
    destruct (Z.eqb_spec n k) as [<-|]; [by rewrite E|apply andb_false_r].
Qed.

Lemma tst_1_odd x : tst x 1 = Z.odd x.
Proof. change 1 with (2 ^ 0). rewrite tst_pow2 by lia. by rewrite Z.bit0_odd. Qed.

Lemma bounded_iff_bits n x :
  0 <= n -> (0 <= x < 2 ^ n <-> 0 <= x /\ forall k, n <= k -> Z.testbit x k = false).
Proof.
  intros Hn. split; intros [H0 H]; (split; [done|]).
  - intros k Hk. destruct (Z.eq_dec x 0) as [->|]; [apply Z.bits_0|].
    apply Z.bits_above_log2; [done|].
    assert (Z.log2 x < n) by (apply Z.log2_lt_pow2; lia). lia.
  - destruct (Z.eq_dec x 0) as [->|]; [lia|].
    apply Z.log2_lt_pow2; [lia|].
    destruct (Z.lt_ge_cases (Z.log2 x) n) as [|Hl]; [done|].
    specialize (H _ Hl). rewrite Z.bit_log2 in H; [done|lia].
Qed.

Lemma lor_bounded n x y : 0 <= n -> 0 <= x < 2 ^ n -> 0 <= y < 2 ^ n -> 0 <= Z.lor x y < 2 ^ n.
Proof.
  intros Hn Hx%bounded_iff_bits Hy%bounded_iff_bits; try done.
  apply bounded_iff_bits; [done|]. destruct Hx as [Hx Hx'], Hy as [Hy Hy'].
  split; [by apply Z.lor_nonneg|]. intros k Hk. rewrite Z.lor_spec, Hx', Hy'; done.
Qed.

Lemma land_bounded_r x m : 0 <= m -> 0 <= Z.land x m <= m.
Proof.
  intros Hm. split; [apply Z.land_nonneg; by right|].
  replace m with (Z.land m x + Z.ldiff m x) at 2.
  - rewrite Z.land_comm. pose proof (proj2 (Z.ldiff_nonneg m x) (or_introl Hm)). lia.
  - rewrite Z.add_nocarry_lxor.
    + apply Z.bits_inj'. intros k Hk. rewrite Z.lxor_spec, Z.land_spec, Z.ldiff_spec.
      destruct (Z.testbit m k), (Z.testbit x k); done.
    + apply Z.bits_inj'. intros k Hk. rewrite Z.land_spec, Z.land_spec, Z.ldiff_spec, Z.bits_0.
      destruct (Z.testbit m k), (Z.testbit x k); done.
Qed.

Lemma shiftr_bounded x n : 0 <= n -> 0 <= x -> 0 <= Z.shiftr x n <= x.
Proof.
  intros Hn Hx. rewrite Z.shiftr_div_pow2 by done. split; [apply Z.div_pos; lia|].
  apply Z.div_le_upper_bound; nia.
Qed.

Lemma lor_add_disjoint a b n : 0 <= n -> 0 <= a < 2 ^ n -> Z.lor a (b * 2 ^ n) = a + b * 2 ^ n.
Proof.
  intros Hn Ha. rewrite <-Z.shiftl_mul_pow2 by done. symmetry.
  rewrite Z.add_nocarry_lxor, Z.lxor_lor; [done|..];
    apply Z.bits_inj'; intros k Hk; rewrite Z.land_spec, Z.bits_0;
    apply (bounded_iff_bits n) in Ha as [Ha Hb]; try done;
    (destruct (Z.lt_ge_cases k n);
      [rewrite Z.shiftl_spec_low by done; apply andb_false_r|by rewrite Hb]).
Qed.

(** Masking a field of [k] bits at position [n] of a word. *)
Lemma land_lane x n k : 0 <= n -> 0 <= k ->
  Z.land x (Z.shiftl (Z.ones k) n) = (x / 2 ^ n) mod 2 ^ k * 2 ^ n.
Proof.
  intros Hn Hk. rewrite <-Z.shiftr_div_pow2, <-Z.shiftl_mul_pow2, <-Z.land_ones by done.
  apply Z.bits_inj'. intros i Hi. rewrite Z.land_spec.
  destruct (Z.lt_ge_cases i n).
  - rewrite !Z.shiftl_spec_low by done. apply andb_false_r.
  - rewrite !Z.shiftl_spec_high, Z.land_spec, Z.shiftr_spec by lia.
    by replace (i - n + n) with i by lia.
Qed.

(** * Lemmas on byte buffers *)

Lemma rd_in_range buf i : 0 <= i < Z.of_nat (length buf) -> exists b, rd buf i = Some b.
Proof.
  intros Hi. unfold rd. rewrite (proj2 (Z.leb_le 0 i)) by lia.
  apply lookup_lt_is_Some_2. lia.
Qed.

Lemma rd_byte buf i b : Forall is_byte buf -> rd buf i = Some b -> is_byte b.
Proof.
  unfold rd. destruct (Z.leb_spec 0 i); [|done].
  intros Hf Hb. eapply Forall_lookup_1; eauto.
Qed.

Lemma rd_app_l buf buf' i b : rd buf i = Some b -> rd (buf ++ buf') i = Some b.
Proof.
  unfold rd. destruct (Z.leb_spec 0 i); [|done]. apply lookup_app_l_Some.
Qed.

Lemma rd_bytes_in_range buf off n :
  0 <= off -> off + Z.of_nat n <= Z.of_nat (length buf) ->
  exists bs, rd_bytes buf off n = Some bs /\ length bs = n.
Proof.
  intros H1 H2. unfold rd_bytes.
  rewrite (proj2 (Z.leb_le 0 off)), (proj2 (Z.leb_le _ _) H2) by lia. simpl.
  eexists. split; [done|]. rewrite length_take, length_drop. lia.
Qed.

Lemma rd_bytes_length buf off n bs : rd_bytes buf off n = Some bs -> length bs = n.
Proof.
  unfold rd_bytes. destruct (Z.leb_spec 0 off), (Z.leb_spec (off + Z.of_nat n) (Z.of_nat (length buf)));
    simpl; intros [= <-]; rewrite length_take, length_drop; lia.
Qed.

Lemma rd_bytes_byte buf off n bs :
  Forall is_byte buf -> rd_bytes buf off n = Some bs -> Forall is_byte bs.
Proof.
  unfold rd_bytes. intros Hf. destruct (_ && _); [|done].
  intros [= <-]. by apply Forall_take, Forall_drop.
Qed.

Lemma rd_bytes_app_l buf buf' off n bs :
  rd_bytes buf off n = Some bs -> rd_bytes (buf ++ buf') off n = Some bs.
Proof.
  unfold rd_bytes. rewrite length_app, Nat2Z.inj_add.
  destruct (Z.leb_spec 0 off), (Z.leb_spec (off + Z.of_nat n) (Z.of_nat (length buf))); try done.
  simpl. intros [= <-]. rewrite (proj2 (Z.leb_le _ _)) by lia.
  rewrite drop_app_le by lia. rewrite take_app_le; [done|]. rewrite length_drop. lia.
Qed.

Lemma rd_bytes_app_eq l1 l2 l3 off n :
  Z.of_nat (length l1) = off -> length l2 = n -> rd_bytes (l1 ++ l2 ++ l3) off n = Some l2.
Proof.
  intros <- <-. unfold rd_bytes. rewrite !length_app.
  rewrite !(proj2 (Z.leb_le _ _)) by lia. simpl.
  rewrite Nat2Z.id, drop_app_length, take_app_length. done.
Qed.

Lemma le_combine_range bs :
  Forall is_byte bs -> 0 <= le_combine bs < 2 ^ (8 * Z.of_nat (length bs)).
Proof.
  induction 1 as [|b bs Hb _ IH]; simpl le_combine; [simpl; lia|].
  cbn [length]. rewrite Nat2Z.inj_succ, Z.mul_succ_r, Z.pow_add_r by lia.
  unfold is_byte in Hb. change (2 ^ 8) with 256. lia.
Qed.

Lemma length_le_split n v : length (le_split n v) = n.
Proof. revert v. induction n; intros v; simpl; congruence. Qed.

Lemma le_split_bytes n v : Forall is_byte (le_split n v).
Proof.
  revert v. induction n; intros v; simpl; constructor; [|auto].
  apply Z.mod_pos_bound; lia.
Qed.

Lemma le_combine_split n v : le_combine (le_split n v) = v mod 2 ^ (8 * Z.of_nat n).
Proof.
  revert v. induction n as [|n IH]; intros v.
  - simpl. by rewrite Z.mod_1_r.
  - cbn [le_split le_combine]. rewrite IH.
    rewrite Nat2Z.inj_succ, Z.mul_succ_r, (Z.add_comm (8 * _) 8), Z.pow_add_r by lia.
    change (2 ^ 8) with 256.
    rewrite Z.rem_mul_r by lia. lia.
Qed.

Lemma le_split_combine bs :
  Forall is_byte bs -> le_split (length bs) (le_combine bs) = bs.
Proof.
  induction 1 as [|b bs Hb _ IH]; simpl; [done|].
  unfold is_byte in Hb. f_equal.
  - rewrite Z.mul_comm, Z_mod_plus_full. apply Z.mod_small; lia.
  - rewrite Z.mul_comm, Z.div_add, (Z.div_small b) by lia. done.
Qed.

Lemma rd_le_app_l buf ext off n v :
  rd_le buf off n = Some v -> rd_le (buf ++ ext) off n = Some v.
Proof.
  unfold rd_le. intros (bs & Hb & [= <-])%bind_Some.
  by rewrite (rd_bytes_app_l _ _ _ _ _ Hb).
Qed.

Lemma rd_le_split hdr n v rest off :
  off = Z.of_nat (length hdr) -> 0 <= v < 2 ^ (8 * Z.of_nat n) ->
  rd_le (hdr ++ le_split n v ++ rest) off n = Some v.
Proof.
  intros -> Hv. unfold rd_le. rewrite (rd_bytes_app_eq hdr (le_split n v) rest)
    by (done || apply length_le_split).
  simpl. by rewrite le_combine_split, Z.mod_small.
Qed.

(** * Lemmas on lists *)

Lemma sorted_impl {A} (R R' : A -> A -> Prop) l :
  (forall x y, R x y -> R' x y) -> StronglySorted R l -> StronglySorted R' l.
Proof.
  intros HR. induction 1 as [|x l _ IH Hf]; constructor; [done|].
  eapply Forall_impl; [exact Hf|]. auto.
Qed.

Lemma list_filter_all {A} (P : A -> Prop) `{forall x, Decision (P x)} (l : list A) :
  (forall x, x ∈ l -> P x) -> filter P l = l.
Proof.
  induction l as [|x l IH]; intros Hp; [done|].
  rewrite filter_cons_True by (apply Hp; by left). f_equal. apply IH. intros y Hy.
  apply Hp. by right.
Qed.

Lemma list_filter_none {A} (P : A -> Prop) `{forall x, Decision (P x)} (l : list A) :
  (forall x, x ∈ l -> ~ P x) -> filter P l = [].
Proof.
  induction l as [|x l IH]; intros Hp; [done|].
  rewrite filter_cons_False by (apply Hp; by left). apply IH. intros y Hy.
  apply Hp. by right.
Qed.

(** * Automation shared by the components *)

(** Case analysis on every boolean comparison in sight. *)
Ltac bdestr :=
  repeat match goal with
  | |- context [if ?b then _ else _] => destruct b eqn:?
  | H : context [if ?b then _ else _] |- _ => destruct b eqn:?
  end.

(** Turn boolean facts into propositions that [lia] understands. *)
Ltac bprop :=
  repeat match goal with
  | H : (_ && _)%bool = true |- _ => apply andb_true_iff in H; destruct H
  | H : (_ || _)%bool = false |- _ => apply orb_false_iff in H; destruct H
  | H : negb _ = true |- _ => apply negb_true_iff in H
  | H : negb _ = false |- _ => apply negb_false_iff in H
  | H : (_ <? _) = true |- _ => apply Z.ltb_lt in H
  | H : (_ <? _) = false |- _ => apply Z.ltb_ge in H
  | H : (_ <=? _) = true |- _ => apply Z.leb_le in H
  | H : (_ <=? _) = false |- _ => apply Z.leb_gt in H
  | H : (_ =? _) = true |- _ => apply Z.eqb_eq in H
  | H : (_ =? _) = false |- _ => apply Z.eqb_neq in H
  | H : (_ >? _) = true |- _ => rewrite Z.gtb_ltb in H
  | H : (_ >? _) = false |- _ => rewrite Z.gtb_ltb in H
  | H : (_ >=? _) = true |- _ => rewrite Z.geb_leb in H
  | H : (_ >=? _) = false |- _ => rewrite Z.geb_leb in H
  end.

(** Add a fact once; fails when it is already there, so that [repeat] ends. *)
Ltac pose_new pf :=
  let T := type of pf in
  lazymatch goal with
  | _ : T |- _ => fail
  | _ => pose proof pf
  end.

Create HintDb perf.
Create Rewrite HintDb perf.
#[export] Hint Resolve u8_range u16_range u32_range u64_range : perf.
#[export] Hint Resolve le_split_bytes rd_app_l rd_bytes_app_l : perf.
#[export] Hint Rewrite length_le_split le_combine_split : perf.
