(* ===== verification/CFmt.v ===== *)
(** The part of C's formatted output that the components use: strings as byte
    lists, the conversions [%d], [%u], [%x] and [%s], and [snprintf] on a
    memory object, with its truncation rule. *)

From stdpp Require Import base option list numbers strings.
From Stdlib Require Import ZArith Lia Bool Ascii.
From S2P Require Import Prelude.

Module CFmt.

(** The bytes of a string literal, without its terminator. *)
Fixpoint bs (s : string) : list Z :=
  match s with
  | EmptyString => []
  | String a s => Z.of_N (N_of_ascii a) :: bs s
  end.

(** Digit [d] as a character; letters are lower case, as [%x] prints them. *)
Definition digit_char (d : Z) : Z := if d <? 10 then 48 + d else 87 + d.

(** Most significant digit first; [fuel] bounds the number of digits. *)
Fixpoint digits (fuel : nat) (base v : Z) (acc : list Z) : list Z :=
  match fuel with
  | O => acc
  | S fuel =>
      let acc := digit_char (v mod base) :: acc in
      if v / base =? 0 then acc else digits fuel base (v / base) acc
  end.

(** [%llx], [%x]: at most 16 hexadecimal digits in 64 bits. *)
Definition fmt_x (v : Z) : list Z := digits 16 16 v [].
(** [%llu], [%u]: at most 20 decimal digits in 64 bits. *)
Definition fmt_u (v : Z) : list Z := digits 20 10 v [].
(** [%lld], [%d]. *)
Definition fmt_d (v : Z) : list Z := if v <? 0 then 45 :: fmt_u (- v) else fmt_u v.

(** Overwrite [mem] at [pos]; undefined outside of the object. *)
Definition wr_bytes (mem : list Z) (pos : Z) (data : list Z) : option (list Z) :=
  if (0 <=? pos) && (pos + Z.of_nat (length data) <=? Z.of_nat (length mem))
  then Some (take (Z.to_nat pos) mem ++ data ++ drop (Z.to_nat pos + length data) mem)
  else None.

(** [snprintf(mem + pos, n, ...)] where the conversions give [text]: at most
    [n - 1] characters and a terminator are stored, nothing when [n] is 0, and
    the untruncated length is returned. *)
Definition snprintf (mem : list Z) (pos n : Z) (text : list Z) : option (Z * list Z) :=
  let ret := Z.of_nat (length text) in
  if n =? 0 then Some (ret, mem) else
  let* mem := wr_bytes mem pos (take (Z.to_nat (n - 1)) text ++ [0]) in
  Some (ret, mem).

Lemma digits_length fuel base v acc :
  (length (digits fuel base v acc) <= fuel + length acc)%nat.
Proof.
  revert v acc. induction fuel as [|fuel IH]; intros v acc; simpl; [lia|].
  destruct (_ =? _); simpl; [lia|]. etransitivity; [apply IH|]. simpl. lia.
Qed.

Lemma fmt_x_length v : (length (fmt_x v) <= 16)%nat.
Proof. apply (digits_length 16 16 v []). Qed.

Lemma fmt_u_length v : (length (fmt_u v) <= 20)%nat.
Proof. apply (digits_length 20 10 v []). Qed.

Lemma fmt_d_length v : (length (fmt_d v) <= 21)%nat.
Proof.
  unfold fmt_d. pose proof (fmt_u_length v). pose proof (fmt_u_length (- v)).
  destruct (_ <? _); simpl; lia.
Qed.

(** Storing a text that fits right after a prefix of length [pos]. *)
Lemma wr_bytes_app l1 l2 data pos :
  pos = Z.of_nat (length l1) -> (length data <= length l2)%nat ->
  wr_bytes (l1 ++ l2) pos data = Some (l1 ++ data ++ drop (length data) l2).
Proof.
  intros -> Hd. unfold wr_bytes. rewrite length_app.
  rewrite !(proj2 (Z.leb_le _ _)) by lia. simpl.
  rewrite Nat2Z.id, take_app_length, drop_app_ge by lia. do 4 f_equal. lia.
Qed.

Lemma snprintf_fits l1 l2 pos n text :
  pos = Z.of_nat (length l1) -> Z.of_nat (length text) < n ->
  (length text < length l2)%nat ->
  snprintf (l1 ++ l2) pos n text
  = Some (Z.of_nat (length text), l1 ++ text ++ 0 :: drop (S (length text)) l2).
Proof.
  intros Hpos Hn Hl. unfold snprintf. rewrite (proj2 (Z.eqb_neq n 0)) by lia.
  rewrite take_ge by lia.
  rewrite wr_bytes_app by (rewrite ?length_app; simpl; lia).
  simpl. rewrite length_app, Nat.add_1_r. simpl length. by rewrite <-app_assoc.
Qed.

End CFmt.
