(* ===== verification/PtPkt.v ===== *)
(** The Intel PT packet decoder,
    [src/tools/perf/util/intel-pt-decoder/intel-pt-pkt-decoder.c].

    One definition per packet parser, on a byte buffer and an
    [intel_pt_pkt] that the parser overwrites, then the dispatcher
    [intel_pt_do_get_packet], the padding loop [intel_pt_get_packet] and the
    printer [intel_pt_pkt_desc].  Reads outside of the buffer and shifts by
    at least the width of the operand are [None]. *)

From stdpp Require Import base option list numbers strings.
From Stdlib Require Import ZArith Lia Bool.
From S2P Require Import Prelude CFmt.

Module PtPkt.

Definition INTEL_PT_NEED_MORE_BYTES : Z := -1.
Definition INTEL_PT_BAD_PACKET : Z := -2.
Definition INTEL_PT_PKT_MAX_SZ : Z := 16.
Definition INTEL_PT_PKT_DESC_MAX : Z := 256.
Definition NR_FLAG : Z := BIT63.

Inductive intel_pt_pkt_type :=
  | INTEL_PT_BAD | INTEL_PT_PAD | INTEL_PT_TNT | INTEL_PT_TIP_PGD
  | INTEL_PT_TIP_PGE | INTEL_PT_TSC | INTEL_PT_TMA | INTEL_PT_MODE_EXEC
  | INTEL_PT_MODE_TSX | INTEL_PT_MTC | INTEL_PT_TIP | INTEL_PT_FUP
  | INTEL_PT_CYC | INTEL_PT_VMCS | INTEL_PT_PSB | INTEL_PT_PSBEND
  | INTEL_PT_CBR | INTEL_PT_TRACESTOP | INTEL_PT_PIP | INTEL_PT_OVF
  | INTEL_PT_MNT.

#[global] Instance intel_pt_pkt_type_eq_dec : EqDecision intel_pt_pkt_type.
Proof. solve_decision. Defined.

Record intel_pt_pkt := mkPkt {
  type : intel_pt_pkt_type;
  count : Z;
  payload : Z
}.

Definition set_type t p := mkPkt t (count p) (payload p).
Definition set_count c p := mkPkt (type p) c (payload p).
Definition set_payload v p := mkPkt (type p) (count p) v.

(** [memset(packet, 0, sizeof(struct intel_pt_pkt))] *)
Definition zero_pkt : intel_pt_pkt := mkPkt INTEL_PT_BAD 0 0.

(** [memcpy_le64(&old, buf + off, n)] on a little-endian machine: the low [n]
    bytes of the 64-bit word are replaced. *)
Definition memcpy_le64 (old : Z) (buf : list Z) (off : Z) (n : nat) : option Z :=
  let* v := rd_le buf off n in
  Some (v + 2 ^ (8 * Z.of_nat n) * (old / 2 ^ (8 * Z.of_nat n))).

(** ** Packet parsers *)

(** The loop [for (count = c; count; count--)] of the TNT parsers: shift left
    (in [wrap]) until [stop] is seen. *)
Fixpoint tnt_loop (wrap : Z -> Z) (stop : Z) (c : nat) (v : Z) : nat * Z :=
  match c with
  | O => (O, v)
  | S c' => if tst v stop then (c, v) else tnt_loop wrap stop c' (wrap (Z.shiftl v 1))
  end.

Definition intel_pt_get_long_tnt (buf : list Z) (len : Z) (packet : intel_pt_pkt)
    : option (Z * intel_pt_pkt) :=
  if len <? 8 then Some (INTEL_PT_NEED_MORE_BYTES, packet) else
  let* payload := rd_le buf 0 8 in
  let '(count, payload) := tnt_loop u64 BIT63 47 payload in
  Some (8, mkPkt INTEL_PT_TNT (Z.of_nat count) (u64 (Z.shiftl payload 1))).

Definition intel_pt_get_pip (buf : list Z) (len : Z) (packet : intel_pt_pkt)
    : option (Z * intel_pt_pkt) :=
  if len <? 8 then Some (INTEL_PT_NEED_MORE_BYTES, packet) else
  let* payload := memcpy_le64 0 buf 2 6 in
  let packet := set_payload (Z.shiftr payload 1) (set_type INTEL_PT_PIP packet) in
  let packet :=
    if tst payload 1
    then set_payload (Z.lor (PtPkt.payload packet) NR_FLAG) packet
    else packet in
  Some (8, packet).

Definition intel_pt_get_tracestop (packet : intel_pt_pkt) : option (Z * intel_pt_pkt) :=
  Some (2, set_type INTEL_PT_TRACESTOP packet).

Definition intel_pt_get_cbr (buf : list Z) (len : Z) (packet : intel_pt_pkt)
    : option (Z * intel_pt_pkt) :=
  if len <? 4 then Some (INTEL_PT_NEED_MORE_BYTES, packet) else
  let* b := rd buf 2 in
  Some (4, set_payload b (set_type INTEL_PT_CBR packet)).

Definition intel_pt_get_vmcs (buf : list Z) (len : Z) (packet : intel_pt_pkt)
    : option (Z * intel_pt_pkt) :=
  let count := Z.shiftr (52 - 5) 3 in
  if (count <? 1) || (count >? 7) then Some (INTEL_PT_BAD_PACKET, packet) else
  if len <? count + 2 then Some (INTEL_PT_NEED_MORE_BYTES, packet) else
  let packet := set_count count (set_type INTEL_PT_VMCS packet) in
  let* v := memcpy_le64 (payload packet) buf 2 (Z.to_nat count) in
  Some (count + 2, set_payload v packet).

Definition intel_pt_get_ovf (packet : intel_pt_pkt) : option (Z * intel_pt_pkt) :=
  Some (2, set_type INTEL_PT_OVF packet).

(** The loop [for (i = 2; i < 16; i += 2)]; [n] is the number of pairs left. *)
Fixpoint psb_loop (buf : list Z) (i : Z) (n : nat) : option bool :=
  match n with
  | O => Some true
  | S n =>
      let* b := rd buf i in
      if negb (b =? 2) then Some false else
      let* b' := rd buf (i + 1) in
      if negb (b' =? 0x82) then Some false else psb_loop buf (i + 2) n
  end.

Definition intel_pt_get_psb (buf : list Z) (len : Z) (packet : intel_pt_pkt)
    : option (Z * intel_pt_pkt) :=
  if len <? 16 then Some (INTEL_PT_NEED_MORE_BYTES, packet) else
  let* ok := psb_loop buf 2 7 in
  if (ok : bool) then Some (16, set_type INTEL_PT_PSB packet)
  else Some (INTEL_PT_BAD_PACKET, packet).

Definition intel_pt_get_psbend (packet : intel_pt_pkt) : option (Z * intel_pt_pkt) :=
  Some (2, set_type INTEL_PT_PSBEND packet).

Definition intel_pt_get_tma (buf : list Z) (len : Z) (packet : intel_pt_pkt)
    : option (Z * intel_pt_pkt) :=
  if len <? 7 then Some (INTEL_PT_NEED_MORE_BYTES, packet) else
  let* b2 := rd buf 2 in
  let* b3 := rd buf 3 in
  let* b5 := rd buf 5 in
  let* b6 := rd buf 6 in
  Some (7, mkPkt INTEL_PT_TMA
             (Z.lor b5 (Z.shiftl (Z.land b6 (BIT 0)) 8))
             (Z.lor b2 (Z.shiftl b3 8))).

Definition intel_pt_get_pad (packet : intel_pt_pkt) : option (Z * intel_pt_pkt) :=
  Some (1, set_type INTEL_PT_PAD packet).

Definition intel_pt_get_mnt (buf : list Z) (len : Z) (packet : intel_pt_pkt)
    : option (Z * intel_pt_pkt) :=
  if len <? 11 then Some (INTEL_PT_NEED_MORE_BYTES, packet) else
  let packet := set_type INTEL_PT_MNT packet in
  let* v := memcpy_le64 (payload packet) buf 3 8 in
  Some (11, set_payload v packet).

Definition intel_pt_get_3byte (buf : list Z) (len : Z) (packet : intel_pt_pkt)
    : option (Z * intel_pt_pkt) :=
  if len <? 3 then Some (INTEL_PT_NEED_MORE_BYTES, packet) else
  let* b := rd buf 2 in
  if b =? 0x88 then intel_pt_get_mnt buf len packet
  else Some (INTEL_PT_BAD_PACKET, packet).

Definition intel_pt_get_ext (buf : list Z) (len : Z) (packet : intel_pt_pkt)
    : option (Z * intel_pt_pkt) :=
  if len <? 2 then Some (INTEL_PT_NEED_MORE_BYTES, packet) else
  let* b := rd buf 1 in
  if b =? 0xa3 then intel_pt_get_long_tnt buf len packet else
  if b =? 0x43 then intel_pt_get_pip buf len packet else
  if b =? 0x83 then intel_pt_get_tracestop packet else
  if b =? 0x03 then intel_pt_get_cbr buf len packet else
  if b =? 0xc8 then intel_pt_get_vmcs buf len packet else
  if b =? 0xf3 then intel_pt_get_ovf packet else
  if b =? 0x82 then intel_pt_get_psb buf len packet else
  if b =? 0x23 then intel_pt_get_psbend packet else
  if b =? 0x73 then intel_pt_get_tma buf len packet else
  if b =? 0xC3 then intel_pt_get_3byte buf len packet else
  Some (INTEL_PT_BAD_PACKET, packet).

Definition intel_pt_get_short_tnt (byte : Z) (packet : intel_pt_pkt)
    : option (Z * intel_pt_pkt) :=
  let '(count, byte) := tnt_loop u32 (BIT 7) 6 byte in
  Some (1, mkPkt INTEL_PT_TNT (Z.of_nat count) (u64 (Z.shiftl byte 57))).

(** The loop [for (shift = 5; byte & 1; shift += 7)].  [offs > 9] ends it after
    at most ten rounds, so [fuel] 11 is never exhausted.  [(byte >> 1) << shift]
    is computed in the 32-bit type of [byte]: undefined when [shift >= 32]. *)
Fixpoint cyc_loop (fuel : nat) (buf : list Z) (len offs shift byte payload : Z)
    : option (Z + Z * Z) :=
  match fuel with
  | O => None
  | S fuel =>
      if tst byte 1 then
        if offs >? 9 then Some (inl INTEL_PT_BAD_PACKET) else
        if len <? offs then Some (inl INTEL_PT_NEED_MORE_BYTES) else
        let* byte := rd buf offs in
        ub_unless (shift <? 32)
          (cyc_loop fuel buf len (offs + 1) (shift + 7) byte
             (Z.lor payload (u32 (Z.shiftl (Z.shiftr byte 1) shift))))
      else Some (inr (offs, payload))
  end.

Definition intel_pt_get_cyc (byte : Z) (buf : list Z) (len : Z) (packet : intel_pt_pkt)
    : option (Z * intel_pt_pkt) :=
  let payload := Z.shiftr byte 3 in
  let byte := Z.shiftr byte 2 in
  let len := len - 1 in
  let* r := cyc_loop 11 buf len 1 5 byte payload in
  match r with
  | inl err => Some (err, packet)
  | inr (offs, payload) => Some (offs, set_payload payload (set_type INTEL_PT_CYC packet))
  end.

Definition intel_pt_get_ip (type : intel_pt_pkt_type) (byte : Z) (buf : list Z) (len : Z)
    (packet : intel_pt_pkt) : option (Z * intel_pt_pkt) :=
  let packet := set_count (Z.shiftr byte 5) packet in
  let c := count packet in
  if c =? 0 then Some (1, set_type type packet) else
  if c =? 1 then
    if len <? 3 then Some (INTEL_PT_NEED_MORE_BYTES, packet) else
    let* v := rd_le buf 1 2 in
    Some (3, set_type type (set_payload v packet))
  else if c =? 2 then
    if len <? 5 then Some (INTEL_PT_NEED_MORE_BYTES, packet) else
    let* v := rd_le buf 1 4 in
    Some (5, set_type type (set_payload v packet))
  else if (c =? 3) || (c =? 4) then
    if len <? 7 then Some (INTEL_PT_NEED_MORE_BYTES, packet) else
    let* v := memcpy_le64 (payload packet) buf 1 6 in
    Some (7, set_type type (set_payload v packet))
  else if c =? 6 then
    if len <? 9 then Some (INTEL_PT_NEED_MORE_BYTES, packet) else
    let* v := rd_le buf 1 8 in
    Some (9, set_type type (set_payload v packet))
  else Some (INTEL_PT_BAD_PACKET, packet).

Definition intel_pt_get_mode (buf : list Z) (len : Z) (packet : intel_pt_pkt)
    : option (Z * intel_pt_pkt) :=
  if len <? 2 then Some (INTEL_PT_NEED_MORE_BYTES, packet) else
  let* b := rd buf 1 in
  let leaf := Z.shiftr b 5 in
  if leaf =? 0 then
    let packet := set_type INTEL_PT_MODE_EXEC packet in
    let m := Z.land b 3 in
    if m =? 0 then Some (2, set_payload 16 packet) else
    if m =? 1 then Some (2, set_payload 64 packet) else
    if m =? 2 then Some (2, set_payload 32 packet) else
    Some (INTEL_PT_BAD_PACKET, packet)
  else if leaf =? 1 then
    let packet := set_type INTEL_PT_MODE_TSX packet in
    if Z.land b 3 =? 3 then Some (INTEL_PT_BAD_PACKET, packet)
    else Some (2, set_payload (Z.land b 3) packet)
  else Some (INTEL_PT_BAD_PACKET, packet).

Definition intel_pt_get_tsc (buf : list Z) (len : Z) (packet : intel_pt_pkt)
    : option (Z * intel_pt_pkt) :=
  if len <? 8 then Some (INTEL_PT_NEED_MORE_BYTES, packet) else
  let packet := set_type INTEL_PT_TSC packet in
  let* v := memcpy_le64 (payload packet) buf 1 7 in
  Some (8, set_payload v packet).

Definition intel_pt_get_mtc (buf : list Z) (len : Z) (packet : intel_pt_pkt)
    : option (Z * intel_pt_pkt) :=
  if len <? 2 then Some (INTEL_PT_NEED_MORE_BYTES, packet) else
  let* b := rd buf 1 in
  Some (2, set_payload b (set_type INTEL_PT_MTC packet)).

(** ** The dispatcher and the padding loop *)

(** The caller's packet is overwritten by the [memset]. *)
Definition intel_pt_do_get_packet (buf : list Z) (len : Z) : option (Z * intel_pt_pkt) :=
  let packet := zero_pkt in
  if len =? 0 then Some (INTEL_PT_NEED_MORE_BYTES, packet) else
  let* byte := rd buf 0 in
  if negb (tst byte (BIT 0)) then
    if byte =? 0 then intel_pt_get_pad packet else
    if byte =? 2 then intel_pt_get_ext buf len packet else
    intel_pt_get_short_tnt byte packet
  else if tst byte 2 then intel_pt_get_cyc byte buf len packet else
  let low := Z.land byte 0x1f in
  if low =? 0x0D then intel_pt_get_ip INTEL_PT_TIP byte buf len packet else
  if low =? 0x11 then intel_pt_get_ip INTEL_PT_TIP_PGE byte buf len packet else
  if low =? 0x01 then intel_pt_get_ip INTEL_PT_TIP_PGD byte buf len packet else
  if low =? 0x1D then intel_pt_get_ip INTEL_PT_FUP byte buf len packet else
  if low =? 0x19 then
    if byte =? 0x99 then intel_pt_get_mode buf len packet else
    if byte =? 0x19 then intel_pt_get_tsc buf len packet else
    if byte =? 0x59 then intel_pt_get_mtc buf len packet else
    Some (INTEL_PT_BAD_PACKET, packet)
  else Some (INTEL_PT_BAD_PACKET, packet).

(** [while (ret < 8 && len > (size_t)ret && !buf[ret]) ret += 1;]  At most
    seven rounds, as [ret] is positive. *)
Fixpoint pad_loop (fuel : nat) (buf : list Z) (len ret : Z) : option Z :=
  match fuel with
  | O => Some ret
  | S fuel =>
      if (ret <? 8) && (len >? ret) then
        let* b := rd buf ret in
        if b =? 0 then pad_loop fuel buf len (ret + 1) else Some ret
      else Some ret
  end.

Definition intel_pt_get_packet (buf : list Z) (len : Z) : option (Z * intel_pt_pkt) :=
  let* (ret, packet) := intel_pt_do_get_packet buf len in
  if ret >? 0 then
    let* ret := pad_loop 8 buf len ret in
    Some (ret, packet)
  else Some (ret, packet).

(** ** The packet printer *)

(** [packet_name[]] *)
Definition intel_pt_pkt_name (t : intel_pt_pkt_type) : list Z :=
  CFmt.bs match t with
  | INTEL_PT_BAD => "Bad Packet!"
  | INTEL_PT_PAD => "PAD"
  | INTEL_PT_TNT => "TNT"
  | INTEL_PT_TIP_PGD => "TIP.PGD"
  | INTEL_PT_TIP_PGE => "TIP.PGE"
  | INTEL_PT_TSC => "TSC"
  | INTEL_PT_TMA => "TMA"
  | INTEL_PT_MODE_EXEC => "MODE.Exec"
  | INTEL_PT_MODE_TSX => "MODE.TSX"
  | INTEL_PT_MTC => "MTC"
  | INTEL_PT_TIP => "TIP"
  | INTEL_PT_FUP => "FUP"
  | INTEL_PT_CYC => "CYC"
  | INTEL_PT_VMCS => "VMCS"
  | INTEL_PT_PSB => "PSB"
  | INTEL_PT_PSBEND => "PSBEND"
  | INTEL_PT_CBR => "CBR"
  | INTEL_PT_TRACESTOP => "TraceSTOP"
  | INTEL_PT_PIP => "PIP"
  | INTEL_PT_OVF => "OVF"
  | INTEL_PT_MNT => "MNT"
  end.

(** The loop over the TNT bits: one [snprintf] per bit; [blen] is a [size_t],
    so [blen -= ret] wraps. *)
Fixpoint desc_tnt_loop (n : nat) (mem : list Z) (pos blen payload : Z)
    : option (list Z * Z * Z) :=
  match n with
  | O => Some (mem, pos, blen)
  | S n =>
      let text := CFmt.bs (if tst payload BIT63 then "T" else "N") in
      let* (ret, mem) := CFmt.snprintf mem pos blen text in
      desc_tnt_loop n mem (pos + ret) (u64 (blen - ret)) (u64 (Z.shiftl payload 1))
  end.

(** Returns the [int] result and the contents of [buf]. *)
Definition intel_pt_pkt_desc (packet : intel_pt_pkt) (buf : list Z) (buf_len : Z)
    : option (Z * list Z) :=
  let payload := payload packet in
  let name := intel_pt_pkt_name (type packet) in
  let name_hex := CFmt.snprintf buf 0 buf_len (name ++ CFmt.bs " 0x" ++ CFmt.fmt_x payload) in
  match type packet with
  | INTEL_PT_BAD | INTEL_PT_PAD | INTEL_PT_PSB | INTEL_PT_PSBEND
  | INTEL_PT_TRACESTOP | INTEL_PT_OVF => CFmt.snprintf buf 0 buf_len name
  | INTEL_PT_TNT =>
      let* (ret, buf) := CFmt.snprintf buf 0 buf_len (name ++ CFmt.bs " ") in
      let* (buf, pos, blen) :=
        desc_tnt_loop (Z.to_nat (count packet)) buf ret (u64 (buf_len - ret)) payload in
      let* (ret, buf) :=
        CFmt.snprintf buf pos blen (CFmt.bs " (" ++ CFmt.fmt_d (count packet) ++ CFmt.bs ")") in
      Some (s32 (buf_len - u64 (blen - ret)), buf)
  | INTEL_PT_TIP_PGD | INTEL_PT_TIP_PGE | INTEL_PT_TIP | INTEL_PT_FUP =>
      if count packet =? 0
      then CFmt.snprintf buf 0 buf_len (name ++ CFmt.bs " no ip")
      else name_hex
  | INTEL_PT_CYC | INTEL_PT_VMCS | INTEL_PT_MTC | INTEL_PT_MNT
  | INTEL_PT_CBR | INTEL_PT_TSC => name_hex
  | INTEL_PT_TMA =>
      CFmt.snprintf buf 0 buf_len
        (name ++ CFmt.bs " CTC 0x" ++ CFmt.fmt_x (u32 payload)
           ++ CFmt.bs " FC 0x" ++ CFmt.fmt_x (u32 (count packet)))
  | INTEL_PT_MODE_EXEC =>
      CFmt.snprintf buf 0 buf_len (name ++ CFmt.bs " " ++ CFmt.fmt_d (s64 payload))
  | INTEL_PT_MODE_TSX =>
      CFmt.snprintf buf 0 buf_len
        (name ++ CFmt.bs " TXAbort:" ++ CFmt.fmt_u (Z.land (u32 (Z.shiftr payload 1)) 1)
           ++ CFmt.bs " InTX:" ++ CFmt.fmt_u (Z.land (u32 payload) 1))
  | INTEL_PT_PIP =>
      let nr := if tst payload NR_FLAG then 1 else 0 in
      let payload := Z.ldiff payload NR_FLAG in
      CFmt.snprintf buf 0 buf_len
        (name ++ CFmt.bs " 0x" ++ CFmt.fmt_x payload ++ CFmt.bs " (NR="
           ++ CFmt.fmt_d nr ++ CFmt.bs ")")
  end.

(** * Theorems *)

(** What a parsed packet may hold: a 64-bit payload, and a count that fits the
    packet's type; a TNT packet holds at most 47 branches. *)
Definition pkt_wf (p : intel_pt_pkt) : Prop :=
  0 <= payload p < 2 ^ 64 /\ 0 <= count p < 512 /\ (type p = INTEL_PT_TNT -> count p <= 47).

(** A parser's result on [len] bytes: an error code, where more bytes are only
    asked for below the maximal packet size, or the size of a well-formed
    packet that lies inside of the buffer. *)
Definition res_ok (len : Z) (r : Z * intel_pt_pkt) : Prop :=
  (r.1 = INTEL_PT_NEED_MORE_BYTES /\ len < INTEL_PT_PKT_MAX_SZ) \/ r.1 = INTEL_PT_BAD_PACKET
  \/ (1 <= r.1 <= len /\ r.1 <= INTEL_PT_PKT_MAX_SZ /\ pkt_wf r.2).

Definition defined_ok (len : Z) (r : option (Z * intel_pt_pkt)) : Prop :=
  exists x, r = Some x /\ res_ok len x.

(** Five continuation bits in a row: the header of the CYC packet and its
    first four extension bytes ask for one more, and the buffer has it. *)
Definition overlong_cyc (buf : list Z) : bool :=
  match buf with
  | b0 :: b1 :: b2 :: b3 :: b4 :: _ :: _ =>
      (Z.land b0 3 =? 3) && tst b0 4 && tst b1 1 && tst b2 1 && tst b3 1 && tst b4 1
  | _ => false
  end.

(** ** Safety of the parsers *)

Section Safety.
Context (buf : list Z) (Hbuf : Forall is_byte buf).
#[local] Abbreviation len := (Z.of_nat (length buf)).

Lemma memcpy_le64_0 off n :
  0 <= off -> off + Z.of_nat n <= len -> Z.of_nat n <= 8 ->
  exists v, memcpy_le64 0 buf off n = Some v /\ 0 <= v < 2 ^ (8 * Z.of_nat n).
Proof using Hbuf.
  intros H1 H2 H3. unfold memcpy_le64, rd_le.
  destruct (rd_bytes_in_range buf off n H1 H2) as (bs & E & Hl). rewrite E. simpl.
  eexists. split; [done|].
  pose proof (le_combine_range bs (rd_bytes_byte _ _ _ _ Hbuf E)) as Hr.
  rewrite Hl in Hr. rewrite Z.div_0_l; [lia|]. apply Z.pow_nonzero; lia.
Qed.

Lemma rd_le_ok off n :
  0 <= off -> off + Z.of_nat n <= len ->
  exists v, rd_le buf off n = Some v /\ 0 <= v < 2 ^ (8 * Z.of_nat n).
Proof using Hbuf.
  intros H1 H2. unfold rd_le.
  destruct (rd_bytes_in_range buf off n H1 H2) as (bs & E & Hl). rewrite E. simpl.
  eexists. split; [done|].
  pose proof (le_combine_range bs (rd_bytes_byte _ _ _ _ Hbuf E)) as Hr.
  by rewrite Hl in Hr.
Qed.

Lemma rd_ok i : 0 <= i < len -> exists b, rd buf i = Some b /\ 0 <= b < 256.
Proof using Hbuf.
  intros Hi. destruct (rd_in_range buf i Hi) as [b E]. exists b.
  split; [done|]. exact (rd_byte _ _ _ Hbuf E).
Qed.

End Safety.

Lemma tnt_loop_count wrap stop c v : (fst (tnt_loop wrap stop c v) <= c)%nat.
Proof.
  revert v. induction c as [|c IH]; intros v; simpl; [done|].
  destruct (tst v stop); simpl; [done|]. specialize (IH (wrap (Z.shiftl v 1))). lia.
Qed.

(** Run a parser symbolically: destruct its tests, then perform each load,
    which the test before it keeps inside of the buffer. *)
Ltac load Hbuf :=
  match goal with
  | |- context [rd ?b ?i] =>
      let v := fresh "b" in let E := fresh "E" in let H := fresh "Hb" in
      destruct (rd_ok b Hbuf i) as (v & E & H); [lia|rewrite E; clear E]
  | |- context [rd_le ?b ?i ?n] =>
      let v := fresh "v" in let E := fresh "E" in let H := fresh "Hv" in
      destruct (rd_le_ok b Hbuf i n) as (v & E & H); [lia..|rewrite E; clear E]
  | |- context [memcpy_le64 ?o ?b ?i ?n] =>
      let v := fresh "v" in let E := fresh "E" in let H := fresh "Hv" in
      change (memcpy_le64 o b i n) with (memcpy_le64 0 b i n);
      destruct (memcpy_le64_0 b Hbuf i n) as (v & E & H); [lia..|rewrite E; clear E]
  end.

Ltac pkt_fin :=
  solve [ left; split; [reflexivity|unfold INTEL_PT_PKT_MAX_SZ; lia] | right; left; reflexivity
        | right; right; unfold pkt_wf, INTEL_PT_PKT_MAX_SZ;
          cbn [fst snd type count payload set_type set_count set_payload zero_pkt];
          repeat split; intros; try discriminate; try lia; auto using Z.lt_le_incl with lia ].

Ltac pkt_step Hbuf :=
  repeat first
    [ match goal with
      | |- defined_ok _ (Some _) => eexists; split; [reflexivity|]
      | |- context [if ?b then _ else _] => destruct b eqn:?; bprop
      end
    | load Hbuf; cbn [mbind option_bind] ].

Section Parsers.
Context (buf : list Z) (Hbuf : Forall is_byte buf).
#[local] Abbreviation len := (Z.of_nat (length buf)).

Lemma get_long_tnt_ok : defined_ok len (intel_pt_get_long_tnt buf len zero_pkt).
Proof using Hbuf.
  unfold intel_pt_get_long_tnt. pkt_step Hbuf; [pkt_fin|].
  pose proof (tnt_loop_count u64 BIT63 47 v) as Hc.
  destruct (tnt_loop _ _ _ _) as [c w]. simpl in Hc.
  eexists; split; [reflexivity|]. pose proof (u64_range (Z.shiftl w 1)). pkt_fin.
Qed.

Lemma get_pip_ok : defined_ok len (intel_pt_get_pip buf len zero_pkt).
Proof using Hbuf.
  unfold intel_pt_get_pip. pkt_step Hbuf; [pkt_fin|..];
    pose proof (shiftr_bounded v 1 ltac:(lia) ltac:(lia));
    change (8 * Z.of_nat 6) with 48 in *.
  - assert (0 <= Z.lor (Z.shiftr v 1) NR_FLAG < 2 ^ 64)
      by (apply lor_bounded; unfold NR_FLAG, BIT63; lia).
    pkt_fin.
  - pkt_fin.
Qed.

Lemma get_cbr_ok : defined_ok len (intel_pt_get_cbr buf len zero_pkt).
Proof using Hbuf. unfold intel_pt_get_cbr. pkt_step Hbuf; pkt_fin. Qed.

Lemma get_vmcs_ok : defined_ok len (intel_pt_get_vmcs buf len zero_pkt).
Proof using Hbuf.
  unfold intel_pt_get_vmcs. change (Z.shiftr (52 - 5) 3) with 5. change (Z.to_nat 5) with 5%nat.
  change ((5 <? 1) || (5 >? 7)) with false. cbn iota.
  pkt_step Hbuf; pkt_fin.
Qed.

Lemma psb_loop_ok i n :
  0 <= i -> i + 2 * Z.of_nat n <= len -> exists b, psb_loop buf i n = Some b.
Proof using Hbuf.
  revert i. induction n as [|n IH]; intros i Hi Hn; simpl; [by eexists|].
  do 2 (load Hbuf); cbn [mbind option_bind].
  do 2 (destruct (negb _); [by eexists|]). apply IH; lia.
Qed.

Lemma get_psb_ok : defined_ok len (intel_pt_get_psb buf len zero_pkt).
Proof using Hbuf.
  unfold intel_pt_get_psb. destruct (len <? 16) eqn:?; bprop;
    [eexists; split; [reflexivity|pkt_fin]|].
  destruct (psb_loop_ok 2 7) as [b E]; [lia..|]. rewrite E. simpl.
  pkt_step Hbuf; pkt_fin.
Qed.

Lemma get_tma_ok : defined_ok len (intel_pt_get_tma buf len zero_pkt).
Proof using Hbuf.
  unfold intel_pt_get_tma. destruct (len <? 7) eqn:?; bprop;
    [eexists; split; [reflexivity|pkt_fin]|].
  destruct (rd_ok buf Hbuf 2) as (b2 & -> & ?); [lia|].
  destruct (rd_ok buf Hbuf 3) as (b3 & -> & ?); [lia|].
  destruct (rd_ok buf Hbuf 5) as (b5 & -> & ?); [lia|].
  destruct (rd_ok buf Hbuf 6) as (b6 & -> & ?); [lia|].
  cbn [mbind option_bind]. eexists; split; [reflexivity|].
  assert (0 <= Z.lor b2 (Z.shiftl b3 8) < 2 ^ 16)
    by (apply lor_bounded; rewrite ?Z.shiftl_mul_pow2; lia).
  assert (0 <= Z.lor b5 (Z.shiftl (Z.land b6 (BIT 0)) 8) < 2 ^ 9).
  { pose proof (land_bounded_r b6 (BIT 0) ltac:(done)). change (BIT 0) with 1 in *.
    apply lor_bounded; rewrite ?Z.shiftl_mul_pow2; lia. }
  pkt_fin.
Qed.

Lemma get_3byte_ok : defined_ok len (intel_pt_get_3byte buf len zero_pkt).
Proof using Hbuf. unfold intel_pt_get_3byte, intel_pt_get_mnt. pkt_step Hbuf; pkt_fin. Qed.

Lemma get_ip_ok t byte :
  t <> INTEL_PT_TNT -> 0 <= byte < 256 -> 1 <= len ->
  defined_ok len (intel_pt_get_ip t byte buf len zero_pkt).
Proof using Hbuf.
  intros Ht Hb Hl. unfold intel_pt_get_ip.
  pose proof (shiftr_bounded byte 5 ltac:(lia) ltac:(lia)).
  cbn [count set_count]. pkt_step Hbuf; pkt_fin.
Qed.

Lemma get_mode_ok : defined_ok len (intel_pt_get_mode buf len zero_pkt).
Proof using Hbuf.
  unfold intel_pt_get_mode. pkt_step Hbuf; try pkt_fin.
  pose proof (land_bounded_r b 3 ltac:(done)). pkt_fin.
Qed.

Lemma get_tsc_ok : defined_ok len (intel_pt_get_tsc buf len zero_pkt).
Proof using Hbuf. unfold intel_pt_get_tsc. pkt_step Hbuf; pkt_fin. Qed.

Lemma get_mtc_ok : defined_ok len (intel_pt_get_mtc buf len zero_pkt).
Proof using Hbuf. unfold intel_pt_get_mtc. pkt_step Hbuf; pkt_fin. Qed.

Lemma get_ext_ok : defined_ok len (intel_pt_get_ext buf len zero_pkt).
Proof using Hbuf.
  unfold intel_pt_get_ext. destruct (len <? 2) eqn:?; bprop;
    [eexists; split; [reflexivity|pkt_fin]|].
  load Hbuf. cbn [mbind option_bind].
  repeat (destruct (_ =? _);
    [solve [ auto using get_long_tnt_ok, get_pip_ok, get_cbr_ok, get_vmcs_ok, get_psb_ok,
               get_tma_ok, get_3byte_ok
           | eexists; split; [reflexivity|pkt_fin] ]|]).
  eexists; split; [reflexivity|pkt_fin].
Qed.

Lemma get_short_tnt_ok byte :
  1 <= len -> defined_ok len (intel_pt_get_short_tnt byte zero_pkt).
Proof using Hbuf.
  intros Hl. unfold intel_pt_get_short_tnt.
  pose proof (tnt_loop_count u32 (BIT 7) 6 byte) as Hc.
  destruct (tnt_loop _ _ _ _) as [c w]. simpl in Hc.
  eexists; split; [reflexivity|]. pose proof (u64_range (Z.shiftl w 57)). pkt_fin.
Qed.

End Parsers.

(** ** The CYC packet *)

(** One more extension byte. *)
Lemma cyc_loop_next fuel buf len offs shift byte b pl :
  tst byte 1 = true -> offs <= 9 -> offs <= len -> rd buf offs = Some b ->
  cyc_loop (S fuel) buf len offs shift byte pl
  = ub_unless (shift <? 32)
      (cyc_loop fuel buf len (offs + 1) (shift + 7) b
         (Z.lor pl (u32 (Z.shiftl (Z.shiftr b 1) shift)))).
Proof.
  intros Hb Ho Hl Hr. simpl. rewrite Hb, Z.gtb_ltb.
  rewrite (proj2 (Z.ltb_ge 9 offs)), (proj2 (Z.ltb_ge len offs)) by done.
  by rewrite Hr.
Qed.

Lemma cyc_loop_short fuel buf len offs shift byte pl :
  tst byte 1 = true -> offs <= 9 -> len < offs ->
  cyc_loop (S fuel) buf len offs shift byte pl = Some (inl INTEL_PT_NEED_MORE_BYTES).
Proof.
  intros Hb Ho Hl. simpl. rewrite Hb, Z.gtb_ltb.
  by rewrite (proj2 (Z.ltb_ge 9 offs)), (proj2 (Z.ltb_lt len offs)) by done.
Qed.

Lemma cyc_loop_done fuel buf len offs shift byte pl :
  tst byte 1 = false -> cyc_loop (S fuel) buf len offs shift byte pl = Some (inr (offs, pl)).
Proof. intros Hb. simpl. by rewrite Hb. Qed.

(** The loop ends at a clear continuation bit, at the end of the buffer, or
    in the undefined shift of the fifth extension byte. *)
Lemma cyc_loop_cases buf k byte pl :
  Forall is_byte buf -> (k <= 5)%nat -> 1 <= Z.of_nat (length buf) ->
  Z.of_nat k <= Z.of_nat (length buf) ->
  1 <= Z.of_nat k -> 0 <= pl < 2 ^ 32 ->
  let len := Z.of_nat (length buf) - 1 in
  (exists err, cyc_loop (12 - k) buf len (Z.of_nat k) (7 * Z.of_nat k - 2) byte pl = Some (inl err)
     /\ err = INTEL_PT_NEED_MORE_BYTES /\ len < 5)
  \/ (exists o p, cyc_loop (12 - k) buf len (Z.of_nat k) (7 * Z.of_nat k - 2) byte pl
        = Some (inr (o, p)) /\ Z.of_nat k <= o <= len + 1 /\ o <= 5 /\ 0 <= p < 2 ^ 32)
  \/ (cyc_loop (12 - k) buf len (Z.of_nat k) (7 * Z.of_nat k - 2) byte pl = None
        /\ tst byte 1 = true /\ 6 <= Z.of_nat (length buf)
        /\ forall i, Z.of_nat k <= i < 5 -> exists b, rd buf i = Some b /\ tst b 1 = true).
Proof.
  intros Hf Hk5 Hl1 Hkl Hk1 Hpl len.
  remember (5 - k)%nat as m eqn:Hm. revert k byte pl Hk5 Hkl Hk1 Hpl Hm.
  induction m as [|m IH]; intros k byte pl Hk5 Hkl Hk1 Hpl Hm.
  - assert (k = 5%nat) as -> by lia. change (12 - 5)%nat with 7%nat.
    destruct (tst byte 1) eqn:Hb.
    + destruct (Z.le_gt_cases (Z.of_nat 5) len) as [Hle|Hgt].
      * destruct (rd_ok buf Hf (Z.of_nat 5)) as (b & E & Hbb); [lia|].
        right; right. rewrite (cyc_loop_next _ _ _ _ _ _ b) by (done || lia).
        repeat split; [lia|]. intros; lia.
      * left. eexists. split; [|split; [done|lia]]. by apply cyc_loop_short.
    + right; left. exists (Z.of_nat 5), pl. split; [|lia]. by apply cyc_loop_done.
  - replace (12 - k)%nat with (S (12 - S k)) by lia.
    destruct (tst byte 1) eqn:Hb.
    + destruct (Z.le_gt_cases (Z.of_nat k) len) as [Hle|Hgt].
      * destruct (rd_ok buf Hf (Z.of_nat k)) as (b & E & Hbb); [lia|].
        rewrite (cyc_loop_next _ _ _ _ _ _ b) by (done || lia).
        unfold ub_unless. rewrite (proj2 (Z.ltb_lt _ 32)) by lia.
        replace (Z.of_nat k + 1) with (Z.of_nat (S k)) by lia.
        replace (7 * Z.of_nat k - 2 + 7) with (7 * Z.of_nat (S k) - 2) by lia.
        pose proof (u32_range (Z.shiftl (Z.shiftr b 1) (7 * Z.of_nat k - 2))) as Hu.
        pose proof (lor_bounded 32 _ _ ltac:(lia) Hpl Hu) as Hp'.
        destruct (IH (S k) b _ ltac:(lia) ltac:(lia) ltac:(lia) Hp' ltac:(lia))
          as [?|[(o & p & -> & ? & ? & ?)|(-> & ? & ? & Hall)]]; [by left| |].
        { right; left. exists o, p. repeat split; (done || lia). }
        right; right. repeat split; [lia|]. intros i Hi.
        destruct (Z.eq_dec i (Z.of_nat k)) as [->|]; [by exists b|apply Hall; lia].
      * left. eexists. split; [|split; [done|lia]]. apply cyc_loop_short; (done || lia).
    + right; left. exists (Z.of_nat k), pl. split; [|lia]. by apply cyc_loop_done.
Qed.

Lemma overlong_cyc_spec b0 r :
  tst (Z.shiftr b0 2) 1 = true -> Z.land b0 3 = 3 -> 6 <= Z.of_nat (length (b0 :: r)) ->
  (forall i, 1 <= i < 5 -> exists b, rd (b0 :: r) i = Some b /\ tst b 1 = true) ->
  overlong_cyc (b0 :: r) = true.
Proof.
  intros H0 H3 Hl H. do 5 (destruct r as [|? r]; [simpl in Hl; lia|]).
  pose proof (H 1 ltac:(lia)) as (? & [= <-] & H1).
  pose proof (H 2 ltac:(lia)) as (? & [= <-] & H2).
  pose proof (H 3 ltac:(lia)) as (? & [= <-] & H3').
  pose proof (H 4 ltac:(lia)) as (? & [= <-] & H4).
  assert (tst b0 4 = true) as H0'.
  { rewrite tst_1_odd, <-Z.bit0_odd, Z.shiftr_spec in H0 by lia.
    change 4 with (2 ^ 2). by rewrite tst_pow2. }
  simpl. by rewrite H3, H0', H1, H2, H3', H4.
Qed.

Lemma get_cyc_cases b0 r :
  Forall is_byte (b0 :: r) -> Z.land b0 3 = 3 ->
  let len := Z.of_nat (length (b0 :: r)) in
  defined_ok len (intel_pt_get_cyc b0 (b0 :: r) len zero_pkt)
  \/ (intel_pt_get_cyc b0 (b0 :: r) len zero_pkt = None /\ overlong_cyc (b0 :: r) = true).
Proof.
  intros Hf H3 len. unfold intel_pt_get_cyc.
  pose proof (Forall_inv Hf) as Hb0. unfold is_byte in Hb0.
  pose proof (shiftr_bounded b0 3 ltac:(lia) ltac:(lia)) as Hp.
  destruct (cyc_loop_cases (b0 :: r) 1 (Z.shiftr b0 2) (Z.shiftr b0 3))
    as [(? & E & -> & ?)|[(o & p & E & ? & ? & ?)|(E & ? & ? & H)]]; try done; try (simpl length; lia);
    change (12 - 1)%nat with 11%nat in E; change (Z.of_nat 1) with 1 in *;
    change (7 * 1 - 2) with 5 in E; fold len in E; rewrite E.
  - left. eexists; split; [reflexivity|]. subst len. pkt_fin.
  - left. eexists; split; [reflexivity|]. subst len. pkt_fin.
  - right. split; [done|]. apply overlong_cyc_spec; done.
Qed.

(** The undefined shift is reached exactly on those buffers. *)
Lemma get_cyc_overlong buf :
  overlong_cyc buf = true -> exists b0 r, buf = b0 :: r /\ Z.land b0 3 = 3 /\
    intel_pt_get_cyc b0 buf (Z.of_nat (length buf)) zero_pkt = None.
Proof.
  unfold overlong_cyc. intros H.
  do 6 (destruct buf as [|? buf]; [done|]). bprop.
  eexists _, _. split; [done|]. split; [done|]. unfold intel_pt_get_cyc.
  assert (tst (Z.shiftr z 2) 1 = true) as Hc0.
  { rewrite tst_1_odd, <-Z.bit0_odd, Z.shiftr_spec by lia.
    change (0 + 2) with 2. rewrite <-tst_pow2 by lia. done. }
  repeat (erewrite cyc_loop_next by (done || (simpl length; lia)); cbn [ub_unless Z.ltb]).
  done.
Qed.

(** ** The dispatcher *)

(** Bits 0 and 1 of a CYC header. *)
Lemma cyc_header b : tst b (BIT 0) = true -> tst b 2 = true -> Z.land b 3 = 3.
Proof.
  change (BIT 0) with (2 ^ 0). change 2 with (2 ^ 1). rewrite !tst_pow2 by lia.
  intros H0 H1. apply Z.bits_inj'. intros k Hk. rewrite Z.land_spec.
  destruct (Z.eq_dec k 0) as [->|]; [by rewrite H0|].
  destruct (Z.eq_dec k 1) as [->|]; [by rewrite H1|].
  change 3 with (Z.ones 2). rewrite Z.ones_spec_high by lia. apply andb_false_r.
Qed.

Lemma do_get_packet_cases buf :
  Forall is_byte buf ->
  let len := Z.of_nat (length buf) in
  defined_ok len (intel_pt_do_get_packet buf len)
  \/ (intel_pt_do_get_packet buf len = None /\ overlong_cyc buf = true).
Proof.
  intros Hf len. unfold intel_pt_do_get_packet.
  destruct buf as [|b0 r]; [left; eexists; split; [reflexivity|by left]|].
  destruct (Z.eqb_spec len 0) as [E|Hlen]; [subst len; simpl in E; lia|].
  assert (1 <= len) by (subst len; simpl length; lia).
  pose proof (Forall_inv Hf) as Hb0. unfold is_byte in Hb0.
  change (rd (b0 :: r) 0) with (Some b0). cbn [mbind option_bind].
  assert (forall t, t <> INTEL_PT_TNT ->
            defined_ok len (intel_pt_get_ip t b0 (b0 :: r) len zero_pkt))
    by (intros; by apply get_ip_ok).
  destruct (tst b0 (BIT 0)) eqn:Hbit0; cbn [negb]; [destruct (tst b0 2) eqn:Hbit1|].
  - apply get_cyc_cases; [done|]. by apply cyc_header.
  - left. bdestr;
      solve [ auto | by apply get_mode_ok | by apply get_tsc_ok | by apply get_mtc_ok
            | eexists; split; [reflexivity|pkt_fin] ].
  - left. bdestr;
      solve [ by apply get_ext_ok | by apply get_short_tnt_ok
            | eexists; split; [reflexivity|pkt_fin] ].
Qed.

Lemma pad_loop_ok fuel buf ret :
  Forall is_byte buf -> let len := Z.of_nat (length buf) in
  1 <= ret <= len -> ret <= 16 ->
  exists ret', pad_loop fuel buf len ret = Some ret' /\ ret <= ret' <= len /\ ret' <= 16.
Proof.
  intros Hf len. revert ret. induction fuel as [|fuel IH]; intros ret Hr H16; simpl.
  { exists ret. repeat split; lia. }
  destruct ((ret <? 8) && (len >? ret)) eqn:Hc; bprop; [|exists ret; repeat split; lia].
  destruct (rd_ok buf Hf ret) as (b & -> & Hb); [lia|]. simpl.
  destruct (b =? 0); [|exists ret; repeat split; lia].
  destruct (IH (ret + 1)) as (r' & E & ? & ?); [lia..|].
  exists r'. repeat split; (done || lia).
Qed.

(** Decoding is defined except on an overlong CYC packet. *)
Lemma get_packet_ok buf : Forall is_byte buf -> overlong_cyc buf = false ->
  defined_ok (Z.of_nat (length buf)) (intel_pt_get_packet buf (Z.of_nat (length buf))).
Proof.
  intros Hf Ho. unfold intel_pt_get_packet. set (len := Z.of_nat (length buf)).
  destruct (do_get_packet_cases buf Hf) as [([ret p] & E & Hok)|[E Ho']]; [|congruence].
  fold len in E. rewrite E. cbn [mbind option_bind].
  destruct (Z.gtb_spec ret 0) as [Hp|]; [|eexists; split; [reflexivity|done]].
  unfold res_ok, INTEL_PT_NEED_MORE_BYTES, INTEL_PT_BAD_PACKET, INTEL_PT_PKT_MAX_SZ in *.
  simpl in Hok. destruct Hok as [|[|(H1 & H2 & H3)]]; [lia..|].
  destruct (pad_loop_ok 8 buf ret Hf) as (r' & E' & ? & ?); [done..|].
  fold len in E'. rewrite E'. eexists; split; [reflexivity|].
  right; right. unfold INTEL_PT_PKT_MAX_SZ. simpl. repeat split; try lia; apply H3.
Qed.

(** C7: Intel PT packet decoding is memory safe: on every byte buffer,
    [intel_pt_get_packet] either returns BAD_PACKET, or NEED_MORE_BYTES (and
    that only with less than the maximal packet size, 16 bytes, available),
    or a size between 1 and 16 that stays inside of the buffer together with
    a well-formed packet; the only undefined behaviour is the oversized shift
    of a CYC packet with five or more extension bytes, and it is reached on
    exactly those buffers. *)
Theorem get_packet_safe (buf : list Z) :
  Forall is_byte buf ->
  let len := Z.of_nat (length buf) in
  (overlong_cyc buf = false -> defined_ok len (intel_pt_get_packet buf len))
  /\ (overlong_cyc buf = true -> intel_pt_get_packet buf len = None).
Proof.
  intros Hf len. split; [by apply get_packet_ok|].
  intros Ho%get_cyc_overlong. destruct Ho as (b0 & r & -> & H3 & Hn).
  unfold intel_pt_get_packet, intel_pt_do_get_packet.
  rewrite (proj2 (Z.eqb_neq len 0)) by (subst len; simpl length; lia).
  change (rd (b0 :: r) 0) with (Some b0). cbn [mbind option_bind].
  assert (Z.testbit b0 0 = true /\ Z.testbit b0 1 = true) as [T0 T1].
  { split; [replace true with (Z.testbit 3 0) by done|
            replace true with (Z.testbit 3 1) by done];
      rewrite <-H3, Z.land_spec, andb_true_r; done. }
  change (BIT 0) with (2 ^ 0). change (tst b0 2) with (tst b0 (2 ^ 1)).
  rewrite !tst_pow2, T0, T1 by lia. cbn [negb]. fold len in Hn. by rewrite Hn.
Qed.

(** ** Stability: more input does not change a decoded packet *)

(** Unless the shorter run asked for more bytes, the longer run agrees. *)
Definition stable (r r' : option (Z * intel_pt_pkt)) : Prop :=
  forall x, r = Some x -> x.1 <> INTEL_PT_NEED_MORE_BYTES -> r' = Some x.

Lemma stable_refl r : stable r r.
Proof. by intros x. Qed.

Lemma stable_len len len' k p m m' :
  len <= len' -> stable m m' ->
  stable (if len <? k then Some (INTEL_PT_NEED_MORE_BYTES, p) else m)
         (if len' <? k then Some (INTEL_PT_NEED_MORE_BYTES, p) else m').
Proof.
  intros Hl Hs x. destruct (Z.ltb_spec len k); [intros [= <-]; done|].
  destruct (Z.ltb_spec len' k); [lia|]. apply Hs.
Qed.

Lemma stable_bind {A} (m m' : option A) f f' :
  (forall a, m = Some a -> m' = Some a) -> (forall a, stable (f a) (f' a)) ->
  stable (mbind f m) (mbind f' m').
Proof.
  intros Hm Hf x Hx. apply bind_Some in Hx as (a & Ha & Hx). rewrite (Hm _ Ha).
  intros Hn. by apply Hf.
Qed.

Lemma memcpy_le64_app_l old buf ext off n v :
  memcpy_le64 old buf off n = Some v -> memcpy_le64 old (buf ++ ext) off n = Some v.
Proof.
  unfold memcpy_le64. intros (bs & Hb & [= <-])%bind_Some.
  by rewrite (rd_le_app_l _ _ _ _ _ Hb).
Qed.

Lemma psb_loop_app_l buf ext i n b :
  psb_loop buf i n = Some b -> psb_loop (buf ++ ext) i n = Some b.
Proof.
  revert i. induction n as [|n IH]; intros i; simpl; [done|].
  intros (c & Hc & H)%bind_Some. rewrite (rd_app_l _ _ _ _ Hc). simpl.
  destruct (negb _); [done|]. apply bind_Some in H as (c' & Hc' & H).
  rewrite (rd_app_l _ _ _ _ Hc'). simpl. destruct (negb _); auto.
Qed.

Lemma cyc_loop_app_l fuel buf ext len len' offs shift byte pl x :
  len <= len' ->
  cyc_loop fuel buf len offs shift byte pl = Some x -> x <> inl INTEL_PT_NEED_MORE_BYTES ->
  cyc_loop fuel (buf ++ ext) len' offs shift byte pl = Some x.
Proof.
  intros Hl. revert offs shift byte pl.
  induction fuel as [|fuel IH]; intros offs shift byte pl; simpl; [done|].
  destruct (tst byte 1); [|done]. destruct (offs >? 9); [done|].
  destruct (Z.ltb_spec len offs); [intros [= <-]; done|].
  destruct (Z.ltb_spec len' offs); [lia|].
  intros (b & Hb & H1)%bind_Some Hn. rewrite (rd_app_l _ _ _ _ Hb). simpl.
  unfold ub_unless in *. destruct (shift <? 32); [|done]. by apply IH.
Qed.

#[local] Hint Resolve rd_app_l rd_le_app_l memcpy_le64_app_l psb_loop_app_l : perf.

Ltac stab :=
  repeat first
    [ apply stable_refl
    | apply stable_len; [lia|]
    | apply stable_bind; [by eauto with perf|intros]
    | match goal with
      | |- stable (if ?b then _ else _) (if ?b then _ else _) => destruct b
      end ].

Lemma do_get_packet_stable buf ext :
  stable (intel_pt_do_get_packet buf (Z.of_nat (length buf)))
         (intel_pt_do_get_packet (buf ++ ext) (Z.of_nat (length (buf ++ ext)))).
Proof.
  rewrite length_app. set (len := Z.of_nat (length buf)).
  assert (len <= Z.of_nat (length buf + length ext)) as Hl by lia.
  revert Hl. generalize (Z.of_nat (length buf + length ext)). intros len' Hl.
  unfold intel_pt_do_get_packet. destruct buf as [|b0 r]; [intros x [= <-]; done|].
  rewrite !(proj2 (Z.eqb_neq _ 0)) by (subst len; simpl length in *; lia). clearbody len.
  apply stable_bind; [by eauto with perf|]. intros b.
  destruct (negb _).
  { unfold intel_pt_get_ext, intel_pt_get_long_tnt, intel_pt_get_pip, intel_pt_get_cbr,
      intel_pt_get_vmcs, intel_pt_get_psb, intel_pt_get_tma, intel_pt_get_3byte,
      intel_pt_get_mnt. stab. }
  destruct (tst b 2).
  { intros x. unfold intel_pt_get_cyc. intros (y & Hy & H)%bind_Some Hn.
    rewrite (cyc_loop_app_l _ _ ext (len - 1) (len' - 1) _ _ _ _ y ltac:(lia) Hy); [exact H|].
    intros ->. by simplify_eq. }
  unfold intel_pt_get_ip, intel_pt_get_mode, intel_pt_get_tsc, intel_pt_get_mtc. stab.
Qed.

(** C23: Packet boundaries do not depend on what follows: once
    [intel_pt_do_get_packet] decodes a packet or rejects one from a prefix of
    the trace, it gives the same packet, the same size and the same verdict
    on every longer buffer. *)
Theorem do_get_packet_prefix (buf ext : list Z) (ret : Z) (p : intel_pt_pkt) :
  intel_pt_do_get_packet buf (Z.of_nat (length buf)) = Some (ret, p) ->
  ret <> INTEL_PT_NEED_MORE_BYTES ->
  intel_pt_do_get_packet (buf ++ ext) (Z.of_nat (length (buf ++ ext))) = Some (ret, p).
Proof. intros H Hn. by apply (do_get_packet_stable buf ext). Qed.

Lemma do_get_packet_prefix_witness :
  intel_pt_do_get_packet ([0x59; 7] ++ [0; 0x19]) 4 = Some (2, mkPkt INTEL_PT_MTC 0 7).
Proof.
  apply (do_get_packet_prefix [0x59; 7] [0; 0x19] 2 (mkPkt INTEL_PT_MTC 0 7));
    [reflexivity|unfold INTEL_PT_NEED_MORE_BYTES; lia].
Defined.

(** ** Round trip with a reference encoder

    The trace packets as the processor's manual describes them, and their
    encoding; [denotes] is what a decoded packet must hold for each. *)

Inductive ip_kind := KTip | KTipPge | KTipPgd | KFup.

Definition ip_type (k : ip_kind) : intel_pt_pkt_type :=
  match k with
  | KTip => INTEL_PT_TIP | KTipPge => INTEL_PT_TIP_PGE
  | KTipPgd => INTEL_PT_TIP_PGD | KFup => INTEL_PT_FUP
  end.

Definition ip_code (k : ip_kind) : Z :=
  match k with KTip => 0x0D | KTipPge => 0x11 | KTipPgd => 0x01 | KFup => 0x1D end.

(** IP compression: how many address bytes follow. *)
Inductive ip_compr := IpNone | Ip16 | Ip32 | Ip48 | Ip48s | Ip64.

Definition compr_code (c : ip_compr) : Z :=
  match c with IpNone => 0 | Ip16 => 1 | Ip32 => 2 | Ip48 => 3 | Ip48s => 4 | Ip64 => 6 end.
Definition compr_bytes (c : ip_compr) : nat :=
  match c with IpNone => 0 | Ip16 => 2 | Ip32 => 4 | Ip48 | Ip48s => 6 | Ip64 => 8 end.

Inductive trace_pkt :=
  | PPad | PPsb | PPsbend | PTracestop | POvf
  | PTnt (branches : list bool)
  | PLongTnt (branches : list bool)
  | PIp (k : ip_kind) (c : ip_compr) (ip : Z)
  | PTsc (tsc : Z) | PMtc (ctc : Z) | PCbr (ratio : Z)
  | PTma (ctc fc : Z) | PVmcs (base : Z) | PMnt (v : Z)
  | PPip (cr3 : Z) (nr : bool) | PCyc (cycles : Z).

(** A stop bit, then the branches, oldest first. *)
Definition branch_val (branches : list bool) : Z :=
  fold_left (fun acc (b : bool) => 2 * acc + (if b then 1 else 0)) branches 1.

(** Extension bytes of a CYC packet: seven bits each, low bits first. *)
Fixpoint cyc_ext (fuel : nat) (v : Z) : list Z :=
  match fuel with
  | O => []
  | S fuel =>
      if v =? 0 then []
      else (2 * (v mod 128) + (if v / 128 =? 0 then 0 else 1)) :: cyc_ext fuel (v / 128)
  end.

Definition encode (t : trace_pkt) : list Z :=
  match t with
  | PPad => [0]
  | PPsb => [2; 0x82; 2; 0x82; 2; 0x82; 2; 0x82; 2; 0x82; 2; 0x82; 2; 0x82; 2; 0x82]
  | PPsbend => [2; 0x23]
  | PTracestop => [2; 0x83]
  | POvf => [2; 0xf3]
  | PTnt bs => [2 * branch_val bs]
  | PLongTnt bs => [2; 0xa3] ++ le_split 6 (branch_val bs)
  | PIp k c ip => [compr_code c * 32 + ip_code k] ++ le_split (compr_bytes c) ip
  | PTsc tsc => [0x19] ++ le_split 7 tsc
  | PMtc ctc => [0x59; ctc]
  | PCbr r => [2; 0x03; r; 0]
  | PTma ctc fc => [2; 0x73] ++ le_split 2 ctc ++ [0] ++ le_split 2 fc
  | PVmcs b => [2; 0xc8] ++ le_split 5 b
  | PMnt v => [2; 0xC3; 0x88] ++ le_split 8 v
  | PPip cr3 nr => [2; 0x43] ++ le_split 6 (2 * cr3 + (if nr then 1 else 0))
  | PCyc v =>
      (3 + (if v / 32 =? 0 then 0 else 4) + 8 * (v mod 32)) :: cyc_ext 4 (v / 32)
  end.

(** Field widths; the branch counts are those of the two TNT formats, and the
    cycle count is within what the decoder's 32-bit arithmetic holds. *)
Definition valid (t : trace_pkt) : Prop :=
  match t with
  | PTnt bs => (1 <= length bs <= 6)%nat
  | PLongTnt bs => (1 <= length bs <= 47)%nat
  | PIp _ c ip => 0 <= ip < 2 ^ (8 * Z.of_nat (compr_bytes c))
  | PTsc v => 0 <= v < 2 ^ 56
  | PMtc v | PCbr v => 0 <= v < 256
  | PTma ctc fc => 0 <= ctc < 2 ^ 16 /\ 0 <= fc < 512
  | PVmcs v => 0 <= v < 2 ^ 40
  | PMnt v => 0 <= v < 2 ^ 64
  | PPip cr3 _ => 0 <= cr3 < 2 ^ 47
  | PCyc v => 0 <= v < 2 ^ 32
  | _ => True
  end.

(** The branches of a TNT packet are the top bits of its payload, oldest in
    bit 63. *)
Definition tnt_denotes (bs : list bool) (p : intel_pt_pkt) : Prop :=
  type p = INTEL_PT_TNT /\ count p = Z.of_nat (length bs)
  /\ forall i b, bs !! i = Some b -> Z.testbit (payload p) (63 - Z.of_nat i) = b.

Definition denotes (t : trace_pkt) (p : intel_pt_pkt) : Prop :=
  match t with
  | PPad => p = mkPkt INTEL_PT_PAD 0 0
  | PPsb => p = mkPkt INTEL_PT_PSB 0 0
  | PPsbend => p = mkPkt INTEL_PT_PSBEND 0 0
  | PTracestop => p = mkPkt INTEL_PT_TRACESTOP 0 0
  | POvf => p = mkPkt INTEL_PT_OVF 0 0
  | PTnt bs | PLongTnt bs => tnt_denotes bs p
  | PIp k c ip => p = mkPkt (ip_type k) (compr_code c) ip
  | PTsc v => p = mkPkt INTEL_PT_TSC 0 v
  | PMtc v => p = mkPkt INTEL_PT_MTC 0 v
  | PCbr v => p = mkPkt INTEL_PT_CBR 0 v
  | PTma ctc fc => p = mkPkt INTEL_PT_TMA fc ctc
  | PVmcs v => p = mkPkt INTEL_PT_VMCS 5 v
  | PMnt v => p = mkPkt INTEL_PT_MNT 0 v
  | PPip cr3 nr => p = mkPkt INTEL_PT_PIP 0 (cr3 + (if nr then NR_FLAG else 0))
  | PCyc v => p = mkPkt INTEL_PT_CYC 0 v
  end.

Lemma memcpy_le64_split hdr n v rest off :
  off = Z.of_nat (length hdr) -> 0 <= v < 2 ^ (8 * Z.of_nat n) ->
  memcpy_le64 0 (hdr ++ le_split n v ++ rest) off n = Some v.
Proof.
  intros Ho Hv. unfold memcpy_le64. rewrite (rd_le_split hdr n v rest off Ho Hv). simpl.
  rewrite Z.div_0_l by (apply Z.pow_nonzero; lia). f_equal. lia.
Qed.

(** *** TNT *)

Lemma branch_val_snoc bs b : branch_val (bs ++ [b]) = 2 * branch_val bs + (if b then 1 else 0).
Proof. unfold branch_val. by rewrite fold_left_app. Qed.

Lemma branch_val_range bs : 2 ^ Z.of_nat (length bs) <= branch_val bs < 2 * 2 ^ Z.of_nat (length bs).
Proof.
  induction bs as [|b bs IH] using rev_ind; [done|].
  rewrite branch_val_snoc, length_app, Nat2Z.inj_add, Z.pow_add_r by lia.
  change (2 ^ Z.of_nat (length [b])) with 2. destruct b; lia.
Qed.

Lemma branch_val_bit bs i b :
  bs !! i = Some b -> Z.testbit (branch_val bs) (Z.of_nat (length bs) - 1 - Z.of_nat i) = b.
Proof.
  revert i. induction bs as [|c bs IH] using rev_ind; intros i; [done|].
  rewrite branch_val_snoc, length_app. simpl length.
  intros Hi. destruct (decide (i < length bs)%nat) as [Hlt|Hge].
  - rewrite lookup_app_l in Hi by done.
    replace (Z.of_nat (length bs + 1) - 1 - Z.of_nat i)
      with (Z.succ (Z.of_nat (length bs) - 1 - Z.of_nat i)) by lia.
    rewrite <-(IH _ Hi).
    destruct c; [rewrite Z.testbit_odd_succ|rewrite Z.add_0_r, Z.testbit_even_succ]; (done || lia).
  - assert (i = length bs) as -> by (apply lookup_lt_Some in Hi; rewrite length_app in Hi;
      simpl in Hi; lia).
    rewrite list_lookup_middle in Hi by done. simplify_eq.
    replace (_ - 1 - _) with 0 by lia.
    destruct b; [apply Z.testbit_odd_0|rewrite Z.add_0_r; apply Z.testbit_even_0].
Qed.

Lemma tnt_loop_shift j c v :
  (j <= c)%nat -> (j < 63)%nat ->
  2 ^ (63 - Z.of_nat j) <= v < 2 ^ (64 - Z.of_nat j) ->
  tnt_loop u64 BIT63 c v = ((c - j)%nat, v * 2 ^ Z.of_nat j).
Proof.
  revert c v. induction j as [|j IH]; intros c v Hc Hj Hv.
  - rewrite Nat.sub_0_r, Z.mul_1_r. destruct c as [|c]; [done|]. cbn [tnt_loop].
    assert (Z.testbit v 63 = true) as Hb.
    { change (Z.of_nat 0) with 0 in Hv. rewrite !Z.sub_0_r in Hv.
      rewrite Z.testbit_true by lia.
      by rewrite <-(Z.div_unique v (2 ^ 63) 1 (v - 2 ^ 63)) by lia. }
    unfold BIT63. by rewrite tst_pow2, Hb by lia.
  - destruct c as [|c]; [lia|]. cbn [tnt_loop].
    assert (2 ^ (64 - Z.of_nat (S j)) <= 2 ^ 63) by (apply Z.pow_le_mono_r; lia).
    assert (Z.testbit v 63 = false) as Hb.
    { apply (bounded_iff_bits 63); [lia| |lia]. split; [|lia].
      etransitivity; [|apply Hv]. apply Z.pow_nonneg. lia. }
    unfold BIT63. rewrite tst_pow2, Hb by lia.
    rewrite Z.shiftl_mul_pow2 by lia. change (2 ^ 1) with 2.
    assert (2 ^ (64 - Z.of_nat j) = 2 * 2 ^ (64 - Z.of_nat (S j))) as E1
      by (rewrite <-Z.pow_succ_r by lia; f_equal; lia).
    assert (2 ^ (63 - Z.of_nat j) = 2 * 2 ^ (63 - Z.of_nat (S j))) as E2
      by (rewrite <-Z.pow_succ_r by lia; f_equal; lia).
    assert (2 ^ (64 - Z.of_nat j) <= 2 ^ 64) by (apply Z.pow_le_mono_r; lia).
    assert (0 <= 2 ^ (63 - Z.of_nat j)) by (apply Z.pow_nonneg; lia).
    rewrite u64_small by lia. fold BIT63. rewrite IH by lia.
    f_equal. rewrite Nat2Z.inj_succ, Z.pow_succ_r by lia. lia.
Qed.

Lemma long_tnt_payload bs :
  (1 <= length bs <= 47)%nat ->
  exists pl, tnt_loop u64 BIT63 47 (0xa302 + 2 ^ 16 * branch_val bs) = (length bs, pl)
    /\ tnt_denotes bs (mkPkt INTEL_PT_TNT (Z.of_nat (length bs)) (u64 (Z.shiftl pl 1))).
Proof.
  intros Hn. pose proof (branch_val_range bs) as Hr.
  set (n := length bs) in *. set (N := branch_val bs) in *.
  assert (2 ^ (16 + Z.of_nat n) = 2 ^ 16 * 2 ^ Z.of_nat n) as E by (rewrite Z.pow_add_r; lia).
  assert (2 ^ (17 + Z.of_nat n) = 2 ^ 17 * 2 ^ Z.of_nat n) as E' by (rewrite Z.pow_add_r; lia).
  rewrite (tnt_loop_shift (47 - n)); [|lia..|].
  2:{ replace (63 - Z.of_nat (47 - n)) with (16 + Z.of_nat n) by lia.
      replace (64 - Z.of_nat (47 - n)) with (17 + Z.of_nat n) by lia.
      rewrite E, E'. change (2 ^ 16) with 65536. change (2 ^ 17) with 131072. lia. }
  eexists. split; [f_equal; lia|]. split; [done|]. split; [done|].
  intros i b Hi. pose proof (branch_val_bit _ _ _ Hi) as Hb. pose proof (lookup_lt_Some _ _ _ Hi).
  fold n in Hb. fold N in Hb. fold n in H. cbn [payload]. unfold u64.
  rewrite Z.mod_pow2_bits_low by lia. rewrite Z.shiftl_spec by lia.
  rewrite <-Z.shiftl_mul_pow2, Z.shiftl_spec by lia.
  replace (63 - Z.of_nat i - 1 - Z.of_nat (47 - n))
    with ((Z.of_nat n - 1 - Z.of_nat i) + 16) by lia.
  rewrite <-Z.div_pow2_bits by lia. rewrite (Z.mul_comm (2 ^ 16)), Z.div_add by lia.
  change (0xa302 / 2 ^ 16) with 0. exact Hb.
Qed.

Lemma short_tnt_payload bs :
  (1 <= length bs <= 6)%nat ->
  exists p, intel_pt_get_short_tnt (2 * branch_val bs) zero_pkt = Some (1, p) /\ tnt_denotes bs p.
Proof.
  intros Hn. destruct bs as [|b1 bs]; [simpl in Hn; lia|].
  do 5 (destruct bs as [|? bs];
    [repeat match goal with b : bool |- _ => destruct b end;
     (eexists; split; [vm_compute; reflexivity|]); (split; [done|]); (split; [done|]);
     intros i b Hi; do 6 (destruct i as [|i]; [by simplify_eq/=|]); done|]).
  destruct bs as [|? bs]; [|simpl in Hn; lia].
  repeat match goal with b : bool |- _ => destruct b end;
    (eexists; split; [vm_compute; reflexivity|]); (split; [done|]); (split; [done|]);
     intros i b Hi; do 6 (destruct i as [|i]; [by simplify_eq/=|]); done.
Qed.

(** *** CYC *)

Lemma bit_byte x (c : bool) : Z.odd (2 * x + (if c then 0 else 1)) = negb c
  /\ Z.shiftr (2 * x + (if c then 0 else 1)) 1 = x.
Proof.
  split.
  - destruct c; [rewrite Z.add_0_r; apply Z.odd_mul|apply Z.odd_odd].
  - rewrite Z.shiftr_div_pow2 by lia. change (2 ^ 1) with 2.
    rewrite Z.add_comm, Z.mul_comm, Z.div_add by lia. by destruct c.
Qed.

Lemma cyc_loop_ext f v pre rest len shift byte pl fuel :
  (f < fuel)%nat -> 0 <= v < 2 ^ (7 * Z.of_nat f) ->
  Z.of_nat (length pre + f) <= 9 ->
  Z.of_nat (length pre + length (cyc_ext f v)) <= len + 1 ->
  Z.odd byte = negb (v =? 0) ->
  0 <= shift -> 0 <= pl < 2 ^ shift -> v * 2 ^ shift < 2 ^ 32 ->
  cyc_loop fuel (pre ++ cyc_ext f v ++ rest) len (Z.of_nat (length pre)) shift byte pl
  = Some (inr (Z.of_nat (length pre + length (cyc_ext f v)), pl + v * 2 ^ shift)).
Proof.
  revert v pre shift byte pl fuel.
  induction f as [|f IH]; intros v pre shift byte pl fuel Hfu Hv Hp Hl Ho Hs Hpl Hv32.
  - assert (v = 0) as -> by (change (2 ^ _) with 1 in Hv; lia).
    destruct fuel as [|fuel]; [lia|].
    rewrite cyc_loop_done by (by rewrite tst_1_odd). simpl. by rewrite Nat.add_0_r, Z.add_0_r.
  - destruct fuel as [|fuel]; [lia|]. cbn [cyc_ext] in *.
    destruct (Z.eqb_spec v 0) as [->|Hv0].
    { rewrite cyc_loop_done by (by rewrite tst_1_odd). simpl. by rewrite Nat.add_0_r, Z.add_0_r. }
    set (b := 2 * (v mod 128) + (if v / 128 =? 0 then 0 else 1)) in *.
    destruct (bit_byte (v mod 128) (v / 128 =? 0)) as [Hodd Hshr]. fold b in Hodd, Hshr.
    simpl length in *.
    rewrite (cyc_loop_next _ _ _ _ _ _ b); [|by rewrite tst_1_odd|lia|lia|].
    2:{ unfold rd. rewrite (proj2 (Z.leb_le 0 _)) by lia.
        rewrite Nat2Z.id. cbn [app]. by rewrite list_lookup_middle. }
    assert (shift < 32) as Hs32.
    { apply (Z.pow_lt_mono_r_iff 2); [lia..|]. nia. }
    unfold ub_unless. rewrite (proj2 (Z.ltb_lt _ _) Hs32), Hshr.
    pose proof (Z.mod_pos_bound v 128 ltac:(lia)) as Hm.
    pose proof (Z.div_mod v 128 ltac:(lia)) as Hdm.
    assert (0 < 2 ^ shift) by (apply Z.pow_pos_nonneg; lia).
    rewrite Z.shiftl_mul_pow2 by done. rewrite u32_small by nia.
    rewrite lor_add_disjoint by done.
    replace (pre ++ (b :: cyc_ext f (v / 128)) ++ rest)
      with ((pre ++ [b]) ++ cyc_ext f (v / 128) ++ rest) by (by rewrite <-app_assoc).
    replace (Z.of_nat (length pre) + 1) with (Z.of_nat (length (pre ++ [b])))
      by (rewrite length_app; simpl; lia).
    assert (2 ^ (shift + 7) = 128 * 2 ^ shift) as E7 by (rewrite Z.pow_add_r; lia).
    rewrite Nat2Z.inj_succ, Z.mul_succ_r, Z.pow_add_r in Hv by lia. change (2 ^ 7) with 128 in Hv.
    rewrite IH.
    + rewrite length_app. simpl length. do 3 f_equal; [lia|]. rewrite E7. nia.
    + lia.
    + split; [apply Z.div_pos; lia|]. apply Z.div_lt_upper_bound; lia.
    + rewrite length_app. simpl length. lia.
    + rewrite length_app. simpl length. lia.
    + done.
    + lia.
    + rewrite E7. nia.
    + rewrite E7. nia.
Qed.

Lemma get_cyc_encode v rest len :
  0 <= v < 2 ^ 32 -> Z.of_nat (length (encode (PCyc v))) <= len ->
  intel_pt_do_get_packet (encode (PCyc v) ++ rest) len
  = Some (Z.of_nat (length (encode (PCyc v))), mkPkt INTEL_PT_CYC 0 v).
Proof.
  intros Hv Hl. cbn [encode] in *. set (c := v / 32 =? 0) in *.
  set (b0 := 3 + (if c then 0 else 4) + 8 * (v mod 32)) in *.
  assert (b0 = 2 * (2 * (2 * (v mod 32) + (if c then 0 else 1)) + 1) + 1) as Eb
    by (subst b0; destruct c; lia).
  pose proof (Z.mod_pos_bound v 32 ltac:(lia)) as Hm.
  pose proof (Z.div_mod v 32 ltac:(lia)) as Hdm.
  destruct (bit_byte (v mod 32) c) as [Hodd Hshr].
  assert (Z.shiftr b0 2 = 2 * (v mod 32) + (if c then 0 else 1)) as E2.
  { rewrite Z.shiftr_div_pow2 by lia. symmetry.
    apply Z.div_unique with 3; change (2 ^ 2) with 4; lia. }
  assert (Z.shiftr b0 3 = v mod 32) as E3.
  { change 3 with (2 + 1). rewrite <-Z.shiftr_shiftr, E2 by lia. done. }
  assert (tst b0 (BIT 0) = true) as T0.
  { change (BIT 0) with 1. rewrite tst_1_odd, Eb. apply Z.odd_odd. }
  assert (tst b0 2 = true) as T1.
  { change 2 with (2 ^ 1). rewrite tst_pow2, Eb by lia. change 1 with (Z.succ 0) at 4.
    rewrite Z.testbit_odd_succ by lia. apply Z.testbit_odd_0. }
  cbn [length] in Hl |- *.
  unfold intel_pt_do_get_packet.
  rewrite (proj2 (Z.eqb_neq len 0)) by lia. change (rd _ 0) with (Some b0). cbn [mbind option_bind].
  rewrite T0, T1. cbn [negb]. unfold intel_pt_get_cyc. rewrite E2, E3.
  change ((b0 :: cyc_ext 4 (v / 32)) ++ rest) with ([b0] ++ cyc_ext 4 (v / 32) ++ rest).
  change (cyc_loop 11 _ _ 1) with (cyc_loop 11 ([b0] ++ cyc_ext 4 (v / 32) ++ rest) (len - 1)
    (Z.of_nat (length [b0]))).
  rewrite cyc_loop_ext; [|cbn [length]; try lia..].
  - cbn [mbind option_bind length Nat.add]. change (2 ^ 5) with 32.
    unfold set_payload, set_type. cbn [type count zero_pkt]. do 3 f_equal. lia.
  - done.
Qed.

(** *** All packets *)

(** Dispatch on a concrete first byte. *)
Lemma do_get_packet_hd b r len :
  0 < len -> intel_pt_do_get_packet (b :: r) len =
    if negb (tst b (BIT 0)) then
      if b =? 0 then intel_pt_get_pad zero_pkt else
      if b =? 2 then intel_pt_get_ext (b :: r) len zero_pkt else
      intel_pt_get_short_tnt b zero_pkt
    else if tst b 2 then intel_pt_get_cyc b (b :: r) len zero_pkt else
    let low := Z.land b 0x1f in
    if low =? 0x0D then intel_pt_get_ip INTEL_PT_TIP b (b :: r) len zero_pkt else
    if low =? 0x11 then intel_pt_get_ip INTEL_PT_TIP_PGE b (b :: r) len zero_pkt else
    if low =? 0x01 then intel_pt_get_ip INTEL_PT_TIP_PGD b (b :: r) len zero_pkt else
    if low =? 0x1D then intel_pt_get_ip INTEL_PT_FUP b (b :: r) len zero_pkt else
    if low =? 0x19 then
      if b =? 0x99 then intel_pt_get_mode (b :: r) len zero_pkt else
      if b =? 0x19 then intel_pt_get_tsc (b :: r) len zero_pkt else
      if b =? 0x59 then intel_pt_get_mtc (b :: r) len zero_pkt else
      Some (INTEL_PT_BAD_PACKET, zero_pkt)
    else Some (INTEL_PT_BAD_PACKET, zero_pkt).
Proof.
  intros Hl. unfold intel_pt_do_get_packet. by rewrite (proj2 (Z.eqb_neq len 0)) by lia.
Qed.

Lemma do_get_packet_ext b r len :
  1 < len -> intel_pt_do_get_packet (2 :: b :: r) len
  = intel_pt_get_ext (2 :: b :: r) len zero_pkt.
Proof. intros Hl. by rewrite do_get_packet_hd by lia. Qed.

Ltac no_more := repeat rewrite (proj2 (Z.ltb_ge _ _)) by lia.

(** The loads of a parser on an encoded field. *)
Ltac rt_load hdr :=
  match goal with
  | |- context [memcpy_le64 _ ?buf _ ?n] =>
      rewrite (memcpy_le64_split hdr n) by (done || lia)
  | |- context [rd_le ?buf _ ?n] => rewrite (rd_le_split hdr n) by (done || lia)
  end.

Lemma get_ip_encode t hb c ip rest len :
  Z.shiftr hb 5 = compr_code c -> 0 <= ip < 2 ^ (8 * Z.of_nat (compr_bytes c)) ->
  1 + Z.of_nat (compr_bytes c) <= len ->
  intel_pt_get_ip t hb ([hb] ++ le_split (compr_bytes c) ip ++ rest) len zero_pkt
  = Some (1 + Z.of_nat (compr_bytes c), mkPkt t (compr_code c) ip).
Proof.
  intros Hc Hip Hl. unfold intel_pt_get_ip. rewrite Hc. cbn [count set_count payload zero_pkt].
  destruct c; cbn [compr_code compr_bytes] in *; cbn [Z.eqb Pos.eqb orb];
    [assert (ip = 0) as -> by (change (2 ^ _) with 1 in Hip; lia); done|..];
    no_more; rt_load [hb]; done.
Qed.

(** Select parser [P] for a concrete second byte. *)
Ltac ext_sel P :=
  cbn [app]; rewrite do_get_packet_ext by lia; unfold intel_pt_get_ext; no_more;
  match goal with |- context [mbind _ (rd (2 :: ?b :: ?r) 1)] =>
    change (rd (2 :: b :: r) 1) with (Some b) end;
  cbn [mbind option_bind Z.eqb Pos.eqb]; unfold P; no_more.

Lemma psb_encode rest len :
  16 <= len -> intel_pt_do_get_packet (encode PPsb ++ rest) len = Some (16, mkPkt INTEL_PT_PSB 0 0).
Proof. intros Hl. cbn [encode]. ext_sel intel_pt_get_psb. reflexivity. Qed.

Lemma long_tnt_encode bs rest len :
  (1 <= length bs <= 47)%nat -> 8 <= len ->
  exists p, intel_pt_do_get_packet (encode (PLongTnt bs) ++ rest) len = Some (8, p)
    /\ tnt_denotes bs p.
Proof.
  intros Hn Hl. destruct (long_tnt_payload bs Hn) as (pl & E & Hd).
  eexists; split; [|exact Hd]. pose proof (branch_val_range bs) as Hr.
  assert (2 ^ Z.of_nat (length bs) <= 2 ^ 47) by (apply Z.pow_le_mono_r; lia).
  cbn [encode]. rewrite <-app_assoc. ext_sel intel_pt_get_long_tnt.
  replace (2 :: 0xa3 :: le_split 6 (branch_val bs) ++ rest)
    with ([] ++ le_split 8 (0xa302 + 2 ^ 16 * branch_val bs) ++ rest).
  - rewrite (rd_le_split [] 8) by (change (8 * Z.of_nat 8) with 64; lia || done).
    cbn [mbind option_bind]. by rewrite E.
  - cbn [app le_split]. change (2 ^ 16) with (256 * 256).
    replace (0xa302 + 256 * 256 * branch_val bs)
      with (2 + (0xa3 + branch_val bs * 256) * 256) by lia.
    rewrite Z_mod_plus_full, Z_div_plus_full by lia. change (2 / 256) with 0.
    rewrite Z.add_0_l, Z_mod_plus_full, Z_div_plus_full by lia. done.
Qed.

Lemma tma_encode ctc fc rest len :
  0 <= ctc < 2 ^ 16 -> 0 <= fc < 512 -> 7 <= len ->
  intel_pt_do_get_packet (encode (PTma ctc fc) ++ rest) len
  = Some (7, mkPkt INTEL_PT_TMA fc ctc).
Proof.
  intros Hc Hf Hl. cbn [encode le_split app]. ext_sel intel_pt_get_tma.
  set (buf := 2 :: _). change (rd buf 2) with (Some (ctc mod 256)).
  change (rd buf 3) with (Some ((ctc / 256) mod 256)).
  change (rd buf 5) with (Some (fc mod 256)). change (rd buf 6) with (Some ((fc / 256) mod 256)).
  cbn [mbind option_bind].
  pose proof (Z.mod_pos_bound ctc 256 ltac:(lia)). pose proof (Z.mod_pos_bound fc 256 ltac:(lia)).
  pose proof (Z.div_mod ctc 256 ltac:(lia)). pose proof (Z.div_mod fc 256 ltac:(lia)).
  change (BIT 0) with (Z.ones 1). rewrite Z.land_ones by lia.
  rewrite !(Z.mod_small (_ / 256)) by lia.
  rewrite !Z.shiftl_mul_pow2, !lor_add_disjoint by lia.
  change (2 ^ 8) with 256. do 3 f_equal; lia.
Qed.

Lemma pip_encode cr3 (nr : bool) rest len :
  0 <= cr3 < 2 ^ 47 -> 8 <= len ->
  intel_pt_do_get_packet (encode (PPip cr3 nr) ++ rest) len
  = Some (8, mkPkt INTEL_PT_PIP 0 (cr3 + (if nr then NR_FLAG else 0))).
Proof.
  intros Hc Hl. set (v := 2 * cr3 + (if nr then 1 else 0)).
  assert (0 <= v < 2 ^ 48) as Hv by (subst v; destruct nr; lia).
  cbn [encode]. fold v. rewrite <-app_assoc. ext_sel intel_pt_get_pip.
  change (memcpy_le64 0 _ 2 6)
    with (memcpy_le64 0 ([2; 0x43] ++ le_split 6 v ++ rest) 2 6).
  rewrite (memcpy_le64_split [2; 0x43]) by done. cbn [mbind option_bind].
  rewrite tst_1_odd. unfold set_payload, set_type. cbn [type count payload zero_pkt].
  pose proof (bit_byte cr3 (negb nr)) as [Ho Hs]. subst v.
  destruct nr; cbn [negb] in Ho, Hs; rewrite Ho, Hs; cbn [negb].
  - change NR_FLAG with (1 * 2 ^ 63). rewrite lor_add_disjoint by lia. done.
  - by rewrite Z.add_0_r.
Qed.

(** Packets whose fields are read whole. *)
Lemma field_encode t rest len :
  match t with PTsc _ | PVmcs _ | PMnt _ => True | _ => False end ->
  valid t -> Z.of_nat (length (encode t)) <= len ->
  exists p, intel_pt_do_get_packet (encode t ++ rest) len = Some (Z.of_nat (length (encode t)), p)
    /\ denotes t p.
Proof.
  intros Ht Hv Hl. destruct t; try done; cbn [encode valid] in *;
    rewrite length_app, length_le_split in *; cbn [length] in *;
    (eexists; split; [|reflexivity]); rewrite <-app_assoc.
  - change ([0x19] ++ ?x) with (0x19 :: x). rewrite do_get_packet_hd by lia.
    change (intel_pt_get_tsc ([0x19] ++ le_split 7 tsc ++ rest) len zero_pkt
            = Some (8, mkPkt INTEL_PT_TSC 0 tsc)).
    unfold intel_pt_get_tsc. no_more. rt_load [0x19]. done.
  - ext_sel intel_pt_get_vmcs. change (Z.shiftr (52 - 5) 3) with 5.
    change ((5 <? 1) || (5 >? 7)) with false. cbn iota. no_more.
    change (Z.to_nat 5) with 5%nat.
    change (2 :: 0xc8 :: ?x) with ([2; 0xc8] ++ x).
    rewrite (memcpy_le64_split [2; 0xc8] 5 base) by done. done.
  - ext_sel intel_pt_get_3byte. change (rd _ 2) with (Some 0x88).
    cbn [mbind option_bind Z.eqb Pos.eqb]. unfold intel_pt_get_mnt. no_more.
    change (2 :: 0xC3 :: 0x88 :: ?x) with ([2; 0xC3; 0x88] ++ x).
    rewrite (memcpy_le64_split [2; 0xC3; 0x88] 8 v) by done. done.
Qed.

Lemma do_get_packet_encode t rest len :
  valid t -> Z.of_nat (length (encode t)) <= len ->
  exists p, intel_pt_do_get_packet (encode t ++ rest) len = Some (Z.of_nat (length (encode t)), p)
    /\ denotes t p.
Proof.
  intros Hv Hl. destruct t as [| | | | |bs|bs|k c ip|v|v|v|ctc fc|v|v|cr3 nr|v];
    try (by apply field_encode);
    try (cbn [encode length] in *; eexists; split; [|reflexivity]; cbn [app];
         rewrite ?do_get_packet_ext, ?do_get_packet_hd by lia; unfold intel_pt_get_ext;
         no_more; unfold intel_pt_get_mtc; no_more; reflexivity);
    cbn [encode valid] in *; rewrite ?length_app, ?length_le_split in *; cbn [length] in *.
  - eexists; split; [|reflexivity]. apply psb_encode. lia.
  - destruct (short_tnt_payload bs Hv) as (p & E & Hd). exists p. split; [|done].
    cbn [app]. rewrite do_get_packet_hd by lia. change (BIT 0) with 1.
    pose proof (branch_val_range bs).
    assert (2 ^ 1 <= 2 ^ Z.of_nat (length bs)) by (apply Z.pow_le_mono_r; lia).
    rewrite tst_1_odd, Z.odd_mul. cbn [Z.odd andb negb].
    rewrite !(proj2 (Z.eqb_neq _ _)) by lia. exact E.
  - destruct (long_tnt_encode bs rest len Hv) as (p & E & Hd); [lia|]. by exists p.
  - eexists; split; [|reflexivity]. rewrite <-app_assoc. cbn [app].
    rewrite do_get_packet_hd by lia.
    replace (Z.of_nat (1 + compr_bytes c)) with (1 + Z.of_nat (compr_bytes c)) by lia.
    destruct k, c; (refine (get_ip_encode _ _ _ ip rest len _ Hv _); [reflexivity|lia]).
  - eexists; split; [|reflexivity]. cbn [app]. ext_sel intel_pt_get_cbr. done.
  - eexists; split; [|reflexivity]. destruct Hv. by apply tma_encode.
  - eexists; split; [|reflexivity]. by apply pip_encode.
  - eexists; split; [|reflexivity]. by apply get_cyc_encode.
Qed.

Lemma pad_loop_stop fuel buf len ret :
  (forall b, rd buf ret = Some b -> b <> 0) -> (ret < len -> exists b, rd buf ret = Some b) ->
  pad_loop fuel buf len ret = Some ret.
Proof.
  intros Hb Hd. destruct fuel as [|fuel]; [done|]. simpl.
  destruct ((ret <? 8) && (len >? ret)) eqn:Hc; bprop; [|done].
  destruct Hd as [b E]; [done|]. rewrite E. simpl. specialize (Hb b E).
  by rewrite (proj2 (Z.eqb_neq _ _)).
Qed.

(** C13: Decoding inverts the packet format: every valid trace packet (short
    and long TNT, the four IP packets under every IP compression, TSC, MTC,
    CBR, TMA, VMCS, MNT, PIP, CYC below 2^32, PSB, PSBEND, OVF, TraceSTOP,
    PAD), encoded and followed by any bytes that do not start with padding,
    is decoded by [intel_pt_get_packet] to its own fields and its own size. *)
Theorem get_packet_encode (t : trace_pkt) (rest : list Z) :
  valid t -> head rest <> Some 0 ->
  exists p, intel_pt_get_packet (encode t ++ rest) (Z.of_nat (length (encode t ++ rest)))
              = Some (Z.of_nat (length (encode t)), p)
            /\ denotes t p.
Proof.
  intros Hv Hr. set (len := Z.of_nat (length (encode t ++ rest))).
  destruct (do_get_packet_encode t rest len Hv) as (p & E & Hd).
  { subst len. rewrite length_app. lia. }
  exists p. split; [|done]. unfold intel_pt_get_packet. rewrite E. cbn [mbind option_bind].
  destruct (_ >? 0); [|done].
  assert (rd (encode t ++ rest) (Z.of_nat (length (encode t))) = head rest) as Hh.
  { unfold rd. rewrite (proj2 (Z.leb_le 0 _)) by lia.
    rewrite Nat2Z.id, lookup_app_r, Nat.sub_diag by lia. by destruct rest. }
  rewrite pad_loop_stop; [done|rewrite Hh; intros b Hb ->; done|].
  intros Hlt. apply rd_in_range. subst len. lia.
Qed.

Lemma get_packet_encode_witness :
  exists p, intel_pt_get_packet (encode (PLongTnt [true; false; true; true; true; false; false]) ++ [0x59; 1]) 10
              = Some (8, p)
            /\ denotes (PLongTnt [true; false; true; true; true; false; false]) p.
Proof.
  apply (get_packet_encode (PLongTnt [true; false; true; true; true; false; false]) [0x59; 1]);
    [simpl; lia|discriminate].
Defined.

Lemma get_packet_safe_witness :
  defined_ok 3 (intel_pt_get_packet [0x2d; 0x34; 0x12] 3)
  /\ intel_pt_get_packet [7; 1; 1; 1; 1; 0] 6 = None.
Proof.
  split.
  - apply (get_packet_safe [0x2d; 0x34; 0x12]); [|reflexivity].
    repeat constructor; unfold is_byte; lia.
  - apply (get_packet_safe [7; 1; 1; 1; 1; 0]); [|reflexivity].
    repeat constructor; unfold is_byte; lia.
Defined.

(** ** The printer *)

(** The branches of a TNT packet, read off its payload. *)
Fixpoint tnt_text (n : nat) (payload : Z) : list Z :=
  match n with
  | O => []
  | S n => (if Z.testbit payload 63 then 84 else 78) :: tnt_text n (2 * payload)
  end.

(** The text of a packet. *)
Definition desc_text (p : intel_pt_pkt) : list Z :=
  let name := intel_pt_pkt_name (type p) in
  match type p with
  | INTEL_PT_BAD | INTEL_PT_PAD | INTEL_PT_PSB | INTEL_PT_PSBEND
  | INTEL_PT_TRACESTOP | INTEL_PT_OVF => name
  | INTEL_PT_TNT =>
      name ++ CFmt.bs " " ++ tnt_text (Z.to_nat (count p)) (payload p)
        ++ CFmt.bs " (" ++ CFmt.fmt_d (count p) ++ CFmt.bs ")"
  | INTEL_PT_TIP_PGD | INTEL_PT_TIP_PGE | INTEL_PT_TIP | INTEL_PT_FUP =>
      name ++ (if count p =? 0 then CFmt.bs " no ip"
               else CFmt.bs " 0x" ++ CFmt.fmt_x (payload p))
  | INTEL_PT_CYC | INTEL_PT_VMCS | INTEL_PT_MTC | INTEL_PT_MNT
  | INTEL_PT_CBR | INTEL_PT_TSC => name ++ CFmt.bs " 0x" ++ CFmt.fmt_x (payload p)
  | INTEL_PT_TMA =>
      name ++ CFmt.bs " CTC 0x" ++ CFmt.fmt_x (payload p mod 2 ^ 32)
           ++ CFmt.bs " FC 0x" ++ CFmt.fmt_x (count p)
  | INTEL_PT_MODE_EXEC => name ++ CFmt.bs " " ++ CFmt.fmt_d (s64 (payload p))
  | INTEL_PT_MODE_TSX =>
      name ++ CFmt.bs " TXAbort:" ++ CFmt.fmt_u (if Z.testbit (payload p) 1 then 1 else 0)
           ++ CFmt.bs " InTX:" ++ CFmt.fmt_u (if Z.testbit (payload p) 0 then 1 else 0)
  | INTEL_PT_PIP =>
      name ++ CFmt.bs " 0x" ++ CFmt.fmt_x (payload p mod 2 ^ 63) ++ CFmt.bs " (NR="
           ++ CFmt.fmt_u (if Z.testbit (payload p) 63 then 1 else 0) ++ CFmt.bs ")"
  end.

Lemma tnt_text_u64 n v : tnt_text n (u64 v) = tnt_text n v.
Proof.
  revert v. induction n as [|n IH]; intros v; cbn [tnt_text]; [done|]. f_equal.
  - unfold u64. by rewrite Z.mod_pow2_bits_low by lia.
  - rewrite <-(IH (2 * v)), <-(IH (2 * u64 v)). f_equal. unfold u64.
    by rewrite Z.mul_mod_idemp_r by lia.
Qed.

Lemma length_tnt_text n v : length (tnt_text n v) = n.
Proof. revert v. induction n; intros v; simpl; congruence. Qed.

Lemma desc_tnt_loop_ok n l1 l2 blen v :
  (n < length l2)%nat -> Z.of_nat n < blen < 2 ^ 64 ->
  exists l2', desc_tnt_loop n (l1 ++ l2) (Z.of_nat (length l1)) blen v
    = Some (l1 ++ tnt_text n v ++ l2', Z.of_nat (length l1 + n), blen - Z.of_nat n)
  /\ length l2' = (length l2 - n)%nat.
Proof.
  revert l1 l2 blen v. induction n as [|n IH]; intros l1 l2 blen v Hl Hb.
  { simpl. exists l2. rewrite Nat.add_0_r, Z.sub_0_r. split; [done|lia]. }
  cbn [desc_tnt_loop]. unfold BIT63 at 1. rewrite tst_pow2 by lia.
  set (c := if Z.testbit v 63 then 84 else 78).
  replace (CFmt.bs (if Z.testbit v 63 then "T" else "N")) with [c]
    by (subst c; by destruct (Z.testbit v 63)).
  rewrite CFmt.snprintf_fits by (simpl; lia). cbn [mbind option_bind length].
  replace (l1 ++ [c] ++ 0 :: drop 2 l2) with ((l1 ++ [c]) ++ 0 :: drop 2 l2)
    by (by rewrite <-app_assoc).
  replace (Z.of_nat (length l1) + Z.of_nat 1) with (Z.of_nat (length (l1 ++ [c])))
    by (rewrite length_app; simpl; lia).
  rewrite u64_small by lia. rewrite Z.shiftl_mul_pow2 by lia. change (2 ^ 1) with 2.
  destruct (IH (l1 ++ [c]) (0 :: drop 2 l2) (blen - Z.of_nat 1) (u64 (v * 2)))
    as (l2' & E & Hl2'); [cbn [length]; rewrite length_drop; lia|lia|].
  exists l2'. rewrite E, tnt_text_u64. split.
  - cbn [tnt_text]. fold c. rewrite <-app_assoc, length_app, (Z.mul_comm v). cbn [length].
    f_equal; f_equal; [|lia]. f_equal. lia.
  - rewrite Hl2'. cbn [length]. rewrite length_drop. lia.
Qed.

Lemma land_1_testbit v : Z.land v 1 = if Z.testbit v 0 then 1 else 0.
Proof.
  change 1 with (Z.ones 1). rewrite Z.land_ones by lia. rewrite Z.bit0_odd. change (2 ^ 1) with 2.
  rewrite Zmod_odd. done.
Qed.

Lemma desc_text_tsx v : 0 <= v < 2 ^ 64 ->
  Z.land (u32 (Z.shiftr v 1)) 1 = (if Z.testbit v 1 then 1 else 0)
  /\ Z.land (u32 v) 1 = (if Z.testbit v 0 then 1 else 0).
Proof.
  intros Hv. unfold u32. rewrite !land_1_testbit, !Z.mod_pow2_bits_low by lia.
  rewrite Z.shiftr_spec by lia. done.
Qed.

Lemma ldiff_nr_flag v : 0 <= v < 2 ^ 64 -> Z.ldiff v NR_FLAG = v mod 2 ^ 63.
Proof.
  intros Hv. apply Z.bits_inj'. intros k Hk. unfold NR_FLAG, BIT63.
  rewrite Z.ldiff_spec, Z.pow2_bits_eqb by lia.
  destruct (Z.lt_ge_cases k 63).
  - rewrite Z.mod_pow2_bits_low, (proj2 (Z.eqb_neq _ _)), andb_true_r by lia. done.
  - rewrite Z.mod_pow2_bits_high by lia. destruct (Z.eqb_spec 63 k); [apply andb_false_r|].
    apply (bounded_iff_bits 64) in Hv as [_ Hv]; [|lia]. by rewrite Hv by lia.
Qed.

(** Every text but a TNT's is a bounded number of pieces. *)
Ltac desc_len :=
  rewrite ?length_app;
  repeat match goal with
  | |- context [length (CFmt.fmt_x ?v)] => pose_new (CFmt.fmt_x_length v)
  | |- context [length (CFmt.fmt_u ?v)] => pose_new (CFmt.fmt_u_length v)
  | |- context [length (CFmt.fmt_d ?v)] => pose_new (CFmt.fmt_d_length v)
  | |- context [length (CFmt.bs ?s)] =>
      let n := eval vm_compute in (length (CFmt.bs s)) in change (length (CFmt.bs s)) with n
  | |- context [length (intel_pt_pkt_name ?t)] =>
      let n := eval vm_compute in (length (intel_pt_pkt_name t)) in
      change (length (intel_pt_pkt_name t)) with n
  end; lia.

Lemma desc_one_snprintf p buf :
  pkt_wf p -> length buf = 256%nat -> type p <> INTEL_PT_TNT ->
  intel_pt_pkt_desc p buf 256 = CFmt.snprintf buf 0 256 (desc_text p)
  /\ (length (desc_text p) < 256)%nat.
Proof.
  intros (Hpl & Hc & _) Hb Ht. unfold intel_pt_pkt_desc, desc_text.
  destruct (type p); try done; try (split; [done|desc_len]);
    try (destruct (count p =? 0); split; (done || desc_len)).
  - unfold u32. rewrite (Z.mod_small (count p)) by lia. split; [done|desc_len].
  - destruct (desc_text_tsx _ Hpl) as [-> ->]. split; [done|desc_len].
  - change (tst ?x NR_FLAG) with (tst x (2 ^ 63)). rewrite tst_pow2, ldiff_nr_flag by lia.
    destruct (Z.testbit _ 63); (split; [done|desc_len]).
Qed.

Lemma desc_tnt_fits p buf :
  pkt_wf p -> length buf = 256%nat -> type p = INTEL_PT_TNT ->
  exists tail, intel_pt_pkt_desc p buf 256
               = Some (Z.of_nat (length (desc_text p)), desc_text p ++ 0 :: tail)
               /\ length (desc_text p ++ 0 :: tail) = 256%nat.
Proof.
  intros Hwf Hb Ht.
  destruct Hwf as (_ & Hc & H47). specialize (H47 Ht).
  unfold intel_pt_pkt_desc, desc_text. rewrite Ht.
  change (CFmt.snprintf buf) with (CFmt.snprintf ([] ++ buf)).
  rewrite CFmt.snprintf_fits by (simpl; lia). cbn [mbind option_bind].
  set (name := intel_pt_pkt_name INTEL_PT_TNT ++ CFmt.bs " ").
  set (rest := 0 :: drop (S (length name)) buf). cbn [app].
  assert (length rest = 252%nat) as Hrest by (subst rest; cbn [length]; rewrite length_drop, Hb; done).
  rewrite u64_small by done.
  destruct (desc_tnt_loop_ok (Z.to_nat (count p)) name rest (256 - Z.of_nat (length name)) (payload p))
    as (l2 & -> & Hl2); [lia|change (length name) with 4%nat; lia|]. cbn [mbind option_bind].
  set (T := tnt_text _ _) in *. set (fin := CFmt.bs " (" ++ _).
  assert (length fin < 30)%nat as Hfin by (subst fin; desc_len).
  assert (length T = Z.to_nat (count p)) as HT by apply length_tnt_text.
  change (length name) with 4%nat in *.
  rewrite app_assoc. rewrite CFmt.snprintf_fits;
    [|rewrite length_app, HT; change (length name) with 4%nat; lia|lia|lia].
  cbn [mbind option_bind]. exists (drop (S (length fin)) l2).
  rewrite !length_app, <-!app_assoc. change (length (CFmt.bs ?x)) with (length (CFmt.bs x)).
  rewrite u64_small by lia.
  assert (s32 (256 - (256 - Z.of_nat 4 - Z.of_nat (Z.to_nat (count p)) - Z.of_nat (length fin)))
          = Z.of_nat (4 + Z.to_nat (count p) + length fin)) as ->.
  { unfold s32, sN. rewrite Z.mod_small by lia.
    rewrite (proj2 (Z.ltb_lt _ _)) by (change (2 ^ (32 - 1)) with 2147483648; lia). lia. }
  split; [|cbn [length]; rewrite length_drop; change (length (intel_pt_pkt_name _)) with 3%nat;
           change (length (CFmt.bs " ")) with 1%nat; lia].
  do 3 f_equal. change (length (intel_pt_pkt_name _)) with 3%nat.
  change (length (CFmt.bs " ")) with 1%nat. lia.
Qed.

(** C38: A 256-byte buffer ([INTEL_PT_PKT_DESC_MAX]) is enough for
    [intel_pt_pkt_desc] on every packet the decoder produces: nothing is
    written outside of it, nothing is truncated, the text is terminated and
    its length returned; a TNT packet is printed as one letter per branch,
    oldest first, with the number of branches. *)
Theorem pkt_desc_fits (p : intel_pt_pkt) (buf : list Z) :
  pkt_wf p -> length buf = 256%nat ->
  exists tail, intel_pt_pkt_desc p buf INTEL_PT_PKT_DESC_MAX
               = Some (Z.of_nat (length (desc_text p)), desc_text p ++ 0 :: tail)
               /\ length (desc_text p ++ 0 :: tail) = 256%nat.
Proof.
  intros Hwf Hb. change INTEL_PT_PKT_DESC_MAX with 256.
  destruct (decide (type p = INTEL_PT_TNT)) as [Ht|Ht].
  - by apply desc_tnt_fits.
  - destruct (desc_one_snprintf p buf Hwf Hb Ht) as [-> Hlen].
    change buf with ([] ++ buf). rewrite CFmt.snprintf_fits by (simpl; lia).
    eexists. split; [reflexivity|]. rewrite length_app. cbn [length]. rewrite length_drop. lia.
Qed.

Lemma pkt_desc_fits_witness :
  exists tail, intel_pt_pkt_desc (mkPkt INTEL_PT_TNT 2 BIT63) (replicate 256 0) INTEL_PT_PKT_DESC_MAX
               = Some (Z.of_nat (length (desc_text (mkPkt INTEL_PT_TNT 2 BIT63))),
                       desc_text (mkPkt INTEL_PT_TNT 2 BIT63) ++ 0 :: tail)
               /\ length (desc_text (mkPkt INTEL_PT_TNT 2 BIT63) ++ 0 :: tail) = 256%nat.
Proof.
  apply (pkt_desc_fits (mkPkt INTEL_PT_TNT 2 BIT63) (replicate 256 0)); [|reflexivity].
  unfold pkt_wf, BIT63; simpl; repeat split; lia.
Defined.

End PtPkt.
