(* ===== verification/ListHead.v ===== *)
(** The kernel's circular doubly linked lists,
    [src/tools/include/linux/list.h].

    A list head is an address; the memory maps an address to its [next] and
    [prev] pointers.  [is_list] relates a head in memory to the sequence of
    nodes it links, and each operation is shown to be the corresponding
    operation on sequences that leaves every other address alone. *)

From stdpp Require Import base option list numbers gmap.
From Stdlib Require Import ZArith Lia Bool.
From S2P Require Import Prelude.

Module ListHead.

Abbreviation ptr := Z.
Abbreviation mem := (gmap Z (Z * Z)).
(** The last element of a sequence, if any. *)
Abbreviation last_elt := last.

Definition LIST_POISON1 : Z := 0x100.
Definition LIST_POISON2 : Z := 0x200.

(** [a->next], [a->prev]; undefined when [a] is not a list head. *)
Definition next (h : mem) (a : ptr) : option ptr := fst <$> h !! a.
Definition prev (h : mem) (a : ptr) : option ptr := snd <$> h !! a.

(** [a->next = v], [a->prev = v] *)
Definition set_next (h : mem) (a v : ptr) : option mem :=
  let* x := h !! a in Some (<[a := (v, snd x)]> h).
Definition set_prev (h : mem) (a v : ptr) : option mem :=
  let* x := h !! a in Some (<[a := (fst x, v)]> h).

Definition INIT_LIST_HEAD (h : mem) (list : ptr) : option mem :=
  let* h := set_next h list list in set_prev h list list.

Definition __list_add (h : mem) (new prev next : ptr) : option mem :=
  let* h := set_prev h next new in
  let* h := set_next h new next in
  let* h := set_prev h new prev in
  set_next h prev new.

Definition list_add (h : mem) (new head : ptr) : option mem :=
  let* n := next h head in __list_add h new head n.

Definition list_add_tail (h : mem) (new head : ptr) : option mem :=
  let* p := prev h head in __list_add h new p head.

Definition __list_del (h : mem) (prev next : ptr) : option mem :=
  let* h := set_prev h next prev in set_next h prev next.

Definition __list_del_entry (h : mem) (entry : ptr) : option mem :=
  let* p := prev h entry in
  let* n := next h entry in
  __list_del h p n.

Definition list_del (h : mem) (entry : ptr) : option mem :=
  let* h := __list_del_entry h entry in
  let* h := set_next h entry LIST_POISON1 in
  set_prev h entry LIST_POISON2.

Definition list_replace (h : mem) (old new : ptr) : option mem :=
  let* n := next h old in
  let* h := set_next h new n in
  let* h := set_prev h n new in
  let* p := prev h old in
  let* h := set_prev h new p in
  set_next h p new.

Definition list_del_init (h : mem) (entry : ptr) : option mem :=
  let* h := __list_del_entry h entry in INIT_LIST_HEAD h entry.

Definition list_move (h : mem) (list head : ptr) : option mem :=
  let* h := __list_del_entry h list in list_add h list head.

Definition list_move_tail (h : mem) (list head : ptr) : option mem :=
  let* h := __list_del_entry h list in list_add_tail h list head.

Definition list_is_last (h : mem) (list head : ptr) : option bool :=
  let* n := next h list in Some (n =? head).

Definition list_empty (h : mem) (head : ptr) : option bool :=
  let* n := next h head in Some (n =? head).

(** * Linked segments *)

(** Consecutive nodes point at each other. *)
Fixpoint seg (nx pv : Z -> option Z) (l : list Z) : Prop :=
  match l with
  | x :: (y :: _) as r => nx x = Some y /\ pv y = Some x /\ seg nx pv r
  | _ => True
  end.

(** [head] is the head of the list of nodes [l]. *)
Definition is_list (h : mem) (head : Z) (l : list Z) : Prop :=
  NoDup (head :: l) /\ seg (next h) (prev h) (head :: l ++ [head]).

Lemma seg_app nx pv l1 x y l2 :
  seg nx pv (l1 ++ x :: y :: l2)
  <-> seg nx pv (l1 ++ [x]) /\ nx x = Some y /\ pv y = Some x /\ seg nx pv (y :: l2).
Proof.
  induction l1 as [|a l1 IH]; simpl; [tauto|].
  destruct l1 as [|b l1]; simpl in *; tauto.
Qed.

Lemma seg_frame nx pv nx' pv' l :
  (forall l1 x, l = l1 ++ [x] -> forall a, a ∈ l1 -> nx' a = nx a) ->
  (forall a, a ∈ tail l -> pv' a = pv a) ->
  seg nx pv l -> seg nx' pv' l.
Proof.
  induction l as [|x [|y r] IH]; simpl; [done..|].
  intros Hn Hp (H1 & H2 & H3). repeat split.
  - destruct (@exists_last _ (y :: r)) as (l1 & z & E); [done|].
    rewrite (Hn (x :: l1) z); [done| |set_solver]. simpl. by rewrite <-E.
  - rewrite Hp; [done|set_solver].
  - apply IH; [|set_solver|done].
    intros l1 z E a Ha. apply (Hn (x :: l1) z); [by rewrite E|set_solver].
Qed.

(** The node before and the node after a position of the list. *)
Definition before (head : Z) (l1 : list Z) : Z := default head (last l1).
Definition after (head : Z) (l2 : list Z) : Z := default head (hd_error l2).

Lemma before_split head l1 : exists A, head :: l1 = A ++ [before head l1].
Proof.
  unfold before. destruct l1 as [|x l1 _] using rev_ind; [by exists []|].
  rewrite last_snoc. by exists (head :: l1).
Qed.

Lemma after_split head l2 : exists B, l2 ++ [head] = after head l2 :: B.
Proof. unfold after. destruct l2; simpl; eauto. Qed.

Lemma before_in head l1 : before head l1 ∈ head :: l1.
Proof. destruct (before_split head l1) as [A ->]. apply elem_of_app. right. by left. Qed.

Lemma after_in head l2 : after head l2 ∈ head :: l2.
Proof. destruct l2; simpl; set_solver. Qed.

Lemma position_disjoint head l1 l2 :
  NoDup (head :: l1 ++ l2) -> (after head l2 ∉ l1) /\ (before head l1 ∉ l2).
Proof.
  intros Hnd. apply NoDup_cons in Hnd as [Hh Hnd]. apply NoDup_app in Hnd as (_ & Hd & _).
  pose proof (after_in head l2) as [->|Ha]%elem_of_cons;
    pose proof (before_in head l1) as [->|Hb]%elem_of_cons; set_solver.
Qed.

(** A split of the circular list into the part up to a position and the part
    after it. *)
Lemma is_list_split h head l1 l2 :
  is_list h head (l1 ++ l2) <->
  NoDup (head :: l1 ++ l2)
  /\ seg (next h) (prev h) (head :: l1) /\ next h (before head l1) = Some (after head l2)
  /\ prev h (after head l2) = Some (before head l1) /\ seg (next h) (prev h) (l2 ++ [head]).
Proof.
  unfold is_list. destruct (before_split head l1) as [A HA], (after_split head l2) as [B HB].
  replace (head :: (l1 ++ l2) ++ [head]) with ((head :: l1) ++ l2 ++ [head])
    by (simpl; by rewrite app_assoc).
  rewrite HA, HB, <-app_assoc. simpl. rewrite seg_app. tauto.
Qed.

(** Memories that agree outside of the two pointers of a position. *)
Lemma splice_frame h head l1 l2 nx' pv' :
  NoDup (head :: l1 ++ l2) ->
  (forall a, a ∈ head :: l1 ++ l2 -> a <> before head l1 -> nx' a = next h a) ->
  (forall a, a ∈ head :: l1 ++ l2 -> a <> after head l2 -> pv' a = prev h a) ->
  seg (next h) (prev h) (head :: l1) -> seg (next h) (prev h) (l2 ++ [head]) ->
  seg nx' pv' (head :: l1) /\ seg nx' pv' (l2 ++ [head]).
Proof.
  intros Hnd Hn Hp Hs1 Hs2. destruct (position_disjoint _ _ _ Hnd) as [Hda Hdb].
  assert (head ∉ l2) as Hh by (apply NoDup_cons in Hnd as [? _]; clear -H; set_solver).
  change (NoDup ((head :: l1) ++ l2)) in Hnd. apply NoDup_app in Hnd as (Hn1 & _ & Hn2). split.
  - apply (seg_frame (next h) (prev h)); [|intros a Ha|done].
    + intros A x E a Ha. destruct (before_split head l1) as [A' E'].
      rewrite E' in E. apply app_inj_tail in E as [-> <-].
      assert (a ∈ head :: l1) as Hin by (rewrite E'; apply elem_of_app; by left).
      apply Hn; [clear -Hin; set_solver|]. intros ->.
      rewrite E' in Hn1. apply NoDup_app in Hn1 as (_ & Hd & _). by apply (Hd _ Ha); left.
    + simpl in Ha. apply Hp; [clear -Ha; set_solver|]. by intros ->.
  - apply (seg_frame (next h) (prev h)); [|intros a Ha|done].
    + intros A x E a Ha. apply app_inj_tail in E as [<- <-].
      apply Hn; [clear -Ha; set_solver|]. by intros ->.
    + destruct l2 as [|x l2]; simpl in *; [by apply elem_of_nil in Ha|].
      apply NoDup_cons in Hn2 as [Hx _].
      apply elem_of_app in Ha as [Ha|Ha%list_elem_of_singleton];
        (apply Hp; [clear -Ha; set_solver|]); [by intros ->|].
      subst a. unfold after. simpl. intros E. apply Hh. rewrite E. by left.
Qed.

(** * Pointer updates *)

Lemma set_next_spec h a v :
  is_Some (h !! a) -> exists h', set_next h a v = Some h'
    /\ (forall b, next h' b = if decide (b = a) then Some v else next h b)
    /\ (forall b, prev h' b = prev h b)
    /\ (forall b, b <> a -> h' !! b = h !! b) /\ dom h' = dom h.
Proof.
  intros [x Hx]. unfold set_next. rewrite Hx. eexists; split; [reflexivity|].
  unfold next, prev. repeat split; intros.
  - rewrite lookup_insert. case_decide; case_decide; by subst.
  - rewrite lookup_insert. case_decide; subst; [by rewrite Hx|done].
  - by rewrite lookup_insert_ne.
  - rewrite dom_insert_L. apply elem_of_dom_2 in Hx. set_solver.
Qed.

Lemma set_prev_spec h a v :
  is_Some (h !! a) -> exists h', set_prev h a v = Some h'
    /\ (forall b, prev h' b = if decide (b = a) then Some v else prev h b)
    /\ (forall b, next h' b = next h b)
    /\ (forall b, b <> a -> h' !! b = h !! b) /\ dom h' = dom h.
Proof.
  intros [x Hx]. unfold set_prev. rewrite Hx. eexists; split; [reflexivity|].
  unfold next, prev. repeat split; intros.
  - rewrite lookup_insert. case_decide; case_decide; by subst.
  - rewrite lookup_insert. case_decide; subst; [by rewrite Hx|done].
  - by rewrite lookup_insert_ne.
  - rewrite dom_insert_L. apply elem_of_dom_2 in Hx. set_solver.
Qed.

Lemma next_is_Some h a b : next h a = Some b -> is_Some (h !! a).
Proof. unfold next. destruct (h !! a); simpl; [eauto|done]. Qed.
(** Perform the next pointer update of the goal. *)
Ltac upd :=
  match goal with
  | |- context [set_next ?h ?a ?v] =>
      let h' := fresh "h" in let E := fresh "E" in
      destruct (set_next_spec h a v) as (h' & E & ? & ? & ? & ?);
      [apply elem_of_dom; set_solver|rewrite E; cbn [mbind option_bind]]
  | |- context [set_prev ?h ?a ?v] =>
      let h' := fresh "h" in let E := fresh "E" in
      destruct (set_prev_spec h a v) as (h' & E & ? & ? & ? & ?);
      [apply elem_of_dom; set_solver|rewrite E; cbn [mbind option_bind]]
  end.

Lemma __list_add_spec h new p n :
  p ∈ dom h -> n ∈ dom h -> new ∈ dom h -> new <> p -> new <> n ->
  exists h', __list_add h new p n = Some h'
    /\ (forall b, next h' b = if decide (b = p) then Some new
                              else if decide (b = new) then Some n else next h b)
    /\ (forall b, prev h' b = if decide (b = n) then Some new
                              else if decide (b = new) then Some p else prev h b)
    /\ (forall b, b <> p -> b <> n -> b <> new -> h' !! b = h !! b) /\ dom h' = dom h.
Proof.
  intros Hp Hn Hnew Hnp Hnn. unfold __list_add.
  destruct (set_prev_spec h n new) as (h1 & -> & P1 & N1 & O1 & D1); [by apply elem_of_dom|].
  cbn [mbind option_bind].
  destruct (set_next_spec h1 new n) as (h2 & -> & N2 & P2 & O2 & D2);
    [apply elem_of_dom; by rewrite D1|]. cbn [mbind option_bind].
  destruct (set_prev_spec h2 new p) as (h3 & -> & P3 & N3 & O3 & D3);
    [apply elem_of_dom; by rewrite D2, D1|]. cbn [mbind option_bind].
  destruct (set_next_spec h3 p new) as (h4 & -> & N4 & P4 & O4 & D4);
    [apply elem_of_dom; by rewrite D3, D2, D1|].
  exists h4. split; [done|]. repeat split.
  - intros b. rewrite N4, N3, N2, N1. done.
  - intros b. rewrite P4, P3, P2, P1. repeat case_decide; congruence.
  - intros b Hb1 Hb2 Hb3. by rewrite O4, O3, O2, O1.
  - congruence.
Qed.

Lemma __list_del_spec h p n :
  p ∈ dom h -> n ∈ dom h ->
  exists h', __list_del h p n = Some h'
    /\ (forall b, next h' b = if decide (b = p) then Some n else next h b)
    /\ (forall b, prev h' b = if decide (b = n) then Some p else prev h b)
    /\ (forall b, b <> p -> b <> n -> h' !! b = h !! b) /\ dom h' = dom h.
Proof.
  intros Hp Hn. unfold __list_del.
  destruct (set_prev_spec h n p) as (h1 & -> & P1 & N1 & O1 & D1); [by apply elem_of_dom|].
  cbn [mbind option_bind].
  destruct (set_next_spec h1 p n) as (h2 & -> & N2 & P2 & O2 & D2);
    [apply elem_of_dom; by rewrite D1|].
  exists h2. split; [done|]. repeat split.
  - intros b. by rewrite N2, N1.
  - intros b. by rewrite P2, P1.
  - intros b Hb1 Hb2. by rewrite O2, O1.
  - congruence.
Qed.

(** * Operations on lists *)

Lemma is_list_dom h head l a : is_list h head l -> a ∈ head :: l -> a ∈ dom h.
Proof.
  intros [_ Hs] Ha. apply elem_of_dom.
  assert (exists l1 l2, head :: l = l1 ++ a :: l2) as (l1 & l2 & E)
    by (by apply list_elem_of_split).
  change (head :: l ++ [head]) with ((head :: l) ++ [head]) in Hs. rewrite E, <-app_assoc in Hs.
  destruct (after_split head l2) as [B HB]. simpl in Hs. rewrite HB in Hs.
  apply seg_app in Hs as (_ & Hs & _). by apply next_is_Some in Hs.
Qed.

(** A list none of whose nodes changed. *)
Lemma is_list_frame h h' head l :
  is_list h head l -> (forall a, a ∈ head :: l -> h' !! a = h !! a) -> is_list h' head l.
Proof.
  intros [Hnd Hs] Hf. split; [done|]. revert Hs. apply seg_frame.
  - intros l1 x E a Ha. unfold next. rewrite Hf; [done|].
    change (head :: l ++ [head]) with ((head :: l) ++ [head]) in E.
    apply app_inj_tail in E as [<- _]. done.
  - intros a Ha. unfold prev. rewrite Hf; [done|]. simpl in Ha. set_solver.
Qed.

(** [__list_add] between the two sides of any position. *)
Lemma insert_between h head l1 l2 new :
  is_list h head (l1 ++ l2) -> new ∈ dom h -> new ∉ head :: l1 ++ l2 ->
  exists h', __list_add h new (before head l1) (after head l2) = Some h'
    /\ is_list h' head (l1 ++ new :: l2)
    /\ (forall a, a <> new -> a ∉ head :: l1 ++ l2 -> h' !! a = h !! a) /\ dom h' = dom h.
Proof.
  intros Hl Hnew Hni. pose proof (before_in head l1) as Hb. pose proof (after_in head l2) as Ha.
  assert (before head l1 ∈ head :: l1 ++ l2) as Hb' by (clear -Hb; set_solver).
  assert (after head l2 ∈ head :: l1 ++ l2) as Ha' by (clear -Ha; set_solver).
  assert (new <> before head l1) as Hnb by (by intros ->).
  assert (new <> after head l2) as Hna by (by intros ->).
  destruct (__list_add_spec h new (before head l1) (after head l2))
    as (h' & -> & N & P & O & D); [by eapply is_list_dom|by eapply is_list_dom|done..|].
  apply is_list_split in Hl as (Hnd & Hs1 & _ & _ & Hs2).
  exists h'. split; [done|]. split.
  2:{ split; [|done]. intros a Ha1 Ha2. apply O; [by intros ->..|done]. }
  destruct (splice_frame h head l1 l2 (next h') (prev h')) as [Hs1' Hs2']; try done.
  { intros a Hin Hne. rewrite N. repeat case_decide; [done|by subst|done]. }
  { intros a Hin Hne. rewrite P. repeat case_decide; [done|by subst|done]. }
  apply is_list_split. split; [|split; [done|split; [|split]]].
  - change (head :: l1 ++ new :: l2) with ((head :: l1) ++ new :: l2).
    rewrite <-(Permutation_middle (head :: l1) l2 new). by constructor.
  - rewrite N. by rewrite decide_True.
  - change (after head (new :: l2)) with new. by rewrite P, decide_False, decide_True.
  - destruct (after_split head l2) as [B HB]. simpl. rewrite HB in Hs2' |- *.
    split; [|split; [|done]].
    + by rewrite N, decide_False, decide_True.
    + by rewrite P, decide_True.
Qed.

(** Unlinking any node. *)
Lemma del_entry_between h head l1 e l2 :
  is_list h head (l1 ++ e :: l2) ->
  exists h', __list_del_entry h e = Some h' /\ is_list h' head (l1 ++ l2)
    /\ (forall a, a ∉ head :: l1 ++ l2 -> h' !! a = h !! a) /\ dom h' = dom h.
Proof.
  intros Hl. pose proof Hl as (Hnd & Hs1 & Hn1 & Hp1 & Hs2)%is_list_split.
  replace (l1 ++ e :: l2) with ((l1 ++ [e]) ++ l2) in Hl by (by rewrite <-app_assoc).
  pose proof Hl as (_ & _ & Hn2 & Hp2 & _)%is_list_split.
  assert (before head (l1 ++ [e]) = e) as Eb by (unfold before; by rewrite last_snoc).
  rewrite Eb in *. change (after head (e :: l2)) with e in Hp1, Hn1.
  destruct (after_split head l2) as [B HB]. simpl in Hs2. rewrite HB in Hs2.
  destruct Hs2 as (_ & _ & Hs2). rewrite <-HB in Hs2.
  unfold __list_del_entry. rewrite Hp1, Hn2. cbn [mbind option_bind].
  pose proof (before_in head l1) as Hbi. pose proof (after_in head l2) as Hai.
  assert (before head l1 ∈ head :: (l1 ++ [e]) ++ l2) as Hb by (clear -Hbi; set_solver).
  assert (after head l2 ∈ head :: (l1 ++ [e]) ++ l2) as Ha by (clear -Hai; set_solver).
  destruct (__list_del_spec h (before head l1) (after head l2))
    as (h' & -> & N & P & O & D); [by eapply is_list_dom..|].
  exists h'. split; [done|].
  assert (NoDup (head :: l1 ++ l2)) as Hnd'.
  { change (NoDup ((head :: l1) ++ e :: l2)) in Hnd. rewrite <-Permutation_middle in Hnd.
    by apply NoDup_cons in Hnd as [_ Hnd]. }
  split; [|split; [|done]].
  - destruct (splice_frame h head l1 l2 (next h') (prev h')) as [Hs1' Hs2']; try done.
    { intros a _ Hne. rewrite N. by case_decide. }
    { intros a _ Hne. rewrite P. by case_decide. }
    apply is_list_split. repeat split; try done.
    + rewrite N. by case_decide.
    + rewrite P. by case_decide.
  - intros a Hna. apply O; intros ->; apply Hna; clear -Hbi Hai; set_solver.
Qed.

(** [list_add] behind a node (or the head) of the list, [list_add_tail] in
    front of a node (or the head). *)
Lemma list_add_ok h head l1 l2 new :
  is_list h head (l1 ++ l2) -> new ∈ dom h -> new ∉ head :: l1 ++ l2 ->
  exists h', list_add h new (before head l1) = Some h'
    /\ is_list h' head (l1 ++ new :: l2)
    /\ (forall a, a <> new -> a ∉ head :: l1 ++ l2 -> h' !! a = h !! a) /\ dom h' = dom h.
Proof.
  intros Hl Hd Hn. unfold list_add.
  pose proof Hl as (_ & _ & -> & _ & _)%is_list_split. by apply insert_between.
Qed.

Lemma list_add_tail_ok h head l1 l2 new :
  is_list h head (l1 ++ l2) -> new ∈ dom h -> new ∉ head :: l1 ++ l2 ->
  exists h', list_add_tail h new (after head l2) = Some h'
    /\ is_list h' head (l1 ++ new :: l2)
    /\ (forall a, a <> new -> a ∉ head :: l1 ++ l2 -> h' !! a = h !! a) /\ dom h' = dom h.
Proof.
  intros Hl Hd Hn. unfold list_add_tail.
  pose proof Hl as (_ & _ & _ & -> & _)%is_list_split. by apply insert_between.
Qed.

Lemma list_del_ok h head l1 e l2 :
  is_list h head (l1 ++ e :: l2) ->
  exists h', list_del h e = Some h' /\ is_list h' head (l1 ++ l2)
    /\ (forall a, a <> e -> a ∉ head :: l1 ++ l2 -> h' !! a = h !! a) /\ dom h' = dom h.
Proof.
  intros Hl. pose proof (is_list_dom _ _ _ e Hl) as He.
  assert (e ∉ head :: l1 ++ l2) as Hne.
  { destruct Hl as [Hnd _]. change (NoDup ((head :: l1) ++ e :: l2)) in Hnd.
    rewrite <-Permutation_middle in Hnd. by apply NoDup_cons in Hnd as [? _]. }
  destruct (del_entry_between _ _ _ _ _ Hl) as (h1 & E1 & Hl1 & O1 & D1).
  unfold list_del. rewrite E1. cbn [mbind option_bind].
  assert (e ∈ dom h1) as He1 by (rewrite D1; apply He; clear; set_solver).
  destruct (set_next_spec h1 e LIST_POISON1) as (h2 & -> & _ & _ & O2 & D2);
    [by apply elem_of_dom|]. cbn [mbind option_bind].
  destruct (set_prev_spec h2 e LIST_POISON2) as (h3 & -> & _ & _ & O3 & D3);
    [apply elem_of_dom; by rewrite D2|].
  exists h3. split; [done|]. split; [|split; [|congruence]].
  - apply (is_list_frame h1); [done|]. intros a Ha.
    assert (a <> e) by (by intros ->). by rewrite O3, O2.
  - intros a Hae Ha. by rewrite O3, O2, O1.
Qed.

Lemma list_empty_ok h head l :
  is_list h head l -> list_empty h head = Some (match l with [] => true | _ => false end).
Proof.
  intros Hl. pose proof Hl as Hl'. change l with ([] ++ l) in Hl'.
  apply is_list_split in Hl' as (_ & _ & Hn & _). unfold list_empty.
  change (before head []) with head in Hn. rewrite Hn. cbn [mbind option_bind].
  unfold after. destruct l as [|x l]; simpl; [by rewrite Z.eqb_refl|].
  destruct Hl as [Hnd _]. f_equal. apply Z.eqb_neq. intros ->.
  apply NoDup_cons in Hnd as [Hnd _]. apply Hnd. by left.
Qed.

(** [list_move] from one list to the front of another, disjoint one. *)
Lemma list_move_ok h head l1 e l2 head' m :
  is_list h head (l1 ++ e :: l2) -> is_list h head' m ->
  (forall a, a ∈ head :: l1 ++ e :: l2 -> a ∉ head' :: m) ->
  exists h', list_move h e head' = Some h'
    /\ is_list h' head (l1 ++ l2) /\ is_list h' head' (e :: m)
    /\ (forall a, a ∉ head :: l1 ++ e :: l2 -> a ∉ head' :: m -> h' !! a = h !! a)
    /\ dom h' = dom h.
Proof.
  intros Hl Hm Hdisj. pose proof (is_list_dom _ _ _ e Hl) as He.
  assert (e ∈ head :: l1 ++ e :: l2) as Hin by (clear; set_solver).
  assert (forall a, a ∈ head :: l1 ++ l2 -> a ∈ head :: l1 ++ e :: l2) as Hsub
    by (clear; set_solver).
  assert (e ∉ head :: l1 ++ l2) as Hne.
  { destruct Hl as [Hnd _]. change (NoDup ((head :: l1) ++ e :: l2)) in Hnd.
    rewrite <-Permutation_middle in Hnd. by apply NoDup_cons in Hnd as [? _]. }
  destruct (del_entry_between _ _ _ _ _ Hl) as (h1 & E1 & Hl1 & O1 & D1).
  unfold list_move. rewrite E1. cbn [mbind option_bind].
  assert (is_list h1 head' m) as Hm1.
  { apply (is_list_frame h); [done|]. intros a Ha. apply O1. intros Ha'.
    apply (Hdisj a); auto. }
  destruct (list_add_ok h1 head' [] m e) as (h2 & E2 & Hm2 & O2 & D2);
    [done|rewrite D1; by apply He|by apply Hdisj|].
  change (before head' []) with head' in E2. rewrite E2. exists h2.
  split; [done|]. split; [|split; [done|split; [|congruence]]].
  - apply (is_list_frame h1); [done|]. intros a Ha. apply O2; [by intros ->|]. by apply Hdisj, Hsub.
  - intros a Ha1 Ha2. rewrite O2, O1; [done|by intros ?%Hsub|by intros ->|done].
Qed.

(** C12: The kernel's intrusive lists implement sequences: on a well-formed
    circular list, [list_add] behind any node inserts exactly there,
    [list_add_tail] in front of any node likewise, [list_del] removes exactly
    that node and [list_empty] tells whether any is left; all of them leave
    memory outside of the list alone and keep it well formed. *)
Theorem list_ops_refine (h : mem) (head : Z) (l1 l2 : list Z) (new : Z) :
  is_list h head (l1 ++ l2) -> new ∈ dom h -> new ∉ head :: l1 ++ l2 ->
  list_empty h head = Some (match l1 ++ l2 with [] => true | _ => false end)
  /\ exists h1 h2 h3,
    list_add h new (before head l1) = Some h1 /\ is_list h1 head (l1 ++ new :: l2)
    /\ list_add_tail h new (after head l2) = Some h2 /\ is_list h2 head (l1 ++ new :: l2)
    /\ list_del h1 new = Some h3 /\ is_list h3 head (l1 ++ l2)
    /\ (forall a, a <> new -> a ∉ head :: l1 ++ l2 ->
          h1 !! a = h !! a /\ h2 !! a = h !! a /\ h3 !! a = h !! a).
Proof.
  intros Hl Hd Hn. split; [by apply list_empty_ok|].
  destruct (list_add_ok h head l1 l2 new Hl Hd Hn) as (h1 & E1 & Hl1 & O1 & D1).
  destruct (list_add_tail_ok h head l1 l2 new Hl Hd Hn) as (h2 & E2 & Hl2 & O2 & D2).
  destruct (list_del_ok h1 head l1 new l2 Hl1) as (h3 & E3 & Hl3 & O3 & D3).
  exists h1, h2, h3. do 6 (split; [done|]).
  intros a Ha1 Ha2. rewrite O3, O1, O2 by done. done.
Qed.

Lemma list_ops_refine_witness :
  let h : mem := <[1 := (2, 2)]> (<[2 := (1, 1)]> (<[3 := (0, 0)]> ∅)) in
  list_empty h 1 = Some false
  /\ exists h1 h2 h3,
    list_add h 3 (before 1 [2]) = Some h1 /\ is_list h1 1 [2; 3]
    /\ list_add_tail h 3 (after 1 []) = Some h2 /\ is_list h2 1 [2; 3]
    /\ list_del h1 3 = Some h3 /\ is_list h3 1 [2]
    /\ (forall a, a <> 3 -> a ∉ [1; 2] ->
          h1 !! a = h !! a /\ h2 !! a = h !! a /\ h3 !! a = h !! a).
Proof.
  intros h. apply (list_ops_refine h 1 [2] [] 3).
  - split; [apply (bool_decide_unpack _); vm_compute; exact I|].
    repeat split.
  - apply elem_of_dom. vm_compute. eauto.
  - apply (bool_decide_unpack _). vm_compute. exact I.
Defined.

End ListHead.
