(* ===== verification/OrderedEvents.v ===== *)
(** Time ordering of perf events,
    [src/tools/perf/util/ordered-events.c] (and [ordered-events.h]).

    A queue of events sorted by time stamp, kept on an intrusive list
    ([ListHead]); events are inserted next to the last inserted one, flushed
    to a callback up to a time limit, and their nodes recycled through a
    cache list or cut from malloc'ed blocks.

    The state [ordered_events] holds the fields of [struct ordered_events]
    and the memory it points into: the links of every list head, the
    [struct ordered_event] nodes, the allocator's next free address and its
    future verdicts ([false] is a failing [malloc]).  The address of a node is
    the address of its [list] member.  [deliver] and [session_done] are the
    callback and the signal flag, which act on a world of their own. *)

From stdpp Require Import base option list numbers gmap sorting.
From Stdlib Require Import ZArith Lia Bool.
From S2P Require Import Prelude ListHead.

Module OrderedEvents.
Import ListHead.

(** A [union perf_event]: what it contains, and its [header.size]. *)
Record perf_event := mkEvent { ev_id : Z; ev_size : Z }.

(** [event] is [None] while the pointer is uninitialised. *)
Record ordered_event := mkNode {
  timestamp : Z;
  file_offset : Z;
  event : option perf_event
}.

Inductive oe_flush := OE_FLUSH__NONE | OE_FLUSH__FINAL | OE_FLUSH__ROUND | OE_FLUSH__HALF.

Record ordered_events := mkOrderedEvents {
  lmem : ListHead.mem;
  nodes : gmap Z ordered_event;
  brk : Z;
  verdicts : list bool;
  last_flush : Z;
  next_flush : Z;
  max_timestamp : Z;
  max_alloc_size : Z;
  cur_alloc_size : Z;
  buffer : Z;
  last : Z;
  buffer_idx : Z;
  nr_events : Z;
  last_flush_type : oe_flush;
  nr_unordered_events : Z;
  copy_on_queue : bool
}.

(** [s] with [v] for its member [m], a projection of [s]. *)
Ltac assign m v s :=
  let t := constr:(mkOrderedEvents (lmem s) (nodes s) (brk s) (verdicts s) (last_flush s)
    (next_flush s) (max_timestamp s) (max_alloc_size s) (cur_alloc_size s) (buffer s) (last s)
    (buffer_idx s) (nr_events s) (last_flush_type s) (nr_unordered_events s) (copy_on_queue s)) in
  match t with context C [m] => let r := context C [v] in exact r end.

Definition set_lmem (x : ListHead.mem) (s : ordered_events) : ordered_events := ltac:(assign (lmem s) x s).
Definition set_nodes (x : gmap Z ordered_event) (s : ordered_events) : ordered_events := ltac:(assign (nodes s) x s).
Definition set_brk (x : Z) (s : ordered_events) : ordered_events := ltac:(assign (brk s) x s).
Definition set_verdicts (x : list bool) (s : ordered_events) : ordered_events := ltac:(assign (verdicts s) x s).
Definition set_last_flush (x : Z) (s : ordered_events) : ordered_events := ltac:(assign (last_flush s) x s).
Definition set_next_flush (x : Z) (s : ordered_events) : ordered_events := ltac:(assign (next_flush s) x s).
Definition set_max_timestamp (x : Z) (s : ordered_events) : ordered_events := ltac:(assign (max_timestamp s) x s).
Definition set_max_alloc_size (x : Z) (s : ordered_events) : ordered_events := ltac:(assign (max_alloc_size s) x s).
Definition set_cur_alloc_size (x : Z) (s : ordered_events) : ordered_events := ltac:(assign (cur_alloc_size s) x s).
Definition set_buffer (x : Z) (s : ordered_events) : ordered_events := ltac:(assign (buffer s) x s).
Definition set_last (x : Z) (s : ordered_events) : ordered_events := ltac:(assign (last s) x s).
Definition set_buffer_idx (x : Z) (s : ordered_events) : ordered_events := ltac:(assign (buffer_idx s) x s).
Definition set_nr_events (x : Z) (s : ordered_events) : ordered_events := ltac:(assign (nr_events s) x s).
Definition set_last_flush_type (x : oe_flush) (s : ordered_events) : ordered_events := ltac:(assign (last_flush_type s) x s).
Definition set_nr_unordered_events (x : Z) (s : ordered_events) : ordered_events := ltac:(assign (nr_unordered_events s) x s).
Definition set_copy_on_queue (x : bool) (s : ordered_events) : ordered_events := ltac:(assign (copy_on_queue s) x s).

(** [NULL], and [&oe->events], [&oe->cache], [&oe->to_free]. *)
Definition NULL : Z := 0.
Definition EVENTS : Z := 1.
Definition CACHE : Z := 2.
Definition TO_FREE : Z := 3.

Definition ULLONG_MAX : Z := 2 ^ 64 - 1.
Definition ETIME : Z := 62.
Definition ENOMEM : Z := 12.

(** [64 * 1024 / sizeof(struct ordered_event)] with a size of 40. *)
Definition SIZEOF_ordered_event : Z := 40.
Definition MAX_SAMPLE_BUFFER : Z := 64 * 1024 / SIZEOF_ordered_event.

(** [p->timestamp] *)
Definition ts_of (s : ordered_events) (p : Z) : option Z := timestamp <$> nodes s !! p.

(** A list operation on the memory of the state. *)
Definition on_lists (f : mem -> option mem) (s : ordered_events) : option ordered_events :=
  let* h := f (lmem s) in Some (set_lmem h s).

(** Enough steps for any walk over nodes that are all different. *)
Definition walk_fuel (s : ordered_events) : nat := S (size (nodes s)).

(** [while (last->timestamp <= timestamp)]: [Some None] is the early return at
    the head of the list, [Some (Some last)] the end of the loop. *)
Fixpoint walk_fwd (fuel : nat) (s : ordered_events) (last ts : Z) : option (option Z) :=
  match fuel with
  | O => None
  | S fuel =>
      let* t := ts_of s last in
      if t <=? ts then
        let* p := next (lmem s) last in
        if p =? EVENTS then Some None else walk_fwd fuel s p ts
      else Some (Some last)
  end.

(** [while (last->timestamp > timestamp)] *)
Fixpoint walk_back (fuel : nat) (s : ordered_events) (last ts : Z) : option (option Z) :=
  match fuel with
  | O => None
  | S fuel =>
      let* t := ts_of s last in
      if t >? ts then
        let* p := prev (lmem s) last in
        if p =? EVENTS then Some None else walk_back fuel s p ts
      else Some (Some last)
  end.

Definition queue_event (oe : ordered_events) (new : Z) : option ordered_events :=
  let last := last oe in
  let* timestamp := ts_of oe new in
  let oe := set_nr_events (u32 (nr_events oe + 1)) oe in
  let oe := set_last new oe in
  if last =? NULL then
    let* oe := on_lists (fun h => list_add h new EVENTS) oe in
    Some (set_max_timestamp timestamp oe)
  else
  let* last_ts := ts_of oe last in
  if last_ts <=? timestamp then
    let* r := walk_fwd (walk_fuel oe) oe last timestamp in
    match r with
    | None =>
        let* oe := on_lists (fun h => list_add_tail h new EVENTS) oe in
        Some (set_max_timestamp timestamp oe)
    | Some last => on_lists (fun h => list_add_tail h new last) oe
    end
  else
    let* r := walk_back (walk_fuel oe) oe last timestamp in
    match r with
    | None => on_lists (fun h => list_add h new EVENTS) oe
    | Some last => on_lists (fun h => list_add h new last) oe
    end.

(** The verdict of the next [malloc]. *)
Definition malloc_verdict (s : ordered_events) : bool * ordered_events :=
  match verdicts s with
  | [] => (true, s)
  | v :: r => (v, set_verdicts r s)
  end.

Definition __dup_event (oe : ordered_events) (event : perf_event)
    : option perf_event * ordered_events :=
  if cur_alloc_size oe <? max_alloc_size oe then
    let '(ok, oe) := malloc_verdict oe in
    if (ok : bool)
    then (Some event, set_cur_alloc_size (u64 (cur_alloc_size oe + ev_size event)) oe)
    else (None, oe)
  else (None, oe).

Definition dup_event (oe : ordered_events) (event : perf_event)
    : option perf_event * ordered_events :=
  if copy_on_queue oe then __dup_event oe event else (Some event, oe).

Definition free_dup_event (oe : ordered_events) (event : perf_event) : ordered_events :=
  if copy_on_queue oe
  then set_cur_alloc_size (u64 (cur_alloc_size oe - ev_size event)) oe
  else oe.

(** The nodes of a block of [MAX_SAMPLE_BUFFER] nodes. *)
Definition block (b : Z) : list Z := seqZ b MAX_SAMPLE_BUFFER.

(** [malloc(MAX_SAMPLE_BUFFER * sizeof(struct ordered_event))]: uninitialised
    nodes at a fresh address. *)
Definition malloc_block (oe : ordered_events) : Z * ordered_events :=
  let '(ok, oe) := malloc_verdict oe in
  if (ok : bool) then
    let b := brk oe in
    let oe := set_brk (b + MAX_SAMPLE_BUFFER) oe in
    let oe := set_lmem (list_to_map ((fun a => (a, (0, 0))) <$> block b) ∪ lmem oe) oe in
    (b, set_nodes (list_to_map ((fun a => (a, mkNode 0 0 None)) <$> block b) ∪ nodes oe) oe)
  else (NULL, oe).

(** The end of [alloc_event], [new->event = new_event; return new;]: undefined
    when [new] is NULL. *)
Definition alloc_finish (oe : ordered_events) (new : Z) (new_event : perf_event)
    : option (Z * ordered_events) :=
  let* n := nodes oe !! new in
  Some (new, set_nodes (<[new := mkNode (timestamp n) (file_offset n) (Some new_event)]> (nodes oe)) oe).

Definition alloc_event (oe : ordered_events) (event : perf_event)
    : option (Z * ordered_events) :=
  let '(new_event, oe) := dup_event oe event in
  match new_event with
  | None => Some (NULL, oe)
  | Some new_event =>
      let* cache_empty := list_empty (lmem oe) CACHE in
      if negb cache_empty then
        let* new := next (lmem oe) CACHE in
        let* oe := on_lists (fun h => list_del h new) oe in
        alloc_finish oe new new_event
      else if negb (buffer oe =? NULL) then
        let new := buffer oe + buffer_idx oe in
        let oe := set_buffer_idx (buffer_idx oe + 1) oe in
        let oe := if buffer_idx oe =? MAX_SAMPLE_BUFFER then set_buffer NULL oe else oe in
        alloc_finish oe new new_event
      else if cur_alloc_size oe <? max_alloc_size oe then
        let size := MAX_SAMPLE_BUFFER * SIZEOF_ordered_event in
        let '(b, oe) := malloc_block oe in
        let oe := set_buffer b oe in
        if b =? NULL then Some (NULL, free_dup_event oe new_event)
        else
          let oe := set_cur_alloc_size (u64 (cur_alloc_size oe + size)) oe in
          let* oe := on_lists (fun h => list_add h b TO_FREE) oe in
          let oe := set_buffer_idx 2 oe in
          alloc_finish oe (b + 1) new_event
      else alloc_finish oe NULL new_event
  end.

Definition set_timestamp (oe : ordered_events) (p t : Z) : option ordered_events :=
  let* n := nodes oe !! p in
  Some (set_nodes (<[p := mkNode t (file_offset n) (event n)]> (nodes oe)) oe).

Definition set_file_offset (oe : ordered_events) (p o : Z) : option ordered_events :=
  let* n := nodes oe !! p in
  Some (set_nodes (<[p := mkNode (timestamp n) o (event n)]> (nodes oe)) oe).

Definition ordered_events__new_event (oe : ordered_events) (timestamp : Z) (event : perf_event)
    : option (Z * ordered_events) :=
  let* (new, oe) := alloc_event oe event in
  if new =? NULL then Some (NULL, oe) else
  let* oe := set_timestamp oe new timestamp in
  let* oe := queue_event oe new in
  Some (new, oe).

Definition ordered_events__delete (oe : ordered_events) (p : Z) : option ordered_events :=
  let* oe := on_lists (fun h => list_move h p CACHE) oe in
  let oe := set_nr_events (u32 (nr_events oe - 1)) oe in
  let* n := nodes oe !! p in
  let* ev := event n in
  Some (free_dup_event oe ev).

Section Flush.
Context {W : Type} (deliver : W -> ordered_event -> Z * W) (session_done : W -> bool).

(** [list_for_each_entry_safe(iter, tmp, head, list)]: [inl] is a [return] out
    of the loop, [inr] its end. *)
Fixpoint flush_loop (fuel : nat) (oe : ordered_events) (w : W) (iter tmp limit : Z)
    : option (Z * ordered_events * W + ordered_events * W) :=
  match fuel with
  | O => None
  | S fuel =>
      if iter =? EVENTS then Some (inr (oe, w)) else
      if session_done w then Some (inl (0, oe, w)) else
      let* n := nodes oe !! iter in
      if timestamp n >? limit then Some (inr (oe, w)) else
      let '(ret, w) := deliver w n in
      if negb (ret =? 0) then Some (inl (ret, oe, w)) else
      let* oe := ordered_events__delete oe iter in
      let oe := set_last_flush (timestamp n) oe in
      let* tmp' := next (lmem oe) tmp in
      flush_loop fuel oe w tmp tmp' limit
  end.

Definition __ordered_events__flush (oe : ordered_events) (w : W)
    : option (Z * ordered_events * W) :=
  let limit := next_flush oe in
  let* last_ts := if last oe =? NULL then Some 0 else ts_of oe (last oe) in
  if limit =? 0 then Some (0, oe, w) else
  let* iter := next (lmem oe) EVENTS in
  let* tmp := next (lmem oe) iter in
  let* r := flush_loop (S (walk_fuel oe)) oe w iter tmp limit in
  match r with
  | inl r => Some r
  | inr (oe, w) =>
      let* empty := list_empty (lmem oe) EVENTS in
      if (empty : bool) then Some (0, set_last NULL oe, w) else
      if last_ts <=? limit then
        let* p := prev (lmem oe) EVENTS in
        Some (0, set_last p oe, w)
      else Some (0, oe, w)
  end.

(** The [switch (how)]; [None] is the early [return 0]. *)
Definition flush_limit (oe : ordered_events) (how : oe_flush)
    : option (option ordered_events) :=
  match how with
  | OE_FLUSH__FINAL => Some (Some (set_next_flush ULLONG_MAX oe))
  | OE_FLUSH__HALF =>
      let* first := next (lmem oe) EVENTS in
      let last := last oe in
      let* empty := list_empty (lmem oe) EVENTS in
      if (last =? NULL) || empty then Some None else
      let* first_ts := ts_of oe first in
      let* last_ts := ts_of oe last in
      Some (Some (set_next_flush (u64 (first_ts + u64 (last_ts - first_ts) / 2)) oe))
  | OE_FLUSH__ROUND | OE_FLUSH__NONE => Some (Some oe)
  end.

Definition ordered_events__flush (oe : ordered_events) (w : W) (how : oe_flush)
    : option (Z * ordered_events * W) :=
  if nr_events oe =? 0 then Some (0, oe, w) else
  let* r := flush_limit oe how in
  match r with
  | None => Some (0, oe, w)
  | Some oe =>
      let* (err, oe, w) := __ordered_events__flush oe w in
      if err =? 0 then
        let oe := match how with
                  | OE_FLUSH__ROUND => set_next_flush (max_timestamp oe) oe
                  | _ => oe
                  end in
        Some (err, set_last_flush_type how oe, w)
      else Some (err, oe, w)
  end.

(** [timestamp] is [sample->time]. *)
Definition ordered_events__queue (oe : ordered_events) (w : W) (event : perf_event)
    (timestamp file_offset : Z) : option (Z * ordered_events * W) :=
  if (timestamp =? 0) || (timestamp =? ULLONG_MAX) then Some (- ETIME, oe, w) else
  let oe := if timestamp <? last_flush oe
            then set_nr_unordered_events (u32 (nr_unordered_events oe + 1)) oe else oe in
  let* (oevent, oe) := ordered_events__new_event oe timestamp event in
  let* (oevent, oe, w) :=
    if oevent =? NULL then
      let* (_, oe, w) := ordered_events__flush oe w OE_FLUSH__HALF in
      let* (oevent, oe) := ordered_events__new_event oe timestamp event in
      Some (oevent, oe, w)
    else Some (oevent, oe, w) in
  if oevent =? NULL then Some (- ENOMEM, oe, w) else
  let* oe := set_file_offset oe oevent file_offset in
  Some (0, oe, w).

End Flush.

Definition ordered_events__init (oe : ordered_events) : option ordered_events :=
  let* oe := on_lists (fun h => INIT_LIST_HEAD h EVENTS) oe in
  let* oe := on_lists (fun h => INIT_LIST_HEAD h CACHE) oe in
  let* oe := on_lists (fun h => INIT_LIST_HEAD h TO_FREE) oe in
  Some (set_cur_alloc_size 0 (set_max_alloc_size ULLONG_MAX oe)).

(** [free(event)] of the first node of a block. *)
Definition free_block (oe : ordered_events) (b : Z) : ordered_events :=
  let oe := set_lmem (foldr delete (lmem oe) (block b)) oe in
  set_nodes (foldr delete (nodes oe) (block b)) oe.

(** [while (!list_empty(&oe->to_free))]; with [copy_on_queue],
    [free_dup_event] reads the uninitialised [event] of the block's first
    node. *)
Fixpoint free_loop (fuel : nat) (oe : ordered_events) : option ordered_events :=
  match fuel with
  | O => None
  | S fuel =>
      let* empty := list_empty (lmem oe) TO_FREE in
      if (empty : bool) then Some oe else
      let* ev := next (lmem oe) TO_FREE in
      let* oe := on_lists (fun h => list_del h ev) oe in
      let* oe := if copy_on_queue oe
                 then let* n := nodes oe !! ev in
                      let* e := event n in Some (free_dup_event oe e)
                 else Some oe in
      free_loop fuel (free_block oe ev)
  end.

Definition ordered_events__free (oe : ordered_events) : option ordered_events :=
  free_loop (walk_fuel oe) oe.

(** [memset(oe, 0, sizeof( *oe))]: the fields, not the memory. *)
Definition memset_oe (oe : ordered_events) : ordered_events :=
  mkOrderedEvents
    (<[EVENTS := (0, 0)]> (<[CACHE := (0, 0)]> (<[TO_FREE := (0, 0)]> (lmem oe))))
    (nodes oe) (brk oe) (verdicts oe) 0 0 0 0 0 NULL NULL 0 0 OE_FLUSH__NONE 0 false.

Definition ordered_events__reinit (oe : ordered_events) : option ordered_events :=
  let* oe := ordered_events__free oe in ordered_events__init (memset_oe oe).

(** [struct ordered_events] in zeroed memory, then [ordered_events__init]. *)
Definition zero_oe (verdicts : list bool) : ordered_events :=
  memset_oe (mkOrderedEvents ∅ ∅ 16 verdicts 0 0 0 0 0 0 0 0 0 OE_FLUSH__NONE 0 false).

(** * Invariant *)

Definition heads : list Z := [EVENTS; CACHE; TO_FREE].

(** The nodes of the current block that are still free. *)
Definition pool (s : ordered_events) : list Z :=
  if buffer s =? NULL then []
  else seqZ (buffer s + buffer_idx s) (MAX_SAMPLE_BUFFER - buffer_idx s).

Definition ts (s : ordered_events) (a : Z) : Z := default 0 (ts_of s a).

(** [L], [C] and [F] are the events queue, the cache and the list of blocks,
    [N] the nodes handed out and not yet queued.  All of them and the free
    nodes are distinct and allocated; the queue is sorted, and [nr_events] and
    [max_timestamp] describe it. *)
Record core (s : ordered_events) (L C F N : list Z) : Prop := {
  inv_events : is_list (lmem s) EVENTS L;
  inv_cache : is_list (lmem s) CACHE C;
  inv_free : is_list (lmem s) TO_FREE F;
  inv_nodup : NoDup (heads ++ L ++ C ++ F ++ pool s ++ N);
  inv_dom : forall a, a ∈ L ++ C ++ pool s ++ N ->
    16 <= a /\ a ∈ dom (lmem s) /\ a ∈ dom (nodes s);
  inv_init : forall a, a ∈ L -> exists n e, nodes s !! a = Some n /\ event n = Some e;
  inv_range : forall a, a ∈ L -> 0 < ts s a < ULLONG_MAX;
  inv_idx : buffer s <> NULL -> 1 <= buffer_idx s < MAX_SAMPLE_BUFFER;
  inv_brk : 16 <= brk s /\ forall a, a ∈ dom (lmem s) \/ a ∈ dom (nodes s) -> a < brk s;
  inv_sorted : StronglySorted (fun a b => ts s a <= ts s b) L;
  inv_nr : nr_events s = Z.of_nat (length L) /\ Z.of_nat (length L) < 2 ^ 32;
  inv_max : forall l a, L = l ++ [a] -> max_timestamp s = ts s a
}.

(** Between operations, [last] points into the queue. *)
Definition last_ok (s : ordered_events) (L : list Z) : Prop :=
  match L with [] => last s = NULL | _ => last s ∈ L end.

Definition inv (s : ordered_events) (L C F N : list Z) : Prop :=
  core s L C F N /\ last_ok s L.

(** Permutations of concatenations, by counting. *)
Ltac perm_solve :=
  apply (Permutation_count_occ Z.eq_dec); intros ?;
  repeat first [rewrite count_occ_app | progress cbn [count_occ app]];
  repeat destruct (Z.eq_dec _ _); lia.

Lemma nodup_disjoint {l : list Z} (l1 l2 rest : list Z) (a : Z) :
  NoDup l -> l ≡ₚ l1 ++ l2 ++ rest -> a ∈ l1 -> a ∉ l2.
Proof.
  intros Hnd Hp Ha Ha2. rewrite Hp in Hnd. apply NoDup_app in Hnd as (_ & Hd & _).
  apply (Hd a Ha). apply elem_of_app. by left.
Qed.

Lemma nodup_perm (l l' : list Z) : NoDup l -> l ≡ₚ l' -> NoDup l'.
Proof. by intros H <-. Qed.

(** * Walking the queue *)

Section Walk.
Context (s : ordered_events) (L : list Z).
Context (HL : is_list (lmem s) EVENTS L) (Hdom : forall a, a ∈ L -> a ∈ dom (nodes s)).

Lemma ts_of_in a : a ∈ L -> ts_of s a = Some (ts s a).
Proof using Hdom.
  intros Ha. unfold ts, ts_of. destruct (elem_of_dom (nodes s) a) as [H _].
  destruct (H (Hdom a Ha)) as [n ->]. done.
Qed.

Lemma next_in l1 x l2 : L = l1 ++ x :: l2 -> next (lmem s) x = Some (after EVENTS l2).
Proof using HL.
  intros E. rewrite E in HL. replace (l1 ++ x :: l2) with ((l1 ++ [x]) ++ l2) in HL
    by (by rewrite <-app_assoc).
  apply is_list_split in HL as (_ & _ & Hn & _). unfold before in Hn. by rewrite last_snoc in Hn.
Qed.

Lemma prev_in l1 x l2 : L = l1 ++ x :: l2 -> prev (lmem s) x = Some (before EVENTS l1).
Proof using HL.
  intros E. rewrite E in HL. by apply is_list_split in HL as (_ & _ & _ & Hp & _).
Qed.

Lemma events_not_in a : a ∈ L -> (a =? EVENTS) = false.
Proof using HL.
  intros Ha. apply Z.eqb_neq. intros ->. destruct HL as [Hnd _].
  by apply NoDup_cons in Hnd as [? _].
Qed.

(** Forward: the walk from [x] stops at the first later time stamp. *)
Lemma walk_fwd_ok fuel l1 x l2 t :
  L = l1 ++ x :: l2 -> (length l2 < fuel)%nat ->
  exists a b, x :: l2 = a ++ b /\ Forall (fun y => ts s y <= t) a
    /\ walk_fwd fuel s x t = Some (hd_error b)
    /\ (forall y, hd_error b = Some y -> t < ts s y).
Proof using HL Hdom.
  revert l1 x l2. induction fuel as [|fuel IH]; intros l1 x l2 E Hf; [lia|].
  assert (x ∈ L) as Hx by (rewrite E; apply elem_of_app; right; by left).
  cbn [walk_fwd]. rewrite (ts_of_in x Hx). cbn [mbind option_bind].
  destruct (Z.leb_spec (ts s x) t) as [Hle|Hgt].
  2:{ exists [], (x :: l2). repeat split; [constructor|]. by intros y [= <-]. }
  rewrite (next_in _ _ _ E). cbn [mbind option_bind].
  destruct l2 as [|y l2].
  { exists [x], []. repeat split; [by constructor|done]. }
  change (after EVENTS (y :: l2)) with y.
  rewrite events_not_in by (rewrite E; clear; set_solver).
  destruct (IH (l1 ++ [x]) y l2) as (a & b & Eab & Ha & -> & Hb);
    [by rewrite <-app_assoc|simpl in Hf; lia|].
  exists (x :: a), b. repeat split; [by rewrite Eab|by constructor|done].
Qed.

(** Backward: the walk from [x] stops at the last time stamp that is not
    later. *)
Lemma walk_back_ok fuel l1 x l2 t :
  L = l1 ++ x :: l2 -> (length l1 < fuel)%nat ->
  exists a b, l1 ++ [x] = a ++ b /\ Forall (fun y => t < ts s y) b
    /\ walk_back fuel s x t = Some (last_elt a)
    /\ (forall y, last_elt a = Some y -> ts s y <= t).
Proof using HL Hdom.
  revert l1 x l2. induction fuel as [|fuel IH]; intros l1 x l2 E Hf; [lia|].
  assert (x ∈ L) as Hx by (rewrite E; apply elem_of_app; right; by left).
  cbn [walk_back]. rewrite (ts_of_in x Hx). cbn [mbind option_bind].
  destruct (Z.gtb_spec (ts s x) t) as [Hgt|Hle].
  2:{ exists (l1 ++ [x]), []. rewrite last_snoc, app_nil_r. repeat split; [constructor|].
      by intros y [= <-]. }
  rewrite (prev_in _ _ _ E). cbn [mbind option_bind].
  destruct l1 as [|y l1 _] using rev_ind.
  { exists [], [x]. repeat split; [by constructor|done]. }
  unfold before. rewrite last_snoc. simpl default.
  rewrite events_not_in by (rewrite E; clear; set_solver).
  destruct (IH l1 y (x :: l2)) as (a & b & Eab & Hb & -> & Ha).
  { by rewrite E, <-app_assoc. }
  { rewrite length_app in Hf. simpl in Hf. lia. }
  exists a, (b ++ [x]). repeat split; [by rewrite Eab, app_assoc|..|done].
  apply Forall_app. split; [done|by constructor].
Qed.

End Walk.

Lemma after_hd h b : after h b = match hd_error b with Some y => y | None => h end.
Proof. by destruct b. Qed.
Lemma before_last h a : before h a = match last_elt a with Some y => y | None => h end.
Proof. unfold before. by destruct (last_elt a). Qed.

(** * Insertion *)

Lemma walk_fuel_enough s (L : list Z) :
  NoDup L -> (forall a, a ∈ L -> a ∈ dom (nodes s)) -> (length L < walk_fuel s)%nat.
Proof.
  intros Hnd Hd. unfold walk_fuel. rewrite <-(size_dom (nodes s)).
  rewrite <-(size_list_to_set (C := gset Z) L Hnd).
  assert (list_to_set (C := gset Z) L ⊆ dom (nodes s)) as Hs.
  { intros a Ha. apply Hd. by apply elem_of_list_to_set in Ha. }
  apply subseteq_size in Hs. lia.
Qed.

(** Where a sorted queue is split by a time stamp. *)
Definition splits (s : ordered_events) (t : Z) (A B : list Z) : Prop :=
  Forall (fun a => ts s a <= t) A /\ Forall (fun a => t < ts s a) B.

Lemma sorted_split_l s l1 x l2 t :
  StronglySorted (fun a b => ts s a <= ts s b) (l1 ++ x :: l2) -> ts s x <= t ->
  Forall (fun a => ts s a <= t) l1.
Proof.
  intros Hs Hx. apply StronglySorted_app in Hs as (H & _ & _). apply Forall_forall.
  intros a Ha. specialize (H a x Ha ltac:(by left)). lia.
Qed.

Lemma sorted_split_r s l1 x l2 t :
  StronglySorted (fun a b => ts s a <= ts s b) (l1 ++ x :: l2) -> t < ts s x ->
  Forall (fun a => t < ts s a) (x :: l2).
Proof.
  intros Hs Hx. apply StronglySorted_app in Hs as (_ & _ & Hs).
  apply StronglySorted_inv in Hs as [_ Hs]. constructor; [done|].
  eapply Forall_impl; [exact Hs|]. simpl. lia.
Qed.

(** The two walks of [queue_event] find the same position, wherever they
    start. *)
Lemma walk_fwd_splits s L l1 x l2 t :
  is_list (lmem s) EVENTS L -> (forall a, a ∈ L -> a ∈ dom (nodes s)) ->
  StronglySorted (fun a b => ts s a <= ts s b) L ->
  L = l1 ++ x :: l2 -> ts s x <= t ->
  exists A B, L = A ++ B /\ splits s t A B
    /\ walk_fwd (walk_fuel s) s x t = Some (hd_error B).
Proof.
  intros HL Hd Hs E Hx. pose proof (walk_fuel_enough s L) as Hf.
  destruct (walk_fwd_ok s L HL Hd (walk_fuel s) l1 x l2 t E) as (a & b & Eab & Ha & -> & Hb).
  { rewrite E in Hf. rewrite length_app in Hf. simpl in Hf. destruct HL as [Hnd _].
    rewrite E in Hnd. apply NoDup_cons in Hnd as [_ Hnd]. rewrite E in Hd.
    specialize (Hf Hnd Hd). lia. }
  exists (l1 ++ a), b. split; [by rewrite E, Eab, app_assoc|]. split; [split|done].
  - apply Forall_app. split; [|done]. rewrite E in Hs. by eapply sorted_split_l.
  - destruct b as [|y b]; [constructor|].
    rewrite E, Eab, app_assoc in Hs. eapply sorted_split_r; [exact Hs|]. by apply Hb.
Qed.

Lemma walk_back_splits s L l1 x l2 t :
  is_list (lmem s) EVENTS L -> (forall a, a ∈ L -> a ∈ dom (nodes s)) ->
  StronglySorted (fun a b => ts s a <= ts s b) L ->
  L = l1 ++ x :: l2 -> t < ts s x ->
  exists A B, L = A ++ B /\ splits s t A B /\ B <> []
    /\ walk_back (walk_fuel s) s x t = Some (last_elt A).
Proof.
  intros HL Hd Hs E Hx. pose proof (walk_fuel_enough s L) as Hf.
  destruct (walk_back_ok s L HL Hd (walk_fuel s) l1 x l2 t E) as (a & b & Eab & Hb & -> & Ha).
  { rewrite E in Hf. rewrite length_app in Hf. simpl in Hf. destruct HL as [Hnd _].
    rewrite E in Hnd. apply NoDup_cons in Hnd as [_ Hnd]. rewrite E in Hd.
    specialize (Hf Hnd Hd). lia. }
  assert (L = a ++ (b ++ l2)) as EL.
  { rewrite E, app_assoc, <-Eab, <-app_assoc. done. }
  exists a, (b ++ l2). split; [done|]. split; [split|split].
  - destruct a as [|y a _] using rev_ind; [constructor|].
    rewrite EL, <-app_assoc in Hs. rewrite last_snoc in Ha.
    apply Forall_app. split; [|constructor; [by apply Ha|constructor]].
    eapply sorted_split_l; [exact Hs|by apply Ha].
  - apply Forall_app. split; [done|]. rewrite E in Hs.
    apply sorted_split_r with (t := t) in Hs; [|done]. by apply Forall_inv_tail in Hs.
  - intros [-> _]%app_nil. rewrite app_nil_r in Eab. rewrite <-Eab, last_snoc in Ha.
    specialize (Ha x eq_refl). lia.
  - done.
Qed.

(** The state after an insertion between [A] and [B]. *)
Definition queued (s : ordered_events) (h : mem) (new : Z) (B : list Z) : ordered_events :=
  let s := set_last new (set_nr_events (u32 (nr_events s + 1)) s) in
  let s := set_lmem h s in
  match B with [] => set_max_timestamp (ts s new) s | _ => s end.

Lemma queue_event_exec s L C F new :
  inv s L C F [new] ->
  exists A B h, L = A ++ B /\ splits s (ts s new) A B
    /\ queue_event s new = Some (queued s h new B)
    /\ is_list h EVENTS (A ++ new :: B)
    /\ (forall a, a <> new -> a ∉ EVENTS :: L -> h !! a = lmem s !! a) /\ dom h = dom (lmem s).
Proof.
  intros HI. destruct HI as [[] inv_last0].
  assert (new ∈ dom (lmem s) /\ new ∈ dom (nodes s)) as [Hnl Hnn]
    by (apply inv_dom0; rewrite !elem_of_app; right; right; right; by left).
  assert (new ∉ EVENTS :: L) as Hni.
  { eapply (nodup_disjoint [new] (EVENTS :: L) _ new inv_nodup0); [|by left].
    instantiate (1 := [CACHE; TO_FREE] ++ C ++ F ++ pool s). unfold heads. perm_solve. }
  assert (forall a, a ∈ L -> a ∈ dom (nodes s)) as HdL
    by (intros a Ha; apply inv_dom0; apply elem_of_app; by left).
  unfold queue_event.
  assert (ts_of s new = Some (ts s new)) as ->.
  { apply elem_of_dom in Hnn as [n Hn]. unfold ts, ts_of. by rewrite Hn. }
  cbn [mbind option_bind].
  set (s1 := set_last new (set_nr_events (u32 (nr_events s + 1)) s)).
  destruct (Z.eqb_spec (last s) NULL) as [H0|H0].
  - destruct L as [|x L].
    2:{ exfalso. assert (16 <= last s); [|rewrite H0 in *; unfold NULL in *; lia].
        apply inv_dom0. apply elem_of_app. by left. }
    destruct (list_add_ok (lmem s) EVENTS [] [] new) as (h & E & Hl & O & D); [done..|].
    exists [], [], h. split; [done|]. split; [split; constructor|].
    unfold on_lists. change (lmem s1) with (lmem s). change (before EVENTS []) with EVENTS in E.
    rewrite E. done.
  - assert (last s ∈ L) as Hlast by (by destruct L).
    apply list_elem_of_split in Hlast as Hsp. destruct Hsp as (l1 & l2 & EL).
    change (ts_of s1 (last s)) with (ts_of s (last s)).
    rewrite (ts_of_in s L HdL _ Hlast). cbn [mbind option_bind].
    destruct (Z.leb_spec (ts s (last s)) (ts s new)) as [Hle|Hgt].
    + destruct (walk_fwd_splits s1 L l1 (last s) l2 (ts s new)) as (A & B & E & Hs & Hw); try done.
      rewrite Hw. cbn [mbind option_bind]. rewrite E in Hni, inv_events0.
      destruct (list_add_tail_ok (lmem s) EVENTS A B new) as (h & Eh & Hl & O & D); [done..|].
      exists A, B, h. split; [done|]. split; [done|]. rewrite E.
      rewrite after_hd in Eh. unfold on_lists. change (lmem s1) with (lmem s).
      destruct B as [|y B]; simpl hd_error in *; cbn iota in *; rewrite Eh; done.
    + destruct (walk_back_splits s1 L l1 (last s) l2 (ts s new)) as (A & B & E & Hs & HB & Hw); try done.
      rewrite Hw. cbn [mbind option_bind]. rewrite E in Hni, inv_events0.
      destruct (list_add_ok (lmem s) EVENTS A B new) as (h & Eh & Hl & O & D); [done..|].
      exists A, B, h. split; [done|]. split; [done|]. rewrite E.
      rewrite before_last in Eh. unfold on_lists. change (lmem s1) with (lmem s).
      destruct B as [|y B]; [done|].
      destruct (last_elt A); cbn iota in *; rewrite Eh; done.
Qed.

(** Lists other than the queue are not touched. *)
Lemma other_list_frame s h head (l : list Z) L new :
  is_list (lmem s) head l ->
  (forall a, a <> new -> a ∉ EVENTS :: L -> h !! a = lmem s !! a) ->
  (forall a, a ∈ head :: l -> a ∉ new :: EVENTS :: L) -> is_list h head l.
Proof.
  intros Hl O Hd. apply (is_list_frame (lmem s)); [done|]. intros a Ha.
  specialize (Hd a Ha). apply not_elem_of_cons in Hd as [? ?]. by apply O.
Qed.

Lemma sorted_insert s t A B new :
  splits s t A B -> ts s new = t ->
  StronglySorted (fun a b => ts s a <= ts s b) (A ++ B) ->
  StronglySorted (fun a b => ts s a <= ts s b) (A ++ new :: B).
Proof.
  intros [HA HB] Ht Hs. apply StronglySorted_app in Hs as (HAB & HsA & HsB).
  rewrite Forall_forall in HA, HB. apply StronglySorted_app. split; [|split; [done|]].
  - intros x y Hx [->|Hy]%elem_of_cons; [rewrite Ht; auto|auto].
  - constructor; [done|]. apply Forall_forall. intros y Hy. specialize (HB y Hy). lia.
Qed.

Lemma queue_event_inv s L C F new n e :
  inv s L C F [new] -> nodes s !! new = Some n -> event n = Some e ->
  0 < ts s new < ULLONG_MAX -> Z.of_nat (S (length L)) < 2 ^ 32 ->
  exists A B h, L = A ++ B /\ splits s (ts s new) A B
    /\ queue_event s new = Some (queued s h new B)
    /\ inv (queued s h new B) (A ++ new :: B) C F [].
Proof.
  intros HI Hn He Hts0 Hlen.
  destruct (queue_event_exec s L C F new HI) as (A & B & h & EL & Hs & Eq & Hl & O & D).
  exists A, B, h. do 3 (split; [done|]). destruct HI as [[] inv_last0]. subst L.
  set (s' := queued s h new B).
  assert (forall a, ts s' a = ts s a) as Hts by (intros a; subst s'; by destruct B).
  assert (lmem s' = h) as El by (subst s'; by destruct B).
  assert (nodes s' = nodes s) as En by (subst s'; by destruct B).
  assert (pool s' = pool s) as Ep by (subst s'; by destruct B).
  assert (brk s' = brk s /\ buffer s' = buffer s /\ buffer_idx s' = buffer_idx s
          /\ last s' = new /\ nr_events s' = u32 (nr_events s + 1)) as (Eb & Ebu & Ebi & Ela & Enr)
    by (subst s'; by destruct B).
  assert (forall head l rest, heads ++ (A ++ B) ++ C ++ F ++ pool s ++ [new]
             ≡ₚ (head :: l) ++ (new :: EVENTS :: A ++ B) ++ rest ->
          is_list (lmem s) head l -> is_list h head l) as Hother.
  { intros head l rest Hp Hl'. eapply other_list_frame; [done|done|].
    intros a Ha. by eapply nodup_disjoint. }
  split.
  2:{ unfold last_ok. rewrite Ela. destruct (A ++ new :: B) eqn:E0; [by destruct A|].
      rewrite <-E0. clear; set_solver. }
  constructor; rewrite ?El, ?En, ?Ep, ?Eb, ?Ebu, ?Ebi.
  - done.
  - eapply (Hother _ _ (TO_FREE :: F ++ pool s)); [|done]. unfold heads. perm_solve.
  - eapply (Hother _ _ (CACHE :: C ++ pool s)); [|done]. unfold heads. perm_solve.
  - eapply nodup_perm; [exact inv_nodup0|]. perm_solve.
  - intros a Ha. rewrite D. apply inv_dom0. revert Ha. clear. set_solver.
  - intros a [Ha|[->|Ha]%elem_of_cons]%elem_of_app; [|by eauto|];
      apply inv_init0, elem_of_app; auto.
  - intros a Ha. rewrite Hts. apply elem_of_app in Ha as [Ha|[->|Ha]%elem_of_cons]; [|done|];
      apply inv_range0, elem_of_app; auto.
  - done.
  - rewrite D. done.
  - pose proof (sorted_insert s _ A B new Hs eq_refl inv_sorted0) as Hs'.
    eapply sorted_impl; [|exact Hs']. intros x y. by rewrite !Hts.
  - destruct inv_nr0 as [En0 _]. rewrite Enr, En0, u32_small, !length_app;
      rewrite ?length_app in *; simpl length; lia.
  - intros l a Ea. subst s'. destruct B as [|y B].
    + apply app_inj_tail in Ea as [_ <-]. done.
    + destruct (@exists_last _ (y :: B)) as (B' & z & EB); [done|].
      cbn [queued max_timestamp set_last set_nr_events set_lmem]. rewrite EB in Ea, inv_max0.
      change (A ++ new :: B' ++ [z]) with (A ++ (new :: B') ++ [z]) in Ea.
      rewrite app_assoc in Ea. apply app_inj_tail in Ea as [_ <-].
      rewrite Hts. apply (inv_max0 (A ++ B')). by rewrite app_assoc.
Qed.

(** The specification of an insertion: after every event that is not later,
    before every event that is. *)
Definition spec_insert (s : ordered_events) (new : Z) (L : list Z) : list Z :=
  filter (fun a => ts s a <= ts s new) L ++ new :: filter (fun a => ts s new < ts s a) L.

Lemma splits_filter s t A B :
  splits s t A B ->
  filter (fun a => ts s a <= t) (A ++ B) = A /\ filter (fun a => t < ts s a) (A ++ B) = B.
Proof.
  intros [HA HB]. rewrite Forall_forall in HA, HB. rewrite !filter_app. split.
  - rewrite (list_filter_all _ A), (list_filter_none _ B), app_nil_r;
      [done|intros a Ha; specialize (HB a Ha); lia|done].
  - rewrite (list_filter_none _ A), (list_filter_all _ B);
      [done|done|intros a Ha; specialize (HA a Ha); lia].
Qed.

(** C9: Queueing keeps the event queue sorted and stable, whatever event was
    queued last: the pointer walk of [queue_event] that starts at [oe->last]
    never leaves the queue, ends, and inserts the new event behind all events
    that are not later and in front of all later ones; the whole state
    invariant (links, sortedness, [last], [nr_events], [max_timestamp], cache
    and free blocks) is kept. *)
Theorem queue_event_refines (s : ordered_events) (L C F : list Z) (new : Z)
    (n : ordered_event) (e : perf_event) :
  inv s L C F [new] -> nodes s !! new = Some n -> event n = Some e ->
  0 < ts s new < ULLONG_MAX -> Z.of_nat (S (length L)) < 2 ^ 32 ->
  exists s', queue_event s new = Some s' /\ inv s' (spec_insert s new L) C F []
    /\ nodes s' = nodes s.
Proof.
  intros HI Hn He Ht Hl.
  destruct (queue_event_inv s L C F new n e HI Hn He Ht Hl) as (A & B & h & -> & Hs & Eq & HI').
  exists (queued s h new B). split; [done|]. unfold spec_insert.
  destruct (splits_filter _ _ _ _ Hs) as [-> ->]. split; [done|]. by destruct B.
Qed.

(** * Flushing *)

(** The fields that delivering events changes. *)
Definition flushed (s : ordered_events) (h : mem) (nr cur lf : Z) : ordered_events :=
  set_last_flush lf (set_cur_alloc_size cur (set_nr_events nr (set_lmem h s))).

Lemma flushed_id s : flushed s (lmem s) (nr_events s) (cur_alloc_size s) (last_flush s) = s.
Proof. by destruct s. Qed.

(** The front of the queue goes to the cache. *)
Lemma delete_ok s a L C F :
  core s (a :: L) C F [] ->
  exists h nr cur, ordered_events__delete s a = Some (flushed s h nr cur (last_flush s))
    /\ (copy_on_queue s = false -> cur = cur_alloc_size s)
    /\ forall lf, core (flushed s h nr cur lf) L (a :: C) F [].
Proof.
  intros []. 
  destruct (list_move_ok (lmem s) EVENTS [] a L CACHE C) as (h & E & Hl & Hc & O & D); [done|done| |].
  { intros x. eapply (nodup_disjoint _ _ (TO_FREE :: F ++ pool s)); [exact inv_nodup0|].
    unfold heads. perm_solve. }
  destruct (inv_init0 a ltac:(by left)) as (n & e & Hn & He).
  unfold ordered_events__delete, on_lists. rewrite E. cbn [mbind option_bind].
  cbn [nodes set_nr_events set_lmem]. rewrite Hn. cbn [mbind option_bind]. rewrite He.
  cbn [mbind option_bind].
  exists h, (u32 (nr_events s - 1)), (cur_alloc_size (free_dup_event s e)). split.
  { unfold free_dup_event. cbn [copy_on_queue set_nr_events set_lmem].
    by destruct (copy_on_queue s). }
  split; [unfold free_dup_event; by intros ->|].
  intros lf. constructor; cbn [flushed lmem nodes brk buffer buffer_idx nr_events max_timestamp
    set_last_flush set_cur_alloc_size set_nr_events set_lmem];
    change (pool (flushed _ _ _ _ _)) with (pool s) in *.
  - done.
  - done.
  - apply (is_list_frame (lmem s)); [done|]. intros x Hx. apply O.
    + eapply (nodup_disjoint (TO_FREE :: F) _ (CACHE :: C ++ pool s)); [exact inv_nodup0| |done].
      unfold heads. perm_solve.
    + eapply (nodup_disjoint (TO_FREE :: F) _ (EVENTS :: a :: L ++ pool s)); [exact inv_nodup0| |done].
      unfold heads. perm_solve.
  - eapply nodup_perm; [exact inv_nodup0|]. perm_solve.
  - intros x Hx. rewrite D. apply inv_dom0. revert Hx. clear. set_solver.
  - intros x Hx. apply inv_init0. by right.
  - intros x Hx. apply inv_range0. by right.
  - done.
  - rewrite D. done.
  - by apply StronglySorted_inv in inv_sorted0 as [? _].
  - destruct inv_nr0 as [-> ?]. cbn [length] in *. rewrite u32_small by lia. lia.
  - intros l x ->. by apply (inv_max0 (a :: l)).
Qed.

Section FlushSpec.
Context {W : Type} (deliver : W -> ordered_event -> Z * W) (session_done : W -> bool).

(** What a flush does to a sequence of events: an early return code, how many
    events were delivered and the world after it. *)
Fixpoint spec_deliver (limit : Z) (w : W) (evs : list ordered_event) : option Z * nat * W :=
  match evs with
  | [] => (None, O, w)
  | n :: r =>
      if session_done w then (Some 0, O, w) else
      if timestamp n >? limit then (None, O, w) else
      let '(ret, w) := deliver w n in
      if negb (ret =? 0) then (Some ret, O, w) else
      let '(res, k, w) := spec_deliver limit w r in (res, S k, w)
  end.

(** The events of queue [L]. *)
Definition events_of (s : ordered_events) (L : list Z) : list ordered_event :=
  default (mkNode 0 0 None) <$> ((fun a => nodes s !! a) <$> L).

Lemma after_next s L C F : core s L C F [] -> next (lmem s) EVENTS = Some (after EVENTS L).
Proof using.
  intros []. change L with ([] ++ L) in inv_events0.
  by apply is_list_split in inv_events0 as (_ & _ & ? & _).
Qed.

Lemma flush_loop_ok fuel s w L C F tmp limit :
  core s L C F [] -> (length L < fuel)%nat ->
  (forall x L', L = x :: L' -> tmp = after EVENTS L') ->
  let '(res, k, w') := spec_deliver limit w (events_of s L) in
  exists h nr cur lf,
    flush_loop deliver session_done fuel s w (after EVENTS L) tmp limit
      = Some (match res with
              | Some r => inl (r, flushed s h nr cur lf, w')
              | None => inr (flushed s h nr cur lf, w')
              end)
    /\ core (flushed s h nr cur lf) (drop k L) (rev (take k L) ++ C) F []
    /\ (forall l x, take k L = l ++ [x] -> lf = ts s x)
    /\ (k = O -> lf = last_flush s)
    /\ (copy_on_queue s = false -> cur = cur_alloc_size s).
Proof using.
  revert s w L C tmp. induction fuel as [|fuel IH]; intros s w L C tmp HC Hf Ht; [lia|].
  destruct L as [|a L].
  { cbn. exists (lmem s), (nr_events s), (cur_alloc_size s), (last_flush s).
    rewrite flushed_id. split; [done|]. split; [done|]. split; [by intros []|done]. }
  assert (exists n, nodes s !! a = Some n) as [n Hn].
  { destruct HC. destruct (inv_init0 a) as (n & ? & ? & ?); [by left|]. by exists n. }
  assert (forall res k (w' : W), k = O ->
    exists h nr cur lf,
      Some (match res : option Z with
            | Some r => inl (r, s, w')
            | None => inr (s, w')
            end)
      = Some (match res with
              | Some r => inl (r, flushed s h nr cur lf, w')
              | None => inr (flushed s h nr cur lf, w')
              end)
      /\ core (flushed s h nr cur lf) (drop k (a :: L)) (rev (take k (a :: L)) ++ C) F []
      /\ (forall l x, take k (a :: L) = l ++ [x] -> lf = ts s x)
      /\ (k = O -> lf = last_flush s)
      /\ (copy_on_queue s = false -> cur = cur_alloc_size s)) as Hstop.
  { intros res k w' ->. exists (lmem s), (nr_events s), (cur_alloc_size s), (last_flush s).
    rewrite flushed_id. split; [done|]. split; [done|]. split; [by intros []|done]. }
  unfold events_of in *. cbn [fmap list_fmap spec_deliver flush_loop].
  change (after EVENTS (a :: L)) with a. rewrite Hn. cbn [default from_option id].
  destruct (Z.eqb_spec a EVENTS) as [->|_].
  { exfalso. destruct HC. destruct inv_events0 as [Hnd _].
    apply NoDup_cons in Hnd as [Hnd _]. apply Hnd. by left. }
  destruct (session_done w); [exact (Hstop (Some 0) O w eq_refl)|]. cbn [mbind option_bind].
  destruct (timestamp n >? limit); [exact (Hstop None O w eq_refl)|].
  destruct (deliver w n) as [ret w1] eqn:Ed.
  destruct (negb (ret =? 0)); [exact (Hstop (Some ret) O w1 eq_refl)|].
  destruct (delete_ok s a L C F HC) as (h1 & nr1 & cur1 & -> & Hcur1 & HC1). cbn [mbind option_bind].
  specialize (HC1 (timestamp n)).
  set (s1 := flushed s h1 nr1 cur1 (timestamp n)) in *.
  change (set_last_flush (timestamp n) (flushed s h1 nr1 cur1 (last_flush s))) with s1.
  assert (tmp = after EVENTS L) as -> by (by eapply Ht).
  assert (exists tmp', next (lmem s1) (after EVENTS L) = Some tmp'
          /\ forall x L', L = x :: L' -> tmp' = after EVENTS L') as (tmp' & -> & Ht').
  { destruct L as [|y L]; [exists EVENTS; split; [exact (after_next _ _ _ _ HC1)|done]|].
    exists (after EVENTS L). split; [|by intros x L' [= <- <-]].
    destruct HC1. by apply (next_in s1 (y :: L) inv_events0 []). }
  cbn [mbind option_bind].
  specialize (IH s1 w1 L (a :: C) tmp' HC1 ltac:(simpl in Hf; lia) Ht').
  change (fun a0 => nodes s1 !! a0) with (fun a0 => nodes s !! a0) in IH.
  destruct (spec_deliver limit w1 _) as [[res k] w2] eqn:Es.
  destruct IH as (h2 & nr2 & cur2 & lf2 & -> & HC2 & Hlf & Hk0 & Hcur2).
  exists h2, nr2, cur2, lf2.
  change (flushed s1 h2 nr2 cur2 lf2) with (flushed s h2 nr2 cur2 lf2) in *.
  split; [done|]. cbn [take drop rev]. rewrite <-app_assoc. split; [done|]. split.
  2:{ split; [done|]. intros Hco. rewrite (Hcur2 Hco). by apply Hcur1. }
  intros l x E. destruct k as [|k].
  - rewrite Hk0 by done. destruct l as [|? []]; simplify_eq/=.
    subst s1. cbn [last_flush flushed set_last_flush].
    unfold ts, ts_of. by rewrite Hn.
  - destruct (take (S k) L) as [|y l' _] eqn:El using rev_ind.
    + destruct L; simplify_eq/=.
    + change (a :: l' ++ [y]) with ((a :: l') ++ [y]) in E. apply app_inj_tail in E as [_ <-].
      change (ts s y) with (ts s1 y). by eapply Hlf.
Qed.

(** The loop delivers events up to the limit, and all of them when it is not
    left early. *)
Lemma spec_deliver_cut limit w evs :
  let '(res, k, _) := spec_deliver limit w evs in
  Forall (fun n => timestamp n <= limit) (take k evs)
  /\ (res = None -> forall n r, drop k evs = n :: r -> limit < timestamp n).
Proof using.
  revert w. induction evs as [|n evs IH]; intros w; cbn [spec_deliver]; [done|].
  destruct (session_done w); [done|].
  destruct (Z.gtb_spec (timestamp n) limit) as [Hgt|Hle].
  { split; [constructor|]. by intros _ ? ? [= <- <-]. }
  destruct (deliver w n) as [ret w1]. destruct (negb (ret =? 0)); [done|].
  specialize (IH w1). destruct (spec_deliver limit w1 evs) as [[res k] w2].
  destruct IH. split; [by constructor|done].
Qed.

End FlushSpec.

(** A callback that always succeeds and records what it is given, in a session
    that is not interrupted. *)
Definition log_deliver (w : list ordered_event) (n : ordered_event) : Z * list ordered_event :=
  (0, w ++ [n]).
Definition never_done (w : list ordered_event) : bool := false.

Lemma spec_deliver_log limit w evs :
  exists k, spec_deliver log_deliver never_done limit w evs = (None, k, w ++ take k evs).
Proof.
  revert w. induction evs as [|n evs IH]; intros w; cbn [spec_deliver never_done].
  { exists O. by rewrite app_nil_r. }
  destruct (timestamp n >? limit); [exists O; by rewrite app_nil_r|].
  unfold log_deliver at 1. cbn [Z.eqb negb].
  destruct (IH (w ++ [n])) as (k & ->). exists (S k). cbn [take]. by rewrite <-app_assoc.
Qed.

Lemma events_of_take s k L : take k (events_of s L) = events_of s (take k L).
Proof. unfold events_of. by rewrite !fmap_take. Qed.
Lemma events_of_drop s k L : drop k (events_of s L) = events_of s (drop k L).
Proof. unfold events_of. by rewrite !fmap_drop. Qed.

Lemma events_of_ts s a : timestamp (default (mkNode 0 0 None) (nodes s !! a)) = ts s a.
Proof. unfold ts, ts_of. by destruct (nodes s !! a). Qed.

(** The delivered prefix and the rest are split by the limit. *)
Lemma spec_deliver_splits {W} deliver session_done s limit (w : W) L k w' :
  StronglySorted (fun a b => ts s a <= ts s b) L ->
  spec_deliver deliver session_done limit w (events_of s L) = (None, k, w') ->
  splits s limit (take k L) (drop k L).
Proof.
  intros Hs E. pose proof (spec_deliver_cut deliver session_done limit w (events_of s L)) as H.
  rewrite E in H. destruct H as [Hf Hd]. specialize (Hd eq_refl).
  rewrite events_of_take in Hf. rewrite events_of_drop in Hd. split.
  - unfold events_of in Hf. rewrite !Forall_fmap in Hf.
    eapply Forall_impl; [exact Hf|]. intros a. simpl. by rewrite events_of_ts.
  - destruct (drop k L) as [|a B] eqn:EB; [constructor|].
    apply (sorted_split_r s (take k L)); [by rewrite <-EB, take_drop|].
    rewrite <-events_of_ts. by eapply Hd.
Qed.

(** What a flush leaves alone. *)
Record same_env (s s' : ordered_events) : Prop := {
  se_nodes : nodes s' = nodes s;
  se_max : max_timestamp s' = max_timestamp s;
  se_limit : max_alloc_size s' = max_alloc_size s;
  se_unordered : nr_unordered_events s' = nr_unordered_events s;
  se_copy : copy_on_queue s' = copy_on_queue s;
  se_verdicts : verdicts s' = verdicts s;
  se_cur : copy_on_queue s = false -> cur_alloc_size s' = cur_alloc_size s
}.

(** What a flush of queue [L] leaves in [s'], when it stopped with [res] after
    [k] events. *)
Record after_flush (s s' : ordered_events) (L C F : list Z) (res : option Z) (k : nat) : Prop := {
  af_core : core s' (drop k L) (rev (take k L) ++ C) F [];
  af_inv : res = None -> inv s' (drop k L) (rev (take k L) ++ C) F [];
  af_early : res <> None -> last s' = last s;
  af_env : same_env s s';
  af_last : forall l x, take k L = l ++ [x] -> last_flush s' = ts s x;
  af_none : take k L = [] -> last_flush s' = last_flush s
}.

(** [oe->last] at the end of the loop. *)
Lemma last_after s s1 L C F k :
  inv s L C F [] -> splits s (next_flush s) (take k L) (drop k L) ->
  core s1 (drop k L) (rev (take k L) ++ C) F [] -> last s1 = last s ->
  exists v, (let* empty := list_empty (lmem s1) EVENTS in
       if (empty : bool) then Some NULL else
       if (if last s =? NULL then 0 else ts s (last s)) <=? next_flush s then prev (lmem s1) EVENTS
       else Some (last s1)) = Some v
    /\ last_ok (set_last v s1) (drop k L).
Proof.
  intros [HC Hlast] Hsp HC' Hl1. pose proof HC as []. pose proof HC' as [].
  rewrite (list_empty_ok _ EVENTS (drop k L)) by done. cbn [mbind option_bind].
  destruct (drop k L) as [|a B] eqn:EB; [by exists NULL|].
  destruct (Z.leb_spec (if last s =? NULL then 0 else ts s (last s)) (next_flush s)) as [Hle|Hgt].
  - destruct (@exists_last _ (a :: B)) as (B' & z & EB'); [done|]. exists z.
    rewrite EB' in inv_events1. rewrite <-(app_nil_r (B' ++ [z])) in inv_events1.
    apply is_list_split in inv_events1 as (_ & _ & _ & Hp & _).
    unfold before in Hp. rewrite last_snoc in Hp. split; [done|]. simpl. rewrite EB'. clear. set_solver.
  - exists (last s1). split; [done|]. cbn [last_ok set_last last]. rewrite Hl1.
    assert (L <> []) as HLne by (by intros ->; rewrite drop_nil in EB).
    assert (last s ∈ L) as Hin by (unfold last_ok in Hlast; by destruct L).
    rewrite <-(take_drop k L), EB in Hin. apply elem_of_app in Hin as [Hin|]; [|done].
    exfalso. destruct Hsp as [Hsp _]. rewrite Forall_forall in Hsp. specialize (Hsp _ Hin).
    simpl in Hsp. destruct (Z.eqb_spec (last s) NULL) as [E0|]; [|lia].
    assert (16 <= last s) as H16; [|rewrite E0 in H16; unfold NULL in H16; lia].
    apply inv_dom0. apply elem_of_app. left. rewrite <-(take_drop k L). apply elem_of_app. by left.
Qed.

Section FlushOk.
Context {W : Type} (deliver : W -> ordered_event -> Z * W) (session_done : W -> bool).

Lemma __flush_ok s w L C F :
  inv s L C F [] -> next_flush s <> 0 ->
  let '(res, k, w') := spec_deliver deliver session_done (next_flush s) w (events_of s L) in
  exists s', __ordered_events__flush deliver session_done s w = Some (default 0 res, s', w')
    /\ after_flush s s' L C F res k /\ next_flush s' = next_flush s.
Proof using.
  intros HI Hnf. pose proof HI as [HC Hlast]. pose proof HC as [].
  assert (forall a, a ∈ L -> a ∈ dom (nodes s)) as HdL
    by (intros a Ha; apply inv_dom0; apply elem_of_app; by left).
  unfold __ordered_events__flush.
  assert ((if last s =? NULL then Some 0 else ts_of s (last s))
          = Some (if last s =? NULL then 0 else ts s (last s))) as ->.
  { destruct (Z.eqb_spec (last s) NULL) as [|Hnz]; [done|].
    destruct L; [done|]. by apply (ts_of_in s _ HdL). }
  cbn [mbind option_bind]. rewrite (proj2 (Z.eqb_neq _ _) Hnf).
  rewrite (after_next _ _ _ _ HC). cbn [mbind option_bind].
  assert (exists tmp, next (lmem s) (after EVENTS L) = Some tmp
          /\ forall x L', L = x :: L' -> tmp = after EVENTS L') as (tmp & -> & Htmp).
  { destruct L as [|y L]; [exists EVENTS; split; [exact (after_next _ _ _ _ HC)|done]|].
    exists (after EVENTS L). split; [|by intros x L' [= <- <-]].
    by apply (next_in s (y :: L) inv_events0 []). }
  cbn [mbind option_bind].
  pose proof (flush_loop_ok deliver session_done (S (walk_fuel s)) s w L C F tmp (next_flush s) HC)
    as Hloop.
  destruct (spec_deliver deliver session_done (next_flush s) w (events_of s L))
    as [[res k] w'] eqn:E.
  destruct Hloop as (h & nr & cur & lf & -> & HC' & Hlf & Hk0 & Hcur).
  { pose proof (walk_fuel_enough s L) as Hw. destruct inv_events0 as [Hnd _].
    apply NoDup_cons in Hnd as [_ Hnd]. specialize (Hw Hnd HdL). lia. }
  { done. }
  cbn [mbind option_bind]. set (s1 := flushed s h nr cur lf) in *.
  assert (take k L = [] -> lf = last_flush s) as Hlf0.
  { intros Ek. destruct k; [by apply Hk0|]. destruct L; [|done]. cbn in E. simplify_eq. }
  destruct res as [r|]; [exists s1; split; [done|]; by split; [split|]|].
  destruct (last_after s s1 L C F k HI) as (v & Ev & Hv);
    [by eapply spec_deliver_splits|done|done|].
  exists (set_last v s1). assert (core (set_last v s1) (drop k L) (rev (take k L) ++ C) F [])
    by (by destruct HC').
  split; [|by split; [split|]].
  revert Ev. destruct (list_empty (lmem s1) EVENTS) as [[|]|]; cbn [mbind option_bind default];
    [by intros [= <-]| |done].
  destruct (_ <=? _); [by intros ->|]. by intros [= <-].
Qed.

End FlushOk.

(** * Allocation *)

Lemma sorted_ts_ext s s' (L : list Z) :
  (forall a, a ∈ L -> ts s' a = ts s a) ->
  StronglySorted (fun a b => ts s a <= ts s b) L ->
  StronglySorted (fun a b => ts s' a <= ts s' b) L.
Proof.
  intros Hts. induction 1 as [|x l _ IH Hf]; constructor.
  - apply IH. intros a Ha. apply Hts. by right.
  - rewrite Forall_forall in *. intros y Hy. rewrite !Hts; [by apply Hf|by right|by left].
Qed.

(** Rewriting nodes that are not queued. *)
Lemma core_set_nodes s L C F N m :
  core s L C F N -> (forall a, a ∈ L -> m !! a = nodes s !! a) -> dom m = dom (nodes s) ->
  core (set_nodes m s) L C F N.
Proof.
  intros [] Hm Hd. assert (forall a, a ∈ L -> ts (set_nodes m s) a = ts s a) as Hts.
  { intros a Ha. unfold ts, ts_of. simpl. by rewrite Hm. }
  constructor; try done; cbn [nodes lmem brk set_nodes].
  - intros a Ha. rewrite Hd. by apply inv_dom0.
  - intros a Ha. rewrite Hm by done. by apply inv_init0.
  - intros a Ha. rewrite Hts by done. by apply inv_range0.
  - rewrite Hd. done.
  - by apply sorted_ts_ext with (s := s).
  - intros l a ->. rewrite Hts; [by eapply inv_max0|]. apply elem_of_app. right. by left.
Qed.

(** The fields that allocation leaves alone. *)
Record same_queue (s s' : ordered_events) : Prop := {
  sq_last : last s' = last s;
  sq_nr : nr_events s' = nr_events s;
  sq_flush : last_flush s' = last_flush s;
  sq_next : next_flush s' = next_flush s;
  sq_max : max_timestamp s' = max_timestamp s;
  sq_limit : max_alloc_size s' = max_alloc_size s;
  sq_unordered : nr_unordered_events s' = nr_unordered_events s;
  sq_copy : copy_on_queue s' = copy_on_queue s
}.

(** A node was handed out for event [ev]. *)
Definition handed_out (s s' : ordered_events) (L C F : list Z) (new : Z) (ev : perf_event)
    (C' F' : list Z) : Prop :=
  core s' L C' F' [new] /\ same_queue s s' /\ new <> NULL
  /\ (exists n, nodes s' !! new = Some n /\ event n = Some ev)
  /\ (forall a, a ∈ L -> nodes s' !! a = nodes s !! a)
  /\ (F' = F /\ cur_alloc_size s' = cur_alloc_size s
      \/ exists b, F' = b :: F
         /\ cur_alloc_size s' = u64 (cur_alloc_size s + MAX_SAMPLE_BUFFER * SIZEOF_ordered_event)).

(** [alloc_finish] on an allocated node that is not queued. *)
Lemma alloc_finish_ok s0 s L C F new ev :
  core s L C F [new] ->
  exists m n, alloc_finish s new ev = Some (new, set_nodes m s)
    /\ core (set_nodes m s) L C F [new] /\ new <> NULL
    /\ m !! new = Some n /\ event n = Some ev
    /\ (same_queue s0 s -> same_queue s0 (set_nodes m s))
    /\ (forall a, a ∈ L -> m !! a = nodes s !! a).
Proof.
  intros HC. assert (new ∉ L) as HnL.
  { destruct HC. eapply (nodup_disjoint [new] L (heads ++ C ++ F ++ pool s)); [done| |by left].
    perm_solve. }
  assert (16 <= new /\ new ∈ dom (nodes s)) as [H16 Hd].
  { destruct HC. destruct (inv_dom0 new) as (? & _ & ?); [|done].
    rewrite !elem_of_app. right; right; right. by left. }
  pose proof Hd as [n Hn]%elem_of_dom. unfold alloc_finish. rewrite Hn. cbn [mbind option_bind].
  set (n' := mkNode _ _ _). exists (<[new := n']> (nodes s)), n'.
  assert (forall a, a ∈ L -> <[new := n']> (nodes s) !! a = nodes s !! a) as HL.
  { intros a Ha. apply lookup_insert_ne. by intros ->. }
  split; [done|]. split; [|split; [unfold NULL; lia|]].
  - apply core_set_nodes; [done|done|]. rewrite dom_insert_L. clear -Hd. set_solver.
  - rewrite lookup_insert_eq. split; [done|]. split; [done|]. split; [by intros []|done].
Qed.

Lemma alloc_from_cache s L c C F :
  core s L (c :: C) F [] ->
  exists h, list_del (lmem s) c = Some h /\ core (set_lmem h s) L C F [c].
Proof.
  intros []. destruct (list_del_ok (lmem s) CACHE [] c C inv_cache0) as (h & E & Hl & O & D).
  exists h. split; [done|].
  assert (forall head l rest, heads ++ L ++ (c :: C) ++ F ++ pool s ++ []
             ≡ₚ (head :: l) ++ (c :: CACHE :: C) ++ rest ->
          is_list (lmem s) head l -> is_list h head l) as Hother.
  { intros head l rest Hp Hl'. apply (is_list_frame (lmem s)); [done|]. intros a Ha.
    assert (a ∉ c :: CACHE :: C) as Hn by (by eapply nodup_disjoint).
    apply not_elem_of_cons in Hn as [? ?]. by apply O. }
  constructor; cbn [lmem nodes brk buffer buffer_idx nr_events max_timestamp set_lmem];
    change (pool (set_lmem h s)) with (pool s); try done.
  - eapply (Hother _ _ (TO_FREE :: F ++ pool s)); [|done]. unfold heads. perm_solve.
  - eapply (Hother _ _ (EVENTS :: L ++ pool s)); [|done]. unfold heads. perm_solve.
  - eapply nodup_perm; [exact inv_nodup0|]. perm_solve.
  - intros a Ha. rewrite D. apply inv_dom0. revert Ha. clear. set_solver.
  - rewrite D. done.
Qed.

(** Taking the next node of the current block. *)
Definition bump (s : ordered_events) : ordered_events :=
  let s := set_buffer_idx (buffer_idx s + 1) s in
  if buffer_idx s =? MAX_SAMPLE_BUFFER then set_buffer NULL s else s.

Lemma alloc_from_pool s L C F :
  core s L C F [] -> buffer s <> NULL ->
  core (bump s) L C F [buffer s + buffer_idx s] /\ same_queue s (bump s)
  /\ nodes (bump s) = nodes s /\ lmem (bump s) = lmem s
  /\ cur_alloc_size (bump s) = cur_alloc_size s.
Proof.
  intros HC Hb. split; [|unfold bump; simpl; by case_match].
  destruct HC. specialize (inv_idx0 Hb).
  assert (pool s = (buffer s + buffer_idx s) :: pool (bump s)) as Ep.
  { unfold pool at 1. rewrite (proj2 (Z.eqb_neq _ _) Hb).
    rewrite seqZ_cons by lia. f_equal. unfold bump, pool. cbn [buffer_idx set_buffer_idx].
    destruct (Z.eqb_spec (buffer_idx s + 1) MAX_SAMPLE_BUFFER) as [E|E].
    - cbn. unfold seqZ. by replace (Z.pred (MAX_SAMPLE_BUFFER - buffer_idx s)) with 0 by lia.
    - cbn [buffer buffer_idx set_buffer_idx]. rewrite (proj2 (Z.eqb_neq _ _) Hb). f_equal; lia. }
  rewrite Ep in *.
  assert (forall a, ts (bump s) a = ts s a) as Hts by (intros; unfold bump; simpl; by case_match).
  assert (lmem (bump s) = lmem s /\ nodes (bump s) = nodes s /\ brk (bump s) = brk s
          /\ nr_events (bump s) = nr_events s /\ max_timestamp (bump s) = max_timestamp s)
    as (El & En & Eb & Enr & Em) by (unfold bump; simpl; by case_match).
  constructor; rewrite ?El, ?En, ?Eb, ?Enr, ?Em; try done.
  - eapply nodup_perm; [exact inv_nodup0|]. perm_solve.
  - intros a Ha. apply inv_dom0. revert Ha. clear. set_solver.
  - intros a Ha. rewrite Hts. by apply inv_range0.
  - unfold bump. cbn [buffer_idx set_buffer_idx].
    destruct (Z.eqb_spec (buffer_idx s + 1) MAX_SAMPLE_BUFFER);
      cbn [buffer buffer_idx set_buffer set_buffer_idx]; [done|]. intros _. lia.
  - eapply sorted_impl; [|exact inv_sorted0]. intros x y. by rewrite !Hts.
  - intros l a E. rewrite Hts. by eapply inv_max0.
Qed.

(** A fresh block. *)
Definition with_block (s : ordered_events) : ordered_events :=
  let b := brk s in
  set_nodes (list_to_map ((fun a => (a, mkNode 0 0 None)) <$> block b) ∪ nodes s)
    (set_lmem (list_to_map ((fun a => (a, (0, 0))) <$> block b) ∪ lmem s)
       (set_brk (b + MAX_SAMPLE_BUFFER) s)).

Lemma fst_pair_fmap {A} (x : A) (l : list Z) : fst <$> ((fun a => (a, x)) <$> l) = l.
Proof. induction l as [|a l IH]; [done|]. cbn. by rewrite <-IH at 2. Qed.

Lemma block_map_lookup {A} (x : A) b (m : gmap Z A) a :
  (list_to_map ((fun a => (a, x)) <$> block b) ∪ m) !! a
  = if decide (b <= a < b + MAX_SAMPLE_BUFFER) then Some x else m !! a.
Proof.
  case_decide as Hd.
  - apply lookup_union_Some_l, elem_of_list_to_map_1.
    + rewrite fst_pair_fmap. apply NoDup_seqZ.
    + apply list_elem_of_fmap. exists a. split; [done|]. apply elem_of_seqZ. lia.
  - rewrite lookup_union_r; [done|]. apply not_elem_of_list_to_map_1.
    rewrite fst_pair_fmap. intros Hin%elem_of_seqZ. lia.
Qed.

Lemma block_map_dom {A} (x : A) b (m : gmap Z A) a :
  a ∈ dom (list_to_map ((fun a => (a, x)) <$> block b) ∪ m)
  <-> b <= a < b + MAX_SAMPLE_BUFFER \/ a ∈ dom m.
Proof.
  rewrite !elem_of_dom, block_map_lookup. case_decide; [|tauto].
  split; [by left|eauto].
Qed.

Lemma MAX_val : MAX_SAMPLE_BUFFER = 1638.
Proof. done. Qed.

Lemma block_cons b : block b = b :: (b + 1) :: seqZ (b + 2) (MAX_SAMPLE_BUFFER - 2).
Proof.
  unfold block. rewrite seqZ_cons, seqZ_cons by done. do 2 f_equal.
  by replace (b + 2) with (Z.succ (Z.succ b)) by lia.
Qed.

(** The state after a block was allocated, linked to [to_free] and its second
    node taken. *)
Definition block_taken (s : ordered_events) (h : mem) : ordered_events :=
  set_buffer_idx 2
    (set_lmem h
      (set_cur_alloc_size (u64 (cur_alloc_size s + MAX_SAMPLE_BUFFER * SIZEOF_ordered_event))
        (set_buffer (brk s) (with_block s)))).

(** Everything in use lies below the allocator's next address. *)
Lemma used_below_brk s L C F N a :
  core s L C F N -> a ∈ heads ++ L ++ C ++ F -> a < brk s.
Proof.
  intros [] Ha. destruct inv_brk0 as [_ Hbrk]. apply Hbrk. left. rewrite !elem_of_app in Ha.
  destruct Ha as [Ha|[Ha|[Ha|Ha]]].
  - unfold heads in Ha. rewrite !elem_of_cons in Ha.
    destruct Ha as [->|[->|[->|Ha%elem_of_nil]]]; [..|done];
      [apply (is_list_dom _ _ _ _ inv_events0)|apply (is_list_dom _ _ _ _ inv_cache0)
      |apply (is_list_dom _ _ _ _ inv_free0)]; by left.
  - apply (is_list_dom _ _ _ _ inv_events0). by right.
  - apply (is_list_dom _ _ _ _ inv_cache0). by right.
  - apply (is_list_dom _ _ _ _ inv_free0). by right.
Qed.

Lemma with_block_list s head (l : list Z) :
  is_list (lmem s) head l -> (forall a, a ∈ head :: l -> a < brk s) ->
  is_list (lmem (with_block s)) head l.
Proof.
  intros Hl Ha. apply (is_list_frame (lmem s)); [done|]. intros a Hin.
  cbn [lmem with_block set_nodes set_lmem]. rewrite block_map_lookup, decide_False; [done|].
  specialize (Ha a Hin). lia.
Qed.

(** Linking the fresh block leaves the other lists alone. *)
Lemma block_link s L C F :
  core s L C F [] ->
  exists h, list_add (lmem (with_block s)) (brk s) TO_FREE = Some h
    /\ is_list h TO_FREE (brk s :: F) /\ is_list h EVENTS L /\ is_list h CACHE C
    /\ dom h = dom (lmem (with_block s)).
Proof.
  intros HC. pose proof (fun a => used_below_brk s L C F [] a HC) as Hold. destruct HC.
  assert (NoDup (heads ++ L ++ C ++ F)) as Hnd.
  { replace (heads ++ L ++ C ++ F ++ pool s ++ []) with ((heads ++ L ++ C ++ F) ++ pool s) in inv_nodup0
      by (rewrite app_nil_r, <-!app_assoc; done). by apply NoDup_app in inv_nodup0 as (? & _ & _). }
  assert (forall head l rest, heads ++ L ++ C ++ F ≡ₚ (head :: l) ++ rest ->
          is_list (lmem s) head l -> is_list (lmem (with_block s)) head l) as Hgrow.
  { intros head l rest Hp Hl. apply with_block_list; [done|]. intros a Ha. apply Hold.
    rewrite Hp. apply elem_of_app. by left. }
  destruct (list_add_ok (lmem (with_block s)) TO_FREE [] F (brk s)) as (h & E & Hl & O & D).
  { eapply (Hgrow _ _ (EVENTS :: CACHE :: L ++ C)); [unfold heads; perm_solve|done]. }
  { cbn [lmem with_block set_nodes set_lmem]. apply block_map_dom. left. rewrite MAX_val. lia. }
  { intros Hin. assert (brk s < brk s); [|lia]. apply Hold. cbn [app] in Hin. revert Hin.
    clear. unfold heads. set_solver. }
  change (before TO_FREE []) with TO_FREE in E. exists h. split; [done|]. split; [done|].
  assert (forall head l rest, heads ++ L ++ C ++ F ≡ₚ (head :: l) ++ (TO_FREE :: F) ++ rest ->
          is_list (lmem s) head l -> is_list h head l) as Hother.
  { intros head l rest Hp Hl'. apply (is_list_frame (lmem (with_block s))); [by eapply Hgrow|].
    intros a Ha. apply O; [|by eapply nodup_disjoint]. intros ->.
    assert (brk s < brk s); [|lia]. apply Hold. rewrite Hp. apply elem_of_app. by left. }
  split; [eapply (Hother _ _ (CACHE :: C)); [unfold heads; perm_solve|done]|].
  split; [eapply (Hother _ _ (EVENTS :: L)); [unfold heads; perm_solve|done]|done].
Qed.

Lemma block_taken_ts s h a :
  a < brk s -> ts (block_taken s h) a = ts s a.
Proof.
  intros Ha. unfold ts, ts_of. cbn [nodes block_taken with_block set_nodes set_lmem set_buffer_idx
    set_cur_alloc_size set_buffer]. rewrite block_map_lookup, decide_False; [done|lia].
Qed.

Lemma block_taken_pool s h :
  16 <= brk s -> pool (block_taken s h) = seqZ (brk s + 2) (MAX_SAMPLE_BUFFER - 2).
Proof.
  intros H. unfold pool. cbn [buffer buffer_idx block_taken set_buffer_idx set_lmem set_cur_alloc_size
    set_buffer]. rewrite (proj2 (Z.eqb_neq _ _)); [done|]. unfold NULL. lia.
Qed.

Lemma alloc_from_block s L C F :
  core s L C F [] -> buffer s = NULL ->
  exists h, list_add (lmem (with_block s)) (brk s) TO_FREE = Some h
    /\ core (block_taken s h) L C (brk s :: F) [brk s + 1].
Proof.
  intros HC Hb. destruct (block_link s L C F HC) as (h & E & Hf & He & Hc & D).
  exists h. split; [done|]. pose proof (fun a => used_below_brk s L C F [] a HC) as Hold.
  destruct HC. destruct inv_brk0 as [H16 Hbrk]. pose proof MAX_val as HM.
  assert (pool s = []) as Ep by (unfold pool; by rewrite Hb). rewrite Ep in *. cbn [app] in *.
  rewrite app_nil_r in *.
  assert (forall a, a ∈ L -> ts (block_taken s h) a = ts s a) as HtsL.
  { intros a Ha. apply block_taken_ts, Hold. rewrite !elem_of_app. auto. }
  constructor; rewrite ?(block_taken_pool s h H16); try done;
    cbn [lmem nodes brk buffer buffer_idx nr_events max_timestamp block_taken with_block set_nodes
      set_lmem set_brk set_buffer_idx set_cur_alloc_size set_buffer].
  - assert (heads ++ L ++ C ++ (brk s :: F) ++ seqZ (brk s + 2) (MAX_SAMPLE_BUFFER - 2) ++ [brk s + 1]
            ≡ₚ (heads ++ L ++ C ++ F) ++ block (brk s)) as -> by (rewrite block_cons; perm_solve).
    apply NoDup_app. split; [done|]. split; [|apply NoDup_seqZ].
    intros a Ha%Hold Hin%elem_of_seqZ. lia.
  - intros a Ha. rewrite D. cbn [lmem with_block set_nodes set_lmem]. rewrite !block_map_dom.
    rewrite !elem_of_app, list_elem_of_singleton, elem_of_seqZ in Ha.
    assert (a ∈ L ++ C \/ brk s <= a < brk s + MAX_SAMPLE_BUFFER) as [Hin|Hr].
    { rewrite elem_of_app. destruct Ha as [Ha|[Ha|[Ha|Ha]]]; [auto..|right; lia|right; lia]. }
    + destruct (inv_dom0 a Hin) as (? & ? & ?). auto.
    + split; [lia|auto].
  - intros a Ha. rewrite block_map_lookup, decide_False; [by apply inv_init0|].
    assert (a < brk s); [|lia]. apply Hold. rewrite !elem_of_app. auto.
  - intros a Ha. rewrite HtsL by done. by apply inv_range0.
  - split; [lia|]. rewrite D. cbn [lmem with_block set_nodes set_lmem]. intros a.
    rewrite !block_map_dom.
    intros [[?|Ha]|[?|Ha]]; try lia; [specialize (Hbrk a (or_introl Ha))|
      specialize (Hbrk a (or_intror Ha))]; lia.
  - by apply sorted_ts_ext with (s := s).
  - intros l a ->. rewrite HtsL; [by eapply inv_max0|]. apply elem_of_app. right. by left.
Qed.

(** * The public operations *)

(** Where the next flush ends, by kind of flush. *)
Definition limit_of (s : ordered_events) (L : list Z) (how : oe_flush) : Z :=
  match how with
  | OE_FLUSH__FINAL => ULLONG_MAX
  | OE_FLUSH__HALF =>
      match L with
      | [] => 0
      | a :: _ => ts s a + (ts s (last s) - ts s a) / 2
      end
  | _ => next_flush s
  end.

Definition how_round (how : oe_flush) : bool :=
  match how with OE_FLUSH__ROUND => true | _ => false end.

Lemma flush_limit_ok s L C F how :
  inv s L C F [] -> L <> [] ->
  flush_limit s how = Some (Some (set_next_flush (limit_of s L how) s)).
Proof.
  intros [HC Hlast] HL. assert (forall x, set_next_flush (next_flush x) x = x) as Hid
    by (by intros []).
  destruct how; cbn [flush_limit limit_of]; rewrite ?Hid; try done.
  rewrite (after_next _ _ _ _ HC). cbn [mbind option_bind]. pose proof HC as [].
  rewrite (list_empty_ok _ _ _ inv_events0). cbn [mbind option_bind].
  destruct L as [|a L]; [done|]. cbn [last_ok] in Hlast.
  assert (forall x, x ∈ a :: L -> x ∈ dom (nodes s)) as Hd
    by (intros x Hx; apply inv_dom0; apply elem_of_app; by left).
  destruct (inv_dom0 (last s)) as (H16 & _ & _); [apply elem_of_app; by left|].
  rewrite (proj2 (Z.eqb_neq _ _)) by (unfold NULL; lia). cbn [orb].
  change (after EVENTS (a :: L)) with a.
  rewrite (ts_of_in s _ Hd a), (ts_of_in s _ Hd (last s)) by (done || by left).
  cbn [mbind option_bind].
  assert (ts s a <= ts s (last s)) as Hle.
  { apply elem_of_cons in Hlast as [->|Hlast]; [lia|].
    apply StronglySorted_inv in inv_sorted0 as [_ Hf]. rewrite Forall_forall in Hf. auto. }
  pose proof (inv_range0 a ltac:(by left)) as Ha. pose proof (inv_range0 _ Hlast) as Hb.
  unfold ULLONG_MAX in *. rewrite (u64_small (_ - _)) by lia.
  pose proof (Z.div_le_upper_bound (ts s (last s) - ts s a) 2 (ts s (last s) - ts s a)).
  pose proof (Z.div_pos (ts s (last s) - ts s a) 2).
  by rewrite u64_small by lia.
Qed.

Lemma set_next_flush_inv s L C F N v : inv s L C F N -> inv (set_next_flush v s) L C F N.
Proof. intros [[] Hl]. by split. Qed.

(** A flush runs the delivery loop on the events of the queue, whatever the
    callback returns and wherever the session is interrupted. *)
Lemma flush_any {W} deliver session_done s (w : W) L C F how :
  inv s L C F [] -> 0 <= next_flush s ->
  let '(res, k, w') := spec_deliver deliver session_done (limit_of s L how) w (events_of s L) in
  exists s', ordered_events__flush deliver session_done s w how = Some (default 0 res, s', w')
    /\ after_flush s s' L C F res k
    /\ (L <> [] -> next_flush s' = if how_round how && (default 0 res =? 0) then max_timestamp s
                                   else limit_of s L how)
    /\ (L = [] -> s' = s).
Proof.
  intros HI Hnf. unfold ordered_events__flush. pose proof HI as [[] _].
  destruct inv_nr0 as [-> _].
  destruct (Z.eqb_spec (Z.of_nat (length L)) 0) as [E0|E0].
  { destruct L; [|done]. cbn. exists s. split; [done|]. split; [|done].
    by split; try (destruct HI); try intros []. }
  assert (L <> []) as HL by (by intros ->).
  rewrite (flush_limit_ok s L C F how HI HL). cbn [mbind option_bind].
  set (s1 := set_next_flush (limit_of s L how) s).
  pose proof (set_next_flush_inv s L C F [] (limit_of s L how) HI) as HI1.
  assert (exists res k w' s2,
      spec_deliver deliver session_done (limit_of s L how) w (events_of s L) = (res, k, w')
      /\ __ordered_events__flush deliver session_done s1 w = Some (default 0 res, s2, w')
      /\ after_flush s1 s2 L C F res k /\ next_flush s2 = limit_of s L how)
    as (res & k & w' & s2 & -> & -> & Haf & En).
  { destruct (Z.eq_dec (limit_of s L how) 0) as [El|El].
    - (* nothing to flush yet *)
      assert (__ordered_events__flush deliver session_done s1 w = Some (0, s1, w)) as ->.
      { unfold __ordered_events__flush. cbn [next_flush last s1 set_next_flush].
        rewrite El, Z.eqb_refl. destruct (Z.eqb_spec (last s) NULL) as [|Hnz]; [done|].
        destruct HI as [_ Hlast]. destruct L as [|a L]; [done|].
        change (ts_of s1 (last s)) with (ts_of s (last s)).
        rewrite (ts_of_in s (a :: L)); [done| |done].
        intros x Hx. apply inv_dom0. apply elem_of_app. by left. }
      exists (if session_done w then Some 0 else None), O, w, s1. split; [|split; [by destruct (session_done w)|]].
      + destruct L as [|a L]; [done|]. unfold events_of. cbn [fmap list_fmap spec_deliver].
        destruct (session_done w); [done|]. pose proof (inv_range0 a ltac:(by left)).
        rewrite events_of_ts, El. by rewrite (proj2 (Z.gtb_lt _ _)) by lia.
      + split; [|done]. split; try done; [by destruct HI1|by intros []].
    - pose proof (__flush_ok deliver session_done s1 w L C F HI1 El) as H.
      change (events_of s1 L) with (events_of s L) in H. change (next_flush s1) with (limit_of s L how) in H.
      destruct (spec_deliver _ _ _ _ _) as [[res k] w']. destruct H as (s2 & ? & ? & ?).
      by exists res, k, w', s2. }
  cbn [mbind option_bind]. destruct Haf as [Hc Hi He Henv Hl Hl0]. pose proof Henv as [].
  destruct (Z.eqb_spec (default 0 res) 0) as [Er|Er].
  2:{ exists s2. split; [done|]. split; [done|]. by rewrite andb_false_r. }
  eexists. split; [done|]. split; [|split; [|done]].
  - split; [by destruct how, Hc|intros E; destruct (Hi E) as [[] ?]; by destruct how| | |..];
      by destruct how.
  - intros _. by destruct how.
Qed.

Lemma flush_ok s w L C F how :
  inv s L C F [] -> 0 <= next_flush s ->
  exists A B s', L = A ++ B /\ splits s (limit_of s L how) A B
    /\ ordered_events__flush log_deliver never_done s w how = Some (0, s', w ++ events_of s A)
    /\ inv s' B (rev A ++ C) F [] /\ same_env s s'
    /\ (L <> [] -> next_flush s' = match how with
                                   | OE_FLUSH__ROUND => max_timestamp s
                                   | _ => limit_of s L how end)
    /\ (L = [] -> s' = s)
    /\ (forall l x, A = l ++ [x] -> last_flush s' = ts s x)
    /\ (A = [] -> last_flush s' = last_flush s).
Proof.
  intros HI Hnf. pose proof (flush_any log_deliver never_done s w L C F how HI Hnf) as H.
  destruct (spec_deliver_log (limit_of s L how) w (events_of s L)) as (k & E). rewrite E in H.
  destruct H as (s' & Ef & [] & Hn & He). exists (take k L), (drop k L), s'.
  rewrite take_drop, <-events_of_take. split; [done|]. split.
  { eapply spec_deliver_splits; [|exact E]. by destruct HI as [[] _]. }
  split; [done|]. split; [by apply af_inv0|]. split; [done|]. split; [|done].
  intros HL. rewrite (Hn HL). by destruct how.
Qed.

(** C10: A flush delivers exactly the events up to its limit, oldest first and
    each once, and keeps the rest.  With a callback that succeeds, in a session
    that is not interrupted, [ordered_events__flush] splits the queue at the
    limit (no event is later than [ULLONG_MAX]; a half flush stops half way
    between the first and the last queued event, without overflow; a round uses
    the limit of the round before, and sets the next one to the greatest time
    stamp seen), hands the front to the callback in order, recycles its nodes
    through the cache and restores the invariant, [oe->last] included.  With
    any callback and any interruption, the flush returns the first non-zero
    result of the callback (0 when the session is done), after the callback was
    given the events in order up to there: the event it failed on and all later
    ones stay queued, sorted and counted, only the delivered nodes are
    recycled, and a failed round does not move the next limit.  On such an
    early return [oe->last] is left as it was, so that it points into the queue
    again only if the event it points to was not delivered. *)
Theorem flush_refines (s : ordered_events) (L C F : list Z) (how : oe_flush) :
  inv s L C F [] -> 0 <= next_flush s ->
  (forall w : list ordered_event,
    exists A B s', L = A ++ B /\ splits s (limit_of s L how) A B
    /\ ordered_events__flush log_deliver never_done s w how = Some (0, s', w ++ events_of s A)
    /\ inv s' B (rev A ++ C) F [] /\ nodes s' = nodes s
    /\ (L <> [] -> next_flush s' = match how with
                                   | OE_FLUSH__ROUND => max_timestamp s
                                   | _ => limit_of s L how end)
    /\ (forall l x, A = l ++ [x] -> last_flush s' = ts s x)
    /\ (A = [] -> last_flush s' = last_flush s)
    /\ nr_unordered_events s' = nr_unordered_events s)
  /\ (forall (W : Type) (deliver : W -> ordered_event -> Z * W) (session_done : W -> bool) (w : W),
    let '(res, k, w') := spec_deliver deliver session_done (limit_of s L how) w (events_of s L) in
    exists s', ordered_events__flush deliver session_done s w how = Some (default 0 res, s', w')
    /\ core s' (drop k L) (rev (take k L) ++ C) F [] /\ nodes s' = nodes s
    /\ last_ok s' (if res then L else drop k L) /\ (is_Some res -> last s' = last s)
    /\ (L <> [] -> next_flush s' = if how_round how && (default 0 res =? 0) then max_timestamp s
                                   else limit_of s L how)
    /\ (forall l x, take k L = l ++ [x] -> last_flush s' = ts s x)).
Proof.
  intros HI Hnf. split.
  - intros w. destruct (flush_ok s w L C F how HI Hnf)
      as (A & B & s' & EL & Hs & E & HI' & [] & Hn & _ & Hlf & Hlf0).
    exists A, B, s'. do 5 (split; [done|]). done.
  - intros W deliver session_done w. pose proof (flush_any deliver session_done s w L C F how HI Hnf) as H.
    destruct (spec_deliver _ _ _ _ _) as [[res k] w']. destruct H as (s' & E & [] & Hn & _).
    exists s'. split; [done|]. split; [done|]. split; [by destruct af_env0|]. split.
    { destruct res; [|by destruct (af_inv0 eq_refl)]. destruct HI as [_ Hl]. unfold last_ok.
      by rewrite af_early0. }
    split; [|done]. intros [r ->]. by apply af_early0.
Qed.

Definition ex_event : perf_event := mkEvent 7 40.

(** ** Queueing, when [malloc] succeeds and events are not copied *)

Lemma last_ok_same s s' L : same_queue s s' -> last_ok s L -> last_ok s' L.
Proof. intros [E _ _ _ _ _ _ _]. unfold last_ok. by rewrite E. Qed.

Lemma same_queue_trans s1 s2 s3 : same_queue s1 s2 -> same_queue s2 s3 -> same_queue s1 s3.
Proof. intros [] []. constructor; congruence. Qed.

Lemma alloc_event_ok s L C F ev :
  core s L C F [] -> copy_on_queue s = false -> verdicts s = [] ->
  cur_alloc_size s < max_alloc_size s ->
  exists new s' C' F', alloc_event s ev = Some (new, s')
    /\ handed_out s s' L C F new ev C' F' /\ verdicts s' = [].
Proof.
  intros HC Hcopy Hv Hcur. unfold alloc_event, dup_event. rewrite Hcopy.
  assert (is_list (lmem s) CACHE C) as HCl by (by destruct HC).
  rewrite (list_empty_ok _ _ _ HCl). cbn [mbind option_bind].
  assert (same_queue s s) as Hrefl by done.
  destruct C as [|c C]; cbn [negb].
  - destruct (Z.eqb_spec (buffer s) NULL) as [Hb|Hb]; cbn [negb].
    + rewrite (proj2 (Z.ltb_lt _ _) Hcur). unfold malloc_block, malloc_verdict. rewrite Hv.
      fold (with_block s). assert (16 <= brk s) as H16 by (by destruct HC as [? ? ? ? ? ? ? ? []]).
      cbn [buffer set_buffer]. rewrite (proj2 (Z.eqb_neq (brk s) NULL)) by (unfold NULL; lia).
      destruct (alloc_from_block s L [] F HC Hb) as (h & E & HC').
      unfold on_lists. cbn [lmem set_cur_alloc_size set_buffer].
      change (lmem (set_nodes _ _)) with (lmem (with_block s)). rewrite E. cbn [mbind option_bind].
      destruct (alloc_finish_ok s (block_taken s h) L [] (brk s :: F) (brk s + 1) ev HC')
        as (m & n & E' & HCm & Hnn & Hm & He & Hsq & HL).
      exists (brk s + 1), (set_nodes m (block_taken s h)), [], (brk s :: F).
      split; [exact E'|]. split; [|done]. split; [done|]. split; [by apply Hsq|]. split; [done|].
      split; [by exists n|]. split; [|right; by exists (brk s)].
      intros a Ha. cbn [nodes set_nodes]. rewrite HL by done.
      cbn [nodes block_taken with_block set_nodes set_lmem set_buffer_idx set_cur_alloc_size set_buffer].
      rewrite block_map_lookup, decide_False; [done|].
      assert (a < brk s); [|lia]. eapply used_below_brk; [done|]. rewrite !elem_of_app. auto.
    + destruct (alloc_from_pool s L [] F HC Hb) as (HC' & Hsq & En & El & Ec).
      fold (bump s). destruct (alloc_finish_ok s (bump s) L [] F _ ev HC')
        as (m & n & E' & HCm & Hnn & Hm & He & Hsq' & HL).
      eexists _, _, [], F. split; [exact E'|]. split.
      * split; [done|]. split; [by apply Hsq'|]. split; [done|]. split; [by exists n|].
        split; [intros a Ha; cbn [nodes set_nodes]; rewrite HL, En by done; done|]. by left.
      * unfold bump. cbn. by case_match.
  - assert (next (lmem s) CACHE = Some c) as ->.
    { change (c :: C) with ([] ++ c :: C) in HCl.
      by apply is_list_split in HCl as (_ & _ & ? & _). }
    cbn [mbind option_bind]. destruct (alloc_from_cache s L c C F HC) as (h & E & HC').
    unfold on_lists. rewrite E. cbn [mbind option_bind].
    destruct (alloc_finish_ok s (set_lmem h s) L C F c ev HC')
      as (m & n & E' & HCm & Hnn & Hm & He & Hsq & HL).
    eexists c, _, C, F. split; [exact E'|]. split; [|done]. split; [done|]. split; [by apply Hsq|].
    split; [done|]. split; [by exists n|]. split; [by intros; apply HL|by left].
Qed.

(** The state after an event was accepted: it is in the queue, behind every
    event that is not later; the others are unchanged. *)
Record accepted (s s' : ordered_events) (A B F F' : list Z) (new : Z) (n : ordered_event) : Prop := {
  acc_split : splits s (timestamp n) A B;
  acc_node : nodes s' !! new = Some n;
  acc_others : forall a, a ∈ A ++ B -> nodes s' !! a = nodes s !! a;
  acc_flush : last_flush s' = last_flush s;
  acc_next : next_flush s' = next_flush s;
  acc_limit : max_alloc_size s' = max_alloc_size s;
  acc_unordered : nr_unordered_events s' = nr_unordered_events s;
  acc_copy : copy_on_queue s' = copy_on_queue s;
  acc_verdicts : verdicts s' = [];
  acc_blocks : F' = F /\ cur_alloc_size s' = cur_alloc_size s
    \/ exists b, F' = b :: F
       /\ cur_alloc_size s' = u64 (cur_alloc_size s + MAX_SAMPLE_BUFFER * SIZEOF_ordered_event)
}.

Lemma splits_ext s s' t A B :
  (forall a, a ∈ A ++ B -> ts s' a = ts s a) -> splits s' t A B -> splits s t A B.
Proof.
  intros Hts [HA HB]. rewrite Forall_forall in HA, HB.
  split; apply Forall_forall; intros a Ha; rewrite <-Hts by (apply elem_of_app; auto); auto.
Qed.

Lemma new_event_ok s L C F ev t :
  inv s L C F [] -> copy_on_queue s = false -> verdicts s = [] ->
  cur_alloc_size s < max_alloc_size s ->
  0 < t < ULLONG_MAX -> Z.of_nat (S (length L)) < 2 ^ 32 ->
  exists new s' C' F' A B off, ordered_events__new_event s t ev = Some (new, s')
    /\ new <> NULL /\ L = A ++ B /\ inv s' (A ++ new :: B) C' F' []
    /\ accepted s s' A B F F' new (mkNode t off (Some ev)).
Proof.
  intros [HC Hlast] Hcopy Hv Hcur Ht Hlen. unfold ordered_events__new_event.
  destruct (alloc_event_ok s L C F ev HC Hcopy Hv Hcur)
    as (new & s1 & C' & F' & -> & (HC1 & Hsq & Hnn & (n & Hn & He) & HL1 & HF) & Hv1).
  cbn [mbind option_bind]. rewrite (proj2 (Z.eqb_neq _ _) Hnn).
  unfold set_timestamp. rewrite Hn. cbn [mbind option_bind]. rewrite He.
  set (n2 := mkNode t (file_offset n) (Some ev)).
  set (s2 := set_nodes (<[new := n2]> (nodes s1)) s1).
  assert (new ∉ L) as HnL.
  { destruct HC1. eapply (nodup_disjoint [new] L (heads ++ C' ++ F' ++ pool s1)); [done| |by left].
    perm_solve. }
  assert (forall a, a ∈ L -> nodes s2 !! a = nodes s !! a) as HL2.
  { intros a Ha. cbn [nodes s2 set_nodes]. rewrite lookup_insert_ne by (by intros ->). by apply HL1. }
  assert (inv s2 L C' F' [new]) as HI2.
  { split; [apply core_set_nodes; [done|..]|].
    - intros a Ha. apply lookup_insert_ne. by intros ->.
    - rewrite dom_insert_L. apply elem_of_dom_2 in Hn. clear -Hn. set_solver.
    - change (last_ok s1 L). by eapply last_ok_same. }
  assert (nodes s2 !! new = Some n2) as Hn2 by apply lookup_insert_eq.
  assert (ts s2 new = t) as Ets by (unfold ts, ts_of; by rewrite Hn2).
  destruct (queue_event_inv s2 L C' F' new n2 ev HI2 Hn2 eq_refl) as (A & B & h & EL & Hs & Eq & HI3);
    [by rewrite Ets|done|].
  rewrite Eq. cbn [mbind option_bind]. rewrite Ets in Hs.
  exists new, (queued s2 h new B), C', F', A, B, (file_offset n).
  do 4 (split; [done|]). fold n2. rewrite EL in HL2.
  assert (same_queue s1 s2) as Hsq2 by done.
  pose proof (same_queue_trans _ _ _ Hsq Hsq2) as [].
  constructor; try (destruct B; done); try (destruct B; cbn; congruence).
  eapply splits_ext; [|exact Hs]. intros a Ha. unfold ts, ts_of. by rewrite HL2.
Qed.

(** [oe->file_offset] of a queued node. *)
Lemma set_file_offset_inv s L C F p n off :
  inv s L C F [] -> nodes s !! p = Some n ->
  exists s', set_file_offset s p off = Some s' /\ inv s' L C F []
    /\ s' = set_nodes (<[p := mkNode (timestamp n) off (event n)]> (nodes s)) s.
Proof.
  intros [HC Hl] Hn. unfold set_file_offset. rewrite Hn. cbn [mbind option_bind].
  eexists. split; [reflexivity|]. split; [|done]. split; [|done].
  set (m := <[p := _]> (nodes s)).
  assert (forall a, ts (set_nodes m s) a = ts s a) as Hts.
  { intros a. unfold ts, ts_of, m. cbn [nodes set_nodes]. rewrite lookup_insert.
    case_decide; [subst; by rewrite Hn|done]. }
  assert (dom m = dom (nodes s)) as Hd.
  { unfold m. rewrite dom_insert_L. apply elem_of_dom_2 in Hn. clear -Hn. set_solver. }
  destruct HC. constructor; try done; cbn [nodes lmem brk set_nodes].
  - rewrite Hd. done.
  - intros a Ha. destruct (inv_init0 a Ha) as (x & e & Hx & He). unfold m.
    rewrite lookup_insert. case_decide; [|by eauto]. subst. simplify_eq. eauto.
  - intros a Ha. rewrite Hts. by apply inv_range0.
  - rewrite Hd. done.
  - apply sorted_ts_ext with (s := s); [intros; apply Hts|done].
  - intros l a E. rewrite Hts. by eapply inv_max0.
Qed.

(** * Runs *)

(** What a session does with its queue. *)
Inductive op :=
  | OpQueue (ev : perf_event) (time file_offset : Z)
  | OpFlush (how : oe_flush).

Section Run.
Context {W : Type} (deliver : W -> ordered_event -> Z * W) (session_done : W -> bool).

Definition run_op (s : ordered_events) (w : W) (o : op) : option (Z * ordered_events * W) :=
  match o with
  | OpQueue ev t off => ordered_events__queue deliver session_done s w ev t off
  | OpFlush how => ordered_events__flush deliver session_done s w how
  end.

Fixpoint run (s : ordered_events) (w : W) (ops : list op) : option (ordered_events * W) :=
  match ops with
  | [] => Some (s, w)
  | o :: ops => let* (_, s, w) := run_op s w o in run s w ops
  end.

End Run.

(** Events with a usable time stamp; the others are refused with [-ETIME]. *)
Definition submitted_op (o : op) : list ordered_event :=
  match o with
  | OpQueue ev t off => if (t =? 0) || (t =? ULLONG_MAX) then [] else [mkNode t off (Some ev)]
  | OpFlush _ => []
  end.
Definition submitted (ops : list op) : list ordered_event := ops ≫= submitted_op.

Definition op_ok (o : op) : Prop :=
  match o with OpQueue _ t _ => 0 <= t <= ULLONG_MAX | OpFlush _ => True end.

Definition time_sorted (l : list ordered_event) : Prop :=
  StronglySorted (fun a b => timestamp a <= timestamp b) l.

(** After [k] operations that accepted the events [acc] and delivered [w]. *)
Record reach (s : ordered_events) (w acc : list ordered_event) (L C F : list Z) (k : nat) : Prop := {
  re_inv : inv s L C F [];
  re_copy : copy_on_queue s = false;
  re_verdicts : verdicts s = [];
  re_max : max_alloc_size s = ULLONG_MAX;
  re_cur : cur_alloc_size s = MAX_SAMPLE_BUFFER * SIZEOF_ordered_event * Z.of_nat (length F);
  re_blocks : (length F <= k)%nat;
  re_acc : (length acc <= k)%nat;
  re_perm : w ++ events_of s L ≡ₚ acc;
  re_next : 0 <= next_flush s;
  re_unordered : 0 <= nr_unordered_events s <= Z.of_nat k;
  re_sorted : nr_unordered_events s = 0 ->
    time_sorted w /\ (forall n, n ∈ w -> timestamp n <= last_flush s)
    /\ (forall a, a ∈ L -> last_flush s <= ts s a)
}.

Lemma events_of_ext s s' L :
  (forall a, a ∈ L -> nodes s' !! a = nodes s !! a) -> events_of s' L = events_of s L.
Proof.
  intros H. unfold events_of. f_equal. apply list_fmap_ext. intros i a Ha. apply H.
  by eapply list_elem_of_lookup_2.
Qed.

Lemma events_of_app s L1 L2 : events_of s (L1 ++ L2) = events_of s L1 ++ events_of s L2.
Proof. unfold events_of. by rewrite !fmap_app. Qed.

Lemma events_of_insert s A B new n :
  nodes s !! new = Some n -> events_of s (A ++ new :: B) ≡ₚ n :: events_of s (A ++ B).
Proof.
  intros Hn. rewrite !events_of_app. unfold events_of at 2. cbn [fmap list_fmap].
  rewrite Hn. cbn. by rewrite <-Permutation_middle.
Qed.

Lemma length_events_of s L : length (events_of s L) = length L.
Proof. unfold events_of. by rewrite !length_fmap. Qed.

Lemma reach_length s w acc L C F k : reach s w acc L C F k -> (length L <= k)%nat.
Proof.
  intros []. apply Permutation_length in re_perm0. rewrite length_app, length_events_of in re_perm0.
  lia.
Qed.

Lemma queue_step s w acc L C F k ev t off :
  reach s w acc L C F k -> Z.of_nat (S k) < 2 ^ 32 -> op_ok (OpQueue ev t off) ->
  exists r s' L' C' F', run_op log_deliver never_done s w (OpQueue ev t off) = Some (r, s', w)
    /\ reach s' w (acc ++ submitted_op (OpQueue ev t off)) L' C' F' (S k).
Proof.
  intros HR Hk Hop. pose proof (reach_length _ _ _ _ _ _ _ HR) as HlenL.
  destruct HR. cbn [run_op submitted_op op_ok] in *. unfold ordered_events__queue.
  destruct ((t =? 0) || (t =? ULLONG_MAX)) eqn:Et.
  { exists (- ETIME), s, L, C, F. split; [done|]. rewrite app_nil_r. constructor; try done; lia. }
  apply orb_false_iff in Et as [E0%Z.eqb_neq E1%Z.eqb_neq].
  set (s0 := if t <? last_flush s then _ else s).
  assert (inv s0 L C F [] /\ copy_on_queue s0 = false /\ verdicts s0 = []
    /\ max_alloc_size s0 = ULLONG_MAX /\ cur_alloc_size s0 = cur_alloc_size s
    /\ nodes s0 = nodes s /\ next_flush s0 = next_flush s /\ last_flush s0 = last_flush s
    /\ nr_unordered_events s0
       = nr_unordered_events s + (if t <? last_flush s then 1 else 0))
    as (HI0 & Hc0 & Hv0 & Hm0 & Hcur0 & Hn0 & Hnf0 & Hlf0 & Hu0).
  { subst s0. destruct (t <? last_flush s); cbn; [|by rewrite Z.add_0_r].
    split; [by destruct re_inv0 as [[] ?]|]. repeat split; try done. apply u32_small. lia. }
  clearbody s0.
  destruct (new_event_ok s0 L C F ev t HI0 Hc0 Hv0) as
    (new & s1 & C' & F' & A & B & off0 & -> & Hnn & EL & HI1 & []); [|lia|lia|].
  { rewrite Hm0, Hcur0, re_cur0, MAX_val. unfold SIZEOF_ordered_event, ULLONG_MAX. lia. }
  cbn [mbind option_bind]. rewrite (proj2 (Z.eqb_neq _ _) Hnn). cbn [mbind option_bind].
  rewrite (proj2 (Z.eqb_neq _ _) Hnn).
  destruct (set_file_offset_inv s1 (A ++ new :: B) C' F' new _ off HI1 acc_node0)
    as (s2 & -> & HI2 & Es2). cbn [mbind option_bind timestamp event] in *.
  exists 0, s2, (A ++ new :: B), C', F'. split; [done|].
  assert (nodes s2 !! new = Some (mkNode t off (Some ev))) as Hn2
    by (rewrite Es2; apply lookup_insert_eq).
  assert (new ∉ L) as HnL.
  { destruct HI1 as [[[Hnd _] _ _ _ _ _ _ _ _ _ _ _] _]. rewrite EL.
    apply NoDup_cons in Hnd as [_ Hnd]. rewrite <-Permutation_middle in Hnd.
    by apply NoDup_cons in Hnd as [? _]. }
  assert (forall a, a ∈ L -> nodes s2 !! a = nodes s !! a) as Hold.
  { intros a Ha. rewrite Es2. cbn [nodes set_nodes].
    rewrite lookup_insert_ne, acc_others0, Hn0; [done|by rewrite <-EL|by intros ->]. }
  assert (nr_unordered_events s2 = nr_unordered_events s + (if t <? last_flush s then 1 else 0))
    as Hu2 by (rewrite Es2; cbn; by rewrite acc_unordered0, Hu0).
  assert (last_flush s2 = last_flush s) as Hlf2 by (rewrite Es2; cbn; by rewrite acc_flush0, Hlf0).
  constructor; rewrite ?Hlf2, ?Hu2; try done; try (rewrite Es2; cbn; congruence).
  - rewrite Es2. cbn. destruct acc_blocks0 as [[-> ->]|(b & -> & ->)]; [by rewrite Hcur0|].
    rewrite Hcur0, re_cur0, u64_small; cbn [length]; rewrite ?Nat2Z.inj_succ; [lia|].
    rewrite MAX_val. unfold SIZEOF_ordered_event. lia.
  - destruct acc_blocks0 as [[-> _]|(b & -> & _)]; cbn [length]; lia.
  - rewrite length_app. simpl. lia.
  - rewrite (events_of_insert _ _ _ _ _ Hn2), <-EL, (events_of_ext s s2 L Hold).
    rewrite <-re_perm0. rewrite <-(Permutation_middle w). by rewrite (Permutation_app_comm _ [_]).
  - destruct (t <? last_flush s); lia.
  - intros Hz. destruct (Z.ltb_spec t (last_flush s)) as [|Hge]; [lia|].
    destruct re_sorted0 as (Hs & Hle & Hge'); [lia|]. split; [done|]. split; [done|].
    intros a [Ha|[->|Ha]%elem_of_cons]%elem_of_app.
    + unfold ts, ts_of. rewrite Hold by (rewrite EL; apply elem_of_app; auto).
      apply Hge'. rewrite EL. apply elem_of_app. auto.
    + unfold ts, ts_of. by rewrite Hn2.
    + unfold ts, ts_of. rewrite Hold by (rewrite EL; apply elem_of_app; auto).
      apply Hge'. rewrite EL. apply elem_of_app. auto.
Qed.

Lemma time_sorted_events s L :
  StronglySorted (fun a b => ts s a <= ts s b) L -> time_sorted (events_of s L).
Proof.
  unfold time_sorted, events_of. induction 1 as [|a l _ IH Hf]; cbn; constructor; [done|].
  rewrite !Forall_fmap. eapply Forall_impl; [exact Hf|]. intros b. simpl.
  by rewrite !events_of_ts.
Qed.

Lemma elem_of_events_of s L n :
  n ∈ events_of s L -> exists a, a ∈ L /\ timestamp n = ts s a.
Proof.
  unfold events_of. rewrite list_elem_of_fmap. intros (o & -> & Ho).
  apply list_elem_of_fmap in Ho as (a & -> & Ha). exists a. by rewrite events_of_ts.
Qed.

Lemma time_sorted_app l1 l2 t :
  time_sorted l1 -> time_sorted l2 -> (forall n, n ∈ l1 -> timestamp n <= t) ->
  (forall n, n ∈ l2 -> t <= timestamp n) -> time_sorted (l1 ++ l2).
Proof.
  intros H1 H2 Hl Hr. apply StronglySorted_app. repeat split; try done.
  intros x y Hx Hy. specialize (Hl x Hx). specialize (Hr y Hy). lia.
Qed.

(** Each delivered batch lies between the previous limit and the rest. *)
Lemma flush_order s (A B : list Z) w t lf lf' :
  StronglySorted (fun a b => ts s a <= ts s b) (A ++ B) -> splits s t A B ->
  time_sorted w -> (forall n, n ∈ w -> timestamp n <= lf) ->
  (forall a, a ∈ A ++ B -> lf <= ts s a) ->
  (forall l x, A = l ++ [x] -> lf' = ts s x) -> (A = [] -> lf' = lf) ->
  time_sorted (w ++ events_of s A)
  /\ (forall n, n ∈ w ++ events_of s A -> timestamp n <= lf')
  /\ (forall a, a ∈ B -> lf' <= ts s a).
Proof.
  intros Hs [HA HB] Hw Hle Hge Hlf Hlf0. apply StronglySorted_app in Hs as (HAB & HsA & HsB).
  assert (lf <= lf' /\ (forall a, a ∈ A -> ts s a <= lf') /\ forall a, a ∈ B -> lf' <= ts s a)
    as (H1 & H2 & H3).
  { destruct A as [|x A _] using rev_ind.
    { rewrite (Hlf0 eq_refl). split; [lia|]. split; [|done]. by intros a ?%elem_of_nil. }
    rewrite (Hlf A x eq_refl). split; [apply Hge; clear; set_solver|]. split.
    - intros a [Ha|Ha%list_elem_of_singleton]%elem_of_app; [|by subst].
      apply StronglySorted_app in HsA as (H & _ & _). apply H; [done|by left].
    - intros b Hb. apply HAB; [clear; set_solver|done]. }
  split; [|split; [|done]].
  - apply (time_sorted_app w _ lf); [done|by apply time_sorted_events|done|].
    intros n (a & Ha & ->)%elem_of_events_of. apply Hge. apply elem_of_app. by left.
  - intros n [Hn|(a & Ha & ->)%elem_of_events_of]%elem_of_app; [|auto].
    specialize (Hle n Hn). lia.
Qed.

Lemma flush_step s w acc L C F k how :
  reach s w acc L C F k ->
  exists s' w' L' C', run_op log_deliver never_done s w (OpFlush how) = Some (0, s', w')
    /\ reach s' w' acc L' C' F (S k) /\ (how = OE_FLUSH__FINAL -> L' = []).
Proof.
  intros []. cbn [run_op].
  destruct (flush_ok s w L C F how re_inv0 re_next0) as
    (A & B & s' & EL & Hs & -> & HI & [] & Hnf & Hsame & Hlf & Hlf0).
  exists s', (w ++ events_of s A), B, (rev A ++ C). split; [done|].
  assert (forall a, a ∈ L -> 0 < ts s a < ULLONG_MAX) as Hr by (by destruct re_inv0 as [[] _]).
  assert (StronglySorted (fun a b => ts s a <= ts s b) L) as Hso by (by destruct re_inv0 as [[] _]).
  assert (forall a, ts s' a = ts s a) as Hts by (intros a; unfold ts, ts_of; by rewrite se_nodes0).
  split.
  - constructor; try done; try congruence; try lia.
    + by rewrite se_cur0.
    + rewrite (events_of_ext s s' B) by (intros; by rewrite se_nodes0).
      by rewrite <-app_assoc, <-events_of_app, <-EL.
    + destruct (decide (L = [])) as [->|HL]; [by rewrite Hsame|]. rewrite (Hnf HL).
      assert (exists a l, L = a :: l) as (a & l & Ea) by (destruct L; [done|eauto]).
      destruct how; cbn [limit_of]; try done.
      * destruct re_inv0 as [[] _]. destruct (@exists_last _ L HL) as (l' & z & Ez).
        rewrite (inv_max0 l' z Ez).
        assert (0 < ts s z < ULLONG_MAX) by (apply Hr; rewrite Ez; clear; set_solver). lia.
      * rewrite Ea. pose proof (Hr a ltac:(rewrite Ea; by left)).
        assert (ts s a <= ts s (last s)).
        { destruct re_inv0 as [_ Hla]. rewrite Ea in Hla, Hso. cbn in Hla.
          apply elem_of_cons in Hla as [->|Hla]; [lia|].
          apply StronglySorted_inv in Hso as [_ Hf]. rewrite Forall_forall in Hf. auto. }
        pose proof (Z.div_pos (ts s (last s) - ts s a) 2). lia.
    + rewrite se_unordered0. intros Hz. destruct (re_sorted0 Hz) as (H1 & H2 & H3).
      rewrite EL in Hso, H3.
      destruct (flush_order s A B w _ _ (last_flush s') Hso Hs H1 H2 H3 Hlf Hlf0) as (? & ? & H4).
      split; [done|]. split; [done|]. intros a Ha. rewrite Hts. auto.
  - intros ->. destruct Hs as [_ HB]. destruct B as [|b B]; [done|].
    apply Forall_inv in HB. cbn [limit_of] in HB.
    assert (0 < ts s b < ULLONG_MAX) by (apply Hr; rewrite EL; clear; set_solver). lia.
Qed.

Lemma run_reach ops s w acc L C F k :
  reach s w acc L C F k -> Z.of_nat (S (k + length ops)) < 2 ^ 32 -> Forall op_ok ops ->
  exists s' w' L' C' F', run log_deliver never_done s w ops = Some (s', w')
    /\ reach s' w' (acc ++ submitted ops) L' C' F' (k + length ops).
Proof.
  revert s w acc L C F k. induction ops as [|o ops IH]; intros s w acc L C F k HR Hk Hok.
  { exists s, w, L, C, F. cbn. by rewrite app_nil_r, Nat.add_0_r. }
  apply Forall_cons in Hok as [Ho Hok]. cbn [run length] in *.
  assert (exists r s1 w1 L1 C1 F1, run_op log_deliver never_done s w o = Some (r, s1, w1)
    /\ reach s1 w1 (acc ++ submitted_op o) L1 C1 F1 (S k)) as (r & s1 & w1 & L1 & C1 & F1 & -> & HR1).
  { destruct o as [ev t off|how].
    - destruct (queue_step s w acc L C F k ev t off HR) as (r & s1 & L1 & C1 & F1 & E & HR1);
        [lia|done|]. by exists r, s1, w, L1, C1, F1.
    - destruct (flush_step s w acc L C F k how HR) as (s1 & w1 & L1 & C1 & E & HR1 & _).
      exists 0, s1, w1, L1, C1, F. cbn [submitted_op]. by rewrite app_nil_r. }
  cbn [mbind option_bind].
  destruct (IH _ _ _ _ _ _ _ HR1) as (s' & w' & L' & C' & F' & -> & HR'); [lia|done|].
  exists s', w', L', C', F'. split; [done|]. unfold submitted in *. cbn [mbind list_bind].
  rewrite app_assoc. by replace (k + S (length ops))%nat with (S k + length ops)%nat by lia.
Qed.

(** [ordered_events__init] on zeroed memory. *)
Definition init_state : ordered_events := default (zero_oe []) (ordered_events__init (zero_oe [])).

Lemma init_reach : ordered_events__init (zero_oe []) = Some init_state
  /\ reach init_state [] [] [] [] [] 0.
Proof.
  split; [done|]. constructor; try done; try (cbn; lia).
  - split; [|done]. constructor.
    1,2,3: split; [apply (bool_decide_unpack _); vm_compute; exact I|by repeat split].
    + apply (bool_decide_unpack _); vm_compute; exact I.
    + by intros a ?%elem_of_nil.
    + by intros a ?%elem_of_nil.
    + by intros a ?%elem_of_nil.
    + done.
    + split; [done|].
      assert (map_Forall (fun k _ => k < 16) (lmem init_state)) as Hf
        by (apply (bool_decide_unpack _); vm_compute; exact I).
      intros a [[x Hx]%elem_of_dom|Ha]; [by apply (Hf a x)|].
      change (nodes init_state) with (∅ : gmap Z ordered_event) in Ha. by apply elem_of_dom in Ha as [? ?].
    + constructor.
    + done.
    + by intros [] ?.
  - intros _. split; [constructor|]. split; by intros ? ?%elem_of_nil.
Qed.

(** C3: Nothing is lost, duplicated or reordered: for every sequence of queue
    and flush requests from an initialised queue, the code runs without
    undefined behaviour, and after a final flush the delivered events are
    exactly the accepted ones (those whose time stamp is neither 0 nor ~0),
    each once; if no event was counted in [nr_unordered_events], they were
    delivered in time order over all flushes.  (The callback succeeds and
    the session is not interrupted: C10 has the other cases; memory allocation
    succeeds, events are not copied, and fewer than 2^32 requests are made.) *)
Theorem delivery_complete_sorted (ops : list op) :
  Z.of_nat (length ops) < 2 ^ 32 - 2 -> Forall op_ok ops ->
  ordered_events__init (zero_oe []) = Some init_state
  /\ exists s w, run log_deliver never_done init_state [] (ops ++ [OpFlush OE_FLUSH__FINAL]) = Some (s, w)
    /\ w ≡ₚ submitted ops
    /\ (nr_unordered_events s = 0 -> time_sorted w).
Proof.
  intros Hlen Hok. destruct init_reach as [Ei HR0]. split; [done|].
  destruct (run_reach ops _ _ _ _ _ _ _ HR0) as (s & w & L & C & F & E & HR); [simpl; lia|done|].
  destruct (flush_step _ _ _ _ _ _ _ OE_FLUSH__FINAL HR) as (s' & w' & L' & C' & E' & HR' & HL').
  exists s', w'. split.
  - assert (forall ops s w s1 w1, run log_deliver never_done s w ops = Some (s1, w1) ->
              run log_deliver never_done s w (ops ++ [OpFlush OE_FLUSH__FINAL]) = run log_deliver never_done s1 w1 [OpFlush OE_FLUSH__FINAL]) as Happ.
    { clear. induction ops as [|o ops IH]; intros s w s1 w1; cbn [run app]; [by intros [= <- <-]|].
      intros ([[r s2] w2] & -> & H)%bind_Some. cbn [mbind option_bind]. by apply IH. }
    rewrite (Happ _ _ _ _ _ E). cbn [run]. by rewrite E'.
  - destruct HR'. rewrite (HL' eq_refl) in re_perm0. cbn in re_perm0. rewrite app_nil_r in re_perm0.
    split; [done|]. intros Hz. by apply re_sorted0.
Qed.

Lemma delivery_complete_sorted_witness :
  exists s w, run log_deliver never_done init_state []
      [OpQueue ex_event 20 0; OpQueue ex_event 10 64; OpFlush OE_FLUSH__ROUND; OpQueue ex_event 30 128;
       OpFlush OE_FLUSH__FINAL] = Some (s, w)
    /\ w ≡ₚ [mkNode 20 0 (Some ex_event); mkNode 10 64 (Some ex_event); mkNode 30 128 (Some ex_event)]
    /\ (nr_unordered_events s = 0 -> time_sorted w).
Proof.
  apply (delivery_complete_sorted
    [OpQueue ex_event 20 0; OpQueue ex_event 10 64; OpFlush OE_FLUSH__ROUND; OpQueue ex_event 30 128]);
    [simpl; lia|]. unfold op_ok, ULLONG_MAX. repeat constructor; lia.
Defined.

(** A queue of one event, with a second node handed out. *)
Definition ex_small : ordered_events :=
  mkOrderedEvents
    (<[EVENTS := (16, 16)]> (<[16 := (EVENTS, EVENTS)]> (<[CACHE := (CACHE, CACHE)]>
       (<[TO_FREE := (TO_FREE, TO_FREE)]> (<[17 := (0, 0)]> ∅)))))
    (<[16 := mkNode 20 0 (Some ex_event)]> (<[17 := mkNode 10 0 (Some ex_event)]> ∅))
    18 [] 0 0 20 ULLONG_MAX 0 NULL 16 0 1 OE_FLUSH__NONE 0 false.

(** A queue of three events. *)
Definition ex_three : ordered_events :=
  mkOrderedEvents
    (<[EVENTS := (16, 18)]> (<[16 := (17, EVENTS)]> (<[17 := (18, 16)]> (<[18 := (EVENTS, 17)]>
       (<[CACHE := (CACHE, CACHE)]> (<[TO_FREE := (TO_FREE, TO_FREE)]> ∅))))))
    (<[16 := mkNode 10 0 (Some ex_event)]> (<[17 := mkNode 20 0 (Some ex_event)]>
       (<[18 := mkNode 30 0 (Some ex_event)]> ∅)))
    19 [] 0 0 30 ULLONG_MAX 0 NULL 18 0 3 OE_FLUSH__NONE 0 false.

Ltac all_in := repeat (intros a [->|Ha]%elem_of_cons; [|revert a Ha]); try (by intros a ?%elem_of_nil).

(** The invariant of a concrete state without free nodes. *)
Ltac ex_inv s :=
  split; [|by repeat constructor]; constructor;
  [split; [apply (bool_decide_unpack _); vm_compute; exact I|by repeat split]
  |split; [apply (bool_decide_unpack _); vm_compute; exact I|by repeat split]
  |split; [apply (bool_decide_unpack _); vm_compute; exact I|by repeat split]
  |apply (bool_decide_unpack _); vm_compute; exact I
  |intros a Ha; cbn in Ha; revert a Ha; all_in;
     (split; [lia|]; split; apply elem_of_dom; vm_compute; eauto)
  |all_in; vm_compute; eauto
  |all_in; by vm_compute
  |done
  |split; [by vm_compute|]; intros a [[x Hx]%elem_of_dom|[x Hx]%elem_of_dom];
     [assert (map_Forall (fun k _ => k < brk s) (lmem s)) as Hf
        by (apply (bool_decide_unpack _); vm_compute; exact I); by apply (Hf a x)
     |assert (map_Forall (fun k _ => k < brk s) (nodes s)) as Hf
        by (apply (bool_decide_unpack _); vm_compute; exact I); by apply (Hf a x)]
  |repeat constructor; by vm_compute
  |by vm_compute
  |intros l a E; destruct l as [|? [|? [|? [|? l]]]]; simplify_eq/=; by vm_compute].

Lemma ex_small_inv : inv ex_small [16] [] [] [17].
Proof. ex_inv ex_small. Qed.

Lemma ex_three_inv : inv ex_three [16; 17; 18] [] [] [].
Proof. ex_inv ex_three. Qed.

Lemma queue_event_refines_witness :
  exists s', queue_event ex_small 17 = Some s' /\ inv s' (spec_insert ex_small 17 [16]) [] [] []
    /\ nodes s' = nodes ex_small.
Proof.
  apply (queue_event_refines ex_small [16] [] [] 17 (mkNode 10 0 (Some ex_event)) ex_event);
    [exact ex_small_inv|reflexivity|reflexivity|vm_compute; done|vm_compute; done].
Defined.

(** A callback that fails from its second call on. *)
Definition fail_second (w : list ordered_event) (n : ordered_event) : Z * list ordered_event :=
  (match w with [] => 0 | _ => -5 end, n :: w).

(** A half flush of the events at 10, 20 and 30 ends at 20: two are delivered
    and recycled, one is kept.  A final flush whose callback fails at its second
    call returns the error; two events are kept. *)
Lemma flush_refines_witness :
  let n t := mkNode t 0 (Some ex_event) in
  (exists s', ordered_events__flush log_deliver never_done ex_three [] OE_FLUSH__HALF
      = Some (0, s', [n 10; n 20])
    /\ inv s' [18] [17; 16] [] [] /\ next_flush s' = 20 /\ last_flush s' = 20)
  /\ exists s', ordered_events__flush fail_second (fun _ => false)
      ex_three [] OE_FLUSH__FINAL = Some (-5, s', [n 20; n 10])
    /\ core s' [17; 18] [16] [] [] /\ last s' = 18 /\ last_flush s' = 10.
Proof.
  split.
  - destruct (flush_refines ex_three [16; 17; 18] [] [] OE_FLUSH__HALF ex_three_inv
      ltac:(vm_compute; done)) as [H _].
    destruct (H []) as (A & B & s' & EL & [HA HB] & E & HI & _ & Hn & Hl & _). exists s'.
    assert (A = [16; 17] /\ B = [18]) as [-> ->].
    { destruct A as [|? [|? [|? [|]]]]; simplify_eq/=; rewrite ?Forall_cons in HA, HB; vm_compute in HA, HB;
        intuition congruence. }
    split; [exact E|]. split; [exact HI|]. split; [by apply Hn|]. exact (Hl [16] 17 eq_refl).
  - destruct (flush_refines ex_three [16; 17; 18] [] [] OE_FLUSH__FINAL ex_three_inv
      ltac:(vm_compute; done)) as [_ H].
    destruct (H (list ordered_event) fail_second (fun _ => false) [])
      as (s' & E & HC & _ & _ & Hl & _ & Hf). exists s'.
    split; [exact E|]. split; [exact HC|]. split; [by apply Hl|]. exact (Hf [] 16 eq_refl).
Defined.

(** ** The allocation limit *)

(** C34: At the allocation limit the queue is not stopped by an error: with no
    free node left and the limit reached (by the copy of the event, when events
    are copied), [alloc_event] does not return NULL but stores through a NULL
    pointer. *)
Theorem alloc_limit_null_deref (s : ordered_events) (L F : list Z) (ev : perf_event) :
  core s L [] F [] -> nodes s !! NULL = None -> buffer s = NULL -> verdicts s = [] ->
  0 <= cur_alloc_size s -> 0 <= ev_size ev -> cur_alloc_size s + ev_size ev < 2 ^ 64 ->
  (if copy_on_queue s then cur_alloc_size s < max_alloc_size s <= cur_alloc_size s + ev_size ev
   else max_alloc_size s <= cur_alloc_size s) ->
  alloc_event s ev = None.
Proof.
  intros HC Hnull Hb Hv Hcur Hsz Hof Hlim.
  assert (is_list (lmem s) CACHE []) as HCl by (by destruct HC).
  unfold alloc_event, dup_event, __dup_event, malloc_verdict.
  destruct (copy_on_queue s).
  - rewrite (proj2 (Z.ltb_lt _ _)), Hv by lia.
    cbn [lmem buffer cur_alloc_size max_alloc_size set_cur_alloc_size].
    rewrite (list_empty_ok _ _ _ HCl), Hb. cbn [mbind option_bind negb].
    rewrite Z.eqb_refl. cbn [negb]. rewrite u64_small by lia.
    rewrite (proj2 (Z.ltb_ge _ _)) by lia. unfold alloc_finish.
    cbn [nodes set_cur_alloc_size]. by rewrite Hnull.
  - rewrite (list_empty_ok _ _ _ HCl), Hb. cbn [mbind option_bind negb].
    rewrite Z.eqb_refl. cbn [negb]. rewrite (proj2 (Z.ltb_ge _ _)) by lia.
    unfold alloc_finish. by rewrite Hnull.
Qed.

Lemma alloc_limit_null_deref_witness :
  alloc_event (set_copy_on_queue true (set_max_alloc_size 8 init_state)) ex_event = None.
Proof.
  apply (alloc_limit_null_deref (set_copy_on_queue true (set_max_alloc_size 8 init_state)) [] [] ex_event);
    [|vm_compute; try done; try lia ..].
  by destruct (re_inv _ _ _ _ _ _ _ (proj2 init_reach)) as [[] _].
Defined.

End OrderedEvents.
