(* ===== verification/KBuffer.v ===== *)
(** The ftrace ring-buffer page reader,
    [src/tools/lib/traceevent/kbuffer-parse.c].

    A sub-buffer is a byte list; pointers into it are offsets from its start,
    [data] is the offset [start].  The function pointers of [struct kbuffer]
    are selectors of the function they hold.  The host is little-endian.
    Reads outside of the sub-buffer and the use of a variable that was never
    assigned are [None]. *)

From Stdlib Require Import ZArith Lia Bool.
From stdpp Require Import base option list numbers.
From S2P Require Import Prelude.

Module KBuffer.

(** An [int]: negative, hence sign-extended when it meets 64-bit flags. *)
Definition MISSING_EVENTS : Z := u64 (s32 (Z.shiftl 1 31)).
Definition MISSING_STORED : Z := Z.shiftl 1 30.
Definition COMMIT_MASK : Z := Z.shiftl 1 27 - 1.
Definition TS_SHIFT : Z := 27.

Definition KBUFFER_FL_HOST_BIG_ENDIAN : Z := Z.shiftl 1 0.
Definition KBUFFER_FL_BIG_ENDIAN : Z := Z.shiftl 1 1.
Definition KBUFFER_FL_LONG_8 : Z := Z.shiftl 1 2.
Definition KBUFFER_FL_OLD_FORMAT : Z := Z.shiftl 1 3.
Definition ENDIAN_MASK : Z := Z.lor KBUFFER_FL_HOST_BIG_ENDIAN KBUFFER_FL_BIG_ENDIAN.

Inductive kbuffer_endian := KBUFFER_ENDIAN_BIG | KBUFFER_ENDIAN_LITTLE.
Inductive kbuffer_long_size := KBUFFER_LSIZE_4 | KBUFFER_LSIZE_8.

Definition KBUFFER_TYPE_PADDING : Z := 29.
Definition KBUFFER_TYPE_TIME_EXTEND : Z := 30.
Definition KBUFFER_TYPE_TIME_STAMP : Z := 31.

Definition OLD_RINGBUF_TYPE_PADDING : Z := 0.
Definition OLD_RINGBUF_TYPE_TIME_EXTEND : Z := 1.
Definition OLD_RINGBUF_TYPE_TIME_STAMP : Z := 2.
Definition OLD_RINGBUF_TYPE_DATA : Z := 3.

(** What the function pointers [read_4] and [read_8], [read_long] and
    [next_event] point to. *)
Inductive read_fn := read_plain | read_sw.
Inductive read_long_fn := long_8 | long_4.
Inductive next_fn := new_format | old_format.

Record kbuffer := mkKbuffer {
  timestamp : Z;
  lost_events : Z;
  flags : Z;
  subbuffer : option (list Z);
  index : Z;
  curr : Z;
  next : Z;
  size : Z;
  start : Z;
  read_fns : read_fn;
  read_long_p : read_long_fn;
  next_event_p : next_fn
}.

Definition set_pos (k : kbuffer) (ts idx cur nxt : Z) : kbuffer :=
  mkKbuffer ts (lost_events k) (flags k) (subbuffer k) idx cur nxt (size k) (start k)
    (read_fns k) (read_long_p k) (next_event_p k).
Definition set_curr (v : Z) (k : kbuffer) : kbuffer :=
  set_pos k (timestamp k) (index k) v (next k).
Definition set_next (v : Z) (k : kbuffer) : kbuffer :=
  set_pos k (timestamp k) (index k) (curr k) v.

(** [unsigned char str[] = { 1, 2, 3, 4 }] read as an [unsigned int]. *)
Definition host_is_bigendian : bool := le_combine [1; 2; 3; 4] =? 0x01020304.

Definition do_swap (flags : Z) : bool :=
  tst (Z.land flags KBUFFER_FL_HOST_BIG_ENDIAN + flags) ENDIAN_MASK.

Definition __read_8 (buf : list Z) (ptr : Z) : option Z := rd_le buf ptr 8.

(** [data & (0xffULL << n)] *)
Definition byte_at (data n : Z) : Z := Z.land data (Z.shiftl 0xff n).

Definition __read_8_sw (buf : list Z) (ptr : Z) : option Z :=
  let* data := rd_le buf ptr 8 in
  Some (Z.lor (Z.lor (Z.lor (Z.lor (Z.lor (Z.lor (Z.lor
      (u64 (Z.shiftl (Z.land data 0xff) 56))
      (u64 (Z.shiftl (byte_at data 8) 40)))
      (u64 (Z.shiftl (byte_at data 16) 24)))
      (u64 (Z.shiftl (byte_at data 24) 8)))
      (Z.shiftr (byte_at data 32) 8))
      (Z.shiftr (byte_at data 40) 24))
      (Z.shiftr (byte_at data 48) 40))
      (Z.shiftr (byte_at data 56) 56)).

Definition __read_4 (buf : list Z) (ptr : Z) : option Z := rd_le buf ptr 4.

Definition __read_4_sw (buf : list Z) (ptr : Z) : option Z :=
  let* data := rd_le buf ptr 4 in
  Some (u32 (Z.lor (Z.lor (Z.lor
      (Z.shiftl (Z.land data 0xff) 24)
      (Z.shiftl (byte_at data 8) 8))
      (Z.shiftr (byte_at data 16) 8))
      (Z.shiftr (byte_at data 24) 24))).

(** [ptr] is an offset into the sub-buffer. *)
Definition read_8 (kbuf : kbuffer) (ptr : Z) : option Z :=
  let* buf := subbuffer kbuf in
  match read_fns kbuf with read_plain => __read_8 buf ptr | read_sw => __read_8_sw buf ptr end.

Definition read_4 (kbuf : kbuffer) (ptr : Z) : option Z :=
  let* buf := subbuffer kbuf in
  match read_fns kbuf with read_plain => __read_4 buf ptr | read_sw => __read_4_sw buf ptr end.

Definition read_long (kbuf : kbuffer) (ptr : Z) : option Z :=
  match read_long_p kbuf with long_8 => read_8 kbuf ptr | long_4 => read_4 kbuf ptr end.

(** [ptr - kbuf->data] as an [int]. *)
Definition calc_index (kbuf : kbuffer) (ptr : Z) : Z := s32 (ptr - start kbuf).

(** [verdict] is [calloc]'s; [None] is a NULL result. *)
Definition kbuffer_alloc (verdict : bool) (size : kbuffer_long_size) (endian : kbuffer_endian)
    : option kbuffer :=
  let flags := match size with KBUFFER_LSIZE_4 => 0 | KBUFFER_LSIZE_8 => KBUFFER_FL_LONG_8 end in
  let flags := match endian with
               | KBUFFER_ENDIAN_LITTLE => flags
               | KBUFFER_ENDIAN_BIG => Z.lor flags KBUFFER_FL_BIG_ENDIAN
               end in
  if negb verdict then None else
  let flags := if host_is_bigendian then Z.lor flags KBUFFER_FL_HOST_BIG_ENDIAN else flags in
  Some (mkKbuffer 0 0 flags None 0 0 0 0 0
          (if do_swap flags then read_sw else read_plain)
          (if tst flags KBUFFER_FL_LONG_8 then long_8 else long_4)
          new_format).

Definition type4host (flags type_len_ts : Z) : Z :=
  if tst flags KBUFFER_FL_BIG_ENDIAN
  then Z.land (Z.shiftr type_len_ts 29) 3 else Z.land type_len_ts 3.

Definition len4host (flags type_len_ts : Z) : Z :=
  if tst flags KBUFFER_FL_BIG_ENDIAN
  then Z.land (Z.shiftr type_len_ts 27) 7 else Z.land (Z.shiftr type_len_ts 2) 7.

Definition type_len4host (flags type_len_ts : Z) : Z :=
  if tst flags KBUFFER_FL_BIG_ENDIAN
  then Z.land (Z.shiftr type_len_ts 27) (Z.shiftl 1 5 - 1)
  else Z.land type_len_ts (Z.shiftl 1 5 - 1).

Definition ts4host (flags type_len_ts : Z) : Z :=
  if tst flags KBUFFER_FL_BIG_ENDIAN
  then Z.land type_len_ts (Z.shiftl 1 27 - 1) else Z.shiftr type_len_ts 5.

(** The end of [old_update_pointers]. [length] is [None] while it was never
    assigned. *)
Definition old_finish (kbuf : kbuffer) (type ptr delta : Z) (length : option Z)
    : option (Z * kbuffer) :=
  let* length := length in
  let idx := u32 (calc_index kbuf ptr) in
  Some (type, set_pos kbuf (u64 (timestamp kbuf + delta)) idx (curr kbuf) (u32 (idx + length))).

(** The result is the [int] that [__old_next_event] stores. *)
Definition old_update_pointers (kbuf : kbuffer) : option (Z * kbuffer) :=
  let ptr := start kbuf + curr kbuf in
  let* type_len_ts := read_4 kbuf ptr in
  let ptr := ptr + 4 in
  let type := type4host (flags kbuf) type_len_ts in
  let len := len4host (flags kbuf) type_len_ts in
  let delta := ts4host (flags kbuf) type_len_ts in
  if type =? OLD_RINGBUF_TYPE_PADDING then Some (0, set_next (size kbuf) kbuf) else
  if type =? OLD_RINGBUF_TYPE_TIME_EXTEND then
    let* extend := read_4 kbuf ptr in
    let extend := u64 (Z.shiftl extend TS_SHIFT) in
    let extend := u64 (extend + delta) in
    old_finish kbuf type (ptr + 4) (u32 extend) None
  else if type =? OLD_RINGBUF_TYPE_TIME_STAMP then
    Some (-1, set_pos kbuf (timestamp kbuf) (size kbuf) (size kbuf) (size kbuf))
  else if negb (len =? 0) then old_finish kbuf type ptr delta (Some (u32 (len * 4)))
  else
    let* length := read_4 kbuf ptr in
    old_finish kbuf type (ptr + 4) delta (Some (u32 (length - 4))).

(** The [do]-loop; [fuel] bounds its rounds. *)
Fixpoint __old_next_event (fuel : nat) (kbuf : kbuffer) : option (Z * kbuffer) :=
  match fuel with
  | O => None
  | S fuel =>
      let kbuf := set_curr (next kbuf) kbuf in
      if next kbuf >=? size kbuf then Some (-1, kbuf) else
      let* (type, kbuf) := old_update_pointers kbuf in
      if (type =? OLD_RINGBUF_TYPE_TIME_EXTEND) || (type =? OLD_RINGBUF_TYPE_PADDING)
      then __old_next_event fuel kbuf else Some (0, kbuf)
  end.

(** Returns the type, [*rptr], [*delta] and [*length]. *)
Definition translate_data (kbuf : kbuffer) (data : Z) : option (Z * Z * Z * Z) :=
  let* type_len_ts := read_4 kbuf data in
  let data := data + 4 in
  let type_len := type_len4host (flags kbuf) type_len_ts in
  let delta := ts4host (flags kbuf) type_len_ts in
  if type_len =? KBUFFER_TYPE_PADDING then
    let* l := read_4 kbuf data in
    Some (type_len, data, delta, s32 l)
  else if type_len =? KBUFFER_TYPE_TIME_EXTEND then
    let* extend := read_4 kbuf data in
    let extend := u64 (Z.shiftl extend TS_SHIFT) in
    let extend := u64 (extend + delta) in
    Some (type_len, data + 4, extend, 0)
  else if type_len =? KBUFFER_TYPE_TIME_STAMP then
    Some (type_len, data + 12, delta, 0)
  else if type_len =? 0 then
    let* l := read_4 kbuf data in
    let length := s32 (u32 (l - 4)) in
    ub_unless (length + 3 <? 2 ^ 31)
      (Some (type_len, data + 4, delta, Z.land (length + 3) (Z.lnot 3)))
  else Some (type_len, data, delta, s32 (type_len * 4)).

Definition update_pointers (kbuf : kbuffer) : option (Z * kbuffer) :=
  let* (type_len, ptr, delta, length) := translate_data kbuf (start kbuf + curr kbuf) in
  let idx := u32 (calc_index kbuf ptr) in
  Some (type_len, set_pos kbuf (u64 (timestamp kbuf + delta)) idx (curr kbuf) (u32 (idx + length))).

(** [data] is the sub-buffer itself here; the result is the offset of the
    payload and its size, or NULL. *)
Definition kbuffer_translate_data (swap : bool) (data : list Z) : option (option (Z * Z)) :=
  let flags := if swap
               then (if host_is_bigendian then 0 else KBUFFER_FL_BIG_ENDIAN)
               else (if host_is_bigendian then KBUFFER_FL_BIG_ENDIAN else 0) in
  let kbuf := mkKbuffer 0 0 flags (Some data) 0 0 0 0 0 (if swap then read_sw else read_plain)
                long_4 new_format in
  let* (type_len, ptr, delta, length) := translate_data kbuf 0 in
  if (type_len =? KBUFFER_TYPE_PADDING) || (type_len =? KBUFFER_TYPE_TIME_EXTEND)
     || (type_len =? KBUFFER_TYPE_TIME_STAMP)
  then Some None else Some (Some (ptr, u32 length)).

Fixpoint __next_event (fuel : nat) (kbuf : kbuffer) : option (Z * kbuffer) :=
  match fuel with
  | O => None
  | S fuel =>
      let kbuf := set_curr (next kbuf) kbuf in
      if next kbuf >=? size kbuf then Some (-1, kbuf) else
      let* (type, kbuf) := update_pointers kbuf in
      if (type =? KBUFFER_TYPE_TIME_EXTEND) || (type =? KBUFFER_TYPE_PADDING)
      then __next_event fuel kbuf else Some (0, kbuf)
  end.

Definition next_event (fuel : nat) (kbuf : kbuffer) : option (Z * kbuffer) :=
  match next_event_p kbuf with
  | new_format => __next_event fuel kbuf
  | old_format => __old_next_event fuel kbuf
  end.

(** The result is the offset of the event's data from [kbuf->data] and the
    time stored in [*ts], or NULL. *)
Definition kbuffer_next_event (fuel : nat) (kbuf : kbuffer) : option (option (Z * Z) * kbuffer) :=
  match subbuffer kbuf with
  | None => Some (None, kbuf)
  | Some _ =>
      let* (ret, kbuf) := next_event fuel kbuf in
      if ret <? 0 then Some (None, kbuf) else Some (Some (index kbuf, timestamp kbuf), kbuf)
  end.

Definition kbuffer_load_subbuffer (fuel : nat) (kbuf : kbuffer) (sub : option (list Z))
    : option (Z * kbuffer) :=
  match sub with
  | None => Some (-1, kbuf)
  | Some _ =>
      let start := if tst (flags kbuf) KBUFFER_FL_LONG_8 then 16 else 12 in
      let kbuf := mkKbuffer (timestamp kbuf) (lost_events kbuf) (flags kbuf) sub (index kbuf) 0
                    (next kbuf) (size kbuf) start (read_fns kbuf) (read_long_p kbuf)
                    (next_event_p kbuf) in
      let* ts := read_8 kbuf 0 in
      let* flags := read_long kbuf 8 in
      let size := Z.land (u32 flags) COMMIT_MASK in
      let* lost :=
        if tst flags MISSING_EVENTS then
          if tst flags MISSING_STORED
          then let* l := read_long kbuf (start + size) in Some (s64 l)
          else Some (-1)
        else Some 0 in
      let kbuf := mkKbuffer ts lost (KBuffer.flags kbuf) sub 0 0 0 size start (read_fns kbuf)
                    (read_long_p kbuf) (next_event_p kbuf) in
      let* (_, kbuf) := next_event fuel kbuf in
      Some (0, kbuf)
  end.

Definition kbuffer_read_event (kbuf : kbuffer) : option (Z * Z) :=
  match subbuffer kbuf with
  | None => None
  | Some _ =>
      if curr kbuf >=? size kbuf then None else Some (index kbuf, timestamp kbuf)
  end.

Definition kbuffer_timestamp (kbuf : kbuffer) : Z := timestamp kbuf.

(** [while (kbuf->curr < offset)]; [data] starts unassigned. *)
Fixpoint at_offset_loop (fuel efuel : nat) (kbuf : kbuffer) (offset : Z)
    (data : option (option (Z * Z))) : option (option (option (Z * Z)) * kbuffer) :=
  match fuel with
  | O => None
  | S fuel =>
      if curr kbuf <? u32 offset then
        let* (d, kbuf) := kbuffer_next_event efuel kbuf in
        match d with
        | None => Some (Some None, kbuf)
        | Some _ => at_offset_loop fuel efuel kbuf offset (Some d)
        end
      else Some (data, kbuf)
  end.

Definition kbuffer_read_at_offset (fuel : nat) (kbuf : kbuffer) (offset : Z)
    : option (option (Z * Z) * kbuffer) :=
  let offset := if u32 offset <? start kbuf then 0 else s32 (u32 offset - start kbuf) in
  let* (_, kbuf) := kbuffer_load_subbuffer fuel kbuf (subbuffer kbuf) in
  let* (data, kbuf) := at_offset_loop fuel fuel kbuf offset None in
  let* data := data in
  Some (data, kbuf).

Definition kbuffer_subbuffer_size (kbuf : kbuffer) : Z := s32 (size kbuf).
Definition kbuffer_curr_index (kbuf : kbuffer) : Z := s32 (curr kbuf).
Definition kbuffer_curr_offset (kbuf : kbuffer) : Z := s32 (u32 (curr kbuf + start kbuf)).
Definition kbuffer_event_size (kbuf : kbuffer) : Z := s32 (u32 (next kbuf - index kbuf)).
Definition kbuffer_curr_size (kbuf : kbuffer) : Z := s32 (u32 (next kbuf - curr kbuf)).
Definition kbuffer_missed_events (kbuf : kbuffer) : Z :=
  if negb (curr kbuf =? 0) then 0 else s32 (lost_events kbuf).

Definition kbuffer_set_old_format (kbuf : kbuffer) : kbuffer :=
  mkKbuffer (timestamp kbuf) (lost_events kbuf) (Z.lor (flags kbuf) KBUFFER_FL_OLD_FORMAT)
    (subbuffer kbuf) (index kbuf) (curr kbuf) (next kbuf) (size kbuf) (start kbuf)
    (read_fns kbuf) (read_long_p kbuf) old_format.

Definition kbuffer_start_of_data (kbuf : kbuffer) : Z := s32 (start kbuf).

(** ** Byte order *)

(** Appending a byte lane to the lanes above it. *)
Lemma lor_lane hi lo n k : k = n + 8 -> 0 <= n -> 0 <= lo < 256 ->
  Z.lor (hi * 2 ^ k) (lo * 2 ^ n) = (hi * 256 + lo) * 2 ^ n.
Proof.
  intros -> Hn Hlo. rewrite Z.lor_comm, Z.pow_add_r by lia.
  replace (hi * (2 ^ n * 2 ^ 8)) with (hi * 2 ^ 8 * 2 ^ n) by lia.
  rewrite <-!Z.shiftl_mul_pow2 by done. rewrite <-Z.shiftl_lor. f_equal.
  rewrite Z.shiftl_mul_pow2, lor_add_disjoint by lia. lia.
Qed.

Lemma lane_left x n m : 0 <= n -> 0 <= m ->
  Z.shiftl (byte_at x n) m = (x / 2 ^ n) mod 256 * 2 ^ (n + m).
Proof.
  intros Hn Hm. unfold byte_at. change 0xff with (Z.ones 8). rewrite land_lane, Z.shiftl_mul_pow2, Z.pow_add_r by lia.
  change (2 ^ 8) with 256. lia.
Qed.

Lemma lane_right x n m : 0 <= m <= n ->
  Z.shiftr (byte_at x n) m = (x / 2 ^ n) mod 256 * 2 ^ (n - m).
Proof.
  intros Hm. unfold byte_at. change 0xff with (Z.ones 8). rewrite land_lane, Z.shiftr_div_pow2 by lia.
  replace n with (n - m + m) at 2 by lia. rewrite Z.pow_add_r, Z.mul_assoc by lia.
  apply Z.div_mul. lia.
Qed.

Lemma lane_0 x : Z.land x 0xff = byte_at x 0.
Proof. done. Qed.

Lemma lane_left_u64 x n m : 0 <= n -> 0 <= m -> n + m <= 56 ->
  u64 (Z.shiftl (byte_at x n) m) = Z.shiftl (byte_at x n) m.
Proof.
  intros Hn Hm Hnm. apply u64_small. rewrite lane_left by done.
  pose proof (Z.mod_pos_bound (x / 2 ^ n) 256 ltac:(lia)).
  assert (2 ^ (n + m) <= 2 ^ 56) by (apply Z.pow_le_mono_r; lia).
  assert (0 < 2 ^ (n + m)) by (apply Z.pow_pos_nonneg; lia). nia.
Qed.


(** The byte [i] of a little-endian word. *)
Lemma le_combine_lane bs i b : Forall is_byte bs -> bs !! i = Some b ->
  (le_combine bs / 2 ^ (8 * Z.of_nat i)) mod 256 = b.
Proof.
  intros Hf. revert i. induction Hf as [|c bs Hc Hf IH]; intros i Hi; [done|].
  unfold is_byte in Hc. destruct i as [|i]; cbn [le_combine].
  - simplify_eq/=. rewrite Z.div_1_r, Z.mul_comm, Z_mod_plus_full, Z.mod_small; lia.
  - rewrite Nat2Z.inj_succ, Z.mul_succ_r, Z.add_comm, Z.pow_add_r by lia.
    change (2 ^ 8) with 256. rewrite (Z.mul_comm _ 256), <-Z.div_div by lia.
    rewrite (Z.add_comm (256 * _)), Z.mul_comm, Z.div_add, (Z.div_small c), Z.add_0_l by lia. by apply IH.
Qed.

Ltac lanes Hf :=
  repeat match goal with
  | |- context [(le_combine ?l / ?p) mod 256] =>
      first [ rewrite (le_combine_lane l 0 _ Hf eq_refl : (le_combine l / p) mod 256 = _)
            | rewrite (le_combine_lane l 1 _ Hf eq_refl : (le_combine l / p) mod 256 = _)
            | rewrite (le_combine_lane l 2 _ Hf eq_refl : (le_combine l / p) mod 256 = _)
            | rewrite (le_combine_lane l 3 _ Hf eq_refl : (le_combine l / p) mod 256 = _)
            | rewrite (le_combine_lane l 4 _ Hf eq_refl : (le_combine l / p) mod 256 = _)
            | rewrite (le_combine_lane l 5 _ Hf eq_refl : (le_combine l / p) mod 256 = _)
            | rewrite (le_combine_lane l 6 _ Hf eq_refl : (le_combine l / p) mod 256 = _)
            | rewrite (le_combine_lane l 7 _ Hf eq_refl : (le_combine l / p) mod 256 = _) ]
  end.

Lemma __read_4_sw_rev buf ptr bs :
  rd_bytes buf ptr 4 = Some bs -> Forall is_byte bs ->
  __read_4_sw buf ptr = Some (le_combine (rev bs)).
Proof.
  intros Hb Hf. pose proof (rd_bytes_length _ _ _ _ Hb) as Hl.
  unfold __read_4_sw, rd_le. rewrite Hb. cbn [mbind option_bind]. f_equal.
  destruct bs as [|b0 [|b1 [|b2 [|b3 [|]]]]]; try done.
  rewrite lane_0, !lane_left, !lane_right by lia. lanes Hf.
  repeat (apply Forall_cons_1 in Hf as [? Hf]). unfold is_byte in *.
  rewrite !lor_lane by lia.
  cbn [rev app le_combine]. rewrite u32_small; lia.
Qed.

Lemma __read_8_sw_rev buf ptr bs :
  rd_bytes buf ptr 8 = Some bs -> Forall is_byte bs ->
  __read_8_sw buf ptr = Some (le_combine (rev bs)).
Proof.
  intros Hb Hf. pose proof (rd_bytes_length _ _ _ _ Hb) as Hl.
  unfold __read_8_sw, rd_le. rewrite Hb. cbn [mbind option_bind]. f_equal.
  destruct bs as [|b0 [|b1 [|b2 [|b3 [|b4 [|b5 [|b6 [|b7 [|]]]]]]]]]; try done.
  rewrite lane_0, !lane_left_u64, !lane_left, !lane_right by lia. lanes Hf.
  repeat (apply Forall_cons_1 in Hf as [? Hf]). unfold is_byte in *.
  rewrite !lor_lane by lia.
  cbn [rev app le_combine]. lia.
Qed.

(** ** The page format

    What the ring buffer writes: a word in the byte order of the file, the
    record header with its 5-bit type and 27-bit time delta, and the records. *)

Definition enc (be : bool) (n : nat) (v : Z) : list Z :=
  if be then rev (le_split n v) else le_split n v.

Inductive record :=
  | RData (delta : Z) (payload : list Z)
  | RBig (delta : Z) (payload : list Z)
  | RExtend (delta : Z)
  | RPad (delta : Z) (filler : list Z).

Abbreviation zlen l := (Z.of_nat (length l)).

Definition header (be : bool) (tl ts : Z) : list Z :=
  enc be 4 (if be then tl * 2 ^ 27 + ts else ts * 2 ^ 5 + tl).

Definition pad4 (p : list Z) : list Z :=
  p ++ replicate (Z.to_nat ((- zlen p) mod 4)) 0.

Definition encode_record (be : bool) (r : record) : list Z :=
  match r with
  | RData d p => header be (zlen p / 4) d ++ p
  | RBig d p => header be 0 d ++ enc be 4 (zlen p + 4) ++ pad4 p
  | RExtend d => header be 30 (d mod 2 ^ 27) ++ enc be 4 (d / 2 ^ 27)
  | RPad d f => header be 29 d ++ enc be 4 (4 + zlen f) ++ f
  end.

Definition wf_record (r : record) : Prop :=
  match r with
  | RData d p => 0 <= d < 2 ^ 27 /\ zlen p mod 4 = 0 /\ 4 <= zlen p <= 112
  | RBig d _ | RPad d _ => 0 <= d < 2 ^ 27
  | RExtend d => 0 <= d < 2 ^ 59
  end.

Definition rec_delta (r : record) : Z :=
  match r with RData d _ | RBig d _ | RExtend d | RPad d _ => d end.

(** Bytes before the payload, and the size of the payload as stored. *)
Definition rec_payload (r : record) : option (Z * Z) :=
  match r with
  | RData _ p => Some (4, zlen p)
  | RBig _ p => Some (8, zlen (pad4 p))
  | _ => None
  end.

Definition rec_size (r : record) : Z :=
  match r with
  | RData _ p => 4 + zlen p
  | RBig _ p => 8 + zlen (pad4 p)
  | RExtend _ => 8
  | RPad _ f => 8 + zlen f
  end.

(** An event as the reader reports it: the offset of its record, the offset and
    the size of its data, its time. *)
Record event := mkEvent { ev_start : Z; ev_index : Z; ev_size : Z; ev_ts : Z }.
#[global] Instance event_eq_dec : EqDecision event.
Proof. solve_decision. Defined.

Fixpoint events (ts off : Z) (rs : list record) : list event :=
  match rs with
  | [] => []
  | r :: rs =>
      let ts := u64 (ts + rec_delta r) in
      match rec_payload r with
      | Some (hdr, sz) => mkEvent off (off + hdr) sz ts :: events ts (off + rec_size r) rs
      | None => events ts (off + rec_size r) rs
      end
  end.

Definition encode_records (be : bool) (rs : list record) : list Z := concat (encode_record be <$> rs).
Definition recs_size (rs : list record) : Z := foldr (fun r n => rec_size r + n) 0 rs.

Lemma length_enc be n v : length (enc be n v) = n.
Proof. unfold enc. destruct be; [rewrite length_rev|]; apply length_le_split. Qed.

Lemma length_pad4 p : zlen (pad4 p) = Z.land (zlen p + 3) (Z.lnot 3).
Proof.
  unfold pad4. rewrite length_app, length_replicate, Nat2Z.inj_add, Z2Nat.id
    by (apply Z.mod_pos_bound; lia).
  change 3 with (Z.ones 2). rewrite <-Z.ldiff_land, Z.ldiff_ones_r by lia.
  rewrite Z.shiftl_mul_pow2, Z.shiftr_div_pow2 by lia. change (Z.ones 2) with 3.
  change (2 ^ 2) with 4. Z.to_euclidean_division_equations. lia.
Qed.

Lemma length_encode_record be r : zlen (encode_record be r) = rec_size r.
Proof.
  destruct r; cbn [encode_record rec_size]; unfold header;
    rewrite ?length_app, ?length_enc; lia.
Qed.

Lemma length_encode_records be rs : zlen (encode_records be rs) = recs_size rs.
Proof.
  unfold encode_records. induction rs as [|r rs IH]; [done|].
  cbn [fmap list_fmap concat recs_size foldr]. rewrite length_app, Nat2Z.inj_add, length_encode_record.
  fold (recs_size rs). lia.
Qed.

Lemma recs_size_nonneg rs : 0 <= recs_size rs.
Proof. rewrite <-(length_encode_records true). lia. Qed.

Lemma rec_size_pos r : 4 <= rec_size r.
Proof. destruct r; cbn [rec_size]; lia. Qed.

(** ** Reading in the byte order of the file *)

(** The configuration [kbuffer_alloc] leaves for a file. *)
Record configured (be ls : bool) (k : kbuffer) : Prop := {
  cf_read : read_fns k = if be then read_sw else read_plain;
  cf_long : read_long_p k = if ls then long_8 else long_4;
  cf_be : tst (flags k) KBUFFER_FL_BIG_ENDIAN = be;
  cf_ls : tst (flags k) KBUFFER_FL_LONG_8 = ls;
  cf_next : next_event_p k = new_format
}.

Section Reads.
Context (be ls : bool) (k : kbuffer) (Hk : configured be ls k).
Context (pre post : list Z) (off : Z) (Hoff : zlen pre = off).

Lemma rd_enc n v : rd_bytes (pre ++ enc be n v ++ post) off n = Some (enc be n v).
Proof. apply rd_bytes_app_eq; [done|apply length_enc]. Qed.

Lemma enc_bytes n v : Forall is_byte (enc be n v).
Proof. unfold enc. destruct be; [apply List.Forall_rev|]; apply le_split_bytes. Qed.

Lemma enc_value n v : 0 <= v < 2 ^ (8 * Z.of_nat n) ->
  le_combine (if be then rev (enc be n v) else enc be n v) = v.
Proof.
  intros Hv. unfold enc. destruct be; [rewrite rev_involutive|]; rewrite le_combine_split;
    by apply Z.mod_small.
Qed.

Lemma read_4_enc v : subbuffer k = Some (pre ++ enc be 4 v ++ post) -> 0 <= v < 2 ^ 32 ->
  read_4 k off = Some v.
Proof.
  intros Hs Hv. unfold read_4. rewrite Hs, (cf_read _ _ _ Hk). cbn [mbind option_bind].
  pose proof (enc_value 4 v Hv) as He. pose proof (enc_bytes 4 v). pose proof (rd_enc 4 v) as Hr.
  destruct be; [by rewrite (__read_4_sw_rev _ _ _ Hr), He|].
  unfold __read_4, rd_le. rewrite Hr. cbn [mbind option_bind]. by rewrite He.
Qed.

Lemma read_8_enc v : subbuffer k = Some (pre ++ enc be 8 v ++ post) -> 0 <= v < 2 ^ 64 ->
  read_8 k off = Some v.
Proof.
  intros Hs Hv. unfold read_8. rewrite Hs, (cf_read _ _ _ Hk). cbn [mbind option_bind].
  pose proof (enc_value 8 v Hv) as He. pose proof (enc_bytes 8 v). pose proof (rd_enc 8 v) as Hr.
  destruct be; [by rewrite (__read_8_sw_rev _ _ _ Hr), He|].
  unfold __read_8, rd_le. rewrite Hr. cbn [mbind option_bind]. by rewrite He.
Qed.

End Reads.

Lemma read_long_enc be ls k pre post off v : configured be ls k -> zlen pre = off ->
  subbuffer k = Some (pre ++ enc be (if ls then 8 else 4) v ++ post) ->
  0 <= v < 2 ^ (if ls then 64 else 32) -> read_long k off = Some v.
Proof.
  intros Hk Ho Hs Hv. unfold read_long. rewrite (cf_long _ _ _ Hk).
  destruct ls; [by eapply read_8_enc|by eapply read_4_enc].
Qed.

(** ** One record *)

Lemma header_value (be : bool) tl ts : 0 <= tl < 32 -> 0 <= ts < 2 ^ 27 ->
  0 <= (if be then tl * 2 ^ 27 + ts else ts * 2 ^ 5 + tl) < 2 ^ 32.
Proof. destruct be; lia. Qed.

Lemma type_len_header be ls k tl ts : configured be ls k -> 0 <= tl < 32 -> 0 <= ts < 2 ^ 27 ->
  type_len4host (flags k) (if be then tl * 2 ^ 27 + ts else ts * 2 ^ 5 + tl) = tl.
Proof.
  intros Hk Ht Hs. unfold type_len4host. rewrite (cf_be _ _ _ Hk).
  change (Z.shiftl 1 5 - 1) with (Z.ones 5).
  destruct be; rewrite Z.land_ones, ?Z.shiftr_div_pow2 by lia.
  - rewrite Z.add_comm, Z.div_add, (Z.div_small ts), Z.mod_small; lia.
  - rewrite Z.add_comm, Z_mod_plus_full, Z.mod_small; lia.
Qed.

Lemma ts_header be ls k tl ts : configured be ls k -> 0 <= tl < 32 -> 0 <= ts < 2 ^ 27 ->
  ts4host (flags k) (if be then tl * 2 ^ 27 + ts else ts * 2 ^ 5 + tl) = ts.
Proof.
  intros Hk Ht Hs. unfold ts4host. rewrite (cf_be _ _ _ Hk).
  change (Z.shiftl 1 27 - 1) with (Z.ones 27).
  destruct be; rewrite ?Z.land_ones, ?Z.shiftr_div_pow2 by lia.
  - rewrite Z.add_comm, Z_mod_plus_full, Z.mod_small; lia.
  - rewrite Z.add_comm, Z.div_add, (Z.div_small tl); lia.
Qed.

Definition rec_type (r : record) : Z :=
  match r with
  | RData _ p => zlen p / 4 | RBig _ _ => 0
  | RExtend _ => KBUFFER_TYPE_TIME_EXTEND | RPad _ _ => KBUFFER_TYPE_PADDING
  end.
Definition rec_hdr (r : record) : Z := match r with RData _ _ | RPad _ _ => 4 | _ => 8 end.

(** Equality of results, component by component. *)
Ltac tuple_lia :=
  f_equal; rewrite !pair_equal_spec; repeat split; Z.to_euclidean_division_equations; lia.

Section OneRecord.
Context (be ls : bool) (k : kbuffer) (Hk : configured be ls k).
Context (pre post : list Z) (off : Z) (Hoff : zlen pre = off).

(** The header of a record and the word after it. *)
Lemma read_header tl ts rest :
  subbuffer k = Some (pre ++ header be tl ts ++ rest) -> 0 <= tl < 32 -> 0 <= ts < 2 ^ 27 ->
  read_4 k off = Some (if be then tl * 2 ^ 27 + ts else ts * 2 ^ 5 + tl).
Proof. intros Hs Ht Hts. eapply read_4_enc; [done..|]. by apply header_value. Qed.

Lemma read_second tl ts v rest :
  subbuffer k = Some (pre ++ header be tl ts ++ enc be 4 v ++ rest) -> 0 <= v < 2 ^ 32 ->
  read_4 k (off + 4) = Some v.
Proof.
  intros Hs Hv. eapply (read_4_enc be ls k Hk (pre ++ header be tl ts) rest); [|by rewrite <-app_assoc|done].
  unfold header. rewrite length_app, length_enc. lia.
Qed.

Lemma translate_record r :
  subbuffer k = Some (pre ++ encode_record be r ++ post) -> wf_record r -> rec_size r < 2 ^ 27 ->
  translate_data k off = Some (rec_type r, off + rec_hdr r, rec_delta r, rec_size r - rec_hdr r).
Proof.
  intros Hs Hw Hsz. unfold translate_data. destruct r as [d p|d p|d|d f];
    cbn [wf_record rec_size rec_type rec_hdr rec_delta] in *;
    unfold encode_record in Hs; rewrite <-!app_assoc in Hs.
  all: erewrite read_header; [|exact Hs|Z.to_euclidean_division_equations; lia..].
  all: cbn [mbind option_bind]; rewrite (type_len_header be ls k), (ts_header be ls k);
    [|try exact Hk; Z.to_euclidean_division_equations; lia..].
  - rewrite !(proj2 (Z.eqb_neq _ _)) by (unfold KBUFFER_TYPE_PADDING, KBUFFER_TYPE_TIME_EXTEND,
      KBUFFER_TYPE_TIME_STAMP; Z.to_euclidean_division_equations; lia).
    rewrite s32_small by (Z.to_euclidean_division_equations; lia).
    tuple_lia.
  - assert (zlen p <= zlen (pad4 p)) by (unfold pad4; rewrite length_app; lia).
    cbn. erewrite read_second; [|exact Hs|lia]. cbn [mbind option_bind].
    replace (zlen p + 4 - 4) with (zlen p) by lia.
    rewrite u32_small by lia. rewrite s32_small by lia.
    unfold ub_unless. rewrite (proj2 (Z.ltb_lt _ _)), <-length_pad4 by lia.
    tuple_lia.
  - cbn. erewrite read_second; [|exact Hs|]; [|split; [apply Z.div_pos|apply Z.div_lt_upper_bound]; lia].
    cbn [mbind option_bind]. unfold TS_SHIFT. rewrite Z.shiftl_mul_pow2 by lia.
    pose proof (Z.div_mod d (2 ^ 27) ltac:(lia)). pose proof (Z.mod_pos_bound d (2 ^ 27) ltac:(lia)).
    rewrite (u64_small (d / _ * _)) by lia.
    rewrite u64_small by lia. tuple_lia.
  - cbn. erewrite read_second; [|exact Hs|lia]. cbn [mbind option_bind].
    rewrite s32_small by lia. tuple_lia.
Qed.
End OneRecord.

(** ** A sequence of records *)

Record at_records (be ls : bool) (k : kbuffer) (rs : list record) : Prop := {
  ar_cf : configured be ls k;
  ar_sub : exists pre post, subbuffer k = Some (pre ++ encode_records be rs ++ post)
             /\ zlen pre = start k + next k;
  ar_size : size k = next k + recs_size rs;
  ar_bound : size k < 2 ^ 27;
  ar_next : 0 <= next k;
  ar_start : 0 <= start k <= 16;
  ar_wf : Forall wf_record rs
}.

Definition at_event (k : kbuffer) (e : event) : Prop :=
  curr k = ev_start e /\ index k = ev_index e /\ timestamp k = ev_ts e /\
  next k = index k + ev_size e /\ curr k < size k /\ 0 <= index k <= next k /\ next k <= size k.

(** The fields the reader leaves alone while it walks a page. *)
Definition same_page (k k' : kbuffer) : Prop :=
  subbuffer k' = subbuffer k /\ start k' = start k /\ size k' = size k /\
  lost_events k' = lost_events k.

Lemma rec_payload_spec r : wf_record r ->
  match rec_payload r with
  | Some (hdr, sz) => hdr = rec_hdr r /\ sz = rec_size r - hdr
      /\ rec_type r <> KBUFFER_TYPE_TIME_EXTEND /\ rec_type r <> KBUFFER_TYPE_PADDING
  | None => rec_type r = KBUFFER_TYPE_TIME_EXTEND \/ rec_type r = KBUFFER_TYPE_PADDING
  end.
Proof.
  unfold KBUFFER_TYPE_TIME_EXTEND, KBUFFER_TYPE_PADDING.
  destruct r; cbn [rec_payload rec_type rec_hdr rec_size wf_record]; intros Hw; try tauto;
    repeat split; try (Z.to_euclidean_division_equations; lia).
Qed.

Lemma rec_hdr_bound r : 4 <= rec_hdr r <= rec_size r.
Proof. destruct r; cbn [rec_hdr rec_size]; lia. Qed.

(** One round of the loop of [__next_event]. *)
Lemma update_pointers_record be ls k r rs :
  at_records be ls k (r :: rs) ->
  let k' := set_pos k (u64 (timestamp k + rec_delta r)) (next k + rec_hdr r) (next k)
              (next k + rec_size r) in
  update_pointers (set_curr (next k) k) = Some (rec_type r, k') /\ at_records be ls k' rs.
Proof.
  intros Hr. destruct Hr as [Hcf (pre & post & Hs & Hpre) Hsz Hb Hn Hst Hwf].
  apply Forall_cons_1 in Hwf as [Hr Hwf]. cbn [recs_size foldr] in Hsz. fold (recs_size rs) in Hsz.
  pose proof (recs_size_nonneg rs). pose proof (rec_size_pos r). pose proof (rec_hdr_bound r).
  unfold encode_records in Hs. cbn [fmap list_fmap concat] in Hs. fold (encode_records be rs) in Hs.
  rewrite <-app_assoc in Hs.
  assert (configured be ls (set_curr (next k) k)) as Hcf' by (by destruct Hcf; split).
  split.
  - unfold update_pointers. cbn [start curr set_curr set_pos].
    erewrite (translate_record be ls); [|done|exact Hpre|exact Hs|done|lia].
    cbn [mbind option_bind]. unfold calc_index. cbn [start set_curr set_pos timestamp].
    replace (start k + next k + rec_hdr r - start k) with (next k + rec_hdr r) by lia.
    rewrite s32_small, !u32_small by lia. do 2 f_equal. unfold set_curr, set_pos. cbn. f_equal. lia.
  - split; cbn [size next start set_pos]; try lia; try done; [by destruct Hcf; split|].
    exists (pre ++ encode_record be r), post. cbn [subbuffer set_pos].
    rewrite length_app, Nat2Z.inj_add, length_encode_record, <-app_assoc, Hs. split; [done|lia].
Qed.

Lemma __next_event_spec be ls rs k fuel :
  at_records be ls k rs -> (length rs < fuel)%nat ->
  match events (timestamp k) (next k) rs with
  | [] => exists k', __next_event fuel k = Some (-1, k') /\ same_page k k' /\ curr k' = size k'
           /\ configured be ls k'
  | e :: es => exists k' rs', __next_event fuel k = Some (0, k') /\ same_page k k' /\ at_event k' e
      /\ at_records be ls k' rs' /\ events (timestamp k') (next k') rs' = es
      /\ (length rs' < length rs)%nat
  end.
Proof.
  revert k fuel. induction rs as [|r rs IH]; intros k fuel Hr Hf;
    (destruct fuel as [|fuel]; [simpl in Hf; lia|]); cbn [events __next_event].
  - destruct Hr as [[] _ Hsz _ _ _ _]. unfold recs_size in Hsz. cbn in Hsz.
    cbn [next size set_curr set_pos]. rewrite (proj2 (Z.geb_le _ _)) by lia.
    eexists. repeat split; try done. simpl. lia.
  - destruct (update_pointers_record _ _ _ _ _ Hr) as [Hu Hr'].
    pose proof (recs_size_nonneg rs). pose proof (rec_size_pos r). pose proof (rec_hdr_bound r).
    destruct Hr as [_ _ Hsz Hb Hn _ Hwf]. cbn [recs_size foldr] in Hsz. fold (recs_size rs) in Hsz.
    apply Forall_cons_1 in Hwf as [Hw _]. pose proof (rec_payload_spec r Hw) as Hp.
    cbn [next size set_curr set_pos]. rewrite Z.geb_leb, (proj2 (Z.leb_gt _ _)) by lia.
    rewrite Hu. cbn [mbind option_bind].
    destruct (rec_payload r) as [[hdr sz]|].
    + destruct Hp as (-> & -> & Hx & Hp). rewrite !(proj2 (Z.eqb_neq _ _)) by done. cbn [orb].
      eexists _, rs. split; [done|]. split; [done|]. split; [|split; [exact Hr'|]].
      * unfold at_event. cbn. lia.
      * cbn [length]. split; [done|lia].
    + assert ((rec_type r =? KBUFFER_TYPE_TIME_EXTEND) || (rec_type r =? KBUFFER_TYPE_PADDING) = true)
        as -> by (destruct Hp as [-> | ->]; done).
      cbn [length] in Hf. specialize (IH _ fuel Hr' ltac:(lia)). cbn [timestamp next set_pos] in IH.
      destruct (events _ _ rs) as [|e es]; [exact IH|].
      destruct IH as (k' & rs' & ? & ? & ? & ? & ? & ?). exists k', rs'.
      cbn [length]. repeat (split; [done|]). lia.
Qed.

(** ** A page *)

(** What the writer recorded about events lost before this page. *)
Inductive missed := NoneMissed | SomeMissed | CountMissed (n : Z).

Definition commit_word (rs : list record) (m : missed) : Z :=
  recs_size rs + match m with NoneMissed => 0 | SomeMissed => 2 ^ 31 | CountMissed _ => 2 ^ 31 + 2 ^ 30 end.

Definition page (be ls : bool) (ts : Z) (m : missed) (rs : list record) (trail : list Z) : list Z :=
  let wd := if ls then 8%nat else 4%nat in
  enc be 8 ts ++ enc be wd (commit_word rs m) ++ encode_records be rs
  ++ match m with CountMissed n => enc be wd n | _ => [] end ++ trail.

Definition wf_page (ls : bool) (ts : Z) (m : missed) (rs : list record) : Prop :=
  0 <= ts < 2 ^ 64 /\ Forall wf_record rs /\ recs_size rs < 2 ^ 27 /\
  match m with CountMissed n => 0 <= n < 2 ^ (if ls then 63 else 32) | _ => True end.

Definition lost_of (m : missed) : Z :=
  match m with NoneMissed => 0 | SomeMissed => -1 | CountMissed n => n end.

(** The user's loop: [kbuffer_read_event], then [kbuffer_next_event] until
    nothing is left. *)
Fixpoint read_all (n fuel : nat) (k : kbuffer) : option (list event) :=
  match n with
  | O => None
  | S n =>
      match kbuffer_read_event k with
      | None => Some []
      | Some (idx, ts) =>
          let* (_, k') := kbuffer_next_event fuel k in
          let* es := read_all n fuel k' in
          Some (mkEvent (kbuffer_curr_index k) idx (kbuffer_event_size k) ts :: es)
      end
  end.

Lemma commit_word_bits rs m : recs_size rs < 2 ^ 27 ->
  0 <= commit_word rs m < 2 ^ 32 /\
  Z.land (u32 (commit_word rs m)) COMMIT_MASK = recs_size rs /\
  tst (commit_word rs m) MISSING_EVENTS = (match m with NoneMissed => false | _ => true end) /\
  tst (commit_word rs m) MISSING_STORED = (match m with CountMissed _ => true | _ => false end).
Proof.
  intros Hs. pose proof (recs_size_nonneg rs) as H0. unfold commit_word, tst.
  change MISSING_EVENTS with (Z.shiftl (Z.ones 33) 31).
  change MISSING_STORED with (Z.shiftl (Z.ones 1) 30).
  change COMMIT_MASK with (Z.ones 27). rewrite !land_lane, Z.land_ones by lia.
  set (n := recs_size rs) in *. clearbody n.
  assert (forall a b, 0 <= a <= 1 -> 0 <= b <= 1 ->
    (n + (b * 2 ^ 31 + a * 2 ^ 30)) mod 2 ^ 27 = n /\
    (n + (b * 2 ^ 31 + a * 2 ^ 30)) / 2 ^ 31 = b /\
    (n + (b * 2 ^ 31 + a * 2 ^ 30)) / 2 ^ 30 = 2 * b + a) as Hq.
  { intros a b Ha Hb. split_and!.
    - symmetry. apply Z.mod_unique_pos with (b * 16 + a * 8); lia.
    - symmetry. apply Z.div_unique_pos with (n + a * 2 ^ 30); lia.
    - symmetry. apply Z.div_unique_pos with n; lia. }
  assert (forall a b, 0 <= a <= 1 -> 0 <= b <= 1 -> let w := n + (b * 2 ^ 31 + a * 2 ^ 30) in
    0 <= w < 2 ^ 32 /\ (u32 w) mod 2 ^ 27 = n /\
    negb ((w / 2 ^ 31) mod 2 ^ 33 * 2 ^ 31 =? 0) = negb (b =? 0) /\
    negb ((w / 2 ^ 30) mod 2 ^ 1 * 2 ^ 30 =? 0) = negb (a =? 0)) as Hw.
  { intros a b Ha Hb w. destruct (Hq a b Ha Hb) as (H1 & H2 & H3). unfold w.
    rewrite u32_small by lia. rewrite H1, H2, H3. split_and!; try lia.
    - by assert (b = 0 \/ b = 1) as [-> | ->] by lia.
    - assert (a = 0 \/ a = 1) as [-> | ->] by lia; by assert (b = 0 \/ b = 1) as [-> | ->] by lia. }
  destruct m; [exact (Hw 0 0 ltac:(lia) ltac:(lia))|exact (Hw 0 1 ltac:(lia) ltac:(lia))
    |exact (Hw 1 1 ltac:(lia) ltac:(lia))].
Qed.

Section Page.
Context (be ls : bool) (k0 : kbuffer) (Hk : configured be ls k0).
Context (ts : Z) (m : missed) (rs : list record) (trail : list Z) (Hp : wf_page ls ts m rs).

Abbreviation start0 := (if ls then 16 else 12).

(** The state [kbuffer_load_subbuffer] reaches before it looks for the first
    event. *)
Definition loaded : kbuffer :=
  mkKbuffer ts (lost_of m) (flags k0) (Some (page be ls ts m rs trail)) 0 0 0 (recs_size rs)
    start0 (read_fns k0) (read_long_p k0) (next_event_p k0).

Lemma loaded_records : at_records be ls loaded rs.
Proof.
  destruct Hp as (_ & Hwf & Hb & _). split; cbn [size next start loaded]; try done; try lia.
  - by destruct Hk; split.
  - cbn [loaded subbuffer start next]. unfold page.
    eexists (enc be 8 ts ++ enc be (if ls then 8%nat else 4%nat) (commit_word rs m)), _.
    rewrite <-!app_assoc. split; [done|]. rewrite length_app, !length_enc. destruct ls; lia.
  - destruct ls; lia.
Qed.

Lemma load_subbuffer_loaded fuel :
  kbuffer_load_subbuffer fuel k0 (Some (page be ls ts m rs trail))
  = (let* (_, k) := next_event fuel loaded in Some (0, k)).
Proof.
  destruct Hp as (Hts & Hwf & Hb & Hm). destruct (commit_word_bits rs m Hb) as (Hc & H1 & H2 & H3).
  unfold kbuffer_load_subbuffer. rewrite (cf_ls _ _ _ Hk).
  match goal with |- context [read_8 ?k 0] => set (k1 := k) end.
  assert (configured be ls k1) as Hk1 by (by destruct Hk; split).
  rewrite (read_8_enc be ls k1 Hk1 [] _ 0 eq_refl ts eq_refl Hts). cbn [mbind option_bind].
  rewrite (read_long_enc be ls k1 (enc be 8 ts) _ 8 (commit_word rs m) Hk1
    ltac:(by rewrite length_enc) eq_refl ltac:(destruct ls; lia)).
  cbn [mbind option_bind]. rewrite H1, H2, H3.
  unfold loaded. destruct m as [| |n]; cbn [lost_of]; [reflexivity..|].
  rewrite (read_long_enc be ls k1 (enc be 8 ts ++ enc be (if ls then 8%nat else 4%nat)
    (commit_word rs (CountMissed n)) ++ encode_records be rs) trail _ n Hk1).
  - cbn [mbind option_bind]. do 3 f_equal.
    unfold s64, sN. rewrite Z.mod_small, (proj2 (Z.ltb_lt _ _)) by (destruct ls; lia). done.
  - rewrite !length_app, !length_enc, !Nat2Z.inj_add, length_encode_records. destruct ls; lia.
  - cbn [subbuffer k1]. unfold page. by rewrite <-!app_assoc.
  - destruct ls; lia.
Qed.
End Page.

(** ** Reading a page to its end *)

Lemma next_event_new be ls fuel k : configured be ls k -> next_event fuel k = __next_event fuel k.
Proof. intros Hk. unfold next_event. by rewrite (cf_next _ _ _ Hk). Qed.

Lemma read_event_at k e : is_Some (subbuffer k) -> at_event k e ->
  kbuffer_read_event k = Some (ev_index e, ev_ts e).
Proof.
  intros [b Hb] (Hc & Hi & Ht & Hn & Hs & _). unfold kbuffer_read_event.
  rewrite Hb, Z.geb_leb, (proj2 (Z.leb_gt _ _)) by lia. by rewrite Hi, Ht.
Qed.

Lemma read_event_end k : curr k = size k -> kbuffer_read_event k = None.
Proof.
  intros Hc. unfold kbuffer_read_event. destruct (subbuffer k); [|done].
  by rewrite (proj2 (Z.geb_le _ _)) by lia.
Qed.

Lemma event_at k e : size k < 2 ^ 27 -> 0 <= curr k -> at_event k e ->
  mkEvent (kbuffer_curr_index k) (ev_index e) (kbuffer_event_size k) (ev_ts e) = e.
Proof.
  intros Hb Hc0 (Hc & Hi & Ht & Hn & Hs & Hi' & Hn').
  unfold kbuffer_curr_index, kbuffer_event_size.
  rewrite u32_small, !s32_small by lia. destruct e; cbn in *. f_equal; lia.
Qed.

Lemma events_start ts off rs : 0 <= off -> Forall (fun e => off <= ev_start e) (events ts off rs).
Proof.
  revert ts off. induction rs as [|r rs IH]; intros ts off Ho; [constructor|].
  pose proof (rec_size_pos r). cbn [events].
  assert (Forall (fun e => off <= ev_start e) (events (u64 (ts + rec_delta r)) (off + rec_size r) rs)).
  { refine (Forall_impl _ _ (IH _ (off + rec_size r) ltac:(lia))).
    intros e He. cbn in *. lia. }
  destruct (rec_payload r) as [[hdr sz]|]; [|done]. constructor; [cbn; lia|done].
Qed.

(** [kbuffer_next_event] on a page positioned before [rs]. *)
Lemma kbuffer_next_event_spec be ls rs k fuel :
  at_records be ls k rs -> (length rs < fuel)%nat ->
  match events (timestamp k) (next k) rs with
  | [] => exists k', kbuffer_next_event fuel k = Some (None, k') /\ same_page k k'
           /\ curr k' = size k' /\ configured be ls k'
  | e :: es => exists k' rs', kbuffer_next_event fuel k = Some (Some (ev_index e, ev_ts e), k')
      /\ same_page k k' /\ at_event k' e /\ at_records be ls k' rs'
      /\ events (timestamp k') (next k') rs' = es /\ (length rs' < length rs)%nat
  end.
Proof.
  intros Hr Hf. pose proof (__next_event_spec be ls rs k fuel Hr Hf) as Hn.
  unfold kbuffer_next_event. destruct (ar_sub _ _ _ _ Hr) as (pre & post & Hs & _).
  rewrite Hs, (next_event_new be ls) by apply Hr.
  destruct (events _ _ rs) as [|e es].
  - destruct Hn as (k' & -> & Hp & Hc & Hcf). by exists k'.
  - destruct Hn as (k' & rs' & -> & Hp & He & Hr' & Hes & Hl). exists k', rs'.
    cbn [mbind option_bind]. destruct He as (? & Hi & Ht & ?). rewrite <-Hi, <-Ht. by split_and!.
Qed.

Lemma read_all_at be ls n fuel k e rs :
  at_event k e -> at_records be ls k rs -> 0 <= curr k ->
  (length rs < fuel)%nat -> (S (length rs) < n)%nat ->
  read_all n fuel k = Some (e :: events (timestamp k) (next k) rs).
Proof.
  revert k e rs. induction n as [|n IH]; intros k e rs He Hr Hc Hf Hn; [lia|].
  cbn [read_all]. rewrite (read_event_at k e); [|destruct (ar_sub _ _ _ _ Hr) as (? & ? & -> & _); eauto|done].
  pose proof (kbuffer_next_event_spec be ls rs k fuel Hr Hf) as Hk.
  rewrite event_at by (done || apply Hr).
  pose proof (events_start (timestamp k) (next k) rs (ar_next _ _ _ _ Hr)) as Hst.
  pose proof (ar_next _ _ _ _ Hr) as Hn0.
  destruct (events _ _ rs) as [|e' es].
  - destruct Hk as (k' & -> & Hp & Hc' & _). cbn [mbind option_bind].
    destruct n as [|n]; [lia|]. cbn [read_all]. by rewrite read_event_end.
  - destruct Hk as (k' & rs' & -> & Hp & He' & Hr' & Hes & Hl). cbn [mbind option_bind].
    apply Forall_cons_1 in Hst as [Hst _].
    rewrite (IH k' e' rs') by (try done; destruct He' as (-> & _); lia). cbn [mbind option_bind].
    by rewrite Hes.
Qed.

(** The bytes of the events, in order. *)
Definition payload (r : record) : option (list Z) :=
  match r with RData _ p => Some p | RBig _ p => Some (pad4 p) | _ => None end.

Lemma record_payload be r pre post p : payload r = Some p ->
  exists hdr, rec_payload r = Some (hdr, zlen p) /\
    rd_bytes (pre ++ encode_record be r ++ post) (zlen pre + hdr) (length p) = Some p.
Proof.
  destruct r as [d q|d q|d|d f]; intros [= <-]; eexists; (split; [done|]);
    cbn [encode_record]; rewrite <-!app_assoc.
  - rewrite app_assoc. apply rd_bytes_app_eq; [|done]. unfold header. rewrite length_app, length_enc. lia.
  - rewrite app_assoc, (app_assoc _ (enc _ _ _)). apply rd_bytes_app_eq; [|done].
    unfold header. rewrite !length_app, !length_enc. lia.
Qed.

Lemma events_payload be rs ts off pre post start :
  zlen pre = start + off ->
  Forall2 (fun e p => ev_size e = zlen p /\
      rd_bytes (pre ++ encode_records be rs ++ post) (start + ev_index e) (length p) = Some p)
    (events ts off rs) (omap payload rs).
Proof.
  revert ts off pre. induction rs as [|r rs IH]; intros ts off pre Hpre; [constructor|].
  unfold encode_records. cbn [events omap list_omap fmap list_fmap concat].
  fold (encode_records be rs). rewrite <-app_assoc.
  specialize (IH (u64 (ts + rec_delta r)) (off + rec_size r) (pre ++ encode_record be r)).
  rewrite length_app, Nat2Z.inj_add, length_encode_record, <-app_assoc in IH.
  specialize (IH ltac:(lia)). destruct (payload r) as [p|] eqn:Ep.
  - destruct (record_payload be r pre (encode_records be rs ++ post) p Ep) as (hdr & -> & Hrd).
    constructor; [|exact IH]. cbn [ev_size ev_index]. split; [done|].
    by replace (start + (off + hdr)) with (zlen pre + hdr) by lia.
  - replace (rec_payload r) with (@None (Z * Z)) by (by destruct r). exact IH.
Qed.

(** ** The reader's contract *)

Definition big (e : kbuffer_endian) : bool :=
  match e with KBUFFER_ENDIAN_BIG => true | KBUFFER_ENDIAN_LITTLE => false end.
Definition long8 (s : kbuffer_long_size) : bool :=
  match s with KBUFFER_LSIZE_8 => true | KBUFFER_LSIZE_4 => false end.

(** [k] has the configuration of the fresh [k0]; its position is any. *)
Definition same_config (k0 k : kbuffer) : Prop :=
  flags k = flags k0 /\ read_fns k = read_fns k0 /\ read_long_p k = read_long_p k0 /\
  next_event_p k = next_event_p k0.

Lemma alloc_configured sz en k0 k :
  kbuffer_alloc true sz en = Some k0 -> same_config k0 k -> configured (big en) (long8 sz) k.
Proof.
  intros Ha (Hf & Hr & Hl & Hn).
  destruct sz, en; vm_compute in Ha; injection Ha as <-; cbn in Hf, Hr, Hl, Hn;
    (split; [exact Hr|exact Hl|by rewrite Hf|by rewrite Hf|exact Hn]).
Qed.

(** Loading a page of [rs] and what the reader sees first. *)
Lemma load_spec be ls k0 ts m rs trail fuel :
  configured be ls k0 -> wf_page ls ts m rs -> (length rs < fuel)%nat ->
  exists k, kbuffer_load_subbuffer fuel k0 (Some (page be ls ts m rs trail)) = Some (0, k)
    /\ same_page (loaded be ls k0 ts m rs trail) k /\ configured be ls k
    /\ match events ts 0 rs with
       | [] => curr k = size k
       | e :: es => exists rs', at_event k e /\ at_records be ls k rs'
                    /\ events (timestamp k) (next k) rs' = es /\ (length rs' < length rs)%nat
       end.
Proof.
  intros Hk Hp Hf. rewrite (load_subbuffer_loaded be ls k0 Hk ts m rs trail Hp fuel).
  pose proof (loaded_records be ls k0 Hk ts m rs trail Hp) as Hr.
  rewrite (next_event_new be ls) by apply Hr.
  pose proof (__next_event_spec be ls rs _ fuel Hr Hf) as Hn. cbn [timestamp next loaded] in Hn.
  destruct (events ts 0 rs) as [|e es].
  - destruct Hn as (k' & -> & Hs & Hc & Hcf). by exists k'.
  - destruct Hn as (k' & rs' & -> & Hs & He & Hr' & Hes & Hl). exists k'.
    split_and!; try done; [apply Hr'|]. by exists rs'.
Qed.

(** C5: For every page written in either byte order and word size, loading it
    into a buffer allocated for that format and reading it to its end returns
    exactly the data events of the page, in order, each with the offset of its
    record, the offset and size of its payload, and the sum of the page's time
    and all deltas up to it (time extensions and padding included, modulo
    2^64); the bytes at these offsets are the payloads that were written; and
    the count of lost events is reported before the first event of the page
    when that event starts at offset 0, and as 0 otherwise.  The reader
    terminates within one round per record. *)
Theorem kbuffer_reads_page sz en k0 k ts m rs trail fuel :
  kbuffer_alloc true sz en = Some k0 -> same_config k0 k ->
  wf_page (long8 sz) ts m rs -> (length rs < fuel)%nat ->
  let buf := page (big en) (long8 sz) ts m rs trail in
  exists k',
    kbuffer_load_subbuffer fuel k (Some buf) = Some (0, k') /\
    read_all (S (S (length rs))) fuel k' = Some (events ts 0 rs) /\
    Forall2 (fun e p => ev_size e = zlen p /\
        rd_bytes buf (kbuffer_start_of_data k' + ev_index e) (length p) = Some p)
      (events ts 0 rs) (omap payload rs) /\
    kbuffer_missed_events k' = (if head (ev_start <$> events ts 0 rs) is Some 0
                                then s32 (lost_of m)
                                else if bool_decide (rs = []) then s32 (lost_of m) else 0).
Proof.
  intros Ha Hc Hp Hf buf. pose proof (alloc_configured _ _ _ _ Ha Hc) as Hk.
  destruct (load_spec _ _ _ ts m rs trail fuel Hk Hp Hf) as (k' & Hl & Hs & Hk' & He).
  exists k'. split; [exact Hl|]. destruct Hs as (Hsub & Hst & Hsz & Hlost).
  cbn [loaded subbuffer start size lost_events] in Hsub, Hst, Hsz, Hlost.
  split_and!.
  - destruct (events ts 0 rs) as [|e es] eqn:Ev; [cbn [read_all]; by rewrite read_event_end|].
    destruct He as (rs' & He & Hr' & <- & Hlen).
    apply (read_all_at (big en) (long8 sz)); try done; try lia.
    destruct He as (-> & _). pose proof (events_start ts 0 rs ltac:(lia)) as Hst'.
    rewrite Ev in Hst'. by apply Forall_cons_1 in Hst' as [? _].
  - assert (kbuffer_start_of_data k' = if long8 sz then 16 else 12) as ->
      by (unfold kbuffer_start_of_data; rewrite Hst; by destruct sz).
    unfold buf, page. rewrite app_assoc.
    apply events_payload. rewrite length_app, !length_enc. destruct sz; cbn [long8]; lia.
  - unfold kbuffer_missed_events. rewrite Hlost.
    destruct (events ts 0 rs) as [|e es] eqn:Ev; cbn [fmap list_fmap head].
    + rewrite He, Hsz. destruct rs as [|r rs]; [done|].
      rewrite (proj2 (Z.eqb_neq _ _)); [done|]. pose proof (rec_size_pos r).
      pose proof (recs_size_nonneg rs). cbn [recs_size foldr]. fold (recs_size rs). lia.
    + destruct He as (rs' & (-> & _) & _). destruct (ev_start e) eqn:Es; try done;
        (destruct rs as [|r rs]; [done|]); done.
Qed.

Lemma kbuffer_reads_page_witness :
  let rs := [RData 5 [1; 2; 3; 4]; RExtend (2 ^ 30 + 7); RBig 9 [9; 8; 7]; RPad 1 [0; 0; 0; 0];
             RData 3 [5; 6; 7; 8]] in
  exists k0 k', kbuffer_alloc true KBUFFER_LSIZE_8 KBUFFER_ENDIAN_BIG = Some k0 /\
    kbuffer_load_subbuffer 6 k0 (Some (page true true 1000 (CountMissed 3) rs [])) = Some (0, k') /\
    read_all 7 6 k' = Some (events 1000 0 rs) /\
    events 1000 0 rs = [mkEvent 0 4 4 1005; mkEvent 16 24 4 (1005 + 2 ^ 30 + 16);
                        mkEvent 40 44 4 (1005 + 2 ^ 30 + 20)].
Proof.
  intros rs. eexists.
  destruct (kbuffer_reads_page KBUFFER_LSIZE_8 KBUFFER_ENDIAN_BIG _ _ 1000 (CountMissed 3) rs []
    6 eq_refl ltac:(done)) as (k' & H1 & H2 & _).
  - split; [lia|]. split; [repeat constructor; cbn; lia|]. split; [vm_compute; reflexivity|cbn; lia].
  - simpl. lia.
  - exists k'. split; [reflexivity|]. split; [exact H1|]. split; [exact H2|].
    vm_compute. reflexivity.
Defined.

(** ** Reading at an offset *)

Lemma at_offset_loop_spec be ls n fuel k e rs o data :
  at_event k e -> at_records be ls k rs -> 0 <= curr k -> 0 <= o < 2 ^ 31 ->
  (length rs < fuel)%nat -> (S (length rs) < n)%nat ->
  exists k', at_offset_loop n fuel k o data
    = Some (if o <=? ev_start e then data
            else Some (option_map (fun e => (ev_index e, ev_ts e))
                 (List.find (fun e => o <=? ev_start e) (events (timestamp k) (next k) rs))), k').
Proof.
  revert k e rs data. induction n as [|n IH]; intros k e rs data He Hr Hc Ho Hf Hn; [lia|].
  cbn [at_offset_loop]. rewrite (u32_small o) by lia.
  replace (curr k) with (ev_start e) by (symmetry; apply He).
  rewrite Z.ltb_antisym. destruct (o <=? ev_start e) eqn:Eo; cbn [negb]; [by eexists|].
  pose proof (kbuffer_next_event_spec be ls rs k fuel Hr Hf) as Hk.
  pose proof (events_start (timestamp k) (next k) rs (ar_next _ _ _ _ Hr)) as Hst.
  pose proof (ar_next _ _ _ _ Hr) as Hn0.
  destruct (events _ _ rs) as [|e' es].
  - destruct Hk as (k' & -> & _). by eexists.
  - destruct Hk as (k' & rs' & -> & Hp & He' & Hr' & Hes & Hl). cbn [mbind option_bind].
    apply Forall_cons_1 in Hst as [Hst _].
    destruct (IH k' e' rs' (Some (Some (ev_index e', ev_ts e')))) as (k'' & ->);
      try done; try lia; [destruct He' as (-> & _); lia|].
    exists k''. rewrite Hes. cbn [List.find]. by destruct (o <=? ev_start e').
Qed.

(** C30: What [kbuffer_read_at_offset] returns for a page with events, at an
    offset into its data: the first event whose record {e starts} at or after
    the offset, when that event is not the first one of the page (NULL when
    there is none); and an unassigned variable when the first event already
    starts at or after the offset.  The comment of the function promises the
    event whose record contains the offset. *)
Theorem read_at_offset_spec sz en k0 k ts m rs trail fuel o e es :
  kbuffer_alloc true sz en = Some k0 -> same_config k0 k ->
  start k = (if long8 sz then 16 else 12) ->
  subbuffer k = Some (page (big en) (long8 sz) ts m rs trail) ->
  wf_page (long8 sz) ts m rs -> (S (length rs) < fuel)%nat ->
  0 <= o < 2 ^ 30 -> events ts 0 rs = e :: es ->
  fst <$> kbuffer_read_at_offset fuel k (start k + o)
  = (if o <=? ev_start e then None
     else Some (option_map (fun e => (ev_index e, ev_ts e))
                  (List.find (fun e => o <=? ev_start e) es))).
Proof.
  intros Ha Hc Hst Hsub Hp Hf Ho Hev. pose proof (alloc_configured _ _ _ _ Ha Hc) as Hk.
  destruct (load_spec _ _ _ ts m rs trail fuel Hk Hp ltac:(lia)) as (k' & Hl & Hs & Hk' & He).
  rewrite Hev in He. destruct He as (rs' & He & Hr' & <- & Hlen).
  unfold kbuffer_read_at_offset. rewrite Hsub.
  assert (0 <= start k <= 16) as Hs16 by (rewrite Hst; destruct sz; simpl; lia).
  rewrite u32_small, (proj2 (Z.ltb_ge _ _)) by lia.
  replace (start k + o - start k) with o by lia. rewrite s32_small by lia.
  rewrite Hl. cbn [mbind option_bind].
  pose proof (events_start ts 0 rs ltac:(lia)) as Hst'. rewrite Hev in Hst'.
  apply Forall_cons_1 in Hst' as [Hst' _].
  destruct (at_offset_loop_spec _ _ fuel fuel k' e rs' o None He Hr') as (k'' & ->);
    try lia; [destruct He as (-> & _); lia|].
  cbn [mbind option_bind]. by destruct (o <=? ev_start e).
Qed.

(** Inside and at the start of the first record of a page. *)
Lemma read_at_offset_spec_witness :
  let rs := [RData 5 [1; 2; 3; 4]; RData 3 [5; 6; 7; 8]] in
  let buf := page false true 1000 NoneMissed rs [] in
  exists k0, kbuffer_alloc true KBUFFER_LSIZE_8 KBUFFER_ENDIAN_LITTLE = Some k0 /\
    let k := mkKbuffer 0 0 (flags k0) (Some buf) 0 0 0 0 16 read_plain long_8 new_format in
    fst <$> kbuffer_read_at_offset 9 k (start k + 2) = Some (Some (12, 1008)) /\
    fst <$> kbuffer_read_at_offset 9 k (start k + 0) = None.
Proof.
  intros rs buf. eexists. split; [reflexivity|]. intros k.
  assert (wf_page true 1000 NoneMissed rs).
  { split; [lia|]. split; [repeat constructor; cbn; lia|]. done. }
  split.
  - rewrite (read_at_offset_spec KBUFFER_LSIZE_8 KBUFFER_ENDIAN_LITTLE _ k 1000 NoneMissed rs []
      9 2 (mkEvent 0 4 4 1005) [mkEvent 8 12 4 1008] eq_refl);
      [reflexivity|done|reflexivity|reflexivity|done|simpl; lia|lia|reflexivity].
  - rewrite (read_at_offset_spec KBUFFER_LSIZE_8 KBUFFER_ENDIAN_LITTLE _ k 1000 NoneMissed rs []
      9 0 (mkEvent 0 4 4 1005) [mkEvent 8 12 4 1008] eq_refl);
      [reflexivity|done|reflexivity|reflexivity|done|simpl; lia|lia|reflexivity].
Defined.

(** ** The old format *)

(** C37: In the old format a time extension is never skipped: the length of the
    record is not assigned on that path, so that whatever the buffer holds the
    next position is undefined. *)
Theorem old_time_extend_undefined fuel k w :
  next k < size k -> read_4 k (start k + next k) = Some w ->
  type4host (flags k) w = OLD_RINGBUF_TYPE_TIME_EXTEND ->
  __old_next_event fuel k = None.
Proof.
  intros Hn Hr Ht. destruct fuel as [|fuel]; [done|]. cbn [__old_next_event].
  cbn [next size set_curr set_pos]. rewrite Z.geb_leb, (proj2 (Z.leb_gt _ _)) by lia.
  unfold old_update_pointers.
  change (read_4 (set_curr (next k) k) (start (set_curr (next k) k) + curr (set_curr (next k) k)))
    with (read_4 k (start k + next k)).
  rewrite Hr. cbn [mbind option_bind flags set_curr set_pos]. rewrite Ht.
  match goal with |- context [read_4 ?a ?b] => destruct (read_4 a b) end; reflexivity.
Qed.

Lemma old_time_extend_undefined_witness :
  let buf := le_split 8 1000 ++ le_split 8 16 ++ le_split 4 (7 * 32 + 1) ++ le_split 4 3
             ++ le_split 4 (5 * 32 + 7) ++ [1; 2; 3; 4] in
  exists k0, kbuffer_alloc true KBUFFER_LSIZE_8 KBUFFER_ENDIAN_LITTLE = Some k0 /\
    __old_next_event 5 (mkKbuffer 1000 0 (flags k0) (Some buf) 0 0 0 16 16 (read_fns k0)
      (read_long_p k0) old_format) = None.
Proof.
  intros buf. eexists. split; [reflexivity|].
  apply (old_time_extend_undefined 5 _ (7 * 32 + 1)); vm_compute; reflexivity.
Defined.

End KBuffer.
