(* ===== verification/Bits.v ===== *)
(** Population count, bit search and bitmaps: [src/tools/lib/hweight.c],
    [find_bit.c], [bitmap.c] and the inline operations of
    [src/tools/include/linux/bitmap.h] and [asm-generic/bitops].

    A bitmap is the list of its 64-bit words ([BITS_PER_LONG] is 64); a word
    access outside of it is [None].  The variants without a fast multiplier and
    without constant folding are modelled. *)

From Stdlib Require Import ZArith Lia Bool.
From stdpp Require Import base option list numbers strings.
From S2P Require Import Prelude CFmt.
Import CFmt.

Module Bits.

Definition BITS_PER_LONG : Z := 64.

(** ** Population count *)

Definition __sw_hweight32 (w : Z) : Z :=
  let res := u32 (w - Z.land (Z.shiftr w 1) 0x55555555) in
  let res := u32 (Z.land res 0x33333333 + Z.land (Z.shiftr res 2) 0x33333333) in
  let res := Z.land (u32 (res + Z.shiftr res 4)) 0x0F0F0F0F in
  let res := u32 (res + Z.shiftr res 8) in
  Z.land (u32 (res + Z.shiftr res 16)) 0xFF.

Definition __sw_hweight16 (w : Z) : Z :=
  let res := u32 (w - Z.land (Z.shiftr w 1) 0x5555) in
  let res := u32 (Z.land res 0x3333 + Z.land (Z.shiftr res 2) 0x3333) in
  let res := Z.land (u32 (res + Z.shiftr res 4)) 0x0F0F in
  Z.land (u32 (res + Z.shiftr res 8)) 0xFF.

Definition __sw_hweight8 (w : Z) : Z :=
  let res := u32 (w - Z.land (Z.shiftr w 1) 0x55) in
  let res := u32 (Z.land res 0x33 + Z.land (Z.shiftr res 2) 0x33) in
  Z.land (u32 (res + Z.shiftr res 4)) 0x0F.

Definition __sw_hweight64 (w : Z) : Z :=
  let res := u64 (w - Z.land (Z.shiftr w 1) 0x5555555555555555) in
  let res := u64 (Z.land res 0x3333333333333333 + Z.land (Z.shiftr res 2) 0x3333333333333333) in
  let res := Z.land (u64 (res + Z.shiftr res 4)) 0x0F0F0F0F0F0F0F0F in
  let res := u64 (res + Z.shiftr res 8) in
  let res := u64 (res + Z.shiftr res 16) in
  Z.land (u64 (res + Z.shiftr res 32)) 0xFF.

Definition hweight_long (w : Z) : Z := __sw_hweight64 w.

(** ** First and last set bit of a word *)

(** One conditional step of the binary search: when the low [k] bits are all
    clear, skip them. *)
Definition ffs_step (k mask : Z) (s : Z * Z) : Z * Z :=
  let (num, word) := s in
  if Z.land word mask =? 0 then (num + k, Z.shiftr word k) else (num, word).

Definition __ffs (word : Z) : Z :=
  let s := ffs_step 32 0xffffffff (0, word) in
  let s := ffs_step 16 0xffff s in
  let s := ffs_step 8 0xff s in
  let s := ffs_step 4 0xf s in
  let (num, word) := ffs_step 2 0x3 s in
  if Z.land word 0x1 =? 0 then num + 1 else num.

Definition fls_step (k mask : Z) (s : Z * Z) : Z * Z :=
  let (num, word) := s in
  if Z.land word mask =? 0 then (num - k, u64 (Z.shiftl word k)) else (num, word).

Definition __fls (word : Z) : Z :=
  let top n := u64 (Z.shiftl (2 ^ 64 - 1) n) in
  let s := fls_step 32 (top 32) (BITS_PER_LONG - 1, word) in
  let s := fls_step 16 (top (BITS_PER_LONG - 16)) s in
  let s := fls_step 8 (top (BITS_PER_LONG - 8)) s in
  let s := fls_step 4 (top (BITS_PER_LONG - 4)) s in
  let (num, word) := fls_step 2 (top (BITS_PER_LONG - 2)) s in
  if Z.land word (top (BITS_PER_LONG - 1)) =? 0 then num - 1 else num.

Definition fls64 (x : Z) : Z := if x =? 0 then 0 else __fls x + 1.

(** ** Searching a bitmap *)

Definition BITMAP_FIRST_WORD_MASK (start : Z) : Z :=
  u64 (Z.shiftl (2 ^ 64 - 1) (Z.land start (BITS_PER_LONG - 1))).

Definition BITMAP_LAST_WORD_MASK (nbits : Z) : Z :=
  if negb (nbits mod BITS_PER_LONG =? 0)
  then Z.shiftl 1 (nbits mod BITS_PER_LONG) - 1 else 2 ^ 64 - 1.

(** The [while (!tmp)] loop; [fuel] bounds its rounds, and every round reads one
    more word of the bitmap. *)
Fixpoint next_loop (fuel : nat) (addr : list Z) (nbits start tmp invert : Z) : option Z :=
  match fuel with
  | O => None
  | S fuel =>
      if tmp =? 0 then
        let start := u64 (start + BITS_PER_LONG) in
        if start >=? nbits then Some nbits else
        let* w := rd addr (start / BITS_PER_LONG) in
        next_loop fuel addr nbits start (Z.lxor w invert) invert
      else Some (Z.min (u64 (start + __ffs tmp)) nbits)
  end.

Definition _find_next_bit (addr : list Z) (nbits start invert : Z) : option Z :=
  if (nbits =? 0) || (start >=? nbits) then Some nbits else
  let* w := rd addr (start / BITS_PER_LONG) in
  let tmp := Z.land (Z.lxor w invert) (BITMAP_FIRST_WORD_MASK start) in
  next_loop (S (S (length addr))) addr nbits (Z.land start (Z.lnot (BITS_PER_LONG - 1))) tmp invert.

Definition find_next_bit (addr : list Z) (size offset : Z) : option Z :=
  _find_next_bit addr size offset 0.

Fixpoint first_loop (fuel : nat) (addr : list Z) (size idx : Z) : option Z :=
  match fuel with
  | O => None
  | S fuel =>
      if u64 (idx * BITS_PER_LONG) <? size then
        let* w := rd addr idx in
        if negb (w =? 0) then Some (Z.min (u64 (idx * BITS_PER_LONG + __ffs w)) size)
        else first_loop fuel addr size (idx + 1)
      else Some size
  end.

Definition find_first_bit (addr : list Z) (size : Z) : option Z :=
  first_loop (S (S (length addr))) addr size 0.

(** ** Bitmaps *)

Definition BITS_TO_LONGS (nr : Z) : Z := (nr + BITS_PER_LONG - 1) / BITS_PER_LONG.

(** [bitmap[k]] *)
Definition st (bitmap : list Z) (k v : Z) : option (list Z) :=
  if (0 <=? k) && (k <? Z.of_nat (length bitmap)) then Some (<[Z.to_nat k := v]> bitmap) else None.

Fixpoint weight_loop (n : nat) (bitmap : list Z) (k w : Z) : option Z :=
  match n with
  | O => Some w
  | S n => let* x := rd bitmap k in weight_loop n bitmap (k + 1) (w + hweight_long x)
  end.

(** [bits] is non-negative, as in every call. *)
Definition __bitmap_weight (bitmap : list Z) (bits : Z) : option Z :=
  let lim := bits / BITS_PER_LONG in
  let* w := weight_loop (Z.to_nat lim) bitmap 0 0 in
  if negb (bits mod BITS_PER_LONG =? 0) then
    let* x := rd bitmap lim in
    Some (w + hweight_long (Z.land x (BITMAP_LAST_WORD_MASK bits)))
  else Some w.

Fixpoint or_loop (n : nat) (dst bitmap1 bitmap2 : list Z) (k : Z) : option (list Z) :=
  match n with
  | O => Some dst
  | S n =>
      let* a := rd bitmap1 k in
      let* b := rd bitmap2 k in
      let* dst := st dst k (Z.lor a b) in
      or_loop n dst bitmap1 bitmap2 (k + 1)
  end.

(** The three bitmaps are separate objects. *)
Definition __bitmap_or (dst bitmap1 bitmap2 : list Z) (bits : Z) : option (list Z) :=
  or_loop (Z.to_nat (BITS_TO_LONGS bits)) dst bitmap1 bitmap2 0.

Fixpoint and_loop (n : nat) (dst bitmap1 bitmap2 : list Z) (k result : Z)
    : option (Z * list Z) :=
  match n with
  | O => Some (result, dst)
  | S n =>
      let* a := rd bitmap1 k in
      let* b := rd bitmap2 k in
      let* dst := st dst k (Z.land a b) in
      and_loop n dst bitmap1 bitmap2 (k + 1) (Z.lor result (Z.land a b))
  end.

Definition __bitmap_and (dst bitmap1 bitmap2 : list Z) (bits : Z) : option (bool * list Z) :=
  let lim := bits / BITS_PER_LONG in
  let* (result, dst) := and_loop (Z.to_nat lim) dst bitmap1 bitmap2 0 0 in
  let* (result, dst) :=
    if negb (bits mod BITS_PER_LONG =? 0) then
      let* a := rd bitmap1 lim in
      let* b := rd bitmap2 lim in
      let v := Z.land (Z.land a b) (BITMAP_LAST_WORD_MASK bits) in
      let* dst := st dst lim v in
      Some (Z.lor result v, dst)
    else Some (result, dst) in
  Some (negb (result =? 0), dst).

Definition set_bit (nr : Z) (addr : list Z) : option (list Z) :=
  let* w := rd addr (nr / BITS_PER_LONG) in
  st addr (nr / BITS_PER_LONG) (Z.lor w (Z.shiftl 1 (nr mod BITS_PER_LONG))).

Definition clear_bit (nr : Z) (addr : list Z) : option (list Z) :=
  let* w := rd addr (nr / BITS_PER_LONG) in
  st addr (nr / BITS_PER_LONG)
    (Z.land w (2 ^ 64 - 1 - Z.shiftl 1 (nr mod BITS_PER_LONG))).

Definition test_bit (nr : Z) (addr : list Z) : option bool :=
  let* w := rd addr (nr / BITS_PER_LONG) in
  Some (negb (Z.land (Z.shiftl 1 (nr mod BITS_PER_LONG)) w =? 0)).

Definition test_and_set_bit (nr : Z) (addr : list Z) : option (bool * list Z) :=
  let mask := Z.shiftl 1 (nr mod BITS_PER_LONG) in
  let* old := rd addr (nr / BITS_PER_LONG) in
  let* addr := st addr (nr / BITS_PER_LONG) (Z.lor old mask) in
  Some (negb (Z.land old mask =? 0), addr).

(** ** Printing *)

(** [scnprintf] of [src/tools/lib/vsprintf.c]: the length really stored. *)
Definition scnprintf (mem : list Z) (pos size : Z) (text : list Z) : option (Z * list Z) :=
  let* (i, mem) := snprintf mem pos size text in
  let ssize := s64 size in
  Some (if i >=? ssize then ssize - 1 else i, mem).

(** The part of the loop that prints the range [rbot, rtop]. *)
Definition emit_range (first : bool) (rbot rtop : Z) (buf : list Z) (size ret : Z)
    : option (Z * list Z) :=
  let* (ret, buf) :=
    if negb first then
      let* (n, buf) := scnprintf buf ret (u64 (size - ret)) (bs ",") in Some (ret + n, buf)
    else Some (ret, buf) in
  let* (n, buf) := scnprintf buf ret (u64 (size - ret)) (fmt_d rbot) in
  let ret := ret + n in
  if rbot <? rtop then
    let* (n, buf) := scnprintf buf ret (u64 (size - ret)) (bs "-" ++ fmt_d rtop) in
    Some (ret + n, buf)
  else Some (ret, buf).

(** One round of the loop prints at most one range; [fuel] bounds its rounds. *)
Fixpoint print_loop (fuel : nat) (bitmap : list Z) (nbits cur rbot : Z) (first : bool)
    (buf : list Z) (size ret : Z) : option (Z * list Z) :=
  match fuel with
  | O => None
  | S fuel =>
      if cur <? nbits then
        let rtop := cur in
        let* cur := find_next_bit bitmap nbits (cur + 1) in
        if (cur <? nbits) && (cur <=? rtop + 1)
        then print_loop fuel bitmap nbits cur rbot first buf size ret
        else
          let* (ret, buf) := emit_range first rbot rtop buf size ret in
          print_loop fuel bitmap nbits cur cur false buf size ret
      else Some (ret, buf)
  end.

Definition bitmap_scnprintf (bitmap : list Z) (nbits : Z) (buf : list Z) (size : Z)
    : option (Z * list Z) :=
  let* cur := find_first_bit bitmap nbits in
  print_loop (S (Z.to_nat nbits)) bitmap nbits cur cur true buf size 0.

(** ** The weight of a word is its number of set bits *)

Fixpoint popcount (n : nat) (w : Z) : Z :=
  match n with
  | O => 0
  | S n => Z.b2z (Z.testbit w 0) + popcount n (Z.shiftr w 1)
  end.

Lemma popcount_app n m w : popcount (n + m) w = popcount n w + popcount m (Z.shiftr w (Z.of_nat n)).
Proof.
  revert w. induction n as [|n IH]; intros w; [by rewrite Z.shiftr_0_r|].
  cbn [Nat.add popcount]. rewrite IH, Z.shiftr_shiftr by lia.
  replace (1 + Z.of_nat n) with (Z.of_nat (S n)) by lia. lia.
Qed.

Lemma popcount_bits n w w' :
  (forall i, 0 <= i < Z.of_nat n -> Z.testbit w i = Z.testbit w' i) -> popcount n w = popcount n w'.
Proof.
  revert w w'. induction n as [|n IH]; intros w w' H; [done|]. cbn [popcount].
  rewrite (H 0) by lia. f_equal. apply IH. intros i Hi. rewrite !Z.shiftr_spec by lia. apply H. lia.
Qed.

Lemma cons_byte_bits b r i : is_byte b -> 0 <= i ->
  Z.testbit (b + 256 * r) i = if i <? 8 then Z.testbit b i else Z.testbit r (i - 8).
Proof.
  unfold is_byte. intros Hb Hi.
  rewrite Z.mul_comm. change 256 with (2 ^ 8). rewrite <-(lor_add_disjoint b r 8) by lia.
  rewrite Z.lor_spec, <-Z.shiftl_mul_pow2, Z.shiftl_spec by lia.
  destruct (Z.ltb_spec i 8).
  - rewrite (Z.testbit_neg_r r) by lia. by rewrite orb_false_r.
  - rewrite (proj2 (proj1 (bounded_iff_bits 8 b ltac:(lia)) Hb)) by lia. done.
Qed.

Lemma popcount_le_combine l : Forall is_byte l ->
  popcount (8 * length l) (le_combine l) = foldr (fun b n => popcount 8 b + n) 0 l.
Proof.
  induction 1 as [|b l Hb Hl IH]; [done|]. cbn [length le_combine foldr].
  replace (8 * S (length l))%nat with (8 + 8 * length l)%nat by lia. rewrite popcount_app, <-IH.
  f_equal.
  - apply popcount_bits. intros i Hi. rewrite cons_byte_bits by (done || lia).
    by rewrite (proj2 (Z.ltb_lt _ _)) by lia.
  - apply popcount_bits. intros i Hi. rewrite Z.shiftr_spec, cons_byte_bits by (done || lia).
    rewrite (proj2 (Z.ltb_ge _ _)) by lia. f_equal. lia.
Qed.

(** *** Lane-wise operations on a word given by its bytes *)

Lemma land_lanes l m k : Forall is_byte l -> is_byte m -> 0 <= k < 8 -> m < 2 ^ (8 - k) ->
  Z.land (Z.shiftr (le_combine l) k) (le_combine (replicate (length l) m))
  = le_combine ((fun b => Z.land (Z.shiftr b k) m) <$> l).
Proof.
  intros Hl Hm Hk Hmk. assert (0 <= m < 2 ^ (8 - k)) as Hm' by (unfold is_byte in Hm; lia).
  induction Hl as [|b l Hb Hl IH]; [by rewrite Z.land_0_r|].
  cbn [length replicate le_combine fmap list_fmap].
  assert (is_byte (Z.land (Z.shiftr b k) m)) as Hc.
  { unfold is_byte in *. pose proof (land_bounded_r (Z.shiftr b k) m). lia. }
  rewrite <-IH. apply Z.bits_inj'. intros i Hi.
  rewrite Z.land_spec, Z.shiftr_spec, !cons_byte_bits, !Z.land_spec by (done || lia).
  destruct (Z.ltb_spec i 8).
  - rewrite Z.shiftr_spec by lia. destruct (Z.ltb_spec (i + k) 8); [done|].
    rewrite (proj2 (proj1 (bounded_iff_bits (8 - k) m ltac:(lia)) Hm')) by lia. by rewrite !andb_false_r.
  - rewrite (proj2 (Z.ltb_ge (i + k) 8)), !Z.shiftr_spec by lia. do 2 f_equal. lia.
Qed.

Lemma add_lanes (l : list Z) (f g : Z -> Z) : le_combine (f <$> l) + le_combine (g <$> l) = le_combine ((fun b => f b + g b) <$> l).
Proof. induction l as [|b l IH]; [done|]. rewrite !fmap_cons. cbn [le_combine]. lia. Qed.

Lemma sub_lanes (l : list Z) (f g : Z -> Z) : le_combine (f <$> l) - le_combine (g <$> l) = le_combine ((fun b => f b - g b) <$> l).
Proof. induction l as [|b l IH]; [done|]. rewrite !fmap_cons. cbn [le_combine]. lia. Qed.

Lemma byte_fun_bound (f : Z -> Z) :
  forallb (fun b => (0 <=? f (Z.of_nat b)) && (f (Z.of_nat b) <? 256)) (seq 0 256) = true ->
  forall b, is_byte b -> is_byte (f b).
Proof.
  intros Hf b Hb. rewrite forallb_forall in Hf. unfold is_byte in *.
  specialize (Hf (Z.to_nat b)). rewrite Z2Nat.id in Hf by lia.
  assert (In (Z.to_nat b) (seq 0 256)) as Hi by (apply in_seq; lia).
  specialize (Hf Hi). bprop. lia.
Qed.

Lemma byte_fun_eq (f g : Z -> Z) :
  forallb (fun b => f (Z.of_nat b) =? g (Z.of_nat b)) (seq 0 256) = true ->
  forall b, is_byte b -> f b = g b.
Proof.
  intros Hf b Hb. rewrite forallb_forall in Hf. unfold is_byte in *.
  specialize (Hf (Z.to_nat b)). rewrite Z2Nat.id in Hf by lia.
  assert (In (Z.to_nat b) (seq 0 256)) as Hi by (apply in_seq; lia).
  specialize (Hf Hi). by bprop.
Qed.

Definition w1 (b : Z) : Z := b - Z.land (Z.shiftr b 1) 0x55.
Definition w2 (b : Z) : Z := Z.land (w1 b) 0x33 + Z.land (Z.shiftr (w1 b) 2) 0x33.
Definition w3 (b : Z) : Z := Z.land (w2 b + Z.shiftr (w2 b) 4) 0x0F.

(** The first three steps of every variant, on the bytes of the word: each byte
    becomes its own weight. *)
Section Steps.
Context (l : list Z) (Hl : Forall is_byte l).
Abbreviation rep m := (le_combine (replicate (length l) m)).

Lemma fmap_bytes f : (forall b, is_byte b -> is_byte (f b)) -> Forall is_byte (f <$> l).
Proof. intros Hf. apply Forall_fmap. eapply Forall_impl; [exact Hl|]. auto. Qed.

Lemma w1_byte b : is_byte b -> is_byte (w1 b).
Proof. apply byte_fun_bound. vm_compute. reflexivity. Qed.
Lemma w2_byte b : is_byte b -> is_byte (w2 b).
Proof. apply byte_fun_bound. vm_compute. reflexivity. Qed.
Lemma w3_popcount b : is_byte b -> w3 b = popcount 8 b.
Proof. apply byte_fun_eq. vm_compute. reflexivity. Qed.

Lemma step1 : le_combine l - Z.land (Z.shiftr (le_combine l) 1) (rep 0x55) = le_combine (w1 <$> l).
Proof.
  rewrite land_lanes by (done || lia).
  rewrite <-(list_fmap_id l) at 1. rewrite sub_lanes. done.
Qed.

Lemma land_fmap f m k : (forall b, is_byte b -> is_byte (f b)) -> is_byte m -> 0 <= k < 8 ->
  m < 2 ^ (8 - k) ->
  Z.land (Z.shiftr (le_combine (f <$> l)) k) (rep m)
  = le_combine ((fun b => Z.land (Z.shiftr (f b) k) m) <$> l).
Proof.
  intros Hf Hm Hk Hmk. pose proof (land_lanes (f <$> l) m k (fmap_bytes f Hf) Hm Hk Hmk) as H.
  rewrite length_fmap in H. rewrite H, <-list_fmap_compose. done.
Qed.

Lemma step2 : Z.land (le_combine (w1 <$> l)) (rep 0x33)
  + Z.land (Z.shiftr (le_combine (w1 <$> l)) 2) (rep 0x33) = le_combine (w2 <$> l).
Proof.
  rewrite <-(Z.shiftr_0_r (le_combine (w1 <$> l))) at 1.
  rewrite !land_fmap by (done || lia || apply w1_byte). rewrite add_lanes.
  done.
Qed.

End Steps.

Lemma land_cons_byte x m X M : is_byte x -> is_byte m ->
  Z.land (x + 256 * X) (m + 256 * M) = Z.land x m + 256 * Z.land X M.
Proof.
  intros Hx Hm.
  assert (is_byte (Z.land x m)) as Hxm
    by (unfold is_byte in *; pose proof (land_bounded_r x m); lia).
  apply Z.bits_inj'. intros i Hi.
  rewrite Z.land_spec, !cons_byte_bits, !Z.land_spec by (done || lia). by destruct (i <? 8).
Qed.

(** Adding the nibbles of every byte, when none is above 4. *)
Definition small_nibbles (b : Z) : Prop := 0 <= b / 16 <= 4 /\ 0 <= b mod 16 <= 4.

Lemma low_nibble l : Forall small_nibbles l -> 0 <= le_combine l mod 16 <= 4.
Proof.
  intros [|b r [? Hb] _]; cbn [le_combine]; [done|].
  replace (256 * le_combine r) with (16 * le_combine r * 16) by lia. by rewrite Z_mod_plus_full.
Qed.

Lemma nibble_sum l : Forall small_nibbles l ->
  Z.land (le_combine l + Z.shiftr (le_combine l) 4) (le_combine (replicate (length l) 0x0F))
  = le_combine ((fun b => Z.land (b + Z.shiftr b 4) 0x0F) <$> l).
Proof.
  induction 1 as [|b r Hb Hr IH]; [done|].
  rewrite fmap_cons. cbn [le_combine length replicate]. rewrite <-IH.
  pose proof (low_nibble r Hr) as Hn. destruct Hb as [Hb1 Hb2].
  rewrite !Z.shiftr_div_pow2 by lia. change (2 ^ 4) with 16. set (R := le_combine r) in *.
  replace (b + 256 * R + (b + 256 * R) / 16)
    with (b + b / 16 + 16 * (R mod 16) + 256 * (R + R / 16))
    by (Z.to_euclidean_division_equations; lia).
  assert (is_byte (b + b / 16 + 16 * (R mod 16)))
    by (unfold is_byte; Z.to_euclidean_division_equations; lia).
  rewrite land_cons_byte by (done || (unfold is_byte; lia)). f_equal.
  change 15 with (Z.ones 4). rewrite !Z.land_ones by lia. change (2 ^ 4) with 16.
  rewrite (Z.mul_comm 16 (R mod 16)). apply Z_mod_plus_full.
Qed.

Lemma nibble_range l : Forall small_nibbles l ->
  0 <= 2 * le_combine l < 2 ^ (8 * Z.of_nat (length l)).
Proof.
  induction 1 as [|b r [Hb1 Hb2] _ IH]; [done|]. cbn [le_combine length].
  rewrite Nat2Z.inj_succ, Z.mul_succ_r, Z.pow_add_r by lia. change (2 ^ 8) with 256.
  Z.to_euclidean_division_equations. lia.
Qed.

Lemma w2_nibbles b : is_byte b -> small_nibbles (w2 b).
Proof.
  intros Hb. unfold small_nibbles.
  pose proof (byte_fun_eq (fun b => Z.min 4 (w2 b / 16)) (fun b => w2 b / 16)
    ltac:(vm_compute; reflexivity) b Hb) as H1.
  pose proof (byte_fun_eq (fun b => Z.min 4 (w2 b mod 16)) (fun b => w2 b mod 16)
    ltac:(vm_compute; reflexivity) b Hb) as H2.
  pose proof (w2_byte b Hb) as H3. unfold is_byte in H3. cbn beta in H1, H2.
  assert (0 <= w2 b / 16) by (apply Z.div_pos; lia).
  pose proof (Z.mod_pos_bound (w2 b) 16). lia.
Qed.

(** All three steps. *)
Lemma steps123 l : Forall is_byte l ->
  let rep m := le_combine (replicate (length l) m) in
  let r1 := le_combine l - Z.land (Z.shiftr (le_combine l) 1) (rep 0x55) in
  let r2 := Z.land r1 (rep 0x33) + Z.land (Z.shiftr r1 2) (rep 0x33) in
  0 <= r1 < 2 ^ (8 * Z.of_nat (length l)) /\
  0 <= r2 < 2 ^ (8 * Z.of_nat (length l)) /\
  0 <= r2 + Z.shiftr r2 4 < 2 ^ (8 * Z.of_nat (length l)) /\
  Z.land (r2 + Z.shiftr r2 4) (rep 0x0F) = le_combine (popcount 8 <$> l).
Proof.
  intros Hl rep r1 r2. unfold r2, r1, rep. rewrite step1, step2 by done.
  pose proof (le_combine_range _ (fmap_bytes l Hl w1 w1_byte)) as H1.
  pose proof (le_combine_range _ (fmap_bytes l Hl w2 w2_byte)) as H2.
  rewrite !length_fmap in H1, H2.
  assert (Forall small_nibbles (w2 <$> l)) as Hn.
  { apply Forall_fmap. eapply Forall_impl; [exact Hl|]. intros b. apply w2_nibbles. }
  split; [done|]. split; [done|]. split.
  - pose proof (nibble_range _ Hn) as H. rewrite length_fmap in H.
    pose proof (shiftr_bounded (le_combine (w2 <$> l)) 4). lia.
  - pose proof (nibble_sum _ Hn) as H. rewrite length_fmap in H. rewrite H, <-list_fmap_compose.
    f_equal. apply list_fmap_ext. intros i b Hi.
    apply w3_popcount. by apply (Forall_lookup_1 _ _ _ _ Hl Hi).
Qed.

(** Shifting out whole bytes. *)
Lemma shiftr_lanes a l k : k = 8 * Z.of_nat (length a) -> Forall is_byte a ->
  Z.shiftr (le_combine (a ++ l)) k = le_combine l.
Proof.
  intros -> Ha. induction Ha as [|b a Hb Ha IH]; [by rewrite Z.shiftr_0_r|].
  cbn [length app le_combine]. rewrite Nat2Z.inj_succ, Z.mul_succ_r, (Z.add_comm (8 * _)).
  rewrite <-Z.shiftr_shiftr by lia. rewrite <-IH. f_equal.
  rewrite Z.shiftr_div_pow2 by lia. unfold is_byte in Hb.
  change (2 ^ 8) with 256. rewrite (Z.mul_comm 256), Z.div_add, Z.div_small; lia.
Qed.

Lemma popcount_range n w : 0 <= popcount n w <= Z.of_nat n.
Proof.
  revert w. induction n as [|n IH]; intros w; [done|]. cbn [popcount].
  specialize (IH (Z.shiftr w 1)). destruct (Z.testbit w 0); simpl Z.b2z; lia.
Qed.

Lemma bytes_of_word n w : 0 <= w < 2 ^ (8 * Z.of_nat n) ->
  exists l, length l = n /\ Forall is_byte l /\ w = le_combine l.
Proof.
  intros Hw. exists (le_split n w). split; [apply length_le_split|].
  split; [apply le_split_bytes|]. by rewrite le_combine_split, Z.mod_small.
Qed.

(** One halving step of the final sum: lane [i] gets lane [i + n] added. *)
Lemma fold_lanes a l k : k = 8 * Z.of_nat (length a) -> Forall is_byte a ->
  le_combine (a ++ l) + Z.shiftr (le_combine (a ++ l)) k = le_combine (a ++ l) + le_combine l.
Proof. intros Hk Ha. by rewrite shiftr_lanes. Qed.

Ltac bytes := repeat constructor; unfold is_byte; lia.

(** Names for the weights of the bytes, each at most 8. *)
Ltac name_weights :=
  repeat match goal with |- context [popcount 8 ?b] =>
    let p := fresh "p" in let H := fresh "Hp" in
    pose proof (popcount_range 8 b) as H; set (p := popcount 8 b) in *; clearbody p
  end;
  change (Z.of_nat 8) with 8 in *.

(** The low lane of the last sum. *)
Ltac sum_low_lane :=
  change 0xFF with (Z.ones 8); rewrite Z.land_ones by lia; change (2 ^ 8) with 256;
  cbn [app le_combine]; rewrite Z.add_shuffle1, <-Z.mul_add_distr_l, (Z.mul_comm 256), Z_mod_plus_full;
  rewrite Z.mod_small; lia.

Lemma hweight64_popcount w : 0 <= w < 2 ^ 64 -> __sw_hweight64 w = popcount 64 w.
Proof.
  intros Hw. destruct (bytes_of_word 8 w Hw) as (l & Hlen & Hl & ->).
  pose proof (steps123 l Hl) as Hs. pose proof (popcount_le_combine l Hl) as Hp.
  rewrite Hlen in Hs, Hp. change (8 * 8)%nat with 64%nat in Hp. rewrite Hp. clear Hp Hw.
  destruct Hs as (H1 & H2 & H3 & H4). cbn [replicate] in *.
  change (2 ^ (8 * Z.of_nat 8)) with (2 ^ 64) in *.
  unfold __sw_hweight64.
  change 0x5555555555555555 with (le_combine (replicate 8 0x55)).
  change 0x3333333333333333 with (le_combine (replicate 8 0x33)).
  change 0x0F0F0F0F0F0F0F0F with (le_combine (replicate 8 0x0F)).
  cbn [replicate]. rewrite (u64_small _ H1), (u64_small _ H2), (u64_small _ H3), H4.
  destruct l as [|b0 [|b1 [|b2 [|b3 [|b4 [|b5 [|b6 [|b7 [|]]]]]]]]]; try done.
  cbn [fmap list_fmap foldr].
  name_weights.
  change (le_combine [p; p0; p1; p2; p3; p4; p5; p6])
    with (le_combine ([p] ++ [p0; p1; p2; p3; p4; p5; p6])).
  rewrite fold_lanes by (done || bytes).
  replace (le_combine _ + le_combine _) with
    (le_combine ([p + p0; p0 + p1] ++ [p1 + p2; p2 + p3; p3 + p4; p4 + p5; p5 + p6; p6]))
    by (cbn [app le_combine]; lia).
  rewrite (u64_small (le_combine _)) by (cbn [app le_combine]; lia).
  rewrite fold_lanes by (done || bytes).
  replace (le_combine _ + le_combine _) with
    (le_combine ([p + p0 + p1 + p2; p0 + p1 + p2 + p3; p1 + p2 + p3 + p4; p2 + p3 + p4 + p5]
       ++ [p3 + p4 + p5 + p6; p4 + p5 + p6; p5 + p6; p6]))
    by (cbn [app le_combine]; lia).
  rewrite (u64_small (le_combine _)) by (cbn [app le_combine]; lia).
  rewrite fold_lanes by (done || bytes).
  rewrite u64_small by (cbn [app le_combine]; lia).
  sum_low_lane.
Qed.

Lemma hweight32_popcount w : 0 <= w < 2 ^ 32 -> __sw_hweight32 w = popcount 32 w.
Proof.
  intros Hw. destruct (bytes_of_word 4 w Hw) as (l & Hlen & Hl & ->).
  pose proof (steps123 l Hl) as Hs. pose proof (popcount_le_combine l Hl) as Hp.
  rewrite Hlen in Hs, Hp. change (8 * 4)%nat with 32%nat in Hp. rewrite Hp. clear Hp Hw.
  destruct Hs as (H1 & H2 & H3 & H4). change (2 ^ (8 * Z.of_nat 4)) with (2 ^ 32) in *.
  unfold __sw_hweight32.
  change 0x55555555 with (le_combine (replicate 4 0x55)).
  change 0x33333333 with (le_combine (replicate 4 0x33)).
  change 0x0F0F0F0F with (le_combine (replicate 4 0x0F)).
  rewrite (u32_small _ H1), (u32_small _ H2), (u32_small _ H3), H4.
  destruct l as [|b0 [|b1 [|b2 [|b3 [|]]]]]; try done. cbn [fmap list_fmap foldr].
  name_weights.
  change (le_combine [p; p0; p1; p2]) with (le_combine ([p] ++ [p0; p1; p2])).
  rewrite fold_lanes by (done || bytes).
  replace (le_combine _ + le_combine _) with (le_combine ([p + p0; p0 + p1] ++ [p1 + p2; p2]))
    by (cbn [app le_combine]; lia).
  rewrite (u32_small (le_combine _)) by (cbn [app le_combine]; lia).
  rewrite fold_lanes by (done || bytes).
  rewrite u32_small by (cbn [app le_combine]; lia).
  sum_low_lane.
Qed.

Lemma all_below (P : Z -> bool) (n : nat) :
  forallb P (map Z.of_nat (seq 0 n)) = true -> forall w, 0 <= w < Z.of_nat n -> P w = true.
Proof.
  intros Hf w Hw. rewrite forallb_forall in Hf. apply Hf, in_map_iff.
  exists (Z.to_nat w). split; [lia|]. apply in_seq. lia.
Qed.

Lemma hweight8_popcount w : 0 <= w < 2 ^ 8 -> __sw_hweight8 w = popcount 8 w.
Proof.
  intros Hw. apply Z.eqb_eq. revert w Hw.
  apply (all_below (fun w => __sw_hweight8 w =? popcount 8 w) 256). vm_compute. reflexivity.
Qed.

Lemma hweight16_popcount w : 0 <= w < 2 ^ 16 -> __sw_hweight16 w = popcount 16 w.
Proof.
  intros Hw. destruct (bytes_of_word 2 w Hw) as (l & Hlen & Hl & ->).
  pose proof (steps123 l Hl) as Hs. pose proof (popcount_le_combine l Hl) as Hp.
  rewrite Hlen in Hs, Hp. change (8 * 2)%nat with 16%nat in Hp. rewrite Hp. clear Hp Hw.
  destruct Hs as (H1 & H2 & H3 & H4). change (2 ^ (8 * Z.of_nat 2)) with (2 ^ 16) in *.
  unfold __sw_hweight16.
  change 0x5555 with (le_combine (replicate 2 0x55)).
  change 0x3333 with (le_combine (replicate 2 0x33)).
  change 0x0F0F with (le_combine (replicate 2 0x0F)).
  assert (forall x, 0 <= x < 2 ^ 16 -> u32 x = x) as U by (intros; apply u32_small; lia).
  rewrite (U _ H1), (U _ H2), (U _ H3), H4.
  destruct l as [|b0 [|b1 [|]]]; try done. cbn [fmap list_fmap foldr].
  name_weights.
  change (le_combine [p; p0]) with (le_combine ([p] ++ [p0])).
  rewrite fold_lanes by (done || bytes).
  rewrite u32_small by (cbn [app le_combine]; lia).
  sum_low_lane.
Qed.

(** ** The lowest set bit of a word *)

Definition lsb (w n : Z) : Prop := 0 <= n /\ Z.testbit w n = true /\ forall m, 0 <= m < n -> Z.testbit w m = false.

(** The state of the search for the lowest bit of [w]: it is among the low [k]
    bits of the rest. *)
Definition searching (w k : Z) (s : Z * Z) : Prop :=
  0 <= fst s /\ 0 <= snd s /\ snd s mod 2 ^ k <> 0 /\ forall n, lsb (snd s) n -> lsb w (fst s + n).

Lemma lsb_shiftr w k n : 0 <= k -> w mod 2 ^ k = 0 -> lsb (Z.shiftr w k) n -> lsb w (k + n).
Proof.
  intros Hk Hw (Hn & Ht & Hlow). split; [lia|]. rewrite Z.shiftr_spec in Ht by done.
  split; [by rewrite Z.add_comm|]. intros m Hm. destruct (Z.lt_ge_cases m k).
  - rewrite <-(Z.mod_pow2_bits_low w k m), Hw, Z.bits_0 by lia. done.
  - specialize (Hlow (m - k) ltac:(lia)). rewrite Z.shiftr_spec in Hlow by lia.
    by replace (m - k + k) with m in Hlow by lia.
Qed.

Lemma ffs_step_ok w k s : 0 <= k -> searching w (2 * k) s -> searching w k (ffs_step k (Z.ones k) s).
Proof.
  intros Hk (H0 & H1 & H2 & H3). destruct s as [num word]. unfold ffs_step. cbn [fst snd] in *.
  rewrite Z.land_ones by lia. destruct (Z.eqb_spec (word mod 2 ^ k) 0) as [E|E].
  - split; [cbn; lia|]. split; [cbn; by apply Z.shiftr_nonneg|]. split; cbn [fst snd].
    + rewrite Z.shiftr_div_pow2 by done. intros E'. apply H2.
      replace (2 * k) with (k + k) by lia. rewrite Z.pow_add_r, Z.rem_mul_r by lia. lia.
    + intros n Hn. rewrite <-Z.add_assoc. apply H3. by apply lsb_shiftr.
  - exact (conj H0 (conj H1 (conj E H3))).
Qed.

Lemma __ffs_lsb w : 0 < w < 2 ^ 64 -> lsb w (__ffs w) /\ __ffs w < 64.
Proof.
  intros Hw. assert (lsb w (__ffs w)) as Hl.
  { unfold __ffs. assert (searching w 64 (0, w)) as Hs.
    { split; [done|]. cbn [fst snd]. rewrite Z.mod_small by lia. split; [lia|]. split; [lia|].
      intros n Hn. by rewrite Z.add_0_l. }
    apply (ffs_step_ok w 32) in Hs; [|lia]. apply (ffs_step_ok w 16) in Hs; [|lia].
    apply (ffs_step_ok w 8) in Hs; [|lia]. apply (ffs_step_ok w 4) in Hs; [|lia].
    apply (ffs_step_ok w 2) in Hs; [|lia].
    change (Z.ones 32) with 0xffffffff in Hs. change (Z.ones 16) with 0xffff in Hs.
    change (Z.ones 8) with 0xff in Hs. change (Z.ones 4) with 0xf in Hs. change (Z.ones 2) with 0x3 in Hs.
    destruct (ffs_step 2 3 _) as [num word]. destruct Hs as (H0 & H1 & H2 & H3). cbn [fst snd] in *.
    change 1 with (Z.ones 1) at 1. rewrite Z.land_ones by lia. change (2 ^ 1) with 2.
    destruct (Z.eqb_spec (word mod 2) 0) as [E|E].
    - apply H3. change 1 with (1 + 0). apply lsb_shiftr; [lia|done|]. split; [done|].
      split; [|lia]. rewrite Z.shiftr_spec by lia. cbn. rewrite Z.testbit_eqb by lia.
      change (2 ^ 2) with 4 in H2. change (2 ^ 1) with 2. apply Z.eqb_eq.
      Z.to_euclidean_division_equations. lia.
    - rewrite <-(Z.add_0_r num). apply H3. split; [done|]. split; [|lia].
      rewrite Z.bit0_eqb. apply Z.eqb_eq. pose proof (Z.mod_pos_bound word 2). lia. }
  split; [done|]. destruct Hl as (Hn & Ht & _).
  destruct (Z.lt_ge_cases (__ffs w) 64) as [|Hge]; [done|].
  rewrite (proj2 (proj1 (bounded_iff_bits 64 w ltac:(lia)) ltac:(lia)) _ Hge) in Ht. done.
Qed.

(** ** Searching a bitmap *)

(** Bit [i] of the bitmap. *)
Definition bm_bit (addr : list Z) (i : Z) : bool :=
  if rd addr (i / BITS_PER_LONG) is Some w then Z.testbit w (i mod BITS_PER_LONG) else false.

Definition wf_bitmap (addr : list Z) (nbits : Z) : Prop :=
  Forall (fun w => 0 <= w < 2 ^ 64) addr /\ 0 <= nbits <= 64 * Z.of_nat (length addr) /\ nbits < 2 ^ 62.

(** [r] is the first set bit at or after [start], or [nbits]. *)
Definition is_next (P : Z -> bool) (nbits start r : Z) : Prop :=
  (forall i, start <= i < Z.min r nbits -> P i = false) /\
  ((start <= r < nbits /\ P r = true) \/ r = nbits).

Lemma rd_word addr nbits i : wf_bitmap addr nbits -> 0 <= i < nbits ->
  exists w, rd addr (i / BITS_PER_LONG) = Some w /\ 0 <= w < 2 ^ 64.
Proof.
  intros (Hf & Hn & _) Hi. unfold BITS_PER_LONG.
  destruct (rd_in_range addr (i / 64)) as [w Hw]; [Z.to_euclidean_division_equations; lia|].
  exists w. split; [done|]. unfold rd in Hw. destruct (0 <=? i / 64); [|done].
  exact (Forall_lookup_1 _ _ _ _ Hf Hw).
Qed.

Lemma bm_bit_word addr s w j : s mod 64 = 0 -> rd addr (s / BITS_PER_LONG) = Some w -> 0 <= j < 64 ->
  bm_bit addr (s + j) = Z.testbit w j.
Proof.
  intros Hs Hw Hj. unfold bm_bit, BITS_PER_LONG in *.
  replace ((s + j) / 64) with (s / 64) by (Z.to_euclidean_division_equations; lia).
  rewrite Hw. f_equal. Z.to_euclidean_division_equations; lia.
Qed.

Lemma next_loop_ok addr nbits start0 fuel s tmp :
  wf_bitmap addr nbits -> 0 <= s < nbits -> s mod 64 = 0 -> 0 <= tmp < 2 ^ 64 -> start0 < s + 64 ->
  (forall j, 0 <= j < 64 -> Z.testbit tmp j = bm_bit addr (s + j) && (start0 <=? s + j)) ->
  (forall i, start0 <= i < s -> bm_bit addr i = false) ->
  (Z.to_nat ((nbits - s) / 64 + 1) < fuel)%nat ->
  exists r, next_loop fuel addr nbits s tmp 0 = Some r /\ is_next (bm_bit addr) nbits start0 r.
Proof.
  intros Hwf. revert s tmp. induction fuel as [|fuel IH]; intros s tmp Hs Hm Ht H0 Hb Hlow Hf; [lia|].
  cbn [next_loop]. destruct Hwf as (Hwf & Hn & Hn62). destruct (Z.eqb_spec tmp 0) as [->|E].
  - assert (forall i, start0 <= i < s + 64 -> bm_bit addr i = false) as Hlow'.
    { intros i Hi. destruct (Z.lt_ge_cases i s); [apply Hlow; lia|].
      specialize (Hb (i - s) ltac:(lia)). rewrite Z.bits_0 in Hb.
      replace (s + (i - s)) with i in Hb by lia.
      rewrite (proj2 (Z.leb_le _ _)), andb_true_r in Hb by lia. done. }
    unfold BITS_PER_LONG. rewrite u64_small by lia.
    destruct (Z.geb_spec (s + 64) nbits).
    + exists nbits. split; [done|]. split; [intros i Hi; apply Hlow'; lia|by right].
    + destruct (rd_word addr nbits (s + 64)) as (w & Hw & Hwr); [done|lia|].
      unfold BITS_PER_LONG in Hw. rewrite Hw. cbn [mbind option_bind]. rewrite Z.lxor_0_r.
      apply IH; try lia; try done.
      * Z.to_euclidean_division_equations; lia.
      * intros j Hj. rewrite (proj2 (Z.leb_le _ _)), andb_true_r by lia. symmetry.
        apply bm_bit_word; [Z.to_euclidean_division_equations; lia|done|done].
      * assert (0 <= (nbits - (s + 64)) / 64) by (apply Z.div_pos; lia).
        assert ((nbits - s) / 64 = (nbits - (s + 64)) / 64 + 1)
          by (rewrite <-Z.div_add by lia; f_equal; lia). lia.
  - destruct (__ffs_lsb tmp ltac:(lia)) as [(Hf0 & Hf1 & Hf2) Hf64].
    eexists. split; [done|]. rewrite u64_small by lia. rewrite Hb in Hf1 by lia. bprop. split.
    + intros i Hi. destruct (Z.lt_ge_cases i s); [apply Hlow; lia|].
      specialize (Hf2 (i - s) ltac:(lia)). rewrite Hb in Hf2 by lia.
      replace (s + (i - s)) with i in Hf2 by lia.
      rewrite (proj2 (Z.leb_le _ _)), andb_true_r in Hf2 by lia. done.
    + destruct (Z.le_gt_cases nbits (s + __ffs tmp)); [right; lia|left]. rewrite Z.min_l by lia.
      split; [lia|done].
Qed.

Lemma find_next_bit_ok addr nbits start :
  wf_bitmap addr nbits -> 0 <= start ->
  exists r, find_next_bit addr nbits start = Some r /\ is_next (bm_bit addr) nbits start r.
Proof.
  intros Hwf Hs. unfold find_next_bit, _find_next_bit.
  destruct (Z.eqb_spec nbits 0) as [->|En]; cbn [orb].
  { exists 0. split; [done|]. split; [lia|by right]. }
  destruct (Z.geb_spec start nbits).
  { exists nbits. split; [done|]. split; [lia|by right]. }
  destruct (rd_word addr nbits start Hwf ltac:(lia)) as (w & Hw & Hwr). rewrite Hw.
  cbn [mbind option_bind]. rewrite Z.lxor_0_r.
  unfold BITMAP_FIRST_WORD_MASK, BITS_PER_LONG in *. change (64 - 1) with (Z.ones 6).
  rewrite <-Z.ldiff_land, Z.ldiff_ones_r, Z.land_ones by lia.
  rewrite Z.shiftr_div_pow2, Z.shiftl_mul_pow2 by lia. change (2 ^ 6) with 64.
  assert (0 <= start mod 64 < 64) as Hmod by (apply Z.mod_pos_bound; lia).
  assert (start = start / 64 * 64 + start mod 64) as Hsp by (Z.to_euclidean_division_equations; lia).
  destruct Hwf as (Hwf1 & Hwf2 & Hwf3).
  apply next_loop_ok; try done; try (Z.to_euclidean_division_equations; lia).
  - pose proof (u64_range (Z.shiftl (2 ^ 64 - 1) (start mod 64))).
    pose proof (land_bounded_r w (u64 (Z.shiftl (2 ^ 64 - 1) (start mod 64)))). lia.
  - intros j Hj. rewrite Z.land_spec.
    rewrite (bm_bit_word addr _ w) by (try done; try (unfold BITS_PER_LONG; rewrite Z.div_mul by lia);
      try done; Z.to_euclidean_division_equations; lia).
    f_equal. unfold u64. rewrite Z.mod_pow2_bits_low by lia.
    destruct (Z.leb_spec start (start / 64 * 64 + j)).
    + rewrite Z.shiftl_spec_high by lia. change (2 ^ 64 - 1) with (Z.ones 64).
      apply Z.ones_spec_low. lia.
    + apply Z.shiftl_spec_low. lia.
Qed.

Lemma first_loop_ok addr nbits fuel k :
  wf_bitmap addr nbits -> 0 <= k -> k * 64 < nbits + 64 ->
  (forall i, 0 <= i < k * 64 -> bm_bit addr i = false) ->
  (Z.to_nat (Z.of_nat (length addr) - k + 1) < fuel)%nat ->
  exists r, first_loop fuel addr nbits k = Some r /\ is_next (bm_bit addr) nbits 0 r.
Proof.
  intros Hwf. revert k. induction fuel as [|fuel IH]; intros k Hk Hkn Hlow Hf; [lia|].
  cbn [first_loop]. unfold BITS_PER_LONG. pose proof Hwf as (Hwf1 & Hwf2 & Hwf3).
  rewrite u64_small by lia. destruct (Z.ltb_spec (k * 64) nbits).
  2: { exists nbits. split; [done|]. split; [intros; apply Hlow; lia|by right]. }
  destruct (rd_word addr nbits (k * 64) Hwf ltac:(lia)) as (w & Hw & Hwr).
  unfold BITS_PER_LONG in Hw. rewrite Z.div_mul in Hw by lia. rewrite Hw. cbn [mbind option_bind].
  assert (forall j, 0 <= j < 64 -> bm_bit addr (k * 64 + j) = Z.testbit w j) as Hb.
  { intros j Hj. apply bm_bit_word; [by apply Z.mod_mul|unfold BITS_PER_LONG|done].
    by rewrite Z.div_mul by lia. }
  destruct (Z.eqb_spec w 0) as [->|E]; cbn [negb].
  - apply IH; try lia. intros i Hi. destruct (Z.lt_ge_cases i (k * 64)); [apply Hlow; lia|].
    specialize (Hb (i - k * 64) ltac:(lia)). rewrite Z.bits_0 in Hb. rewrite <-Hb. f_equal. lia.
  - destruct (__ffs_lsb w ltac:(lia)) as [(Hf0 & Hf1 & Hf2) Hf64]. rewrite u64_small by lia.
    eexists. split; [done|]. rewrite <-Hb in Hf1 by lia. split.
    + intros i Hi. destruct (Z.lt_ge_cases i (k * 64)); [apply Hlow; lia|].
      specialize (Hf2 (i - k * 64) ltac:(lia)). rewrite <-Hb in Hf2 by lia.
      by replace (k * 64 + (i - k * 64)) with i in Hf2 by lia.
    + destruct (Z.le_gt_cases nbits (k * 64 + __ffs w)); [right; lia|left].
      rewrite Z.min_l by lia. split; [lia|done].
Qed.

Lemma find_first_bit_ok addr nbits : wf_bitmap addr nbits ->
  exists r, find_first_bit addr nbits = Some r /\ is_next (bm_bit addr) nbits 0 r.
Proof. intros Hwf. pose proof Hwf as (_ & ? & _). apply first_loop_ok; lia || done. Qed.

(** ** Weight, conjunction and disjunction of bitmaps *)

Fixpoint count (P : Z -> bool) (from : Z) (n : nat) : Z :=
  match n with O => 0 | S n => Z.b2z (P from) + count P (from + 1) n end.

Lemma count_app P from n m : count P from (n + m) = count P from n + count P (from + Z.of_nat n) m.
Proof.
  revert from. induction n as [|n IH]; intros from; [by rewrite Z.add_0_r|].
  cbn [Nat.add count]. rewrite IH. replace (from + 1 + Z.of_nat n) with (from + Z.of_nat (S n)) by lia. lia.
Qed.

Lemma count_popcount P from n w :
  (forall j, 0 <= j < Z.of_nat n -> P (from + j) = Z.testbit w j) -> count P from n = popcount n w.
Proof.
  revert from w. induction n as [|n IH]; intros from w H; [done|]. cbn [count popcount].
  rewrite <-(H 0), Z.add_0_r by lia. f_equal. apply IH. intros j Hj.
  rewrite Z.shiftr_spec, <-H by lia. f_equal. lia.
Qed.

Lemma popcount_high w n m : (n <= m)%nat -> 0 <= w < 2 ^ Z.of_nat n -> popcount m w = popcount n w.
Proof.
  intros Hnm Hw. replace m with (n + (m - n))%nat by lia. rewrite popcount_app.
  rewrite Z.shiftr_div_pow2, Z.div_small by lia.
  assert (forall k, popcount k 0 = 0) as -> by (induction k; done). lia.
Qed.

(** The bits of word [k] of the bitmap. *)
Lemma bm_bit_at addr k w j : 0 <= k -> rd addr k = Some w -> 0 <= j < 64 ->
  bm_bit addr (64 * k + j) = Z.testbit w j.
Proof.
  intros Hk Hw Hj. apply bm_bit_word; [by rewrite Z.mul_comm, Z.mod_mul| |done].
  unfold BITS_PER_LONG. by rewrite Z.mul_comm, Z.div_mul.
Qed.

Lemma rd_word_at addr nbits k : wf_bitmap addr nbits -> 0 <= k -> 64 * k < nbits ->
  exists w, rd addr k = Some w /\ 0 <= w < 2 ^ 64.
Proof.
  intros Hwf Hk Hn. destruct (rd_word addr nbits (k * 64) Hwf ltac:(lia)) as (w & Hw & Hr).
  unfold BITS_PER_LONG in Hw. rewrite Z.div_mul in Hw by lia. by exists w.
Qed.

Lemma weight_loop_ok addr nbits n k w : wf_bitmap addr nbits -> 0 <= k -> 64 * (k + Z.of_nat n) <= nbits ->
  weight_loop n addr k w = Some (w + count (bm_bit addr) (64 * k) (64 * n)).
Proof.
  intros Hwf. revert k w. induction n as [|n IH]; intros k w Hk Hn.
  { cbn. f_equal. lia. }
  cbn [weight_loop]. destruct (rd_word_at addr nbits k Hwf Hk ltac:(lia)) as (x & Hx & Hxr).
  rewrite Hx. cbn [mbind option_bind]. rewrite IH by lia. f_equal.
  unfold hweight_long. rewrite hweight64_popcount by done.
  replace (64 * S n)%nat with (64 + 64 * n)%nat by lia. rewrite count_app.
  rewrite (count_popcount (bm_bit addr) (64 * k) 64 x) by (intros j Hj; by apply bm_bit_at).
  replace (64 * k + Z.of_nat 64) with (64 * (k + 1)) by lia. lia.
Qed.

Lemma last_word_mask nbits j : 0 <= nbits -> nbits mod 64 <> 0 -> 0 <= j ->
  Z.testbit (BITMAP_LAST_WORD_MASK nbits) j = (j <? nbits mod 64).
Proof.
  intros Hn Hm Hj. unfold BITMAP_LAST_WORD_MASK, BITS_PER_LONG.
  rewrite (proj2 (Z.eqb_neq _ _)) by done. cbn [negb].
  pose proof (Z.mod_pos_bound nbits 64). rewrite Z.sub_1_r.
  apply (Z.testbit_ones_nonneg (nbits mod 64)); lia.
Qed.

Lemma rd_st addr k v i : 0 <= k < Z.of_nat (length addr) ->
  exists addr', st addr k v = Some addr' /\ length addr' = length addr /\
    rd addr' i = if i =? k then Some v else rd addr i.
Proof.
  intros Hk. unfold st. rewrite (proj2 (Z.leb_le _ _)), (proj2 (Z.ltb_lt _ _)) by lia. cbn [andb].
  eexists. split; [done|]. split; [apply length_insert|]. unfold rd.
  destruct (Z.eqb_spec i k) as [->|Hn].
  - rewrite (proj2 (Z.leb_le _ _)) by lia. apply list_lookup_insert_eq. lia.
  - destruct (Z.leb_spec 0 i); [|done]. apply list_lookup_insert_ne. lia.
Qed.

Lemma st_spec addr k v : 0 <= k < Z.of_nat (length addr) ->
  exists addr', st addr k v = Some addr' /\ length addr' = length addr /\
    forall i, rd addr' i = if i =? k then Some v else rd addr i.
Proof.
  intros Hk. destruct (rd_st addr k v 0 Hk) as (addr' & Hs & Hl & _). exists addr'.
  split; [done|]. split; [done|]. intros i. destruct (rd_st addr k v i Hk) as (a & Hs' & _ & Hr).
  by simplify_eq.
Qed.

(** The weight of a bitmap is the number of its set bits. *)
Lemma __bitmap_weight_ok addr nbits : wf_bitmap addr nbits ->
  __bitmap_weight addr nbits = Some (count (bm_bit addr) 0 (Z.to_nat nbits)).
Proof.
  intros Hwf. pose proof Hwf as (_ & Hn & _). unfold __bitmap_weight, BITS_PER_LONG.
  assert (nbits = 64 * (nbits / 64) + nbits mod 64) as Hd by (Z.to_euclidean_division_equations; lia).
  pose proof (Z.mod_pos_bound nbits 64 ltac:(lia)) as Hm.
  assert (0 <= nbits / 64) as Hq by (apply Z.div_pos; lia).
  rewrite (weight_loop_ok addr nbits) by (done || lia). cbn [mbind option_bind].
  replace (Z.to_nat nbits) with (64 * Z.to_nat (nbits / 64) + Z.to_nat (nbits mod 64))%nat by lia.
  rewrite count_app, Z.add_0_l, Z.mul_0_r, Z.add_0_l.
  replace (Z.of_nat (64 * Z.to_nat (nbits / 64))) with (64 * (nbits / 64)) by lia.
  destruct (Z.eqb_spec (nbits mod 64) 0) as [E|E]; cbn [negb]; [rewrite E; change (Z.to_nat 0) with 0%nat; cbn [count]; f_equal; lia|].
  destruct (rd_word_at addr nbits (nbits / 64) Hwf Hq ltac:(lia)) as (x & Hx & Hxr).
  rewrite Hx. cbn [mbind option_bind]. do 2 f_equal. unfold hweight_long.
  set (y := Z.land x (BITMAP_LAST_WORD_MASK nbits)).
  assert (forall j, 0 <= j -> Z.testbit y j = Z.testbit x j && (j <? nbits mod 64)) as Hy.
  { intros j Hj. unfold y. rewrite Z.land_spec, last_word_mask by (done || lia). done. }
  assert (0 <= y < 2 ^ (nbits mod 64)) as Hyr.
  { apply bounded_iff_bits; [lia|]. split; [apply Z.land_nonneg; left; lia|].
    intros j Hj. rewrite Hy, (proj2 (Z.ltb_ge _ _)), andb_false_r by lia. done. }
  assert (2 ^ (nbits mod 64) <= 2 ^ 64) by (apply Z.pow_le_mono_r; lia).
  rewrite hweight64_popcount by lia.
  rewrite (popcount_high y (Z.to_nat (nbits mod 64))) by (rewrite ?Z2Nat.id by lia; lia).
  symmetry. apply count_popcount. intros j Hj.
  rewrite (bm_bit_at addr _ x) by (done || lia). rewrite Hy, (proj2 (Z.ltb_lt _ _)), andb_true_r by lia. done.
Qed.

(** Word-wise combination of two bitmaps. *)
Lemma or_loop_ok n dst a b k :
  0 <= k -> k + Z.of_nat n <= Z.of_nat (length dst) -> k + Z.of_nat n <= Z.of_nat (length a) ->
  k + Z.of_nat n <= Z.of_nat (length b) ->
  exists dst', or_loop n dst a b k = Some dst' /\ length dst' = length dst /\
    forall i x y, rd a i = Some x -> rd b i = Some y ->
      rd dst' i = if (k <=? i) && (i <? k + Z.of_nat n) then Some (Z.lor x y) else rd dst i.
Proof.
  revert dst k. induction n as [|n IH]; intros dst k Hk Hd Ha Hb.
  { exists dst. split; [done|]. split; [done|]. intros i x y _ _.
    destruct (Z.leb_spec k i), (Z.ltb_spec i (k + Z.of_nat 0)); done || lia. }
  cbn [or_loop]. destruct (rd_in_range a k ltac:(lia)) as [x Hx], (rd_in_range b k ltac:(lia)) as [y Hy].
  rewrite Hx, Hy. cbn [mbind option_bind].
  destruct (st_spec dst k (Z.lor x y) ltac:(lia)) as (d1 & -> & Hl1 & Hd1). cbn [mbind option_bind].
  destruct (IH d1 (k + 1)) as (d2 & -> & Hl2 & Hd2); [lia..|]. exists d2.
  split; [done|]. split; [congruence|]. intros i x' y' Hx' Hy'. rewrite (Hd2 i x' y' Hx' Hy'), Hd1.
  destruct (Z.leb_spec k i), (Z.ltb_spec i (k + Z.of_nat (S n))), (Z.leb_spec (k + 1) i),
    (Z.ltb_spec i (k + 1 + Z.of_nat n)), (Z.eqb_spec i k); cbn [andb]; subst; simplify_eq; done || lia.
Qed.

Lemma and_loop_ok n dst a b k r :
  0 <= k -> k + Z.of_nat n <= Z.of_nat (length dst) -> k + Z.of_nat n <= Z.of_nat (length a) ->
  k + Z.of_nat n <= Z.of_nat (length b) ->
  exists r' dst', and_loop n dst a b k r = Some (r', dst') /\ length dst' = length dst /\
    (r' = 0 <-> r = 0 /\ forall i x y, k <= i < k + Z.of_nat n -> rd a i = Some x -> rd b i = Some y ->
        Z.land x y = 0) /\
    forall i x y, rd a i = Some x -> rd b i = Some y ->
      rd dst' i = if (k <=? i) && (i <? k + Z.of_nat n) then Some (Z.land x y) else rd dst i.
Proof.
  revert dst k r. induction n as [|n IH]; intros dst k r Hk Hd Ha Hb.
  { exists r, dst. split; [done|]. split; [done|]. split; [split; [intros; split; [done|lia]|tauto]|].
    intros i x y _ _. destruct (Z.leb_spec k i), (Z.ltb_spec i (k + Z.of_nat 0)); done || lia. }
  cbn [and_loop]. destruct (rd_in_range a k ltac:(lia)) as [x Hx], (rd_in_range b k ltac:(lia)) as [y Hy].
  rewrite Hx, Hy. cbn [mbind option_bind].
  destruct (st_spec dst k (Z.land x y) ltac:(lia)) as (d1 & -> & Hl1 & Hd1). cbn [mbind option_bind].
  destruct (IH d1 (k + 1) (Z.lor r (Z.land x y))) as (r2 & d2 & -> & Hl2 & Hr2 & Hd2); [lia..|].
  exists r2, d2. split; [done|]. split; [congruence|]. split.
  - rewrite Hr2, Z.lor_eq_0_iff. split.
    + intros [[-> Hxy] Hall]. split; [done|]. intros i x' y' Hi Hx' Hy'.
      destruct (Z.eq_dec i k) as [->|]; [by simplify_eq|]. apply (Hall i); done || lia.
    + intros [-> Hall]. split; [split; [done|apply (Hall k); done || lia]|].
      intros i x' y' Hi. apply Hall. lia.
  - intros i x' y' Hx' Hy'. rewrite (Hd2 i x' y' Hx' Hy'), Hd1.
    destruct (Z.leb_spec k i), (Z.ltb_spec i (k + Z.of_nat (S n))), (Z.leb_spec (k + 1) i),
      (Z.ltb_spec i (k + 1 + Z.of_nat n)), (Z.eqb_spec i k); cbn [andb]; subst; simplify_eq; done || lia.
Qed.

Lemma __bitmap_or_ok dst a b nbits :
  wf_bitmap a nbits -> wf_bitmap b nbits -> wf_bitmap dst nbits ->
  exists dst', __bitmap_or dst a b nbits = Some dst' /\
    forall i, 0 <= i < nbits -> bm_bit dst' i = bm_bit a i || bm_bit b i.
Proof.
  intros Ha Hb Hd. pose proof Ha as (_ & Hna & _). pose proof Hb as (_ & Hnb & _).
  pose proof Hd as (_ & Hnd & _). unfold __bitmap_or, BITS_TO_LONGS, BITS_PER_LONG.
  assert (0 <= (nbits + 64 - 1) / 64) by (apply Z.div_pos; lia).
  assert (forall n, nbits <= 64 * n -> (nbits + 64 - 1) / 64 <= n) as Hle
    by (intros n Hn; apply Z.lt_succ_r, Z.div_lt_upper_bound; lia).
  destruct (or_loop_ok (Z.to_nat ((nbits + 64 - 1) / 64)) dst a b 0) as (d & -> & Hl & Hr);
    rewrite ?Z2Nat.id by done; [done|apply Hle; lia..|].
  exists d. split; [done|]. intros i Hi.
  destruct (rd_word a nbits i Ha Hi) as (x & Hx & _), (rd_word b nbits i Hb Hi) as (y & Hy & _).
  unfold bm_bit. rewrite (Hr _ x y Hx Hy), Hx, Hy, Z2Nat.id by done. unfold BITS_PER_LONG.
  rewrite (proj2 (Z.leb_le _ _)), (proj2 (Z.ltb_lt _ _)) by (Z.to_euclidean_division_equations; lia).
  cbn [andb]. apply Z.lor_spec.
Qed.

(** A word whose low [n] bits are [P] from [base] on is zero when these are. *)
Lemma word_zero_iff (P : Z -> bool) v base n :
  (forall j, 0 <= j -> Z.testbit v j = (j <? n) && P (base + j)) ->
  v = 0 <-> forall i, base <= i < base + n -> P i = false.
Proof.
  intros Hv. split.
  - intros -> i Hi. specialize (Hv (i - base) ltac:(lia)). rewrite Z.bits_0 in Hv.
    rewrite (proj2 (Z.ltb_lt _ _)) in Hv by lia. rewrite Hv. simpl. f_equal. lia.
  - intros H. apply Z.bits_inj_0. intros j. destruct (Z.lt_ge_cases j 0); [by apply Z.testbit_neg_r|].
    rewrite Hv by done. destruct (Z.ltb_spec j n); [|done]. rewrite H by lia. done.
Qed.

Lemma land_word_bits a b nbits k x y :
  wf_bitmap a nbits -> rd a k = Some x -> rd b k = Some y -> 0 <= k -> 64 * k < nbits ->
  forall j, 0 <= j -> Z.testbit (Z.land x y) j
    = (j <? 64) && (bm_bit a (64 * k + j) && bm_bit b (64 * k + j)).
Proof.
  intros Ha Hx Hy Hk Hn j Hj. rewrite Z.land_spec. destruct (Z.ltb_spec j 64).
  - by rewrite (bm_bit_at a k x), (bm_bit_at b k y) by done.
  - destruct (rd_word_at a nbits k Ha Hk Hn) as (x' & Hx' & Hr). simplify_eq.
    rewrite (proj2 (proj1 (bounded_iff_bits 64 x ltac:(lia)) Hr)) by lia. done.
Qed.

Section And.
Context (dst a b : list Z) (nbits : Z).
Context (Ha : wf_bitmap a nbits) (Hb : wf_bitmap b nbits) (Hd : wf_bitmap dst nbits).
Abbreviation q := (nbits / 64).
Abbreviation m := (nbits mod 64).
Abbreviation conj_bit := (fun i => bm_bit a i && bm_bit b i).

Lemma nbits_split : nbits = 64 * q + m /\ 0 <= m < 64 /\ 0 <= q.
Proof.
  destruct Ha as (_ & Hn & _).
  split; [apply Z.div_mod; lia|split; [apply Z.mod_pos_bound; lia|apply Z.div_pos; lia]].
Qed.

(** The full words. *)
Lemma and_full_words : exists r d, and_loop (Z.to_nat q) dst a b 0 0 = Some (r, d) /\
  length d = length dst /\
  (forall i, 0 <= i < 64 * q -> bm_bit d i = conj_bit i) /\
  (r = 0 <-> forall i, 0 <= i < 64 * q -> conj_bit i = false).
Proof.
  pose proof Ha as (_ & Hna & _). pose proof Hb as (_ & Hnb & _). pose proof Hd as (_ & Hnd & _).
  destruct nbits_split as (Hq & Hm & Hq0).
  destruct (and_loop_ok (Z.to_nat q) dst a b 0 0) as (r & d & -> & Hl & Hr0 & Hr);
    rewrite ?Z2Nat.id by done; [lia..|].
  rewrite Z2Nat.id, Z.add_0_l in Hr0, Hr by done. exists r, d. split; [done|]. split; [done|].
  assert (forall i, 0 <= i < 64 * q -> exists x y, rd a (i / 64) = Some x /\ rd b (i / 64) = Some y
    /\ 0 <= i / 64 < q) as Hw.
  { intros i Hi. destruct (rd_word a nbits i Ha ltac:(lia)) as (x & Hx & _),
      (rd_word b nbits i Hb ltac:(lia)) as (y & Hy & _). exists x, y.
    split; [done|]. split; [done|]. Z.to_euclidean_division_equations; lia. }
  split; [|rewrite Hr0; split].
  - intros i Hi. destruct (Hw i Hi) as (x & y & Hx & Hy & Hi').
    unfold bm_bit, BITS_PER_LONG. rewrite (Hr _ x y Hx Hy), Hx, Hy.
    rewrite (proj2 (Z.leb_le _ _)), (proj2 (Z.ltb_lt _ _)) by lia. cbn [andb]. apply Z.land_spec.
  - intros [_ H] i Hi. destruct (Hw i Hi) as (x & y & Hx & Hy & Hi').
    pose proof (H (i / 64) x y Hi' Hx Hy) as Hxy.
    apply (word_zero_iff conj_bit _ (64 * (i / 64)) 64) with (i := i) in Hxy;
      [done|apply (land_word_bits a b nbits); done || lia|Z.to_euclidean_division_equations; lia].
  - intros H. split; [done|]. intros k x y Hk Hx Hy.
    apply (word_zero_iff conj_bit _ (64 * k) 64); [apply (land_word_bits a b nbits); done || lia|].
    intros i Hi. apply H. lia.
Qed.

(** The word that holds the last bits. *)
Lemma and_last_word x y : m <> 0 -> rd a q = Some x -> rd b q = Some y ->
  let v := Z.land (Z.land x y) (BITMAP_LAST_WORD_MASK nbits) in
  forall j, 0 <= j -> Z.testbit v j = (j <? m) && conj_bit (64 * q + j).
Proof.
  intros Em Hx Hy v j Hj. destruct nbits_split as (Hq & Hm & Hq0). unfold v.
  rewrite Z.land_spec, last_word_mask by (done || lia).
  rewrite (land_word_bits a b nbits q x y) by (done || lia).
  destruct (Z.ltb_spec j m); [|by rewrite andb_false_r].
  rewrite (proj2 (Z.ltb_lt j 64)) by lia. by rewrite andb_true_r.
Qed.

Lemma __bitmap_and_ok : exists dst' nz, __bitmap_and dst a b nbits = Some (nz, dst') /\
    (forall i, 0 <= i < nbits -> bm_bit dst' i = conj_bit i) /\
    (nz = false <-> forall i, 0 <= i < nbits -> conj_bit i = false).
Proof.
  destruct and_full_words as (r & d & Hand & Hl & Hbits & Hz). destruct nbits_split as (Hq & Hm & Hq0).
  pose proof Hd as (_ & Hnd & _). unfold __bitmap_and, BITS_PER_LONG. rewrite Hand.
  cbn [mbind option_bind]. destruct (Z.eqb_spec m 0) as [Em|Em]; cbn [negb].
  { exists d, (negb (r =? 0)). split; [done|]. split; [intros i Hi; apply Hbits; lia|].
    assert (r = 0 <-> forall i, 0 <= i < nbits -> conj_bit i = false) as <-
      by (rewrite Hz; split; intros H i Hi; apply H; lia).
    destruct (Z.eqb_spec r 0); done. }
  destruct (rd_word_at a nbits q Ha Hq0 ltac:(lia)) as (x & Hx & Hxr),
    (rd_word_at b nbits q Hb Hq0 ltac:(lia)) as (y & Hy & Hyr). rewrite Hx, Hy.
  cbn [mbind option_bind]. pose proof (and_last_word x y Em Hx Hy) as Hv. cbv zeta in Hv.
  set (v := Z.land _ (BITMAP_LAST_WORD_MASK nbits)) in *.
  destruct (st_spec d q v ltac:(lia)) as (d' & -> & Hl' & Hd'). cbn [mbind option_bind].
  exists d', (negb (Z.lor r v =? 0)). split; [done|]. split.
  - intros i Hi. destruct (Z.lt_ge_cases i (64 * q)).
    + rewrite <-Hbits by lia. unfold bm_bit. rewrite Hd', (proj2 (Z.eqb_neq _ _)); [done|].
      unfold BITS_PER_LONG. Z.to_euclidean_division_equations; lia.
    + replace i with (64 * q + (i - 64 * q)) by lia.
      rewrite (bm_bit_at d' q v) by (done || lia || by rewrite Hd', Z.eqb_refl).
      rewrite Hv, (proj2 (Z.ltb_lt _ _)) by lia. done.
  - pose proof (word_zero_iff conj_bit v (64 * q) m Hv) as Hvz.
    assert (Z.lor r v = 0 <-> forall i, 0 <= i < nbits -> conj_bit i = false) as <-.
    { rewrite Z.lor_eq_0_iff, Hz, Hvz. split.
      - intros [H1 H2] i Hi. destruct (Z.lt_ge_cases i (64 * q)); [apply H1|apply H2]; lia.
      - intros H. split; intros i Hi; apply H; lia. }
    destruct (Z.eqb_spec (Z.lor r v) 0); done.
Qed.
End And.

(** C25: The population counts of [hweight.c] equal the number of set bits of
    their argument, at every width. *)
Theorem hweight_popcount w :
  (0 <= w < 2 ^ 8 -> __sw_hweight8 w = popcount 8 w) /\
  (0 <= w < 2 ^ 16 -> __sw_hweight16 w = popcount 16 w) /\
  (0 <= w < 2 ^ 32 -> __sw_hweight32 w = popcount 32 w) /\
  (0 <= w < 2 ^ 64 -> __sw_hweight64 w = popcount 64 w).
Proof.
  split; [apply hweight8_popcount|]. split; [apply hweight16_popcount|].
  split; [apply hweight32_popcount|apply hweight64_popcount].
Qed.

Lemma hweight_popcount_witness : 0 <= 0xF0F0 < 2 ^ 16 /\ __sw_hweight64 0xF0F0 = popcount 64 0xF0F0.
Proof. split; [lia|]. apply (hweight_popcount 0xF0F0). lia. Defined.

(** C11: In a bitmap that holds [nbits] bits, [find_next_bit] returns the first
    set bit at or after the offset and [find_first_bit] the first set bit, and
    both return [nbits] when there is none; they read only inside the bitmap
    and terminate. *)
Theorem find_bit_spec addr nbits start :
  wf_bitmap addr nbits -> 0 <= start ->
  (exists r, find_next_bit addr nbits start = Some r /\ is_next (bm_bit addr) nbits start r) /\
  (exists r, find_first_bit addr nbits = Some r /\ is_next (bm_bit addr) nbits 0 r).
Proof. intros Hwf Hs. split; [by apply find_next_bit_ok|by apply find_first_bit_ok]. Qed.

Lemma find_bit_spec_witness :
  wf_bitmap [0; 2 ^ 40 + 2 ^ 3] 128 /\ find_next_bit [0; 2 ^ 40 + 2 ^ 3] 128 68 = Some 104.
Proof.
  assert (wf_bitmap [0; 2 ^ 40 + 2 ^ 3] 128) as Hwf.
  { split; [repeat constructor; lia|]. simpl. lia. }
  split; [exact Hwf|].
  destruct (find_bit_spec [0; 2 ^ 40 + 2 ^ 3] 128 68 Hwf ltac:(lia)) as [(r & Hr & _) _].
  vm_compute. reflexivity.
Defined.

(** C26: On bitmaps of [nbits] bits: [__bitmap_weight] is the number of set
    bits; [__bitmap_or] and [__bitmap_and] compute the bitwise disjunction and
    conjunction of the first [nbits] bits, and [__bitmap_and] returns false
    exactly when the conjunction is empty.  No word outside of the bitmaps is
    touched. *)
Theorem bitmap_ops_spec dst a b nbits :
  wf_bitmap a nbits -> wf_bitmap b nbits -> wf_bitmap dst nbits ->
  __bitmap_weight a nbits = Some (count (bm_bit a) 0 (Z.to_nat nbits)) /\
  (exists dst', __bitmap_or dst a b nbits = Some dst' /\
     forall i, 0 <= i < nbits -> bm_bit dst' i = bm_bit a i || bm_bit b i) /\
  (exists dst' nz, __bitmap_and dst a b nbits = Some (nz, dst') /\
    (forall i, 0 <= i < nbits -> bm_bit dst' i = bm_bit a i && bm_bit b i) /\
    (nz = false <-> forall i, 0 <= i < nbits -> bm_bit a i && bm_bit b i = false)).
Proof.
  intros Ha Hb Hd. split; [by apply __bitmap_weight_ok|].
  split; [by apply __bitmap_or_ok|by apply __bitmap_and_ok].
Qed.

Lemma bitmap_ops_spec_witness :
  wf_bitmap [7; 5] 66 /\ wf_bitmap [9; 2] 66 /\ __bitmap_weight [7; 5] 66 = Some 4 /\
  __bitmap_and [0; 0] [7; 5] [9; 2] 66 = Some (true, [1; 0]).
Proof.
  assert (wf_bitmap [7; 5] 66) as Ha by (split; [repeat constructor; lia|simpl; lia]).
  assert (wf_bitmap [9; 2] 66) as Hb by (split; [repeat constructor; lia|simpl; lia]).
  assert (wf_bitmap [0; 0] 66) as Hd by (split; [repeat constructor; lia|simpl; lia]).
  split; [exact Ha|]. split; [exact Hb|].
  pose proof (bitmap_ops_spec [0; 0] [7; 5] [9; 2] 66 Ha Hb Hd) as [Hw _].
  split; [rewrite Hw|]; vm_compute; reflexivity.
Defined.

(** ** Printing a bitmap as a list of ranges *)

(** The set bits in [from, from + n). *)
Fixpoint set_bits (P : Z -> bool) (from : Z) (n : nat) : list Z :=
  match n with
  | O => []
  | S n => if P from then from :: set_bits P (from + 1) n else set_bits P (from + 1) n
  end.

(** Maximal runs of consecutive numbers of an increasing list. *)
Fixpoint runs (l : list Z) : list (Z * Z) :=
  match l with
  | [] => []
  | x :: l =>
      match runs l with
      | (a, b) :: r => if a =? x + 1 then (x, b) :: r else (x, x) :: (a, b) :: r
      | [] => [(x, x)]
      end
  end.

Definition range_text (r : Z * Z) : list Z :=
  fmt_d (fst r) ++ (if fst r <? snd r then bs "-" ++ fmt_d (snd r) else []).

Definition sep (first : bool) : list Z := if first then [] else bs ",".

Fixpoint ranges_text (first : bool) (l : list (Z * Z)) : list Z :=
  match l with
  | [] => []
  | r :: l => sep first ++ range_text r ++ ranges_text false l
  end.

Definition bitmap_text (bitmap : list Z) (nbits : Z) : list Z :=
  ranges_text true (runs (set_bits (bm_bit bitmap) 0 (Z.to_nat nbits))).

Lemma set_bits_next P nbits start r :
  is_next P nbits start r -> start <= nbits ->
  set_bits P start (Z.to_nat (nbits - start))
  = if r <? nbits then r :: set_bits P (r + 1) (Z.to_nat (nbits - (r + 1))) else [].
Proof.
  intros [Hlow Hr] Hs. remember (Z.to_nat (nbits - start)) as n eqn:En.
  revert start Hlow Hr Hs En. induction n as [|n IH]; intros start Hlow Hr Hs En.
  - rewrite (proj2 (Z.ltb_ge _ _)) by (destruct Hr as [[? _]| ->]; lia). done.
  - cbn [set_bits]. destruct (Z.eq_dec r start) as [->|Hne].
    + destruct Hr as [[Hr Hp]|]; [|lia]. rewrite Hp, (proj2 (Z.ltb_lt _ _)) by lia. do 2 f_equal. lia.
    + rewrite (Hlow start) by (destruct Hr as [[? _]| ->]; lia). apply IH; try lia.
      * intros i Hi. apply Hlow. lia.
      * destruct Hr as [[Hr Hp]|]; [left; split; [lia|done]|by right].
Qed.

Lemma runs_head x l : exists b r, runs (x :: l) = (x, b) :: r.
Proof. cbn [runs]. destruct (runs l) as [|[a b] r]; [by do 2 eexists|]. destruct (a =? x + 1); by do 2 eexists. Qed.

Lemma scnprintf_fits l1 l2 size text :
  Z.of_nat (length l1) + Z.of_nat (length text) < size -> size < 2 ^ 63 ->
  size <= Z.of_nat (length l1) + Z.of_nat (length l2) ->
  exists l2', scnprintf (l1 ++ l2) (Z.of_nat (length l1)) (u64 (size - Z.of_nat (length l1))) text
    = Some (Z.of_nat (length text), (l1 ++ text) ++ 0 :: l2')
    /\ Z.of_nat (length text) + Z.of_nat (length (0 :: l2')) = Z.of_nat (length l2).
Proof.
  intros Ht Hs Hb. unfold scnprintf. rewrite u64_small by lia.
  rewrite snprintf_fits by lia. cbn [mbind option_bind]. eexists. split.
  - assert (s64 (size - Z.of_nat (length l1)) = size - Z.of_nat (length l1)) as ->.
    { unfold s64, sN. rewrite Z.mod_small, (proj2 (Z.ltb_lt _ _)); lia. }
    rewrite Z.geb_leb, (proj2 (Z.leb_gt _ _)), <-app_assoc by lia. done.
  - cbn [length]. rewrite length_drop. lia.
Qed.

(** A buffer that holds [out], terminated when anything was printed. *)
Definition holds (buf out : list Z) (total : nat) : Prop :=
  exists rest, buf = out ++ rest /\ length buf = total /\ (out <> [] -> head rest = Some 0).

Lemma scnprintf_holds buf out total size text :
  holds buf out total -> text <> [] -> Z.of_nat (length out) + Z.of_nat (length text) < size ->
  size < 2 ^ 63 -> size <= Z.of_nat total ->
  exists buf', scnprintf buf (Z.of_nat (length out)) (u64 (size - Z.of_nat (length out))) text
    = Some (Z.of_nat (length text), buf') /\ holds buf' (out ++ text) total.
Proof.
  intros (rest & -> & Hl & _) Hne Hlen Hs Ht. rewrite length_app in Hl.
  destruct (scnprintf_fits out rest size text) as (r & -> & Hr); [lia..|].
  eexists. split; [done|]. exists (0 :: r). split; [done|]. split; [|done].
  rewrite !length_app. lia.
Qed.

Lemma digits_nonempty fuel base v acc : (fuel <> 0)%nat -> digits fuel base v acc <> [].
Proof.
  revert v acc. induction fuel as [|fuel IH]; intros v acc H; [done|]. cbn [digits].
  destruct (_ =? 0); [done|]. destruct fuel as [|fuel]; [done|]. by apply IH.
Qed.

Lemma fmt_d_nonempty v : fmt_d v <> [].
Proof. unfold fmt_d. destruct (v <? 0); [done|]. by apply digits_nonempty. Qed.

Lemma emit_range_holds first rbot rtop buf out total size :
  let t := sep first ++ range_text (rbot, rtop) in
  holds buf out total -> Z.of_nat (length out) + Z.of_nat (length t) < size ->
  size < 2 ^ 63 -> size <= Z.of_nat total ->
  exists buf', emit_range first rbot rtop buf size (Z.of_nat (length out))
    = Some (Z.of_nat (length (out ++ t)), buf') /\ holds buf' (out ++ t) total.
Proof.
  intros t Hh Hl Hs Ht. unfold emit_range.
  assert (exists buf1, (if negb first
      then let* (n, buf) := scnprintf buf (Z.of_nat (length out)) (u64 (size - Z.of_nat (length out))) (bs ",")
           in Some (Z.of_nat (length out) + n, buf)
      else Some (Z.of_nat (length out), buf))
    = Some (Z.of_nat (length (out ++ sep first)), buf1)
    /\ holds buf1 (out ++ sep first) total) as (buf1 & -> & Hh1).
  { destruct first; cbn [negb]; [exists buf; rewrite app_nil_r; done|].
    destruct (scnprintf_holds buf out total size (bs ",")) as (b & -> & Hb);
      [done..|unfold t, sep in Hl; rewrite length_app in Hl; lia|lia|lia|].
    exists b. cbn [mbind option_bind]. change (sep false) with (bs ","). rewrite length_app.
    split; [do 2 f_equal; lia|done]. }
  cbn [mbind option_bind]. set (out1 := out ++ _) in *.
  unfold t, range_text in *. cbn [fst snd] in *. rewrite app_assoc. fold out1.
  assert (Z.of_nat (length out1) + Z.of_nat (length (fmt_d rbot ++ if rbot <? rtop then bs "-" ++ fmt_d rtop else []))
    < size) as Hl' by (unfold out1; rewrite length_app in *; lia). clearbody out1.
  rewrite length_app in Hl'.
  destruct (scnprintf_holds buf1 out1 total size (fmt_d rbot)) as (b & -> & Hb);
    [done|apply fmt_d_nonempty|lia..|].
  cbn [mbind option_bind]. destruct (rbot <? rtop).
  - replace (Z.of_nat (length out1) + Z.of_nat (length (fmt_d rbot)))
      with (Z.of_nat (length (out1 ++ fmt_d rbot))) in * by (rewrite length_app; lia).
    destruct (scnprintf_holds b (out1 ++ fmt_d rbot) total size (bs "-" ++ fmt_d rtop)) as (b' & -> & Hb');
      [done|done|rewrite length_app; lia|lia|lia|].
    cbn [mbind option_bind]. exists b'. rewrite app_assoc. split; [|done].
    do 2 f_equal. rewrite !length_app. lia.
  - exists b. rewrite app_nil_r, length_app. split; [do 2 f_equal; lia|done].
Qed.

Lemma print_loop_ok bitmap nbits fuel cur rbot first buf out total size b r :
  wf_bitmap bitmap nbits -> 0 <= rbot <= cur -> cur < nbits ->
  runs (cur :: set_bits (bm_bit bitmap) (cur + 1) (Z.to_nat (nbits - (cur + 1)))) = (cur, b) :: r ->
  (Z.to_nat (nbits - cur) < fuel)%nat ->
  let t := ranges_text first ((rbot, b) :: r) in
  holds buf out total -> Z.of_nat (length out) + Z.of_nat (length t) < size ->
  size < 2 ^ 63 -> size <= Z.of_nat total ->
  exists buf', print_loop fuel bitmap nbits cur rbot first buf size (Z.of_nat (length out))
    = Some (Z.of_nat (length (out ++ t)), buf') /\ holds buf' (out ++ t) total.
Proof.
  intros Hwf. revert cur rbot first buf out b r.
  induction fuel as [|fuel IH]; intros cur rbot first buf out b r Hc Hn Hr Hf t Hh Hl Hs Ht; [lia|].
  cbn [print_loop]. rewrite (proj2 (Z.ltb_lt _ _)) by lia.
  destruct (find_next_bit_ok bitmap nbits (cur + 1) Hwf ltac:(lia)) as (nx & -> & Hnx).
  cbn [mbind option_bind]. pose proof (set_bits_next _ _ _ _ Hnx ltac:(lia)) as Hsb.
  rewrite Hsb in Hr. destruct (Z.ltb_spec nx nbits) as [Hlt|Hge]; cbn [andb].
  - assert (cur + 1 <= nx) as Hge by (destruct Hnx as [_ [[? _]|]]; lia).
    destruct (runs_head nx (set_bits (bm_bit bitmap) (nx + 1) (Z.to_nat (nbits - (nx + 1)))))
      as (b' & r' & Hr'). cbn [runs] in Hr. cbn [runs] in Hr'. rewrite Hr' in Hr.
    destruct (Z.leb_spec nx (cur + 1)) as [Hle|Hgt].
    + rewrite (proj2 (Z.eqb_eq nx (cur + 1))) in Hr by lia. simplify_eq.
      apply (IH nx rbot first buf out b r); done || lia.
    + rewrite (proj2 (Z.eqb_neq nx (cur + 1))) in Hr by lia. injection Hr as <- <-.
      change t with (sep first ++ range_text (rbot, cur) ++ ranges_text false ((nx, b') :: r')) in *.
      destruct (emit_range_holds first rbot cur buf out total size) as (b1 & -> & Hb1);
        [done|rewrite !length_app in *; lia|lia|lia|]. cbn [mbind option_bind].
      rewrite !length_app in Hl.
      destruct (IH nx nx false b1 (out ++ sep first ++ range_text (rbot, cur)) b' r') as (b2 & -> & Hb2);
        [lia|lia|done|lia|done|rewrite !length_app; lia|lia|lia|].
      exists b2. rewrite <-!app_assoc in *. done.
  - cbn [runs] in Hr. injection Hr as <- <-.
    change t with (sep first ++ range_text (rbot, cur) ++ []) in *. rewrite app_nil_r in *.
    destruct (emit_range_holds first rbot cur buf out total size) as (b1 & -> & Hb1); [done..|].
    cbn [mbind option_bind]. exists b1. split; [|done].
    destruct fuel as [|fuel]; [lia|]. cbn [print_loop]. by rewrite (proj2 (Z.ltb_ge _ _)) by lia.
Qed.

(** C27: When the buffer is large enough, [bitmap_scnprintf] writes exactly the
    set bits below [nbits] as their maximal ranges in increasing order, a range
    of one bit as a number and a longer one as [first-last], separated by
    commas, and returns the length of that text; the text is terminated unless
    the bitmap is empty, in which case the buffer is not written at all. *)
Theorem bitmap_scnprintf_text bitmap nbits buf size :
  wf_bitmap bitmap nbits -> size < 2 ^ 63 -> size <= Z.of_nat (length buf) ->
  Z.of_nat (length (bitmap_text bitmap nbits)) < size ->
  exists buf', bitmap_scnprintf bitmap nbits buf size
      = Some (Z.of_nat (length (bitmap_text bitmap nbits)), buf') /\
    if bool_decide (bitmap_text bitmap nbits = []) then buf' = buf
    else exists rest, buf' = bitmap_text bitmap nbits ++ 0 :: rest /\ length buf' = length buf.
Proof.
  intros Hwf Hs Hb Ht. pose proof Hwf as (_ & Hn & _). unfold bitmap_scnprintf.
  destruct (find_first_bit_ok bitmap nbits Hwf) as (r & -> & Hr). cbn [mbind option_bind].
  pose proof (set_bits_next _ _ _ _ Hr ltac:(lia)) as Hsb. rewrite Z.sub_0_r in Hsb.
  unfold bitmap_text in *. rewrite Hsb in *. destruct (Z.ltb_spec r nbits) as [Hlt|Hge].
  - assert (0 <= r) as Hr0 by (destruct Hr as [_ [[? _]|]]; lia).
    destruct (runs_head r (set_bits (bm_bit bitmap) (r + 1) (Z.to_nat (nbits - (r + 1))))) as (b & rs & Hrs).
    rewrite Hrs in *.
    destruct (print_loop_ok bitmap nbits (S (Z.to_nat nbits)) r r true buf [] (length buf) size b rs)
      as (buf' & Heq & rest & -> & Hl & Hterm); try done; try lia; [by exists buf|].
    exists (ranges_text true ((r, b) :: rs) ++ rest). split; [exact Heq|]. cbn [app] in *.
    assert (ranges_text true ((r, b) :: rs) <> []) as Hne.
    { cbn [ranges_text sep app]. unfold range_text. cbn [fst].
      pose proof (fmt_d_nonempty r). destruct (fmt_d r); done. }
    rewrite bool_decide_false by done. specialize (Hterm Hne).
    destruct rest as [|z rest]; [done|]. simplify_eq/=. by exists rest.
  - exists buf. cbn [print_loop]. rewrite (proj2 (Z.ltb_ge _ _)) by lia. done.
Qed.

Lemma bitmap_scnprintf_text_witness :
  wf_bitmap [0xF1; 1] 128 /\ bitmap_text [0xF1; 1] 128 = bs "0,4-7,64" /\
  exists buf', bitmap_scnprintf [0xF1; 1] 128 (repeat 7 16) 16 = Some (8, buf').
Proof.
  assert (wf_bitmap [0xF1; 1] 128) as Hwf by (split; [repeat constructor; lia|simpl; lia]).
  split; [exact Hwf|]. split; [vm_compute; reflexivity|].
  destruct (bitmap_scnprintf_text [0xF1; 1] 128 (repeat 7 16) 16 Hwf) as (buf' & Hb & _);
    [lia|simpl; lia|vm_compute; reflexivity|].
  exists buf'. rewrite Hb. vm_compute. reflexivity.
Defined.

End Bits.
