(* ===== verification/Sample.v ===== *)
(** Sample records: [src/tools/perf/util/evsel.c] from the layout of the
    fixed part of a sample ([__perf_evsel__sample_size], [id_pos], [is_pos]) to
    the parser [perf_evsel__parse_sample], the size computation
    [perf_event__sample_event_size] and the writer
    [perf_event__synthesize_sample], and the access to the fields of
    tracepoint data.

    An event is the byte list of its memory object, the header first.  A
    pointer that the parser stores is an offset into the event; a pointer that
    the writer follows is the byte list it points to; [None] is NULL.  The host
    is little-endian and unaligned loads are allowed, as on x86.  The parser
    and the writer are runs of consecutive blocks of the source, one definition
    each; an [inr] ends the run with an error code. *)

From Stdlib Require Import ZArith Lia Bool.
From stdpp Require Import base option list numbers strings.
From S2P Require Import Prelude CFmt Bits.
Import CFmt.

Module Sample.
Abbreviation hweight_long := Bits.hweight_long.

(** ** Constants of the ABI *)

Definition PERF_SAMPLE_IP : Z := 2 ^ 0.
Definition PERF_SAMPLE_TID : Z := 2 ^ 1.
Definition PERF_SAMPLE_TIME : Z := 2 ^ 2.
Definition PERF_SAMPLE_ADDR : Z := 2 ^ 3.
Definition PERF_SAMPLE_READ : Z := 2 ^ 4.
Definition PERF_SAMPLE_CALLCHAIN : Z := 2 ^ 5.
Definition PERF_SAMPLE_ID : Z := 2 ^ 6.
Definition PERF_SAMPLE_CPU : Z := 2 ^ 7.
Definition PERF_SAMPLE_PERIOD : Z := 2 ^ 8.
Definition PERF_SAMPLE_STREAM_ID : Z := 2 ^ 9.
Definition PERF_SAMPLE_RAW : Z := 2 ^ 10.
Definition PERF_SAMPLE_BRANCH_STACK : Z := 2 ^ 11.
Definition PERF_SAMPLE_REGS_USER : Z := 2 ^ 12.
Definition PERF_SAMPLE_STACK_USER : Z := 2 ^ 13.
Definition PERF_SAMPLE_WEIGHT : Z := 2 ^ 14.
Definition PERF_SAMPLE_DATA_SRC : Z := 2 ^ 15.
Definition PERF_SAMPLE_IDENTIFIER : Z := 2 ^ 16.
Definition PERF_SAMPLE_TRANSACTION : Z := 2 ^ 17.
Definition PERF_SAMPLE_REGS_INTR : Z := 2 ^ 18.

Definition PERF_SAMPLE_MASK : Z :=
  fold_left Z.lor [PERF_SAMPLE_IP; PERF_SAMPLE_TID; PERF_SAMPLE_TIME; PERF_SAMPLE_ADDR;
    PERF_SAMPLE_ID; PERF_SAMPLE_STREAM_ID; PERF_SAMPLE_CPU; PERF_SAMPLE_PERIOD;
    PERF_SAMPLE_IDENTIFIER] 0.

Definition PERF_FORMAT_TOTAL_TIME_ENABLED : Z := 2 ^ 0.
Definition PERF_FORMAT_TOTAL_TIME_RUNNING : Z := 2 ^ 1.
Definition PERF_FORMAT_ID : Z := 2 ^ 2.
Definition PERF_FORMAT_GROUP : Z := 2 ^ 3.

Definition PERF_RECORD_SAMPLE : Z := 9.
Definition PERF_RECORD_MISC_CPUMODE_MASK : Z := 7.
Definition PERF_SAMPLE_REGS_ABI_NONE : Z := 0.
Definition PERF_MEM_DATA_SRC_NONE : Z :=
  fold_left Z.lor [Z.shiftl 1 0; Z.shiftl 1 5; Z.shiftl 1 19; Z.shiftl 1 24; Z.shiftl 1 26] 0.
Definition EFAULT : Z := 14.

(** ** The event selector *)

Record perf_event_attr := mkAttr {
  sample_period : Z;
  sample_type : Z;
  read_format : Z;
  sample_id_all : bool;
  sample_regs_user : Z;
  sample_regs_intr : Z
}.

(** The part of [struct perf_evsel] that these functions use. *)
Record perf_evsel := mkEvsel {
  attr : perf_event_attr;
  sample_size : Z;
  id_pos : Z;
  is_pos : Z;
  needs_swap : bool
}.

Fixpoint sample_size_loop (n : nat) (mask i size : Z) : Z :=
  match n with
  | O => size
  | S n => sample_size_loop n mask (i + 1) (if tst mask (Z.shiftl 1 i) then size + 1 else size)
  end.

Definition __perf_evsel__sample_size (sample_type : Z) : Z :=
  let mask := Z.land sample_type PERF_SAMPLE_MASK in
  sample_size_loop 64 mask 0 0 * 8.

Definition __perf_evsel__calc_id_pos (sample_type : Z) : Z :=
  if tst sample_type PERF_SAMPLE_IDENTIFIER then 0 else
  if negb (tst sample_type PERF_SAMPLE_ID) then -1 else
  let idx := 0 in
  let idx := if tst sample_type PERF_SAMPLE_IP then idx + 1 else idx in
  let idx := if tst sample_type PERF_SAMPLE_TID then idx + 1 else idx in
  let idx := if tst sample_type PERF_SAMPLE_TIME then idx + 1 else idx in
  let idx := if tst sample_type PERF_SAMPLE_ADDR then idx + 1 else idx in
  idx.

Definition __perf_evsel__calc_is_pos (sample_type : Z) : Z :=
  let idx := 1 in
  if tst sample_type PERF_SAMPLE_IDENTIFIER then 1 else
  if negb (tst sample_type PERF_SAMPLE_ID) then -1 else
  let idx := if tst sample_type PERF_SAMPLE_CPU then idx + 1 else idx in
  let idx := if tst sample_type PERF_SAMPLE_STREAM_ID then idx + 1 else idx in
  idx.

Definition perf_evsel__calc_id_pos (e : perf_evsel) : perf_evsel :=
  mkEvsel (attr e) (sample_size e) (__perf_evsel__calc_id_pos (sample_type (attr e)))
    (__perf_evsel__calc_is_pos (sample_type (attr e))) (needs_swap e).

Definition set_type (t : Z) (a : perf_event_attr) : perf_event_attr :=
  mkAttr (sample_period a) t (read_format a) (sample_id_all a) (sample_regs_user a)
    (sample_regs_intr a).

Definition __perf_evsel__set_sample_bit (e : perf_evsel) (bit : Z) : perf_evsel :=
  if negb (tst (sample_type (attr e)) bit) then
    let e := mkEvsel (set_type (Z.lor (sample_type (attr e)) bit) (attr e)) (u32 (sample_size e + 8))
               (id_pos e) (is_pos e) (needs_swap e) in
    perf_evsel__calc_id_pos e
  else e.

Definition __perf_evsel__reset_sample_bit (e : perf_evsel) (bit : Z) : perf_evsel :=
  if tst (sample_type (attr e)) bit then
    let e := mkEvsel (set_type (Z.ldiff (sample_type (attr e)) bit) (attr e)) (u32 (sample_size e - 8))
               (id_pos e) (is_pos e) (needs_swap e) in
    perf_evsel__calc_id_pos e
  else e.

Definition perf_evsel__set_sample_id (e : perf_evsel) (can_sample_identifier : bool) : perf_evsel :=
  let e := if can_sample_identifier
           then __perf_evsel__set_sample_bit
                  (__perf_evsel__reset_sample_bit e PERF_SAMPLE_ID) PERF_SAMPLE_IDENTIFIER
           else __perf_evsel__set_sample_bit e PERF_SAMPLE_ID in
  mkEvsel (mkAttr (sample_period (attr e)) (sample_type (attr e))
             (Z.lor (read_format (attr e)) PERF_FORMAT_ID) (sample_id_all (attr e))
             (sample_regs_user (attr e)) (sample_regs_intr (attr e)))
    (sample_size e) (id_pos e) (is_pos e) (needs_swap e).

(** What [perf_evsel__init] sets of these fields. *)
Definition perf_evsel__init (a : perf_event_attr) (swap : bool) : perf_evsel :=
  perf_evsel__calc_id_pos
    (mkEvsel a (__perf_evsel__sample_size (sample_type a)) 0 0 swap).

(** ** Samples *)

Record regs_dump (P : Type) := mkRegs { abi : Z; mask : Z; regs : option P }.
Record stack_dump (P : Type) := mkStack { offset : Z; stack_len : Z; stack_data : option P }.

(** The union of [struct sample_read]: [group.nr] and [one.value] share their
    storage, and so do [group.values] and [one.id]. *)
Inductive read_second (P : Type) := one_id (v : Z) | group_values (p : option P).
Record sample_read (P : Type) := mkRead {
  time_enabled : Z;
  time_running : Z;
  nr_or_value : Z;
  second : read_second P
}.
#[global] Arguments mkRegs {P}.
#[global] Arguments abi {P}.
#[global] Arguments mask {P}.
#[global] Arguments regs {P}.
#[global] Arguments mkStack {P}.
#[global] Arguments offset {P}.
#[global] Arguments stack_len {P}.
#[global] Arguments stack_data {P}.
#[global] Arguments one_id {P}.
#[global] Arguments group_values {P}.
#[global] Arguments mkRead {P}.
#[global] Arguments time_enabled {P}.
#[global] Arguments time_running {P}.
#[global] Arguments nr_or_value {P}.
#[global] Arguments second {P}.

Record perf_sample (P : Type) := mkSample {
  ip : Z;
  pid : Z;
  tid : Z;
  time : Z;
  addr : Z;
  id : Z;
  stream_id : Z;
  period : Z;
  weight : Z;
  transaction : Z;
  cpu : Z;
  raw_size : Z;
  data_src : Z;
  flags : Z;
  insn_len : Z;
  cpumode : Z;
  raw_data : option P;
  callchain : option P;
  branch_stack : option P;
  user_regs : regs_dump P;
  intr_regs : regs_dump P;
  user_stack : stack_dump P;
  read : sample_read P
}.
#[global] Arguments mkSample {P}.
#[global] Arguments ip {P}.
#[global] Arguments pid {P}.
#[global] Arguments tid {P}.
#[global] Arguments time {P}.
#[global] Arguments addr {P}.
#[global] Arguments id {P}.
#[global] Arguments stream_id {P}.
#[global] Arguments period {P}.
#[global] Arguments weight {P}.
#[global] Arguments transaction {P}.
#[global] Arguments cpu {P}.
#[global] Arguments raw_size {P}.
#[global] Arguments data_src {P}.
#[global] Arguments flags {P}.
#[global] Arguments insn_len {P}.
#[global] Arguments cpumode {P}.
#[global] Arguments raw_data {P}.
#[global] Arguments callchain {P}.
#[global] Arguments branch_stack {P}.
#[global] Arguments user_regs {P}.
#[global] Arguments intr_regs {P}.
#[global] Arguments user_stack {P}.
#[global] Arguments read {P}.

Section Setters.
Context {P : Type}.

(** [s] with [v] for its member [m], a projection of [s]. *)
Ltac assign m v s :=
  let t := constr:(mkSample (ip s) (pid s) (tid s) (time s) (addr s) (id s) (stream_id s)
    (period s) (weight s) (transaction s) (cpu s) (raw_size s) (data_src s) (flags s)
    (insn_len s) (cpumode s) (raw_data s) (callchain s) (branch_stack s) (user_regs s) (intr_regs s)
    (user_stack s) (read s)) in
  match t with context C [m] => let r := context C [v] in exact r end.

Definition set_ip (v : Z) (s : perf_sample P) : perf_sample P := ltac:(assign (ip s) v s).
Definition set_pid (v : Z) (s : perf_sample P) : perf_sample P := ltac:(assign (pid s) v s).
Definition set_tid (v : Z) (s : perf_sample P) : perf_sample P := ltac:(assign (tid s) v s).
Definition set_time (v : Z) (s : perf_sample P) : perf_sample P := ltac:(assign (time s) v s).
Definition set_addr (v : Z) (s : perf_sample P) : perf_sample P := ltac:(assign (addr s) v s).
Definition set_id (v : Z) (s : perf_sample P) : perf_sample P := ltac:(assign (id s) v s).
Definition set_stream_id (v : Z) (s : perf_sample P) : perf_sample P := ltac:(assign (stream_id s) v s).
Definition set_period (v : Z) (s : perf_sample P) : perf_sample P := ltac:(assign (period s) v s).
Definition set_weight (v : Z) (s : perf_sample P) : perf_sample P := ltac:(assign (weight s) v s).
Definition set_transaction (v : Z) (s : perf_sample P) : perf_sample P := ltac:(assign (transaction s) v s).
Definition set_cpu (v : Z) (s : perf_sample P) : perf_sample P := ltac:(assign (cpu s) v s).
Definition set_raw_size (v : Z) (s : perf_sample P) : perf_sample P := ltac:(assign (raw_size s) v s).
Definition set_data_src (v : Z) (s : perf_sample P) : perf_sample P := ltac:(assign (data_src s) v s).
Definition set_cpumode (v : Z) (s : perf_sample P) : perf_sample P := ltac:(assign (cpumode s) v s).
Definition set_raw_data (v : option P) (s : perf_sample P) : perf_sample P := ltac:(assign (raw_data s) v s).
Definition set_callchain (v : option P) (s : perf_sample P) : perf_sample P := ltac:(assign (callchain s) v s).
Definition set_branch_stack (v : option P) (s : perf_sample P) : perf_sample P := ltac:(assign (branch_stack s) v s).
Definition set_user_regs (v : regs_dump P) (s : perf_sample P) : perf_sample P := ltac:(assign (user_regs s) v s).
Definition set_intr_regs (v : regs_dump P) (s : perf_sample P) : perf_sample P := ltac:(assign (intr_regs s) v s).
Definition set_user_stack (v : stack_dump P) (s : perf_sample P) : perf_sample P := ltac:(assign (user_stack s) v s).
Definition set_read (v : sample_read P) (s : perf_sample P) : perf_sample P := ltac:(assign (read s) v s).
End Setters.

(** A sample filled with zero bytes. *)
Definition zero_sample {P} : perf_sample P :=
  mkSample 0 0 0 0 0 0 0 0 0 0 0 0 0 0 0 0 None None None (mkRegs 0 0 None) (mkRegs 0 0 None)
    (mkStack 0 0 None) (mkRead 0 0 0 (one_id 0)).

(** ** The parser *)

(** [bswap_32], [bswap_64] of the C library. *)
Definition bswap (n : nat) (x : Z) : Z := le_combine (rev (le_split n x)).

(** [u.val32[0]] and [u.val32[1]] of a [union u64_swap]. *)
Definition val32_0 (u : Z) : Z := u mod 2 ^ 32.
Definition val32_1 (u : Z) : Z := u / 2 ^ 32.
Definition mk64 (lo hi : Z) : Z := lo + 2 ^ 32 * hi.

(** [u.val64 = bswap_64(u.val64)], then swap the given 32-bit halves. *)
Definition unswap_both (swapped : bool) (u : Z) : Z :=
  if swapped
  then let u := bswap 8 u in mk64 (bswap 4 (val32_0 u)) (bswap 4 (val32_1 u)) else u.
Definition unswap_low (swapped : bool) (u : Z) : Z :=
  if swapped then let u := bswap 8 u in mk64 (bswap 4 (val32_0 u)) (val32_1 u) else u.

(** The cursor [array] (an offset into the event) and [*data]. *)
Record pst := mkPst { array : Z; data : perf_sample Z }.
Definition block := pst -> option (pst + Z).

Fixpoint run (bl : list block) (s : pst) : option (pst + Z) :=
  match bl with
  | [] => Some (inl s)
  | b :: bl =>
      let* r := b s in
      match r with inl s => run bl s | inr e => Some (inr e) end
  end.

Definition overflow (endp max_size offset size : Z) : bool :=
  (size >? max_size) || (offset + size >? endp).

Section Parser.
Context (ev : list Z) (max_size : Z).
Abbreviation endp := max_size.

(** [if (cond) { data->field = *array; array++; }] *)
Definition get_u64 (cond : bool) (upd : Z -> perf_sample Z -> perf_sample Z) : block := fun s =>
  if cond then
    let* v := rd_le ev (array s) 8 in
    Some (inl (mkPst (array s + 8) (upd v (data s))))
  else Some (inl s).

(** [OVERFLOW_CHECK(array, size, max_size)] before [k]. *)
Definition OVERFLOW_CHECK (arr size : Z) (k : option (pst + Z)) : option (pst + Z) :=
  if overflow endp max_size arr size then Some (inr (- EFAULT)) else k.
Definition OVERFLOW_CHECK_u64 (arr : Z) (k : option (pst + Z)) : option (pst + Z) :=
  OVERFLOW_CHECK arr 8 k.

Definition get_u64_checked (cond : bool) (upd : Z -> perf_sample Z -> perf_sample Z) : block := fun s =>
  if cond then OVERFLOW_CHECK_u64 (array s) (get_u64 true upd s) else Some (inl s).

(** The part up to [PERF_SAMPLE_PERIOD], which [sample_size] covers. *)
Definition parse_fixed (swapped : bool) (type : Z) : list block :=
  [ get_u64 (tst type PERF_SAMPLE_IDENTIFIER) set_id;
    get_u64 (tst type PERF_SAMPLE_IP) set_ip;
    get_u64 (tst type PERF_SAMPLE_TID)
      (fun u d => let u := unswap_both swapped u in set_tid (val32_1 u) (set_pid (val32_0 u) d));
    get_u64 (tst type PERF_SAMPLE_TIME) set_time;
    get_u64 (tst type PERF_SAMPLE_ADDR) set_addr;
    get_u64 (tst type PERF_SAMPLE_ID) set_id;
    get_u64 (tst type PERF_SAMPLE_STREAM_ID) set_stream_id;
    get_u64 (tst type PERF_SAMPLE_CPU)
      (fun u d => set_cpu (val32_0 (unswap_low swapped u)) d);
    get_u64 (tst type PERF_SAMPLE_PERIOD) set_period ].

Definition set_nr (v : Z) (d : perf_sample Z) : perf_sample Z :=
  let r := read d in set_read (mkRead (time_enabled r) (time_running r) v (second r)) d.
Definition set_enabled (v : Z) (d : perf_sample Z) : perf_sample Z :=
  let r := read d in set_read (mkRead v (time_running r) (nr_or_value r) (second r)) d.
Definition set_running (v : Z) (d : perf_sample Z) : perf_sample Z :=
  let r := read d in set_read (mkRead (time_enabled r) v (nr_or_value r) (second r)) d.
Definition set_second (v : read_second Z) (d : perf_sample Z) : perf_sample Z :=
  let r := read d in set_read (mkRead (time_enabled r) (time_running r) (nr_or_value r) v) d.

Definition max_nr (size : Z) : Z := (2 ^ 64 - 1) / size.

(** The group values, or the id of the one counter. *)
Definition parse_read_values (read_format : Z) : block := fun s =>
  if tst read_format PERF_FORMAT_GROUP then
    let nr := nr_or_value (read (data s)) in
    if nr >? max_nr 16 then Some (inr (- EFAULT)) else
    let sz := nr * 16 in
    OVERFLOW_CHECK (array s) sz
      (Some (inl (mkPst (array s + sz) (set_second (group_values (Some (array s))) (data s)))))
  else get_u64_checked true (fun v => set_second (one_id v)) s.

Definition parse_read (read_format type : Z) : list block :=
  if tst type PERF_SAMPLE_READ then
    [ get_u64_checked true set_nr;
      get_u64_checked (tst read_format PERF_FORMAT_TOTAL_TIME_ENABLED) set_enabled;
      get_u64_checked (tst read_format PERF_FORMAT_TOTAL_TIME_RUNNING) set_running;
      parse_read_values read_format ]
  else [].

(** A counted array: a pointer to its [nr], then [nr] elements of [elt] bytes. *)
Definition parse_counted (cond : bool) (elt : Z) (upd : option Z -> perf_sample Z -> perf_sample Z)
    : block := fun s =>
  if cond then
    OVERFLOW_CHECK_u64 (array s)
      (let* nr := rd_le ev (array s) 8 in
       let d := upd (Some (array s)) (data s) in
       let arr := array s + 8 in
       if nr >? max_nr elt then Some (inr (- EFAULT)) else
       let sz := nr * elt in
       OVERFLOW_CHECK arr sz (Some (inl (mkPst (arr + sz) d))))
  else Some (inl s).

Definition parse_callchain (type : Z) : block :=
  parse_counted (tst type PERF_SAMPLE_CALLCHAIN) 8 set_callchain.

Definition parse_raw (swapped : bool) (type : Z) : block := fun s =>
  if tst type PERF_SAMPLE_RAW then
    OVERFLOW_CHECK_u64 (array s)
      (let* u := rd_le ev (array s) 8 in
       let u := unswap_both swapped u in
       let d := set_raw_size (val32_0 u) (data s) in
       let arr := array s + 4 in
       OVERFLOW_CHECK arr (raw_size d)
         (Some (inl (mkPst (arr + raw_size d) (set_raw_data (Some arr) d)))))
  else Some (inl s).

Definition parse_branch_stack (type : Z) : block :=
  parse_counted (tst type PERF_SAMPLE_BRANCH_STACK) 24 set_branch_stack.

(** A register dump: its ABI and, unless that is 0, the registers of [m]. *)
Definition parse_regs (cond : bool) (m : Z) (get : perf_sample Z -> regs_dump Z)
    (upd : regs_dump Z -> perf_sample Z -> perf_sample Z) : block := fun s =>
  if cond then
    OVERFLOW_CHECK_u64 (array s)
      (let* a := rd_le ev (array s) 8 in
       let d := upd (mkRegs a (mask (get (data s))) (regs (get (data s)))) (data s) in
       let arr := array s + 8 in
       if negb (a =? PERF_SAMPLE_REGS_ABI_NONE) then
         let sz := u64 (hweight_long m * 8) in
         OVERFLOW_CHECK arr sz
           (Some (inl (mkPst (arr + sz) (upd (mkRegs a m (Some arr)) d))))
       else Some (inl (mkPst arr d)))
  else Some (inl s).

Definition parse_user_stack (type : Z) : block := fun s =>
  if tst type PERF_SAMPLE_STACK_USER then
    OVERFLOW_CHECK_u64 (array s)
      (let* sz := rd_le ev (array s) 8 in
       let arr := array s + 8 in
       let off := u16 (arr - 8) in
       let st0 := user_stack (data s) in
       if sz =? 0 then
         Some (inl (mkPst arr (set_user_stack (mkStack off 0 (stack_data st0)) (data s))))
       else
         OVERFLOW_CHECK arr sz
           (let arr' := arr + sz in
            OVERFLOW_CHECK_u64 arr'
              (let* dyn := rd_le ev arr' 8 in
               if dyn >? sz then Some (inr (- EFAULT)) else
               Some (inl (mkPst (arr' + 8) (set_user_stack (mkStack off dyn (Some arr)) (data s)))))))
  else Some (inl s).

(** [data->field = v;] *)
Definition reset (f : perf_sample Z -> perf_sample Z) : block := fun s =>
  Some (inl (mkPst (array s) (f (data s)))).

Definition parse_tail (a : perf_event_attr) (type : Z) : list block :=
  [ parse_regs (tst type PERF_SAMPLE_REGS_USER) (sample_regs_user a) user_regs set_user_regs;
    parse_user_stack type;
    reset (set_weight 0);
    get_u64_checked (tst type PERF_SAMPLE_WEIGHT) set_weight;
    reset (set_data_src PERF_MEM_DATA_SRC_NONE);
    get_u64_checked (tst type PERF_SAMPLE_DATA_SRC) set_data_src;
    reset (set_transaction 0);
    get_u64_checked (tst type PERF_SAMPLE_TRANSACTION) set_transaction;
    reset (fun d => set_intr_regs (mkRegs PERF_SAMPLE_REGS_ABI_NONE (mask (intr_regs d))
                                     (regs (intr_regs d))) d);
    parse_regs (tst type PERF_SAMPLE_REGS_INTR) (sample_regs_intr a) intr_regs set_intr_regs ].

(** Backwards: [if (cond) { field = *array; array--; }] *)
Definition get_back (cond : bool) (upd : Z -> perf_sample Z -> perf_sample Z) : block := fun s =>
  if cond then
    let* v := rd_le ev (array s) 8 in
    Some (inl (mkPst (array s - 8) (upd v (data s))))
  else Some (inl s).

Definition id_blocks (swapped : bool) (type : Z) : list block :=
  [ get_back (tst type PERF_SAMPLE_IDENTIFIER) set_id;
    get_back (tst type PERF_SAMPLE_CPU) (fun u d => set_cpu (val32_0 (unswap_low swapped u)) d);
    get_back (tst type PERF_SAMPLE_STREAM_ID) set_stream_id;
    get_back (tst type PERF_SAMPLE_ID) set_id;
    get_back (tst type PERF_SAMPLE_TIME) set_time;
    get_back (tst type PERF_SAMPLE_TID)
      (fun u d => let u := unswap_both swapped u in set_tid (val32_1 u) (set_pid (val32_0 u) d)) ].
End Parser.

Definition header_type (ev : list Z) : option Z := rd_le ev 0 4.
Definition header_misc (ev : list Z) : option Z := rd_le ev 4 2.
Definition header_size (ev : list Z) : option Z := rd_le ev 6 2.

(** [array] starts at the last u64 of the event. *)
Definition perf_evsel__parse_id_sample (evsel : perf_evsel) (ev : list Z) (d : perf_sample Z)
    : option (perf_sample Z + Z) :=
  let* size := header_size ev in
  let arr := 8 + 8 * (u64 (size - 8) / 8 - 1) in
  let* r := run (id_blocks ev (needs_swap evsel) (sample_type (attr evsel))) (mkPst arr d) in
  match r with inl s => Some (inl (data s)) | inr e => Some (inr e) end.

(** The fields that are set before any of the event is parsed. *)
Definition init_sample (evsel : perf_evsel) (misc : Z) : perf_sample Z :=
  let d := set_cpu (2 ^ 32 - 1) (set_pid (2 ^ 32 - 1) (set_tid (2 ^ 32 - 1) zero_sample)) in
  let d := set_stream_id (2 ^ 64 - 1) (set_id (2 ^ 64 - 1) (set_time (2 ^ 64 - 1) d)) in
  let d := set_period (sample_period (attr evsel)) d in
  let d := set_weight 0 d in
  set_cpumode (Z.land misc PERF_RECORD_MISC_CPUMODE_MASK) d.

(** All the blocks of a sample, in order. *)
Definition sample_blocks (evsel : perf_evsel) (ev : list Z) (max_size : Z) : list block :=
  let type := sample_type (attr evsel) in
  let swapped := needs_swap evsel in
  parse_fixed ev swapped type
  ++ parse_read ev max_size (read_format (attr evsel)) type
  ++ [parse_callchain ev max_size type; parse_raw ev max_size swapped type;
      parse_branch_stack ev max_size type]
  ++ parse_tail ev max_size (attr evsel) type.

(** The result is [*data] with the value 0, or the error code. *)
Definition perf_evsel__parse_sample (evsel : perf_evsel) (ev : list Z) : option (perf_sample Z + Z) :=
  let* max_size := header_size ev in
  let* misc := header_misc ev in
  let* type := header_type ev in
  let d := init_sample evsel misc in
  if negb (type =? PERF_RECORD_SAMPLE) then
    if negb (sample_id_all (attr evsel)) then Some (inl d)
    else perf_evsel__parse_id_sample evsel ev d
  else if u64 (sample_size evsel + 8) >? max_size then Some (inr (- EFAULT))
  else
    let d := set_addr 0 (set_id (2 ^ 64 - 1) d) in
    let* r := run (sample_blocks evsel ev max_size) (mkPst 8 d) in
    match r with inl s => Some (inl (data s)) | inr e => Some (inr e) end.

(** ** The size of a sample *)

(** [perf_event__sample_event_size] adds up the sizes of the fields, in [size_t]
    arithmetic; the sample's pointers are byte lists. *)
Definition add_if (cond : bool) (n acc : Z) : Z := if cond then u64 (acc + n) else acc.

(** The fields of a fixed size, up to [PERF_SAMPLE_PERIOD]. *)
Definition size_fixed (type result : Z) : Z :=
  let result := add_if (tst type PERF_SAMPLE_IDENTIFIER) 8 result in
  let result := add_if (tst type PERF_SAMPLE_IP) 8 result in
  let result := add_if (tst type PERF_SAMPLE_TID) 8 result in
  let result := add_if (tst type PERF_SAMPLE_TIME) 8 result in
  let result := add_if (tst type PERF_SAMPLE_ADDR) 8 result in
  let result := add_if (tst type PERF_SAMPLE_ID) 8 result in
  let result := add_if (tst type PERF_SAMPLE_STREAM_ID) 8 result in
  let result := add_if (tst type PERF_SAMPLE_CPU) 8 result in
  add_if (tst type PERF_SAMPLE_PERIOD) 8 result.

(** [p->nr] of a counted array. *)
Definition counted_nr (p : option (list Z)) : option Z := let* p := p in rd_le p 0 8.

Definition size_read (s : perf_sample (list Z)) (type read_format result : Z) : Z :=
  if tst type PERF_SAMPLE_READ then
    let result := u64 (result + 8) in
    let result := add_if (tst read_format PERF_FORMAT_TOTAL_TIME_ENABLED) 8 result in
    let result := add_if (tst read_format PERF_FORMAT_TOTAL_TIME_RUNNING) 8 result in
    if tst read_format PERF_FORMAT_GROUP
    then u64 (result + u64 (nr_or_value (read s) * 16)) else u64 (result + 8)
  else result.

Definition size_callchain (s : perf_sample (list Z)) (type result : Z) : option Z :=
  if tst type PERF_SAMPLE_CALLCHAIN then
    let* nr := counted_nr (callchain s) in Some (u64 (result + u64 ((nr + 1) * 8)))
  else Some result.

Definition size_raw (s : perf_sample (list Z)) (type result : Z) : Z :=
  if tst type PERF_SAMPLE_RAW then u64 (u64 (result + 4) + raw_size s) else result.

Definition size_branch_stack (s : perf_sample (list Z)) (type result : Z) : option Z :=
  if tst type PERF_SAMPLE_BRANCH_STACK then
    let* nr := counted_nr (branch_stack s) in
    let sz := u64 (nr * 24) in
    let sz := u64 (sz + 8) in
    Some (u64 (result + sz))
  else Some result.

Definition size_regs (cond : bool) (r : regs_dump (list Z)) (result : Z) : Z :=
  if cond then
    if negb (abi r =? 0) then u64 (u64 (result + 8) + u64 (hweight_long (mask r) * 8))
    else u64 (result + 8)
  else result.

Definition size_user_stack (s : perf_sample (list Z)) (type result : Z) : Z :=
  if tst type PERF_SAMPLE_STACK_USER then
    let sz := stack_len (user_stack s) in
    let result := u64 (result + 8) in
    if negb (sz =? 0) then u64 (u64 (result + sz) + 8) else result
  else result.

Definition perf_event__sample_event_size (s : perf_sample (list Z)) (type read_format : Z)
    : option Z :=
  let result := size_fixed type 8 in
  let result := size_read s type read_format result in
  let* result := size_callchain s type result in
  let result := size_raw s type result in
  let* result := size_branch_stack s type result in
  let result := size_regs (tst type PERF_SAMPLE_REGS_USER) (user_regs s) result in
  let result := size_user_stack s type result in
  let result := add_if (tst type PERF_SAMPLE_WEIGHT) 8 result in
  let result := add_if (tst type PERF_SAMPLE_DATA_SRC) 8 result in
  let result := add_if (tst type PERF_SAMPLE_TRANSACTION) 8 result in
  Some (size_regs (tst type PERF_SAMPLE_REGS_INTR) (intr_regs s) result).

(** ** The writer *)

(** The event, the cursor and the union [u]. *)
Record wst := mkWst { mem : list Z; warr : Z; wu : Z }.
Definition wblock := wst -> option wst.

Fixpoint wrun (bl : list wblock) (w : wst) : option wst :=
  match bl with
  | [] => Some w
  | b :: bl => let* w := b w in wrun bl w
  end.

(** [*array = v] *)
Definition store_u64 (v : Z) (w : wst) : option wst :=
  let* m := wr_bytes (mem w) (warr w) (le_split 8 v) in Some (mkWst m (warr w) (wu w)).
Definition advance (n : Z) (w : wst) : wst := mkWst (mem w) (warr w + n) (wu w).

(** [memcpy(array, p, sz); array += sz]: nothing is read when [sz] is 0. *)
Definition copy_bytes (p : option (list Z)) (sz : Z) (w : wst) : option wst :=
  if sz =? 0 then Some w else
  let* p := p in
  let* l := rd_bytes p 0 (Z.to_nat sz) in
  let* m := wr_bytes (mem w) (warr w) l in
  Some (advance sz (mkWst m (warr w) (wu w))).

Definition put_u64 (cond : bool) (v : Z) : wblock := fun w =>
  if cond then let* w := store_u64 v w in Some (advance 8 w) else Some w.

(** The inverse of the parser's unswapping. *)
Definition reswap_both (swapped : bool) (u : Z) : Z :=
  if swapped then bswap 8 (mk64 (bswap 4 (val32_0 u)) (bswap 4 (val32_1 u))) else u.
Definition reswap_low (swapped : bool) (u : Z) : Z :=
  if swapped then bswap 8 (mk64 (bswap 4 (val32_0 u)) (val32_1 u)) else u.

Definition put_tid (swapped : bool) (type : Z) (s : perf_sample (list Z)) : wblock := fun w =>
  if tst type PERF_SAMPLE_TID then
    let u := reswap_both swapped (mk64 (pid s) (tid s)) in
    let* w := store_u64 u (mkWst (mem w) (warr w) u) in Some (advance 8 w)
  else Some w.

(** Only [u.val32[0]] is assigned: the other half keeps what it had. *)
Definition put_cpu (swapped : bool) (type : Z) (s : perf_sample (list Z)) : wblock := fun w =>
  if tst type PERF_SAMPLE_CPU then
    let u := reswap_low swapped (mk64 (cpu s) (val32_1 (wu w))) in
    let* w := store_u64 u (mkWst (mem w) (warr w) u) in Some (advance 8 w)
  else Some w.

Definition put_fixed (swapped : bool) (type : Z) (s : perf_sample (list Z)) : list wblock :=
  [ put_u64 (tst type PERF_SAMPLE_IDENTIFIER) (id s);
    put_u64 (tst type PERF_SAMPLE_IP) (ip s);
    put_tid swapped type s;
    put_u64 (tst type PERF_SAMPLE_TIME) (time s);
    put_u64 (tst type PERF_SAMPLE_ADDR) (addr s);
    put_u64 (tst type PERF_SAMPLE_ID) (id s);
    put_u64 (tst type PERF_SAMPLE_STREAM_ID) (stream_id s);
    put_cpu swapped type s;
    put_u64 (tst type PERF_SAMPLE_PERIOD) (period s) ].

Definition put_read_values (read_format : Z) (s : perf_sample (list Z)) : wblock := fun w =>
  match tst read_format PERF_FORMAT_GROUP, second (read s) with
  | true, group_values p => copy_bytes p (u64 (nr_or_value (read s) * 16)) w
  | false, one_id v => put_u64 true v w
  | _, _ => None
  end.

Definition put_read (type read_format : Z) (s : perf_sample (list Z)) : list wblock :=
  if tst type PERF_SAMPLE_READ then
    [ put_u64 true (nr_or_value (read s));
      put_u64 (tst read_format PERF_FORMAT_TOTAL_TIME_ENABLED) (time_enabled (read s));
      put_u64 (tst read_format PERF_FORMAT_TOTAL_TIME_RUNNING) (time_running (read s));
      put_read_values read_format s ]
  else [].

Definition put_callchain (type : Z) (s : perf_sample (list Z)) : wblock := fun w =>
  if tst type PERF_SAMPLE_CALLCHAIN then
    let* nr := counted_nr (callchain s) in
    copy_bytes (callchain s) (u64 ((nr + 1) * 8)) w
  else Some w.

(** The 64-bit store also writes four bytes after the size. *)
Definition put_raw (swapped : bool) (type : Z) (s : perf_sample (list Z)) : wblock := fun w =>
  if tst type PERF_SAMPLE_RAW then
    let u := reswap_both swapped (mk64 (raw_size s) (val32_1 (wu w))) in
    let* w := store_u64 u (mkWst (mem w) (warr w) u) in
    copy_bytes (raw_data s) (raw_size s) (advance 4 w)
  else Some w.

Definition put_branch_stack (type : Z) (s : perf_sample (list Z)) : wblock := fun w =>
  if tst type PERF_SAMPLE_BRANCH_STACK then
    let* nr := counted_nr (branch_stack s) in
    let sz := u64 (nr * 24) in
    let sz := u64 (sz + 8) in
    copy_bytes (branch_stack s) sz w
  else Some w.

Definition put_regs (cond : bool) (r : regs_dump (list Z)) : wblock := fun w =>
  if cond then
    if negb (abi r =? 0) then
      let* w := put_u64 true (abi r) w in
      copy_bytes (regs r) (u64 (hweight_long (mask r) * 8)) w
    else put_u64 true 0 w
  else Some w.

Definition put_user_stack (type : Z) (s : perf_sample (list Z)) : wblock := fun w =>
  if tst type PERF_SAMPLE_STACK_USER then
    let sz := stack_len (user_stack s) in
    let* w := put_u64 true sz w in
    if negb (sz =? 0) then
      let* w := copy_bytes (stack_data (user_stack s)) sz w in put_u64 true sz w
    else Some w
  else Some w.

Definition put_tail (type : Z) (s : perf_sample (list Z)) : list wblock :=
  [ put_regs (tst type PERF_SAMPLE_REGS_USER) (user_regs s);
    put_user_stack type s;
    put_u64 (tst type PERF_SAMPLE_WEIGHT) (weight s);
    put_u64 (tst type PERF_SAMPLE_DATA_SRC) (data_src s);
    put_u64 (tst type PERF_SAMPLE_TRANSACTION) (transaction s);
    put_regs (tst type PERF_SAMPLE_REGS_INTR) (intr_regs s) ].

Definition synth_blocks (type read_format : Z) (s : perf_sample (list Z)) (swapped : bool)
    : list wblock :=
  put_fixed swapped type s ++ put_read type read_format s
  ++ [put_callchain type s; put_raw swapped type s; put_branch_stack type s] ++ put_tail type s.

(** [u0] is what the uninitialised union holds.  The result is the event and
    the final cursor; the function itself returns 0. *)
Definition perf_event__synthesize_sample (u0 : Z) (ev : list Z) (type read_format : Z)
    (s : perf_sample (list Z)) (swapped : bool) : option (list Z * Z) :=
  let* w := wrun (synth_blocks type read_format s swapped) (mkWst ev 8 u0) in
  Some (mem w, warr w).

(** ** Tracepoint fields *)

Record format_field := mkField { field_offset : Z; field_size : Z; field_flags : Z }.

Definition format_field__intval (raw : list Z) (f : format_field) (swap : bool) : option Z :=
  let ptr := field_offset f in
  if field_size f =? 1 then rd_le raw ptr 1 else
  let* value :=
    if field_size f =? 2 then (let* v := rd_le raw ptr 2 in Some (Some v)) else
    if field_size f =? 4 then (let* v := rd_le raw ptr 4 in Some (Some v)) else
    if field_size f =? 8 then (let* v := rd_le raw ptr 8 in Some (Some v)) else Some None in
  match value with
  | None => Some 0
  | Some value =>
      if negb swap then Some value else
      Some (if field_size f =? 2 then bswap 2 value else
            if field_size f =? 4 then bswap 4 value else
            if field_size f =? 8 then bswap 8 value else 0)
  end.

Definition FIELD_IS_DYNAMIC : Z := 16.

(** [event->format.fields], in order. *)
Definition format_fields := list (list Z * format_field).

(** [pevent_find_field]: the first field of that name. *)
Fixpoint pevent_find_field (fields : format_fields) (name : list Z) : option format_field :=
  match fields with
  | [] => None
  | (n, f) :: fields => if bool_decide (n = name) then Some f else pevent_find_field fields name
  end.

Definition perf_evsel__field (tp_format : format_fields) (name : list Z) : option format_field :=
  pevent_find_field tp_format name.

(** The offset of the field's data in the raw data, or NULL. *)
Definition perf_evsel__rawptr (tp_format : format_fields) (raw name : list Z) : option (option Z) :=
  match perf_evsel__field tp_format name with
  | None => Some None
  | Some field =>
      if tst (field_flags field) FIELD_IS_DYNAMIC then
        let* o := rd_le raw (field_offset field) 4 in Some (Some (Z.land o 0xffff))
      else Some (Some (field_offset field))
  end.

Definition perf_evsel__intval (tp_format : format_fields) (evsel : perf_evsel) (raw name : list Z)
    : option Z :=
  match perf_evsel__field tp_format name with
  | None => Some 0
  | Some field => format_field__intval raw field (needs_swap evsel)
  end.

(** ** The fixed part of a sample *)

Definition fixed_conds (type : Z) : list bool :=
  [ tst type PERF_SAMPLE_IDENTIFIER; tst type PERF_SAMPLE_IP; tst type PERF_SAMPLE_TID;
    tst type PERF_SAMPLE_TIME; tst type PERF_SAMPLE_ADDR; tst type PERF_SAMPLE_ID;
    tst type PERF_SAMPLE_STREAM_ID; tst type PERF_SAMPLE_CPU; tst type PERF_SAMPLE_PERIOD ].
Definition nset (l : list bool) : Z := foldr (fun b n => Z.b2z b + n) 0 l.

Lemma sample_size_loop_count n mask i size : 0 <= i ->
  sample_size_loop n mask i size = size + Bits.count (Z.testbit mask) i n.
Proof.
  revert i size. induction n as [|n IH]; intros i size Hi; cbn [sample_size_loop Bits.count]; [lia|].
  rewrite IH, Z.shiftl_1_l, tst_pow2 by lia. destruct (Z.testbit mask i); simpl Z.b2z; lia.
Qed.

(** Counting the bits of a masked word visits the bits of the mask only. *)
Lemma count_masked (f m : Z -> bool) from n :
  Bits.count (fun i => f i && m i) from n
  = foldr (fun i k => Z.b2z (f i) + k) 0 (List.filter m (Bits.set_bits (fun _ => true) from n)).
Proof.
  revert from. induction n as [|n IH]; intros from; [done|].
  cbn [Bits.count Bits.set_bits List.filter]. rewrite IH.
  destruct (m from); [rewrite andb_true_r; done|by rewrite andb_false_r].
Qed.

Lemma count_ext P Q from n : 0 <= from -> (forall i, 0 <= i -> P i = Q i) -> Bits.count P from n = Bits.count Q from n.
Proof. intros Hf H. revert from Hf. induction n as [|n IH]; intros from Hf; [done|]. cbn [Bits.count]. rewrite H, IH by lia. done. Qed.

Lemma sample_size_fixed type : __perf_evsel__sample_size type = 8 * nset (fixed_conds type).
Proof.
  unfold __perf_evsel__sample_size, fixed_conds. rewrite sample_size_loop_count by lia.
  rewrite (count_ext _ (fun i => Z.testbit type i && Z.testbit PERF_SAMPLE_MASK i) 0 64)
    by (done || intros; apply Z.land_spec).
  rewrite count_masked.
  replace (List.filter (Z.testbit PERF_SAMPLE_MASK) (Bits.set_bits (fun _ => true) 0 64))
    with [0; 1; 2; 3; 6; 7; 8; 9; 16] by (vm_compute; reflexivity).
  unfold PERF_SAMPLE_IDENTIFIER, PERF_SAMPLE_IP, PERF_SAMPLE_TID, PERF_SAMPLE_TIME, PERF_SAMPLE_ADDR,
    PERF_SAMPLE_ID, PERF_SAMPLE_STREAM_ID, PERF_SAMPLE_CPU, PERF_SAMPLE_PERIOD.
  rewrite !tst_pow2 by lia. cbn [nset foldr]. lia.
Qed.

Lemma nset_cons b l : nset (b :: l) = Z.b2z b + nset l.
Proof. done. Qed.

Lemma nset_bound l : 0 <= nset l <= Z.of_nat (length l).
Proof. induction l as [|[] l IH]; rewrite ?nset_cons; cbn [length Z.b2z]; [done|lia|lia]. Qed.

(** ** Memory safety of the parser *)

Definition in_event (max p len : Z) : Prop := 0 <= p /\ 0 <= len /\ p + len <= max.

(** Every pointer of a parsed sample points at a whole object inside of the
    event. *)
Record valid_sample (ev : list Z) (max : Z) (d : perf_sample Z) : Prop := {
  v_read : match second (read d) with
           | group_values (Some p) => in_event max p (16 * nr_or_value (read d)) | _ => True end;
  v_callchain : match callchain d with
    | Some p => exists nr, rd_le ev p 8 = Some nr /\ in_event max p (8 + 8 * nr) | None => True end;
  v_raw : match raw_data d with Some p => in_event max p (raw_size d) | None => True end;
  v_branch : match branch_stack d with
    | Some p => exists nr, rd_le ev p 8 = Some nr /\ in_event max p (8 + 24 * nr) | None => True end;
  v_uregs : match regs (user_regs d) with
    | Some p => in_event max p (8 * hweight_long (mask (user_regs d))) | None => True end;
  v_iregs : match regs (intr_regs d) with
    | Some p => in_event max p (8 * hweight_long (mask (intr_regs d))) | None => True end;
  v_stack : match stack_data (user_stack d) with
    | Some p => in_event max p (stack_len (user_stack d)) | None => True end
}.

(** A block that is defined from [Pre], fails with [-EFAULT] only and ends in
    [Post]. *)
Definition safe (Pre Post : pst -> Prop) (b : pst -> option (pst + Z)) : Prop :=
  forall s, Pre s -> exists r, b s = Some r /\
    match r with inl s' => Post s' | inr e => e = - EFAULT end.

Lemma safe_run I bl : Forall (safe I I) bl -> safe I I (run bl).
Proof.
  induction 1 as [|b bl Hb _ IH]; intros s Hs; [by exists (inl s)|].
  cbn [run]. destruct (Hb s Hs) as (r & -> & Hr). cbn [mbind option_bind].
  destruct r as [s'|e]; [by apply IH|by exists (inr e)].
Qed.

Lemma safe_run_cons I J K b bl : safe I J b -> safe J K (run bl) -> safe I K (run (b :: bl)).
Proof.
  intros Hb Hbl s Hs. cbn [run]. destruct (Hb s Hs) as (r & -> & Hr). cbn [mbind option_bind].
  destruct r as [s'|e]; [by apply Hbl|by exists (inr e)].
Qed.

Lemma run_app b1 b2 s : run (b1 ++ b2) s
  = (let* r := run b1 s in match r with inl s => run b2 s | inr e => Some (inr e) end).
Proof.
  revert s. induction b1 as [|b b1 IH]; intros s; [done|]. cbn [app run].
  destruct (b s) as [[s'|e]|]; cbn [mbind option_bind]; [apply IH|done|done].
Qed.

Lemma safe_run_app I J K b1 b2 : safe I J (run b1) -> safe J K (run b2) -> safe I K (run (b1 ++ b2)).
Proof.
  intros H1 H2 s Hs. rewrite run_app. destruct (H1 s Hs) as (r & -> & Hr). cbn [mbind option_bind].
  destruct r as [s'|e]; [by apply H2|by exists (inr e)].
Qed.

(** An update of a field that holds no pointer. *)
Ltac keep_valid :=
  match goal with H : valid_sample _ _ _ |- _ => destruct H end; split; cbn in *; done.

Section Safety.
Context (ev : list Z) (max : Z) (Hev : Forall is_byte ev) (Hmax : max <= Z.of_nat (length ev)).

Definition good (s : pst) : Prop := 8 <= array s <= max /\ valid_sample ev max (data s).
Definition good_no_group (s : pst) : Prop :=
  good s /\ 0 <= nr_or_value (read (data s)) /\
  match second (read (data s)) with one_id _ => True | _ => False end.

Lemma rd_le_safe off n : 0 <= off -> off + Z.of_nat n <= max ->
  exists v, rd_le ev off n = Some v /\ 0 <= v < 2 ^ (8 * Z.of_nat n).
Proof.
  intros H0 H1. destruct (rd_bytes_in_range ev off n H0 ltac:(lia)) as (l & Hl & Hlen).
  exists (le_combine l). unfold rd_le. rewrite Hl. split; [done|]. rewrite <-Hlen.
  apply le_combine_range. by eapply rd_bytes_byte.
Qed.

Lemma overflow_check_safe arr size (k : option (pst + Z)) (J : pst -> Prop) :
  (size <= max -> arr + size <= max -> exists r, k = Some r /\
      match r with inl s' => J s' | inr e => e = - EFAULT end) ->
  exists r, OVERFLOW_CHECK max arr size k = Some r /\
      match r with inl s' => J s' | inr e => e = - EFAULT end.
Proof.
  intros Hk. unfold OVERFLOW_CHECK, overflow. rewrite !Z.gtb_ltb.
  destruct (Z.ltb_spec max size); [by eexists|]. destruct (Z.ltb_spec max (arr + size)); [by eexists|].
  cbn [orb]. by apply Hk.
Qed.

(** A checked 64-bit field that keeps the sample valid. *)
Lemma get_u64_checked_safe (I : pst -> Prop) cond upd :
  (forall s, I s -> good s) ->
  (forall s v, I s -> 0 <= v < 2 ^ 64 -> array s + 8 <= max -> I (mkPst (array s + 8) (upd v (data s)))) ->
  safe I I (get_u64_checked ev max cond upd).
Proof.
  intros HI Hupd s Hs. unfold get_u64_checked. destruct cond; [|by exists (inl s)].
  apply overflow_check_safe. intros _ H8. pose proof (HI s Hs) as [Ha _]. unfold get_u64.
  destruct (rd_le_safe (array s) 8 ltac:(lia) H8) as (v & -> & Hv). eexists. split; [done|].
  by apply Hupd.
Qed.

Lemma parse_counted_safe cond elt upd :
  1 <= elt ->
  (forall p d nr, valid_sample ev max d -> rd_le ev p 8 = Some nr -> 0 <= nr ->
     in_event max p (8 + elt * nr) -> valid_sample ev max (upd (Some p) d)) ->
  safe good good (parse_counted ev max cond elt upd).
Proof.
  intros He Hupd s [Ha Hv]. unfold parse_counted. destruct cond; [|by exists (inl s)].
  apply overflow_check_safe. intros _ H8.
  destruct (rd_le_safe (array s) 8 ltac:(lia) H8) as (nr & Hnr & Hr). rewrite Hnr. cbn [mbind option_bind].
  destruct (nr >? max_nr elt); [by eexists|].
  apply overflow_check_safe. intros Hsz Hend. eexists. split; [done|].
  assert (0 <= nr * elt) by nia.
  split; [cbn; lia|]. apply (Hupd _ _ nr); [done..|lia|]. unfold in_event. lia.
Qed.

Lemma parse_regs_safe cond m get upd :
  0 <= m < 2 ^ 64 ->
  (forall a d, valid_sample ev max d -> valid_sample ev max (upd (mkRegs a (mask (get d)) (regs (get d))) d)) ->
  (forall a p d, valid_sample ev max d -> in_event max p (8 * hweight_long m) ->
     valid_sample ev max (upd (mkRegs a m (Some p)) d)) ->
  safe good good (parse_regs ev max cond m get upd).
Proof.
  intros Hm Hk Hupd s [Ha Hv]. unfold parse_regs. destruct cond; [|by exists (inl s)].
  apply overflow_check_safe. intros _ H8.
  destruct (rd_le_safe (array s) 8 ltac:(lia) H8) as (a & -> & _). cbn [mbind option_bind].
  destruct (a =? _); cbn [negb]; [eexists; split; [done|split; [cbn; lia|by apply Hk]]|].
  apply overflow_check_safe. intros Hsz Hend. eexists. split; [done|].
  assert (0 <= hweight_long m <= 64) as Hw.
  { unfold Bits.hweight_long. rewrite Bits.hweight64_popcount by done. apply (Bits.popcount_range 64). }
  rewrite u64_small in * by lia. split; [cbn; lia|]. apply Hupd; [by apply Hk|].
  unfold in_event. lia.
Qed.

Lemma parse_raw_safe swapped type : safe good good (parse_raw ev max swapped type).
Proof.
  intros s [Ha Hv]. unfold parse_raw. destruct (tst type _); [|by exists (inl s)].
  apply overflow_check_safe. intros _ H8.
  destruct (rd_le_safe (array s) 8 ltac:(lia) H8) as (u & -> & _). cbn [mbind option_bind].
  apply overflow_check_safe. intros Hsz Hend. eexists. split; [done|]. cbn in Hsz, Hend.
  pose proof (Z.mod_pos_bound (unswap_both swapped u) (2 ^ 32) ltac:(lia)) as Hm.
  fold (val32_0 (unswap_both swapped u)) in Hm.
  split; [cbn; lia|]. destruct Hv. split; cbn; try done. unfold in_event. lia.
Qed.

Lemma parse_user_stack_safe type : safe good good (parse_user_stack ev max type).
Proof.
  intros s [Ha Hv]. unfold parse_user_stack. destruct (tst type _); [|by exists (inl s)].
  apply overflow_check_safe. intros _ H8.
  destruct (rd_le_safe (array s) 8 ltac:(lia) H8) as (sz & -> & Hsz0). cbn [mbind option_bind].
  destruct (Z.eqb_spec sz 0).
  { eexists. split; [done|]. split; [cbn; lia|]. destruct Hv. split; cbn; try done.
    destruct (stack_data _); [|done]. unfold in_event in *. lia. }
  apply overflow_check_safe. intros Hsz Hend. apply overflow_check_safe. intros _ Hend8.
  destruct (rd_le_safe (array s + 8 + sz) 8 ltac:(lia) Hend8) as (dyn & -> & Hdyn).
  cbn [mbind option_bind]. rewrite Z.gtb_ltb. destruct (Z.ltb_spec sz dyn); [by eexists|].
  eexists. split; [done|]. split; [cbn; lia|]. destruct Hv. split; cbn; try done.
  unfold in_event. lia.
Qed.

Lemma reset_safe f : (forall d, valid_sample ev max d -> valid_sample ev max (f d)) ->
  safe good good (reset f).
Proof. intros Hf s [Ha Hv]. eexists. split; [done|]. split; [done|]. by apply Hf. Qed.

Lemma checked_field_safe cond upd :
  (forall v d, valid_sample ev max d -> valid_sample ev max (upd v d)) ->
  safe good good (get_u64_checked ev max cond upd).
Proof.
  intros Hupd. apply get_u64_checked_safe; [done|]. intros s v [Ha Hv] _ H8.
  split; [cbn; lia|by apply Hupd].
Qed.

Lemma parse_tail_safe a type :
  0 <= sample_regs_user a < 2 ^ 64 -> 0 <= sample_regs_intr a < 2 ^ 64 ->
  safe good good (run (parse_tail ev max a type)).
Proof.
  intros Hu Hi. apply safe_run. unfold parse_tail.
  repeat (apply Forall_cons_2; [|]); try apply Forall_nil_2.
  all: try (apply checked_field_safe; intros v d Hv; keep_valid).
  all: try (apply reset_safe; intros d Hv; keep_valid).
  all: try apply parse_user_stack_safe.
  all: apply parse_regs_safe; [done|intros ? d Hv; keep_valid|intros ? ? d Hv Hp; keep_valid].
Qed.

(** The first fields of a read group: no group pointer is set yet. *)
Lemma read_field_safe cond upd :
  (forall v d, 0 <= v -> valid_sample ev max d -> 0 <= nr_or_value (read d) ->
      match second (read d) with one_id _ => True | _ => False end ->
      valid_sample ev max (upd v d) /\ 0 <= nr_or_value (read (upd v d)) /\
      match second (read (upd v d)) with one_id _ => True | _ => False end) ->
  safe good_no_group good_no_group (get_u64_checked ev max cond upd).
Proof.
  intros Hupd. apply get_u64_checked_safe; [by intros s [Hs _]|].
  intros s v [[Ha Hv] [Hn Hg]] Hv0 H8. destruct (Hupd v (data s) ltac:(lia) Hv Hn Hg) as [Hv' Hg'].
  split; [|exact Hg']. split; [cbn; lia|done].
Qed.

Lemma parse_read_safe rf type : safe good_no_group good (run (parse_read ev max rf type)).
Proof.
  unfold parse_read. destruct (tst type _);
    [|intros s [Hs _]; by exists (inl s)].
  do 3 (eapply safe_run_cons; [apply read_field_safe; intros v d Hv0 Hv Hn Hg;
    (split; [destruct Hv; split; cbn; try done; by destruct (second (read d))|
             split; [cbn; done|exact Hg]])|]).
  eapply safe_run_cons; [|intros s Hs; exists (inl s); split; [done|exact Hs]].
  intros s [[Ha Hv] [Hn Hg]]. unfold parse_read_values. destruct (tst rf _).
  - destruct (_ >? max_nr 16); [by eexists|]. apply overflow_check_safe. intros Hsz Hend.
    eexists. split; [done|]. split; [cbn; lia|]. destruct Hv. split; cbn; try done.
    unfold in_event. lia.
  - apply get_u64_checked_safe; [done| |by split]. intros s' v [Ha' Hv'] _ H8.
    split; [cbn; lia|]. destruct Hv'. by split.
Qed.

(** The unchecked fields at the start: the size test covers them. *)
Lemma run_fixed l s :
  8 <= array s -> array s + 8 * nset (fst <$> l) <= max -> valid_sample ev max (data s) ->
  (forall c u v d, (c, u) ∈ l -> valid_sample ev max d -> read d = read (data s) ->
     valid_sample ev max (u v d) /\ read (u v d) = read (data s)) ->
  exists s', run ((fun '(c, u) => get_u64 ev c u) <$> l) s = Some (inl s') /\
    array s' = array s + 8 * nset (fst <$> l) /\ valid_sample ev max (data s') /\
    read (data s') = read (data s).
Proof.
  revert s. induction l as [|[c u] l IH]; intros s Ha Hm Hv Hu.
  { exists s. cbn. split; [done|]. split; [lia|done]. }
  rewrite fmap_cons in Hm. rewrite !fmap_cons. cbn [fst] in *. rewrite nset_cons in Hm. rewrite nset_cons.
  change (run (_ :: ?x) s) with (let* r := get_u64 ev c u s in
    match r with inl s => run ((fun '(c, u) => get_u64 ev c u) <$> l) s | inr e => Some (inr e) end).
  pose proof (nset_bound (fst <$> l)) as Hb. destruct c; cbn [Z.b2z] in *.
  - destruct (rd_le_safe (array s) 8 ltac:(lia) ltac:(lia)) as (v & Hrd & _).
    assert (get_u64 ev true u s = Some (inl (mkPst (array s + 8) (u v (data s))))) as ->
      by (unfold get_u64; by rewrite Hrd).
    cbn [mbind option_bind]. destruct (Hu true u v (data s) ltac:(by left) Hv eq_refl) as [Hv' Hr'].
    destruct (IH (mkPst (array s + 8) (u v (data s)))) as (s' & -> & Ha' & Hv'' & Hr''); cbn [array data];
      [lia|lia|done| |].
    + intros c' u' v' d Hin Hd Hrd'. rewrite Hr'. apply (Hu c' u' v' d); [by right|done|by rewrite Hrd'].
    + exists s'. split; [done|]. cbn [array data] in *. split; [lia|]. split; [done|]. by rewrite Hr''.
  - change (get_u64 ev false u s) with (@Some (pst + Z) (inl s)).
    cbn [mbind option_bind]. destruct (IH s) as (s' & Hrun & Ha' & Hrest); [lia|lia|done| |].
    + intros c' u' v' d Hin. apply (Hu c' u' v' d). by right.
    + exists s'. split; [done|]. split; [lia|done].
Qed.
End Safety.

Definition fixed_list (swapped : bool) (type : Z) : list (bool * (Z -> perf_sample Z -> perf_sample Z)) :=
  [ (tst type PERF_SAMPLE_IDENTIFIER, set_id); (tst type PERF_SAMPLE_IP, set_ip);
    (tst type PERF_SAMPLE_TID,
      fun u d => let u := unswap_both swapped u in set_tid (val32_1 u) (set_pid (val32_0 u) d));
    (tst type PERF_SAMPLE_TIME, set_time); (tst type PERF_SAMPLE_ADDR, set_addr);
    (tst type PERF_SAMPLE_ID, set_id); (tst type PERF_SAMPLE_STREAM_ID, set_stream_id);
    (tst type PERF_SAMPLE_CPU, fun u d => set_cpu (val32_0 (unswap_low swapped u)) d);
    (tst type PERF_SAMPLE_PERIOD, set_period) ].

Lemma fixed_list_blocks ev swapped type :
  parse_fixed ev swapped type = (fun '(c, u) => get_u64 ev c u) <$> fixed_list swapped type.
Proof. done. Qed.

Lemma fixed_list_conds swapped type : fst <$> fixed_list swapped type = fixed_conds type.
Proof. done. Qed.

Lemma fixed_list_keeps ev max swapped type c u v d :
  (c, u) ∈ fixed_list swapped type -> valid_sample ev max d ->
  valid_sample ev max (u v d) /\ read (u v d) = read d.
Proof.
  intros Hin Hv. unfold fixed_list in Hin.
  repeat (apply elem_of_cons in Hin as [[= -> ->]|Hin]; [split; [keep_valid|done]|]).
  by apply elem_of_nil in Hin.
Qed.

Definition wf_attr (a : perf_event_attr) : Prop :=
  0 <= sample_regs_user a < 2 ^ 64 /\ 0 <= sample_regs_intr a < 2 ^ 64.

Lemma init_valid evsel misc ev max : valid_sample ev max (set_addr 0 (set_id (2 ^ 64 - 1) (init_sample evsel misc))).
Proof. by split. Qed.

Lemma sample_blocks_safe evsel ev max misc :
  Forall is_byte ev -> max <= Z.of_nat (length ev) -> wf_attr (attr evsel) ->
  8 + __perf_evsel__sample_size (sample_type (attr evsel)) <= max ->
  exists r, run (sample_blocks evsel ev max)
      (mkPst 8 (set_addr 0 (set_id (2 ^ 64 - 1) (init_sample evsel misc)))) = Some r /\
    match r with inl s' => good ev max s' | inr e => e = - EFAULT end.
Proof.
  intros Hev Hmax [Hu Hi] Hsz. unfold sample_blocks. set (s0 := mkPst 8 _).
  set (type := sample_type (attr evsel)) in *. rewrite sample_size_fixed in Hsz.
  destruct (run_fixed ev max Hev Hmax (fixed_list (needs_swap evsel) type) s0) as (s1 & Hr1 & Ha1 & Hv1 & Hrd1).
  { cbn; lia. } { rewrite fixed_list_conds. cbn [array s0]. lia. } { apply init_valid. }
  { intros c u v d Hin Hd Hrd. destruct (fixed_list_keeps ev max _ _ _ _ v d Hin Hd) as [H1 H2].
    split; [done|congruence]. }
  rewrite run_app, fixed_list_blocks, Hr1. cbn [mbind option_bind].
  rewrite fixed_list_conds in Ha1. cbn [array s0] in Ha1. pose proof (nset_bound (fixed_conds type)).
  apply (safe_run_app (good_no_group ev max) (good ev max)).
  - by apply parse_read_safe.
  - apply (safe_run_app _ (good ev max)); [|by apply parse_tail_safe].
    apply safe_run. apply Forall_cons_2; [|apply Forall_cons_2; [|apply Forall_cons_2; [|apply Forall_nil_2]]].
    + apply parse_counted_safe; [done|done|lia|]. intros p d nr Hv Hnr Hn Hp.
      destruct Hv; split; cbn; try done. by exists nr.
    + by apply parse_raw_safe.
    + apply parse_counted_safe; [done|done|lia|]. intros p d nr Hv Hnr Hn Hp.
      destruct Hv; split; cbn; try done. by exists nr.
  - split; [split; [lia|done]|]. rewrite Hrd1. done.
Qed.

(** C8: Parsing a sample record never reads outside of the record: whenever
    the event object holds the [header.size] bytes its header announces, and the
    selector's [sample_size] is at least that of its sample type, the parser
    returns 0 or [-EFAULT] and nothing else, whatever the bytes of the record
    are; and when it returns 0, every pointer it stored (read group, call
    chain, raw data, branch stack, both register dumps, user stack) points at
    an object that lies entirely inside of the record, with the element counts
    found there. *)
Theorem parse_sample_safe evsel ev max :
  Forall is_byte ev -> header_size ev = Some max -> max <= Z.of_nat (length ev) ->
  header_type ev = Some PERF_RECORD_SAMPLE -> wf_attr (attr evsel) ->
  __perf_evsel__sample_size (sample_type (attr evsel)) <= sample_size evsel < 2 ^ 31 ->
  exists r, perf_evsel__parse_sample evsel ev = Some r /\
    match r with inl d => valid_sample ev max d | inr e => e = - EFAULT end.
Proof.
  intros Hev Hs Hmax Ht Ha Hsz. unfold perf_evsel__parse_sample. rewrite Hs, Ht. cbn [mbind option_bind].
  destruct (rd_bytes_in_range ev 6 2) as (l6 & Hl6 & _);
    [lia|unfold header_size, rd_le, rd_bytes in Hs; bdestr; bprop; done || lia|].
  assert (8 <= Z.of_nat (length ev)) as H8.
  { unfold rd_bytes in Hl6. bdestr; [|done]. bprop. lia. }
  destruct (rd_bytes_in_range ev 4 2) as (l4 & Hl4 & _); [lia..|].
  unfold header_misc, rd_le. rewrite Hl4. cbn [mbind option_bind Z.eqb negb]. cbn [negb].
  rewrite Z.eqb_refl. cbn [negb].
  assert (0 <= __perf_evsel__sample_size (sample_type (attr evsel))).
  { rewrite sample_size_fixed. pose proof (nset_bound (fixed_conds (sample_type (attr evsel)))). lia. }
  rewrite u64_small by lia. rewrite Z.gtb_ltb.
  destruct (Z.ltb_spec max (sample_size evsel + 8)); [by eexists|].
  destruct (sample_blocks_safe evsel ev max (le_combine l4)) as (r & -> & Hr); [done..|lia|].
  cbn [mbind option_bind]. destruct r as [s|e]; eexists; (split; [done|]); [apply Hr|exact Hr].
Qed.

Lemma parse_sample_safe_witness :
  let evsel := perf_evsel__init (mkAttr 1 (PERF_SAMPLE_IP + PERF_SAMPLE_CALLCHAIN) 0 true 0 0) false in
  let ev := le_split 4 9 ++ le_split 2 0 ++ le_split 2 40 ++ le_split 8 0x4000
            ++ le_split 8 2 ++ le_split 8 0x4010 ++ le_split 8 0x5000 in
  exists r, perf_evsel__parse_sample evsel ev = Some r /\
    match r with inl d => valid_sample ev 40 d | inr e => e = - EFAULT end.
Proof.
  intros evsel ev. apply (parse_sample_safe evsel ev 40).
  - apply (bool_decide_unpack _). vm_compute. exact I.
  - vm_compute. reflexivity.
  - vm_compute. discriminate.
  - vm_compute. reflexivity.
  - split; cbn; lia.
  - vm_compute. split; [discriminate|reflexivity].
Defined.

End Sample.
