(* ===== verification/SampleTrip.v ===== *)
(** The round trip of sample records: what
    [perf_event__synthesize_sample] writes, [perf_evsel__parse_sample] reads
    back, and [perf_event__sample_event_size] is the size of it.  The encoding
    of a sample is given block by block; [writes] and [reads] relate the blocks
    of the writer and of the parser to it. *)

From Stdlib Require Import ZArith Lia Bool.
From stdpp Require Import base option list numbers strings.
From S2P Require Import Prelude CFmt Bits Sample.
Import CFmt Sample.

Module SampleTrip.

(** ** Writing and reading back *)

Abbreviation zlen l := (Z.of_nat (length l)).

Lemma bswap_range n x : 0 <= bswap n x < 2 ^ (8 * Z.of_nat n).
Proof.
  unfold bswap. pose proof (le_combine_range (rev (le_split n x))) as H.
  rewrite length_rev, length_le_split in H. apply H. apply List.Forall_rev, le_split_bytes.
Qed.

Lemma bswap_bswap n x : 0 <= x < 2 ^ (8 * Z.of_nat n) -> bswap n (bswap n x) = x.
Proof.
  intros Hx. unfold bswap at 1 2.
  assert (le_split n (le_combine (rev (le_split n x))) = rev (le_split n x)) as ->.
  { rewrite <-(length_le_split n x) at 1. rewrite <-length_rev. apply le_split_combine.
    apply List.Forall_rev, le_split_bytes. }
  rewrite rev_involutive, le_combine_split. by apply Z.mod_small.
Qed.

Lemma val32_mk64 lo hi : 0 <= lo < 2 ^ 32 -> val32_0 (mk64 lo hi) = lo /\ val32_1 (mk64 lo hi) = hi.
Proof.
  intros Hlo. unfold val32_0, val32_1, mk64. rewrite (Z.mul_comm _ hi).
  rewrite Z_mod_plus_full, Z.mod_small, Z.div_add, Z.div_small by lia. lia.
Qed.

Lemma mk64_range lo hi : 0 <= lo < 2 ^ 32 -> 0 <= hi < 2 ^ 32 -> 0 <= mk64 lo hi < 2 ^ 64.
Proof. unfold mk64. lia. Qed.

Lemma val32_range u : 0 <= u < 2 ^ 64 -> 0 <= val32_0 u < 2 ^ 32 /\ 0 <= val32_1 u < 2 ^ 32.
Proof.
  intros Hu. unfold val32_0, val32_1. split; [apply Z.mod_pos_bound; lia|].
  split; [apply Z.div_pos; lia|apply Z.div_lt_upper_bound; lia].
Qed.

(** The writer's swapping is undone by the parser's. *)
Lemma unswap_reswap_both sw u : 0 <= u < 2 ^ 64 ->
  val32_0 (unswap_both sw (reswap_both sw u)) = val32_0 u /\
  val32_1 (unswap_both sw (reswap_both sw u)) = val32_1 u /\ 0 <= reswap_both sw u < 2 ^ 64.
Proof.
  intros Hu. destruct (val32_range u Hu) as [H0 H1]. unfold unswap_both, reswap_both.
  destruct sw; [|done].
  pose proof (bswap_range 4 (val32_0 u)) as Hr0. pose proof (bswap_range 4 (val32_1 u)) as Hr1.
  change (2 ^ (8 * Z.of_nat 4)) with (2 ^ 32) in *.
  rewrite (bswap_bswap 8) by (apply mk64_range; done).
  destruct (val32_mk64 (bswap 4 (val32_0 u)) (bswap 4 (val32_1 u)) Hr0) as [-> ->].
  rewrite !(bswap_bswap 4) by done. destruct (val32_mk64 (val32_0 u) (val32_1 u) H0) as [-> ->].
  split; [done|]. split; [done|]. apply (bswap_range 8).
Qed.

Lemma unswap_reswap_low sw u : 0 <= u < 2 ^ 64 ->
  val32_0 (unswap_low sw (reswap_low sw u)) = val32_0 u /\ 0 <= reswap_low sw u < 2 ^ 64.
Proof.
  intros Hu. destruct (val32_range u Hu) as [H0 H1]. unfold unswap_low, reswap_low.
  destruct sw; [|done]. pose proof (bswap_range 4 (val32_0 u)) as Hr0.
  change (2 ^ (8 * Z.of_nat 4)) with (2 ^ 32) in *.
  rewrite (bswap_bswap 8) by (apply mk64_range; done).
  destruct (val32_mk64 (bswap 4 (val32_0 u)) (val32_1 u) Hr0) as [-> ->].
  rewrite (bswap_bswap 4) by done. destruct (val32_mk64 (val32_0 u) (val32_1 u) H0) as [-> _].
  split; [done|]. apply (bswap_range 8).
Qed.

(** *** The writer's blocks

    [writes b l u u']: the block stores [l] at the cursor, moves the cursor
    behind it and leaves every other byte alone; the union changes from [u] to
    [u']. *)
Definition writes (b : wblock) (l : list Z) (u u' : Z) : Prop :=
  forall pre old post, length old = length l ->
    b (mkWst (pre ++ old ++ post) (zlen pre) u) = Some (mkWst (pre ++ l ++ post) (zlen pre + zlen l) u').

Lemma wr_bytes_exact pre old post l : length old = length l ->
  wr_bytes (pre ++ old ++ post) (zlen pre) l = Some (pre ++ l ++ post).
Proof.
  intros Hl. rewrite wr_bytes_app by (done || rewrite length_app; lia).
  do 2 f_equal. rewrite drop_app_length'; [done|lia].
Qed.

Lemma writes_nil u : writes Some [] u u.
Proof. intros pre old post Hl. destruct old; [|done]. by rewrite Z.add_0_r. Qed.

Lemma writes_u64 v u : writes (put_u64 true v) (le_split 8 v) u u.
Proof.
  intros pre old post Hl. unfold put_u64, store_u64, advance. cbn [mem warr wu].
  rewrite wr_bytes_exact by done. cbn [mbind option_bind mem warr wu].
  rewrite length_le_split. done.
Qed.

Lemma writes_bind (b1 b2 : wblock) l1 l2 u u1 u2 :
  writes b1 l1 u u1 -> writes b2 l2 u1 u2 ->
  writes (fun w => let* w := b1 w in b2 w) (l1 ++ l2) u u2.
Proof.
  intros H1 H2 pre old post Hl. rewrite length_app in Hl.
  rewrite <-(take_drop (length l1) old), <-(app_assoc (take _ _)).
  rewrite H1 by (rewrite length_take; lia). cbn [mbind option_bind].
  specialize (H2 (pre ++ l1) (drop (length l1) old) post).
  rewrite <-!app_assoc in H2. rewrite length_app, Nat2Z.inj_add in H2.
  rewrite H2 by (rewrite length_drop; lia). rewrite <-app_assoc, length_app. do 2 f_equal. lia.
Qed.

Lemma writes_cons b bl l ls u u1 u2 :
  writes b l u u1 -> writes (wrun bl) ls u1 u2 -> writes (wrun (b :: bl)) (l ++ ls) u u2.
Proof. apply writes_bind. Qed.

Lemma wrun_app b1 b2 w : wrun (b1 ++ b2) w = (let* w := wrun b1 w in wrun b2 w).
Proof.
  revert w. induction b1 as [|b b1 IH]; intros w; [done|]. cbn [app wrun].
  destruct (b w); cbn [mbind option_bind]; [apply IH|done].
Qed.

Lemma writes_app b1 b2 l1 l2 u u1 u2 :
  writes (wrun b1) l1 u u1 -> writes (wrun b2) l2 u1 u2 -> writes (wrun (b1 ++ b2)) (l1 ++ l2) u u2.
Proof.
  intros H1 H2 pre old post Hl. rewrite wrun_app. by apply (writes_bind _ _ _ _ _ _ _ H1 H2).
Qed.

Lemma writes_copy l rest sz u : sz = zlen l -> writes (copy_bytes (Some (l ++ rest)) sz) l u u.
Proof.
  intros ->. intros pre old post Hl. unfold copy_bytes. destruct (Z.eqb_spec (zlen l) 0) as [E|E].
  { destruct l; [|simpl in E; lia]. destruct old; [|done]. by rewrite Z.add_0_r. }
  cbn [mbind option_bind]. rewrite Nat2Z.id.
  change (l ++ rest) with ([] ++ l ++ rest). rewrite (rd_bytes_app_eq [] l rest) by done.
  cbn [mbind option_bind mem warr]. rewrite wr_bytes_exact by done. done.
Qed.

Lemma le_split_app n m v : le_split (n + m) v = le_split n v ++ le_split m (v / 2 ^ (8 * Z.of_nat n)).
Proof.
  revert v. induction n as [|n IH]; intros v; [cbn; by rewrite Z.div_1_r|].
  cbn [Nat.add le_split app]. rewrite IH, Z.div_div by lia. do 4 f_equal.
  rewrite Nat2Z.inj_succ, Z.mul_succ_r, (Z.add_comm _ 8), Z.pow_add_r by lia. lia.
Qed.

Lemma le_combine_app l1 l2 :
  le_combine (l1 ++ l2) = le_combine l1 + 2 ^ (8 * Z.of_nat (length l1)) * le_combine l2.
Proof.
  induction l1 as [|b l1 IH]; [cbn [app length le_combine]; change (2 ^ _) with 1; lia|].
  cbn [app length le_combine]. rewrite IH, Nat2Z.inj_succ, Z.mul_succ_r, Z.pow_add_r by lia.
  change (2 ^ 8) with 256. lia.
Qed.

Lemma le_split_mod n v : le_split n (v mod 2 ^ (8 * Z.of_nat n)) = le_split n v.
Proof.
  rewrite <-(le_combine_split n v), <-(length_le_split n v) at 1.
  apply le_split_combine, le_split_bytes.
Qed.

(** The first [n] bytes of the object behind a pointer. *)
Definition obj (p : option (list Z)) (n : Z) : list Z := take (Z.to_nat n) (default [] p).
Definition points_to (p : option (list Z)) (n : Z) : Prop := is_Some p /\ 0 <= n <= zlen (default [] p).

Lemma length_obj p n : points_to p n -> zlen (obj p n) = n.
Proof. intros [_ H]. unfold obj. rewrite length_take. lia. Qed.

Lemma writes_obj p n sz u : points_to p n -> sz = n -> writes (copy_bytes p sz) (obj p n) u u.
Proof.
  intros Hp ->. pose proof (length_obj p n Hp) as Hl. destruct Hp as [[l ->] Hn].
  unfold obj in *. cbn [default from_option id] in *.
  rewrite <-(take_drop (Z.to_nat n) l) at 1. by apply writes_copy.
Qed.

(** The 64-bit store of the raw size, half of which the data overwrites. *)
Lemma writes_raw p n v u : points_to p n -> 4 <= n ->
  writes (fun w => let* w := store_u64 v (mkWst (mem w) (warr w) v) in copy_bytes p n (advance 4 w))
    (le_split 4 v ++ obj p n) u v.
Proof.
  intros Hp Hr pre old post Hl. pose proof (length_obj _ _ Hp) as Ho.
  rewrite length_app, length_le_split in Hl. cbn [mem warr].
  rewrite <-(take_drop 8 old), <-app_assoc. unfold store_u64. cbn [mem warr wu].
  rewrite wr_bytes_exact by (rewrite length_take, length_le_split; lia).
  cbn [mbind option_bind]. unfold advance at 1. cbn [mem warr wu].
  change (le_split 8 v) with (le_split (4 + 4) v). rewrite le_split_app, <-!app_assoc.
  pose proof (writes_obj p n _ v Hp eq_refl (pre ++ le_split 4 v)
    (le_split 4 (v / 2 ^ (8 * Z.of_nat 4)) ++ drop 8 old) post) as Hw.
  rewrite !length_app, !length_le_split, length_drop, Nat2Z.inj_add in Hw.
  rewrite <-!app_assoc in Hw. replace (zlen pre + Z.of_nat 4) with (zlen pre + 4) in Hw by lia.
  rewrite Hw by lia. rewrite <-?app_assoc, length_app, length_le_split. do 2 f_equal. lia.
Qed.

Lemma le_split_mk64 lo hi : 0 <= lo < 2 ^ 32 -> le_split 4 (mk64 lo hi) = le_split 4 lo.
Proof. intros Hlo. rewrite <-(le_split_mod 4 (mk64 lo hi)). f_equal. by apply val32_mk64. Qed.

Definition w64 (c : bool) (v : Z) : list Z := if c then le_split 8 v else [].

Lemma writes_w64 c v u : writes (put_u64 c v) (w64 c v) u u.
Proof. destruct c; [apply writes_u64|apply writes_nil]. Qed.

Section RoundTrip.
Context (type rf : Z) (sw : bool) (s : perf_sample (list Z)).
Abbreviation has b := (tst type b).

(** The number of elements of a counted array, its first word. *)
Definition nr_of (p : option (list Z)) : Z := le_combine (obj p 8).
Definition wf_counted (p : option (list Z)) (elt : Z) : Prop :=
  points_to p 8 /\ Forall is_byte (obj p 8) /\ nr_of p < 2 ^ 32 /\ points_to p (8 + elt * nr_of p).

Definition wf_regs (r : regs_dump (list Z)) : Prop :=
  0 <= abi r < 2 ^ 64 /\ 0 <= mask r < 2 ^ 64 /\
  (abi r <> 0 -> points_to (regs r) (8 * hweight_long (mask r))).

(** What a caller of the writer provides: values of the width of their field,
    and pointers to objects of the announced size. *)
Record wf_sample : Prop := {
  wf_pid : 0 <= pid s < 2 ^ 32; wf_tid : 0 <= tid s < 2 ^ 32; wf_cpu : 0 <= cpu s < 2 ^ 32;
  wf_ip : 0 <= ip s < 2 ^ 64; wf_time : 0 <= time s < 2 ^ 64; wf_addr : 0 <= addr s < 2 ^ 64;
  wf_id : 0 <= id s < 2 ^ 64; wf_stream : 0 <= stream_id s < 2 ^ 64;
  wf_period : 0 <= period s < 2 ^ 64; wf_weight : 0 <= weight s < 2 ^ 64;
  wf_src : 0 <= data_src s < 2 ^ 64; wf_trans : 0 <= transaction s < 2 ^ 64;
  wf_nr : 0 <= nr_or_value (read s) < 2 ^ 64;
  wf_enabled : 0 <= time_enabled (read s) < 2 ^ 64;
  wf_running : 0 <= time_running (read s) < 2 ^ 64;
  wf_second : has PERF_SAMPLE_READ = true -> if tst rf PERF_FORMAT_GROUP
    then exists p, second (read s) = group_values p /\ nr_or_value (read s) < 2 ^ 32 /\
           points_to p (16 * nr_or_value (read s))
    else exists v, second (read s) = one_id v /\ 0 <= v < 2 ^ 64;
  wf_callchain : has PERF_SAMPLE_CALLCHAIN = true -> wf_counted (callchain s) 8;
  wf_raw : has PERF_SAMPLE_RAW = true -> 4 <= raw_size s < 2 ^ 32 /\ points_to (raw_data s) (raw_size s);
  wf_branch : has PERF_SAMPLE_BRANCH_STACK = true -> wf_counted (branch_stack s) 24;
  wf_uregs : has PERF_SAMPLE_REGS_USER = true -> wf_regs (user_regs s);
  wf_iregs : has PERF_SAMPLE_REGS_INTR = true -> wf_regs (intr_regs s);
  wf_stack : has PERF_SAMPLE_STACK_USER = true -> 0 <= stack_len (user_stack s) < 2 ^ 32 /\
    points_to (stack_data (user_stack s)) (stack_len (user_stack s))
}.

Definition u_tid (u : Z) : Z := if has PERF_SAMPLE_TID then reswap_both sw (mk64 (pid s) (tid s)) else u.
Definition u_cpu (u : Z) : Z :=
  if has PERF_SAMPLE_CPU then reswap_low sw (mk64 (cpu s) (val32_1 u)) else u.

Definition enc_fixed (u : Z) : list Z :=
  w64 (has PERF_SAMPLE_IDENTIFIER) (id s) ++ w64 (has PERF_SAMPLE_IP) (ip s)
  ++ w64 (has PERF_SAMPLE_TID) (u_tid u) ++ w64 (has PERF_SAMPLE_TIME) (time s)
  ++ w64 (has PERF_SAMPLE_ADDR) (addr s) ++ w64 (has PERF_SAMPLE_ID) (id s)
  ++ w64 (has PERF_SAMPLE_STREAM_ID) (stream_id s) ++ w64 (has PERF_SAMPLE_CPU) (u_cpu (u_tid u))
  ++ w64 (has PERF_SAMPLE_PERIOD) (period s) ++ [].

Definition enc_second : list Z :=
  match second (read s) with
  | group_values p => obj p (16 * nr_or_value (read s)) | one_id v => le_split 8 v end.

Definition enc_read : list Z :=
  if has PERF_SAMPLE_READ then
    w64 true (nr_or_value (read s)) ++ w64 (tst rf PERF_FORMAT_TOTAL_TIME_ENABLED) (time_enabled (read s))
    ++ w64 (tst rf PERF_FORMAT_TOTAL_TIME_RUNNING) (time_running (read s)) ++ enc_second ++ []
  else [].

Definition enc_counted (c : bool) (p : option (list Z)) (elt : Z) : list Z :=
  if c then obj p (8 + elt * nr_of p) else [].
Definition enc_raw : list Z :=
  if has PERF_SAMPLE_RAW then le_split 4 (raw_size s) ++ obj (raw_data s) (raw_size s) else [].
Definition enc_regs (c : bool) (r : regs_dump (list Z)) : list Z :=
  if c then
    if negb (abi r =? 0) then le_split 8 (abi r) ++ obj (regs r) (8 * hweight_long (mask r))
    else le_split 8 0
  else [].
Definition enc_stack : list Z :=
  if has PERF_SAMPLE_STACK_USER then
    let sz := stack_len (user_stack s) in
    le_split 8 sz ++ (if negb (sz =? 0) then obj (stack_data (user_stack s)) sz ++ le_split 8 sz else [])
  else [].

Definition enc_tail : list Z :=
  enc_regs (has PERF_SAMPLE_REGS_USER) (user_regs s) ++ enc_stack
  ++ w64 (has PERF_SAMPLE_WEIGHT) (weight s) ++ w64 (has PERF_SAMPLE_DATA_SRC) (data_src s)
  ++ w64 (has PERF_SAMPLE_TRANSACTION) (transaction s)
  ++ enc_regs (has PERF_SAMPLE_REGS_INTR) (intr_regs s) ++ [].

Definition enc_middle : list Z :=
  enc_counted (has PERF_SAMPLE_CALLCHAIN) (callchain s) 8 ++ enc_raw
  ++ enc_counted (has PERF_SAMPLE_BRANCH_STACK) (branch_stack s) 24 ++ [].

Definition sample_bytes (u : Z) : list Z := enc_fixed u ++ enc_read ++ enc_middle ++ enc_tail.

Context (Hs : wf_sample) (Hraw : sw = true -> has PERF_SAMPLE_RAW = false).

Lemma writes_fixed u : writes (wrun (put_fixed sw type s)) (enc_fixed u) u (u_cpu (u_tid u)).
Proof.
  unfold put_fixed, enc_fixed.
  do 2 (eapply writes_cons; [apply writes_w64|]).
  eapply (writes_cons _ _ _ _ u (u_tid u)).
  { unfold put_tid, u_tid, w64. destruct (has PERF_SAMPLE_TID); [|apply writes_nil].
    intros pre old post Hl. apply (writes_u64 _ (reswap_both sw (mk64 (pid s) (tid s))) pre old post Hl). }
  do 4 (eapply writes_cons; [apply writes_w64|]).
  eapply (writes_cons _ _ _ _ _ (u_cpu (u_tid u))).
  { unfold put_cpu, u_cpu, w64. destruct (has PERF_SAMPLE_CPU); [|apply writes_nil].
    intros pre old post Hl.
    apply (writes_u64 _ (reswap_low sw (mk64 (cpu s) (val32_1 (u_tid u)))) pre old post Hl). }
  eapply writes_cons; [apply writes_w64|apply writes_nil].
Qed.

Lemma writes_read u : writes (wrun (put_read type rf s)) enc_read u u.
Proof.
  pose proof (wf_second Hs) as H2.
  unfold put_read, enc_read. destruct (has PERF_SAMPLE_READ); [|apply writes_nil]. specialize (H2 eq_refl).
  do 3 (eapply writes_cons; [apply writes_w64|]). eapply writes_cons; [|apply writes_nil]. unfold put_read_values, enc_second. intros pre old post Hl.
  destruct (tst rf _).
  - destruct H2 as (p & Hp & Hn & Hpt). rewrite Hp in *. pose proof (wf_nr Hs).
    apply (writes_obj p _ _ u Hpt); [rewrite u64_small; lia|exact Hl].
  - destruct H2 as (v & Hv & Hr). rewrite Hv in *. apply writes_u64. exact Hl.
Qed.

Lemma counted_nr_ok p elt : wf_counted p elt -> counted_nr p = Some (nr_of p).
Proof.
  intros ([[l ->] H8] & Hb & _). unfold counted_nr, nr_of, obj. cbn [default from_option id mbind option_bind] in *.
  change (Datatypes.id l) with l in *. unfold rd_le, rd_bytes.
  rewrite (proj2 (Z.leb_le (0 + Z.of_nat 8) (zlen l))) by lia. reflexivity.
Qed.

Lemma nr_of_nonneg p elt : wf_counted p elt -> 0 <= nr_of p.
Proof. intros (_ & Hb & _). apply le_combine_range in Hb. unfold nr_of. lia. Qed.

Lemma writes_middle u : exists u', writes (wrun [put_callchain type s; put_raw sw type s; put_branch_stack type s])
  enc_middle u u'.
Proof.
  pose proof (wf_callchain Hs) as Hc. pose proof (wf_branch Hs) as Hbr.
  exists (if has PERF_SAMPLE_RAW then reswap_both sw (mk64 (raw_size s) (val32_1 u)) else u).
  unfold enc_middle. eapply (writes_cons _ _ _ _ u u).
  { unfold put_callchain, enc_counted. destruct (has PERF_SAMPLE_CALLCHAIN); [|apply writes_nil].
    specialize (Hc eq_refl). pose proof (nr_of_nonneg _ _ Hc) as Hn1. pose proof Hc as (_ & _ & Hb1 & Hp1).
    intros pre old post Hl. rewrite (counted_nr_ok _ 8 Hc). cbn [mbind option_bind].
    apply (writes_obj _ _ _ u Hp1); [rewrite u64_small; lia|done]. }
  eapply writes_cons.
  2: { eapply writes_cons; [|apply writes_nil].
    unfold put_branch_stack, enc_counted. destruct (has PERF_SAMPLE_BRANCH_STACK); [|apply writes_nil].
    specialize (Hbr eq_refl). pose proof (nr_of_nonneg _ _ Hbr) as Hn2. pose proof Hbr as (_ & _ & Hb2 & Hp2).
    intros pre old post Hl. rewrite (counted_nr_ok _ 24 Hbr). cbn [mbind option_bind].
    apply (writes_obj _ _ _ _ Hp2); [rewrite (u64_small (_ * 24)), u64_small; lia|done]. }
  pose proof (wf_raw Hs) as Hrw. unfold put_raw, enc_raw. destruct (has PERF_SAMPLE_RAW) eqn:Er; [|apply writes_nil].
  assert (sw = false) as -> by (apply not_true_is_false; intros E; by specialize (Hraw E)).
  destruct (Hrw eq_refl) as [Hr Hp]. rewrite <-(le_split_mk64 (raw_size s) (val32_1 u)) by lia.
  intros pre old post Hl. exact (writes_raw _ _ _ u Hp (proj1 Hr) pre old post Hl).
Qed.

Lemma hweight_range m : 0 <= m < 2 ^ 64 -> 0 <= hweight_long m <= 64.
Proof.
  intros Hm. unfold Bits.hweight_long. rewrite Bits.hweight64_popcount by done.
  apply (Bits.popcount_range 64).
Qed.

Lemma writes_regs c r u : (c = true -> wf_regs r) -> writes (put_regs c r) (enc_regs c r) u u.
Proof.
  intros Hr. unfold put_regs, enc_regs. destruct c; [|apply writes_nil].
  destruct (Hr eq_refl) as (Ha & Hm & Hp). pose proof (hweight_range _ Hm). destruct (Z.eqb_spec (abi r) 0) as [E|E]; cbn [negb]; [apply writes_u64|].
  apply (writes_bind _ _ _ _ u u u (writes_u64 (abi r) u)).
  apply writes_obj; [by apply Hp|]. rewrite u64_small; lia.
Qed.

Lemma writes_stack u : writes (put_user_stack type s) enc_stack u u.
Proof.
  pose proof (wf_stack Hs) as Hst. unfold put_user_stack, enc_stack.
  destruct (has PERF_SAMPLE_STACK_USER); [|apply writes_nil]. cbv zeta. destruct (Hst eq_refl) as [Hl Hp].
  apply (writes_bind _ _ _ _ u u u (writes_u64 _ u)).
  destruct (_ =? 0); cbn [negb]; [apply writes_nil|].
  apply (writes_bind _ _ _ _ u u u); [by apply writes_obj|apply writes_u64].
Qed.

Lemma writes_tail u : writes (wrun (put_tail type s)) enc_tail u u.
Proof.
  unfold put_tail, enc_tail. eapply writes_cons; [apply writes_regs, Hs|].
  eapply writes_cons; [apply writes_stack|].
  do 3 (eapply writes_cons; [apply writes_w64|]).
  eapply writes_cons; [apply writes_regs, Hs|apply writes_nil].
Qed.

(** The writer stores the encoding of the sample and nothing else. *)
Lemma synthesize_ok u0 hdr old post :
  length hdr = 8%nat -> length old = length (sample_bytes u0) ->
  perf_event__synthesize_sample u0 (hdr ++ old ++ post) type rf s sw
  = Some (hdr ++ sample_bytes u0 ++ post, 8 + zlen (sample_bytes u0)).
Proof.
  intros Hh Hl. unfold perf_event__synthesize_sample, synth_blocks.
  destruct (writes_middle (u_cpu (u_tid u0))) as (u2 & Hm).
  pose proof (writes_app _ _ _ _ _ _ _ (writes_fixed u0) (writes_app _ _ _ _ _ _ _ (writes_read _)
    (writes_app _ _ _ _ _ _ _ Hm (writes_tail u2)))) as Hw.
  specialize (Hw hdr old post Hl). rewrite Hh in Hw. change (Z.of_nat 8) with 8 in Hw.
  rewrite Hw. done.
Qed.

(** *** The announced size *)

Lemma add_if_w64 c v r : 0 <= r -> r + zlen (w64 c v) < 2 ^ 64 -> add_if c 8 r = r + zlen (w64 c v).
Proof.
  unfold add_if, w64. destruct c; [rewrite length_le_split; intros; rewrite u64_small; lia|cbn; lia].
Qed.

Lemma size_fixed_ok u r : 0 <= r -> r + zlen (enc_fixed u) < 2 ^ 64 ->
  size_fixed type r = r + zlen (enc_fixed u).
Proof.
  intros Hr Hb. unfold size_fixed, enc_fixed in *. rewrite !length_app, !Nat2Z.inj_add in *. cbn [length] in *.
  rewrite (add_if_w64 (has PERF_SAMPLE_IDENTIFIER) (id s)) by lia.
  rewrite (add_if_w64 (has PERF_SAMPLE_IP) (ip s)) by lia. rewrite (add_if_w64 (has PERF_SAMPLE_TID) (u_tid u)) by lia.
  rewrite (add_if_w64 (has PERF_SAMPLE_TIME) (time s)) by lia. rewrite (add_if_w64 (has PERF_SAMPLE_ADDR) (addr s)) by lia.
  rewrite (add_if_w64 (has PERF_SAMPLE_ID) (id s)) by lia. rewrite (add_if_w64 (has PERF_SAMPLE_STREAM_ID) (stream_id s)) by lia.
  rewrite (add_if_w64 (has PERF_SAMPLE_CPU) (u_cpu (u_tid u))) by lia. rewrite (add_if_w64 (has PERF_SAMPLE_PERIOD) (period s)) by lia. lia.
Qed.

Lemma size_read_ok r : 0 <= r -> r + zlen enc_read < 2 ^ 64 -> size_read s type rf r = r + zlen enc_read.
Proof.
  intros Hr Hb. pose proof (wf_second Hs) as H2. unfold size_read, enc_read, enc_second in *.
  destruct (has PERF_SAMPLE_READ); [|cbn in *; lia]. specialize (H2 eq_refl).
  rewrite !length_app, !Nat2Z.inj_add in *. cbn [length] in *.
  change (u64 (r + 8)) with (add_if true 8 r). rewrite (add_if_w64 true (nr_or_value (read s)) r) by lia.
  rewrite (add_if_w64 (tst rf PERF_FORMAT_TOTAL_TIME_ENABLED) (time_enabled (read s))) by lia. rewrite (add_if_w64 (tst rf PERF_FORMAT_TOTAL_TIME_RUNNING) (time_running (read s))) by lia.
  destruct (tst rf PERF_FORMAT_GROUP).
  - destruct H2 as (p & Hp & Hn & Hpt). rewrite Hp in *. pose proof (wf_nr Hs).
    rewrite (length_obj _ _ Hpt) in *. rewrite (u64_small (_ * 16)), u64_small; lia.
  - destruct H2 as (v & Hv & _). rewrite Hv in *. rewrite length_le_split in *. rewrite u64_small; lia.
Qed.

Lemma size_regs_ok c rg r : (c = true -> wf_regs rg) -> 0 <= r -> r + zlen (enc_regs c rg) < 2 ^ 64 ->
  size_regs c rg r = r + zlen (enc_regs c rg).
Proof.
  intros Hw Hr Hb. unfold size_regs, enc_regs in *. destruct c; [|cbn in *; lia].
  destruct (Hw eq_refl) as (Ha & Hm & Hp). pose proof (hweight_range _ Hm).
  destruct (Z.eqb_spec (abi rg) 0) as [E|E]; cbn [negb] in *.
  - rewrite length_le_split in *. rewrite u64_small; lia.
  - rewrite length_app, Nat2Z.inj_add, length_le_split, (length_obj _ _ (Hp E)) in *.
    rewrite (u64_small (_ * 8)) by lia. rewrite (u64_small (r + 8)), u64_small; lia.
Qed.

Lemma size_stack_ok r : 0 <= r -> r + zlen enc_stack < 2 ^ 64 ->
  size_user_stack s type r = r + zlen enc_stack.
Proof.
  intros Hr Hb. pose proof (wf_stack Hs) as Hw. unfold size_user_stack, enc_stack in *.
  destruct (has PERF_SAMPLE_STACK_USER); [|cbn in *; lia]. destruct (Hw eq_refl) as [Hl Hp].
  cbv zeta in *. rewrite length_app, Nat2Z.inj_add, length_le_split in *.
  destruct (Z.eqb_spec (stack_len (user_stack s)) 0) as [E|E]; cbn [negb] in *.
  - cbn [length] in *. rewrite u64_small; lia.
  - rewrite length_app, Nat2Z.inj_add, length_le_split, (length_obj _ _ Hp) in *.
    rewrite (u64_small (r + 8)) by lia. rewrite (u64_small (r + 8 + _)), u64_small; lia.
Qed.

Lemma size_middle_ok r : 0 <= r -> r + zlen enc_middle < 2 ^ 64 ->
  (let* result := size_callchain s type r in
   let result := size_raw s type result in size_branch_stack s type result) = Some (r + zlen enc_middle).
Proof.
  intros Hr Hb. pose proof (wf_callchain Hs) as Hc. pose proof (wf_branch Hs) as Hbr.
  pose proof (wf_raw Hs) as Hrw.
  unfold size_callchain, size_raw, size_branch_stack, enc_middle, enc_counted, enc_raw in *.
  rewrite !length_app, !Nat2Z.inj_add in *. cbn [length] in *.
  assert ((if has PERF_SAMPLE_CALLCHAIN then
      let* nr := counted_nr (callchain s) in Some (u64 (r + u64 ((nr + 1) * 8))) else Some r)
    = Some (r + zlen (if has PERF_SAMPLE_CALLCHAIN then obj (callchain s) (8 + 8 * nr_of (callchain s)) else [])))
    as ->.
  { destruct (has PERF_SAMPLE_CALLCHAIN); [|cbn; f_equal; lia]. specialize (Hc eq_refl).
    rewrite (counted_nr_ok _ 8 Hc). cbn [mbind option_bind]. pose proof (nr_of_nonneg _ _ Hc).
    destruct Hc as (_ & _ & Hn & Hp). rewrite (length_obj _ _ Hp) in *. f_equal.
    rewrite (u64_small ((_ + 1) * 8)), u64_small; lia. }
  cbn [mbind option_bind]. set (x := zlen (if has PERF_SAMPLE_CALLCHAIN then _ else _)) in *.
  assert (0 <= x) as Hx by (unfold x; lia). clearbody x.
  assert ((if has PERF_SAMPLE_RAW then u64 (u64 (r + x + 4) + raw_size s) else r + x)
    = r + x + zlen (if has PERF_SAMPLE_RAW then le_split 4 (raw_size s) ++ obj (raw_data s) (raw_size s) else []))
    as ->.
  { destruct (has PERF_SAMPLE_RAW); [|cbn; lia]. destruct (Hrw eq_refl) as [Hrs Hp].
    rewrite length_app, Nat2Z.inj_add, length_le_split, (length_obj _ _ Hp) in *.
    rewrite (u64_small (r + x + 4)), u64_small; lia. }
  destruct (has PERF_SAMPLE_BRANCH_STACK); [|cbn; f_equal; lia]. specialize (Hbr eq_refl).
  rewrite (counted_nr_ok _ 24 Hbr). cbn [mbind option_bind]. pose proof (nr_of_nonneg _ _ Hbr).
  destruct Hbr as (_ & _ & Hn & Hp). rewrite (length_obj _ _ Hp) in *. f_equal.
  rewrite (u64_small (_ * 24)) by lia. rewrite (u64_small (_ + 8)), u64_small; lia.
Qed.

(** The announced size is the size of what is written, header included. *)
Lemma sample_event_size_ok u : zlen (sample_bytes u) < 2 ^ 60 ->
  perf_event__sample_event_size s type rf = Some (8 + zlen (sample_bytes u)).
Proof.
  intros Hb. unfold perf_event__sample_event_size, sample_bytes in *.
  rewrite !length_app, !Nat2Z.inj_add in *. rewrite (size_fixed_ok u) by lia.
  rewrite size_read_ok by lia.
  pose proof (size_middle_ok (8 + zlen (enc_fixed u) + zlen enc_read) ltac:(lia) ltac:(lia)) as Hm.
  destruct (size_callchain _ _ _) as [r1|]; [|done]. cbn [mbind option_bind] in *. rewrite Hm.
  cbn [mbind option_bind]. unfold enc_tail in *. rewrite !length_app, !Nat2Z.inj_add in *. cbn [length] in *.
  rewrite (size_regs_ok (has PERF_SAMPLE_REGS_USER)) by (apply Hs || lia). rewrite size_stack_ok by lia.
  rewrite (add_if_w64 (has PERF_SAMPLE_WEIGHT) (weight s)) by lia. rewrite (add_if_w64 (has PERF_SAMPLE_DATA_SRC) (data_src s)) by lia.
  rewrite (add_if_w64 (has PERF_SAMPLE_TRANSACTION) (transaction s)) by lia. rewrite size_regs_ok by (apply Hs || lia). f_equal. lia.
Qed.

(** *** Reading back *)

Section ReadBack.
Context (ev : list Z) (max : Z).

(** [reads f l upd]: where the event holds [l], the parser step [f] consumes it
    and applies [upd], which may store the offset of [l]. *)
Definition reads (f : pst -> option (pst + Z)) (l : list Z) (upd : Z -> perf_sample Z -> perf_sample Z)
    : Prop :=
  forall pre post d, ev = pre ++ l ++ post -> zlen pre + zlen l <= max ->
    f (mkPst (zlen pre) d) = Some (inl (mkPst (zlen pre + zlen l) (upd (zlen pre) d))).

Definition spec := list (list Z * (Z -> perf_sample Z -> perf_sample Z)).

(** The updates of a run, with the bytes each of them stands for. *)
Fixpoint chain (sp : spec) (off : Z) (d d' : perf_sample Z) : Prop :=
  match sp with
  | [] => d' = d
  | (l, upd) :: sp =>
      rd_bytes ev off (length l) = Some l /\
      exists d1 off1, d1 = upd off d /\ off1 = off + zlen l /\ chain sp off1 d1 d'
  end.

Lemma run_chain bl sp pre post d :
  Forall2 (fun b s => reads b (fst s) (snd s)) bl sp ->
  ev = pre ++ concat (fst <$> sp) ++ post -> zlen pre + zlen (concat (fst <$> sp)) <= max ->
  exists d', run bl (mkPst (zlen pre) d)
      = Some (inl (mkPst (zlen pre + zlen (concat (fst <$> sp))) d')) /\ chain sp (zlen pre) d d'.
Proof.
  intros Hf. revert pre d. induction Hf as [|b [l upd] bl sp Hb _ IH]; intros pre d Hev Hm.
  { exists d. cbn. rewrite Z.add_0_r. done. }
  rewrite fmap_cons in *. cbn [concat fst] in *. rewrite length_app, Nat2Z.inj_add in Hm.
  rewrite <-app_assoc in Hev. cbn [run].
  rewrite (Hb pre (concat (fst <$> sp) ++ post) d Hev ltac:(cbn; lia)). cbn [mbind option_bind fst snd].
  destruct (IH (pre ++ l) (upd (zlen pre) d)) as (d' & Hrun & Hch).
  { by rewrite <-app_assoc. } { rewrite length_app. lia. }
  rewrite length_app, Nat2Z.inj_add in Hrun, Hch. exists d'. rewrite Hrun. split.
  - rewrite length_app. do 3 f_equal; lia.
  - cbn [chain]. split; [|by exists (upd (zlen pre) d), (zlen pre + zlen l)]. rewrite Hev. by apply rd_bytes_app_eq.
Qed.

Lemma rd_bytes_sub off n a b c : rd_bytes ev off n = Some (a ++ b ++ c) ->
  rd_bytes ev (off + zlen a) (length b) = Some b.
Proof.
  unfold rd_bytes. destruct (Z.leb_spec 0 off); [|done].
  destruct (Z.leb_spec (off + Z.of_nat n) (zlen ev)); [|done]. cbn [andb]. intros [= Ht].
  assert (length (take n (drop (Z.to_nat off) ev)) = length (a ++ b ++ c)) as Hl by by rewrite Ht.
  rewrite length_take, length_drop, !length_app in Hl.
  rewrite !(proj2 (Z.leb_le _ _)) by lia. cbn [andb]. f_equal.
  replace (Z.to_nat (off + zlen a)) with (Z.to_nat off + length a)%nat by lia. rewrite <-drop_drop.
  rewrite <-(take_drop n (drop (Z.to_nat off) ev)), Ht, <-app_assoc.
  rewrite drop_app_length, <-app_assoc. apply take_app_length.
Qed.

Lemma overflow_check_ok arr sz (k : option (pst + Z)) : 0 <= arr -> 0 <= sz -> arr + sz <= max ->
  OVERFLOW_CHECK max arr sz k = k.
Proof.
  intros Ha Hz Hm. unfold OVERFLOW_CHECK, overflow. rewrite !Z.gtb_ltb.
  rewrite !(proj2 (Z.ltb_ge _ _)) by lia. done.
Qed.

Lemma reads_skip f l upd (c : bool) : (c = true -> reads f l upd) ->
  reads (fun s => if c then f s else Some (inl s)) (if c then l else [])
    (fun off d => if c then upd off d else d).
Proof.
  intros Hf. destruct c; [by apply Hf|]. intros pre post d _ _. by rewrite Z.add_0_r.
Qed.

Lemma reads_get c upd v : 0 <= v < 2 ^ 64 ->
  reads (get_u64 ev c upd) (w64 c v) (fun _ d => if c then upd v d else d).
Proof.
  intros Hv. apply (reads_skip (fun s => let* v := rd_le ev (array s) 8 in
    Some (inl (mkPst (array s + 8) (upd v (data s))))) (le_split 8 v) (fun _ => upd v)).
  intros _ pre post d Hev _. cbn [array data]. rewrite Hev, (rd_le_split pre 8 v post) by done.
  cbn [mbind option_bind]. by rewrite length_le_split.
Qed.

Lemma reads_get_checked c upd v : 0 <= v < 2 ^ 64 ->
  reads (get_u64_checked ev max c upd) (w64 c v) (fun _ d => if c then upd v d else d).
Proof.
  intros Hv pre post d Hev Hm. unfold get_u64_checked. cbn [array].
  pose proof (reads_get c upd v Hv pre post d Hev Hm) as Hg. destruct c; [|exact Hg].
  cbn [w64] in Hm. rewrite length_le_split in Hm. unfold OVERFLOW_CHECK_u64.
  rewrite overflow_check_ok by lia. exact Hg.
Qed.

Lemma reads_counted c elt upd p : 1 <= elt <= 24 -> (c = true -> wf_counted p elt) ->
  reads (parse_counted ev max c elt upd) (enc_counted c p elt)
    (fun off d => if c then upd (Some off) d else d).
Proof.
  intros He Hw pre post d Hev Hm. unfold parse_counted, enc_counted in *. cbn [array data].
  destruct c; [|by rewrite Z.add_0_r]. specialize (Hw eq_refl). pose proof (nr_of_nonneg _ _ Hw) as Hn.
  destruct Hw as (H8 & Hb & Hn32 & Hp). rewrite (length_obj _ _ Hp) in *. unfold OVERFLOW_CHECK_u64.
  rewrite overflow_check_ok by lia.
  assert (obj p (8 + elt * nr_of p) = obj p 8 ++ drop 8 (obj p (8 + elt * nr_of p))) as Hsplit.
  { unfold obj. rewrite <-(take_drop 8 (take (Z.to_nat (8 + elt * nr_of p)) _)) at 1. f_equal.
    rewrite take_take. f_equal. lia. }
  assert (rd_le ev (zlen pre) 8 = Some (nr_of p)) as ->.
  { unfold rd_le. rewrite Hev, Hsplit, <-app_assoc. pose proof (length_obj _ _ H8).
    rewrite (rd_bytes_app_eq pre (obj p 8)) by lia. done. }
  cbn [mbind option_bind]. unfold max_nr. rewrite Z.gtb_ltb, (proj2 (Z.ltb_ge _ _))
    by (apply Z.div_le_lower_bound; nia).
  rewrite overflow_check_ok by nia. do 3 f_equal; lia.
Qed.

Lemma reads_raw : reads (parse_raw ev max sw type) (enc_raw)
  (fun off d => if has PERF_SAMPLE_RAW
                then set_raw_data (Some (off + 4)) (set_raw_size (raw_size s) d) else d).
Proof.
  intros pre post d Hev Hm. pose proof (wf_raw Hs) as Hw. unfold parse_raw, enc_raw in *. cbn [array data].
  destruct (has PERF_SAMPLE_RAW); [|by rewrite Z.add_0_r]. destruct (Hw eq_refl) as [Hr Hp].
  assert (sw = false) as -> by (apply not_true_is_false; intros E; by specialize (Hraw E)).
  pose proof (length_obj _ _ Hp) as Ho.
  rewrite length_app, Nat2Z.inj_add, length_le_split in *. unfold OVERFLOW_CHECK_u64.
  rewrite overflow_check_ok by lia.
  set (b4 := take 4 (obj (raw_data s) (raw_size s))).
  assert (rd_le ev (zlen pre) 8 = Some (mk64 (raw_size s) (le_combine b4))) as ->.
  { unfold rd_le. rewrite Hev, <-app_assoc, <-(take_drop 4 (obj (raw_data s) (raw_size s))).
    fold b4. rewrite <-(app_assoc b4), (app_assoc (le_split 4 _) b4).
    assert (length b4 = 4%nat) as Hb4 by (unfold b4; rewrite length_take; lia).
    rewrite (rd_bytes_app_eq pre (le_split 4 (raw_size s) ++ b4))
      by (done || rewrite length_app, length_le_split, Hb4; done).
    cbn [mbind option_bind]. f_equal. rewrite le_combine_app, length_le_split, le_combine_split.
    rewrite Z.mod_small by (cbn; lia). done. }
  cbn [mbind option_bind unswap_both]. cbn [raw_size set_raw_size].
  destruct (val32_mk64 (raw_size s) (le_combine b4) ltac:(lia)) as [-> _].
  rewrite overflow_check_ok by lia. do 3 f_equal; lia.
Qed.

Lemma reads_regs c m get upd r :
  (c = true -> wf_regs r) -> m = mask r ->
  reads (parse_regs ev max c m get upd) (enc_regs c r)
    (fun off d => if c then
       let d1 := upd (mkRegs (abi r) (mask (get d)) (regs (get d))) d in
       if negb (abi r =? 0) then upd (mkRegs (abi r) m (Some (off + 8))) d1 else d1 else d).
Proof.
  intros Hw -> pre post d Hev Hm. unfold parse_regs, enc_regs in *. cbn [array data].
  destruct c; [|by rewrite Z.add_0_r]. destruct (Hw eq_refl) as (Ha & Hmk & Hp).
  pose proof (hweight_range _ Hmk) as Hh. unfold OVERFLOW_CHECK_u64, PERF_SAMPLE_REGS_ABI_NONE.
  destruct (Z.eqb_spec (abi r) 0) as [E|E]; cbn [negb] in *.
  - rewrite length_le_split in *. rewrite overflow_check_ok by lia.
    rewrite Hev, (rd_le_split pre 8 0 post) by (done || lia). cbn [mbind option_bind Z.eqb negb].
    rewrite E. done.
  - rewrite length_app, Nat2Z.inj_add, length_le_split, (length_obj _ _ (Hp E)) in *.
    rewrite overflow_check_ok by lia. rewrite <-app_assoc in Hev.
    assert (rd_le ev (zlen pre) 8 = Some (abi r)) as -> by (rewrite Hev; by apply rd_le_split).
    cbn [mbind option_bind]. rewrite (proj2 (Z.eqb_neq _ _)) by done. cbn [negb].
    rewrite u64_small by lia. rewrite overflow_check_ok by lia. do 3 f_equal; lia.
Qed.

Lemma reads_stack : reads (parse_user_stack ev max type) enc_stack
  (fun off d => if has PERF_SAMPLE_STACK_USER then
     let sz := stack_len (user_stack s) in
     set_user_stack (if sz =? 0 then mkStack (u16 off) 0 (stack_data (user_stack d))
                     else mkStack (u16 off) sz (Some (off + 8))) d else d).
Proof.
  intros pre post d Hev Hm. pose proof (wf_stack Hs) as Hw. unfold parse_user_stack, enc_stack in *.
  cbn [array data]. destruct (has PERF_SAMPLE_STACK_USER); [|by rewrite Z.add_0_r].
  destruct (Hw eq_refl) as [Hl Hp]. cbv zeta in *. unfold OVERFLOW_CHECK_u64.
  set (sz := stack_len (user_stack s)) in *.
  rewrite length_app, Nat2Z.inj_add, length_le_split in *. rewrite overflow_check_ok by lia.
  rewrite <-app_assoc in Hev.
  assert (rd_le ev (zlen pre) 8 = Some sz) as -> by (rewrite Hev; apply rd_le_split; cbn; lia).
  cbn [mbind option_bind]. replace (zlen pre + 8 - 8) with (zlen pre) by lia.
  destruct (Z.eqb_spec sz 0) as [E|E]; cbn [negb] in *.
  - cbn [length]. do 3 f_equal; lia.
  - rewrite length_app, Nat2Z.inj_add, length_le_split, (length_obj _ _ Hp) in *.
    rewrite overflow_check_ok by lia. rewrite overflow_check_ok by lia.
    assert (rd_le ev (zlen pre + 8 + sz) 8 = Some sz) as ->.
    { rewrite Hev, <-app_assoc, !(app_assoc pre), (app_assoc (pre ++ _)). apply rd_le_split; [|cbn; lia].
      rewrite !length_app, !Nat2Z.inj_add, length_le_split, (length_obj _ _ Hp). lia. }
    cbn [mbind option_bind]. rewrite Z.gtb_ltb, Z.ltb_irrefl. do 3 f_equal; lia.
Qed.

Lemma reads_reset f : reads (reset f) [] (fun _ d => f d).
Proof. intros pre post d _ _. unfold reset. cbn [array data]. by rewrite Z.add_0_r. Qed.

(** The values of a read group, at the offset where they are found. *)
Definition read_update (off : Z) (r : sample_read Z) : sample_read Z :=
  let o3 := off + 8 + zlen (w64 (tst rf PERF_FORMAT_TOTAL_TIME_ENABLED) 0)
            + zlen (w64 (tst rf PERF_FORMAT_TOTAL_TIME_RUNNING) 0) in
  mkRead (if tst rf PERF_FORMAT_TOTAL_TIME_ENABLED then time_enabled (read s) else time_enabled r)
    (if tst rf PERF_FORMAT_TOTAL_TIME_RUNNING then time_running (read s) else time_running r)
    (nr_or_value (read s))
    match second (read s) with group_values _ => group_values (Some o3) | one_id v => one_id v end.

Lemma length_w64 c v : zlen (w64 c v) = if c then 8 else 0.
Proof. unfold w64. destruct c; [by rewrite length_le_split|done]. Qed.

Lemma reads_values : has PERF_SAMPLE_READ = true ->
  forall pre post d, ev = pre ++ enc_second ++ post -> zlen pre + zlen enc_second <= max ->
  nr_or_value (read d) = nr_or_value (read s) ->
  parse_read_values ev max rf (mkPst (zlen pre) d)
  = Some (inl (mkPst (zlen pre + zlen enc_second) (set_second
      match second (read s) with group_values _ => group_values (Some (zlen pre)) | one_id v => one_id v end d))).
Proof.
  intros Hrd pre post d Hev Hm Hnr. pose proof (wf_second Hs Hrd) as H2. pose proof (wf_nr Hs) as Hn0.
  unfold parse_read_values, enc_second in *. cbn [array data]. destruct (tst rf PERF_FORMAT_GROUP).
  - destruct H2 as (p & Hp & Hn & Hpt). rewrite Hp in *. rewrite (length_obj _ _ Hpt) in *. rewrite Hnr.
    unfold max_nr. rewrite Z.gtb_ltb, (proj2 (Z.ltb_ge _ _)) by (change ((2 ^ 64 - 1) / 16) with (2 ^ 60 - 1); lia).
    rewrite overflow_check_ok by lia. do 3 f_equal; lia.
  - destruct H2 as (v & Hv & Hvr). rewrite Hv in *.
    exact (reads_get_checked true (fun v => set_second (one_id v)) v Hvr pre post d Hev Hm).
Qed.

Lemma reads_read : reads (run (parse_read ev max rf type)) enc_read
  (fun off d => if has PERF_SAMPLE_READ then set_read (read_update off (read d)) d else d).
Proof.
  intros pre post d Hev Hm. pose proof reads_values as Hval. unfold parse_read, enc_read in *.
  destruct (has PERF_SAMPLE_READ); [|cbn [run]; by rewrite Z.add_0_r]. specialize (Hval eq_refl).
  rewrite !app_nil_r in *. set (l := enc_second) in *.
  pose proof (reads_get_checked true set_nr _ (wf_nr Hs)) as H1.
  pose proof (reads_get_checked (tst rf PERF_FORMAT_TOTAL_TIME_ENABLED) set_enabled _ (wf_enabled Hs)) as H2.
  pose proof (reads_get_checked (tst rf PERF_FORMAT_TOTAL_TIME_RUNNING) set_running _ (wf_running Hs)) as H3.
  set (l1 := w64 true _) in *. set (l2 := w64 (tst rf PERF_FORMAT_TOTAL_TIME_ENABLED) _) in *.
  set (l3 := w64 (tst rf PERF_FORMAT_TOTAL_TIME_RUNNING) _) in *.
  rewrite !length_app, !Nat2Z.inj_add in Hm |- *. rewrite <-!app_assoc in Hev. cbn [run].
  specialize (H1 pre (l2 ++ l3 ++ l ++ post) d Hev ltac:(lia)). rewrite H1. cbn [mbind option_bind].
  specialize (H2 (pre ++ l1) (l3 ++ l ++ post)). rewrite <-!app_assoc, length_app, Nat2Z.inj_add in H2.
  rewrite (H2 _ Hev) by lia. cbn [mbind option_bind].
  specialize (H3 (pre ++ l1 ++ l2) (l ++ post)). rewrite <-!app_assoc, !length_app, !Nat2Z.inj_add, Z.add_assoc in H3.
  rewrite (H3 _ Hev) by lia. cbn [mbind option_bind].
  specialize (Hval (pre ++ l1 ++ l2 ++ l3) post).
  rewrite <-!app_assoc, !length_app, !Nat2Z.inj_add, !Z.add_assoc in Hval.
  rewrite (Hval _ Hev).
  - cbn [mbind option_bind]. do 3 f_equal; [lia|]. unfold read_update, l1, l2, l3. rewrite !length_w64.
    destruct (tst rf PERF_FORMAT_TOTAL_TIME_ENABLED), (tst rf PERF_FORMAT_TOTAL_TIME_RUNNING); done.
  - lia.
  - destruct (tst rf PERF_FORMAT_TOTAL_TIME_ENABLED), (tst rf PERF_FORMAT_TOTAL_TIME_RUNNING); done.
Qed.

(** What the parser makes of the encoding, block by block. *)
Definition fixed_spec (u : Z) : spec :=
  [ (w64 (has PERF_SAMPLE_IDENTIFIER) (id s), fun _ d => if has PERF_SAMPLE_IDENTIFIER then set_id (id s) d else d);
    (w64 (has PERF_SAMPLE_IP) (ip s), fun _ d => if has PERF_SAMPLE_IP then set_ip (ip s) d else d);
    (w64 (has PERF_SAMPLE_TID) (u_tid u), fun _ d => if has PERF_SAMPLE_TID
      then set_tid (val32_1 (unswap_both sw (u_tid u))) (set_pid (val32_0 (unswap_both sw (u_tid u))) d) else d);
    (w64 (has PERF_SAMPLE_TIME) (time s), fun _ d => if has PERF_SAMPLE_TIME then set_time (time s) d else d);
    (w64 (has PERF_SAMPLE_ADDR) (addr s), fun _ d => if has PERF_SAMPLE_ADDR then set_addr (addr s) d else d);
    (w64 (has PERF_SAMPLE_ID) (id s), fun _ d => if has PERF_SAMPLE_ID then set_id (id s) d else d);
    (w64 (has PERF_SAMPLE_STREAM_ID) (stream_id s),
      fun _ d => if has PERF_SAMPLE_STREAM_ID then set_stream_id (stream_id s) d else d);
    (w64 (has PERF_SAMPLE_CPU) (u_cpu (u_tid u)), fun _ d => if has PERF_SAMPLE_CPU
      then set_cpu (val32_0 (unswap_low sw (u_cpu (u_tid u)))) d else d);
    (w64 (has PERF_SAMPLE_PERIOD) (period s), fun _ d => if has PERF_SAMPLE_PERIOD then set_period (period s) d else d) ].

Definition regs_update (c : bool) (get : perf_sample Z -> regs_dump Z)
    (upd : regs_dump Z -> perf_sample Z -> perf_sample Z) (r : regs_dump (list Z)) (off : Z)
    (d : perf_sample Z) : perf_sample Z :=
  if c then
    let d1 := upd (mkRegs (abi r) (mask (get d)) (regs (get d))) d in
    if negb (abi r =? 0) then upd (mkRegs (abi r) (mask r) (Some (off + 8))) d1 else d1 else d.

Definition middle_spec : spec :=
  [ (enc_counted (has PERF_SAMPLE_CALLCHAIN) (callchain s) 8,
      fun off d => if has PERF_SAMPLE_CALLCHAIN then set_callchain (Some off) d else d);
    (enc_raw, fun off d => if has PERF_SAMPLE_RAW
                then set_raw_data (Some (off + 4)) (set_raw_size (raw_size s) d) else d);
    (enc_counted (has PERF_SAMPLE_BRANCH_STACK) (branch_stack s) 24,
      fun off d => if has PERF_SAMPLE_BRANCH_STACK then set_branch_stack (Some off) d else d) ].

Definition tail_spec : spec :=
  [ (enc_regs (has PERF_SAMPLE_REGS_USER) (user_regs s),
      regs_update (has PERF_SAMPLE_REGS_USER) user_regs set_user_regs (user_regs s));
    (enc_stack, fun off d => if has PERF_SAMPLE_STACK_USER then
       let sz := stack_len (user_stack s) in
       set_user_stack (if sz =? 0 then mkStack (u16 off) 0 (stack_data (user_stack d))
                     else mkStack (u16 off) sz (Some (off + 8))) d else d);
    ([], fun _ => set_weight 0);
    (w64 (has PERF_SAMPLE_WEIGHT) (weight s), fun _ d => if has PERF_SAMPLE_WEIGHT then set_weight (weight s) d else d);
    ([], fun _ => set_data_src PERF_MEM_DATA_SRC_NONE);
    (w64 (has PERF_SAMPLE_DATA_SRC) (data_src s),
      fun _ d => if has PERF_SAMPLE_DATA_SRC then set_data_src (data_src s) d else d);
    ([], fun _ => set_transaction 0);
    (w64 (has PERF_SAMPLE_TRANSACTION) (transaction s),
      fun _ d => if has PERF_SAMPLE_TRANSACTION then set_transaction (transaction s) d else d);
    ([], fun _ d => set_intr_regs (mkRegs PERF_SAMPLE_REGS_ABI_NONE (mask (intr_regs d)) (regs (intr_regs d))) d);
    (enc_regs (has PERF_SAMPLE_REGS_INTR) (intr_regs s),
      regs_update (has PERF_SAMPLE_REGS_INTR) intr_regs set_intr_regs (intr_regs s)) ].

Definition read_spec : spec :=
  [ (enc_read, fun off d => if has PERF_SAMPLE_READ then set_read (read_update off (read d)) d else d) ].

Definition full_spec (u : Z) : spec := fixed_spec u ++ read_spec ++ middle_spec ++ tail_spec.

Lemma full_spec_bytes u : concat (fst <$> full_spec u) = sample_bytes u.
Proof.
  unfold full_spec, sample_bytes, enc_fixed, enc_middle, enc_tail.
  cbn [fixed_spec read_spec middle_spec tail_spec app fmap list_fmap fst concat].
  rewrite <-!app_assoc. cbn [app]. rewrite ?app_nil_r. done.
Qed.

Lemma u_tid_range u : 0 <= u < 2 ^ 64 -> 0 <= u_tid u < 2 ^ 64.
Proof.
  intros Hu. unfold u_tid. destruct (has PERF_SAMPLE_TID); [|done].
  apply unswap_reswap_both. apply mk64_range; apply Hs.
Qed.

Lemma u_cpu_range u : 0 <= u < 2 ^ 64 -> 0 <= u_cpu u < 2 ^ 64.
Proof.
  intros Hu. unfold u_cpu. destruct (has PERF_SAMPLE_CPU); [|done].
  apply unswap_reswap_low. apply mk64_range; [apply Hs|]. by apply val32_range.
Qed.

Context (a : perf_event_attr).
Context (Hmu : has PERF_SAMPLE_REGS_USER = true -> sample_regs_user a = mask (user_regs s)).
Context (Hmi : has PERF_SAMPLE_REGS_INTR = true -> sample_regs_intr a = mask (intr_regs s)).

Definition all_blocks : list block :=
  parse_fixed ev sw type ++ [run (parse_read ev max rf type)]
  ++ [parse_callchain ev max type; parse_raw ev max sw type; parse_branch_stack ev max type]
  ++ parse_tail ev max a type.

Lemma reads_regs' c m get upd r : (c = true -> wf_regs r) -> (c = true -> m = mask r) ->
  reads (parse_regs ev max c m get upd) (enc_regs c r) (regs_update c get upd r).
Proof.
  intros Hw Hm. destruct c.
  - rewrite (Hm eq_refl). by apply reads_regs.
  - intros pre post d _ _. cbn. by rewrite Z.add_0_r.
Qed.

Lemma all_blocks_read u : 0 <= u < 2 ^ 64 ->
  Forall2 (fun b s => reads b (fst s) (snd s)) all_blocks (full_spec u).
Proof.
  intros Hu. pose proof (u_tid_range u Hu). pose proof (u_cpu_range (u_tid u) ltac:(done)).
  unfold all_blocks, full_spec, parse_fixed, fixed_spec, read_spec, middle_spec, parse_tail, tail_spec.
  cbn [app]. repeat apply Forall2_cons_2; try apply Forall2_nil_2; cbn [fst snd].
  all: try (apply (reads_get _ (fun u d => set_cpu (val32_0 (unswap_low sw u)) d)); done).
  all: try (apply (reads_get _ (fun u d => set_tid (val32_1 (unswap_both sw u))
    (set_pid (val32_0 (unswap_both sw u)) d))); done).
  all: try (apply reads_get; try apply Hs; done).
  all: try (apply reads_get_checked, Hs). all: try apply reads_reset.
  - apply reads_read.
  - apply reads_counted; [lia|apply Hs].
  - apply reads_raw.
  - apply reads_counted; [lia|apply Hs].
  - apply reads_regs'; [apply Hs|exact Hmu].
  - apply reads_stack.
  - apply reads_regs'; [apply Hs|exact Hmi].
Qed.

Definition found (p : option Z) (o : option (list Z)) (n : Z) : Prop :=
  exists q, p = Some q /\ rd_bytes ev q (length (obj o n)) = Some (obj o n).

Definition regs_match (c : bool) (r : regs_dump Z) (r0 : regs_dump (list Z)) : Prop :=
  c = true -> abi r = abi r0 /\
    (abi r0 <> 0 -> mask r = mask r0 /\ found (regs r) (regs r0) (8 * hweight_long (mask r0))).

(** The sample [d] that was parsed out of [ev] is the sample [s] that was
    written; a field that the sample type does not include has its default. *)
Record matches (d : perf_sample Z) : Prop := {
  m_id : id d = if has PERF_SAMPLE_IDENTIFIER || has PERF_SAMPLE_ID then id s else 2 ^ 64 - 1;
  m_ip : ip d = if has PERF_SAMPLE_IP then ip s else 0;
  m_pid : pid d = if has PERF_SAMPLE_TID then pid s else 2 ^ 32 - 1;
  m_tid : tid d = if has PERF_SAMPLE_TID then tid s else 2 ^ 32 - 1;
  m_time : time d = if has PERF_SAMPLE_TIME then time s else 2 ^ 64 - 1;
  m_addr : addr d = if has PERF_SAMPLE_ADDR then addr s else 0;
  m_stream : stream_id d = if has PERF_SAMPLE_STREAM_ID then stream_id s else 2 ^ 64 - 1;
  m_cpu : cpu d = if has PERF_SAMPLE_CPU then cpu s else 2 ^ 32 - 1;
  m_period : period d = if has PERF_SAMPLE_PERIOD then period s else sample_period a;
  m_weight : weight d = if has PERF_SAMPLE_WEIGHT then weight s else 0;
  m_src : data_src d = if has PERF_SAMPLE_DATA_SRC then data_src s else PERF_MEM_DATA_SRC_NONE;
  m_trans : transaction d = if has PERF_SAMPLE_TRANSACTION then transaction s else 0;
  m_read : has PERF_SAMPLE_READ = true ->
    nr_or_value (read d) = nr_or_value (read s) /\
    time_enabled (read d) = (if tst rf PERF_FORMAT_TOTAL_TIME_ENABLED then time_enabled (read s) else 0) /\
    time_running (read d) = (if tst rf PERF_FORMAT_TOTAL_TIME_RUNNING then time_running (read s) else 0) /\
    match second (read s) with
    | one_id v => second (read d) = one_id v
    | group_values o => exists p, second (read d) = group_values p /\
                          found p o (16 * nr_or_value (read s))
    end;
  m_callchain : has PERF_SAMPLE_CALLCHAIN = true ->
    found (callchain d) (callchain s) (8 + 8 * nr_of (callchain s));
  m_raw : has PERF_SAMPLE_RAW = true ->
    raw_size d = raw_size s /\ found (raw_data d) (raw_data s) (raw_size s);
  m_branch : has PERF_SAMPLE_BRANCH_STACK = true ->
    found (branch_stack d) (branch_stack s) (8 + 24 * nr_of (branch_stack s));
  m_uregs : regs_match (has PERF_SAMPLE_REGS_USER) (user_regs d) (user_regs s);
  m_iregs : regs_match (has PERF_SAMPLE_REGS_INTR) (intr_regs d) (intr_regs s);
  m_stack : has PERF_SAMPLE_STACK_USER = true ->
    stack_len (user_stack d) = stack_len (user_stack s) /\
    (stack_len (user_stack s) <> 0 ->
       found (stack_data (user_stack d)) (stack_data (user_stack s)) (stack_len (user_stack s)))
}.

(** A field is not changed by the update of another one. *)
Ltac frame :=
  repeat match goal with
  | H : ?d2 = (if ?c then _ else ?d1) |- context [?f ?d2] =>
      replace (f d2) with (f d1) by (rewrite H; destruct c; reflexivity)
  | H : ?d2 = regs_update ?c _ _ _ _ ?d1 |- context [?f ?d2] =>
      replace (f d2) with (f d1) by (rewrite H; unfold regs_update; destruct c; cbv zeta;
        repeat match goal with |- context [negb ?b] => destruct b; cbn [negb] end; reflexivity)
  | H : ?d2 = ?g ?d1 |- context [?f ?d2] =>
      replace (f d2) with (f d1) by (rewrite H; reflexivity)
  end.

Ltac chase :=
  frame;
  repeat match goal with
  | H : ?d2 = (if ?c then _ else _) |- context [?f ?d2] => rewrite H; destruct c; cbn; frame
  | H : ?d2 = ?g ?d1 |- context [?f ?d2] => rewrite H; cbn; frame
  end.

(** The update that a bit of the sample type controls. *)
Ltac at_cond b :=
  match goal with
  | H : ?d = (if has b then _ else _), E : has b = true |- context [?d] => rewrite H, E; cbn
  end.

Lemma values_found off o : has PERF_SAMPLE_READ = true -> second (read s) = group_values o ->
  rd_bytes ev off (length enc_read) = Some enc_read ->
  found (Some (off + 8 + zlen (w64 (tst rf PERF_FORMAT_TOTAL_TIME_ENABLED) 0)
            + zlen (w64 (tst rf PERF_FORMAT_TOTAL_TIME_RUNNING) 0))) o (16 * nr_or_value (read s)).
Proof.
  intros E E2 Hb. eexists. split; [done|]. unfold enc_read, enc_second in Hb. rewrite E, E2 in Hb.
  rewrite (app_assoc (w64 _ _)), (app_assoc (_ ++ _)) in Hb. apply rd_bytes_sub in Hb.
  rewrite !length_app, !Nat2Z.inj_add, !length_w64 in Hb. rewrite !length_w64. rewrite !Z.add_assoc in Hb.
  exact Hb.
Qed.

Lemma regs_found c get upd r off d d' :
  (forall x d, get (upd x d) = x) -> rd_bytes ev off (length (enc_regs c r)) = Some (enc_regs c r) ->
  d' = regs_update c get upd r off d -> regs_match c (get d') r.
Proof.
  intros Hg Hb -> ->. unfold regs_update, enc_regs in *. destruct (Z.eqb_spec (abi r) 0) as [E|E]; cbn [negb] in *.
  - cbv zeta. rewrite Hg. cbn. done.
  - cbv zeta. rewrite Hg. cbn. split; [done|]. intros _. split; [done|]. eexists. split; [done|].
    rewrite <-(app_nil_r (obj _ _)) in Hb. apply rd_bytes_sub in Hb. by rewrite length_le_split in Hb.
Qed.

Lemma tid_read_back u : has PERF_SAMPLE_TID = true ->
  val32_0 (unswap_both sw (u_tid u)) = pid s /\ val32_1 (unswap_both sw (u_tid u)) = tid s.
Proof.
  intros Ht. unfold u_tid. rewrite Ht.
  destruct (unswap_reswap_both sw (mk64 (pid s) (tid s))) as (-> & -> & _); [apply mk64_range; apply Hs|].
  apply val32_mk64, Hs.
Qed.

Lemma cpu_read_back u : 0 <= u < 2 ^ 64 -> has PERF_SAMPLE_CPU = true ->
  val32_0 (unswap_low sw (u_cpu (u_tid u))) = cpu s.
Proof.
  intros Hu Hc. unfold u_cpu. rewrite Hc. pose proof (val32_range _ (u_tid_range u Hu)) as [_ Hr].
  destruct (unswap_reswap_low sw (mk64 (cpu s) (val32_1 (u_tid u)))) as (-> & _);
    [apply mk64_range; [apply Hs|done]|]. apply val32_mk64, Hs.
Qed.

Lemma chain_matches u off misc evsel fin :
  0 <= u < 2 ^ 64 -> attr evsel = a ->
  chain (full_spec u) off (set_addr 0 (set_id (2 ^ 64 - 1) (init_sample evsel misc))) fin -> matches fin.
Proof.
  intros Hu Ha Hc. unfold full_spec, fixed_spec, read_spec, middle_spec, tail_spec in Hc. cbn [app chain] in Hc.
  remember (set_addr 0 (set_id (2 ^ 64 - 1) (init_sample evsel misc))) as d0 eqn:H0.
  repeat match type of Hc with
  | _ /\ (exists d off, _ /\ _) => let Hb := fresh "Hb" in let d := fresh "d" in
      let o := fresh "o" in let He := fresh "He" in
      destruct Hc as [Hb (d & o & He & _ & Hc)]
  end.
  subst fin. pose proof (tid_read_back u) as Htp. pose proof (cpu_read_back u Hu) as Hcp.
  split.
  1-12: chase; first [reflexivity|by rewrite orb_true_r|by apply Htp|by apply Hcp|cbn; by rewrite Ha].
  - intros E. frame. at_cond PERF_SAMPLE_READ. frame.
    split; [done|]. split; [done|]. split; [done|]. destruct (second (read s)) as [v|o'] eqn:E2; [done|].
    eexists. split; [done|]. by apply values_found.
  - intros E. frame. at_cond PERF_SAMPLE_CALLCHAIN. eexists. split; [done|].
    unfold enc_counted in *. by rewrite E in *.
  - intros E. frame. at_cond PERF_SAMPLE_RAW. split; [done|]. eexists. split; [done|].
    unfold enc_raw in *. rewrite E in *.
    match goal with H : rd_bytes ev ?o _ = Some (le_split 4 _ ++ _) |- _ =>
      rewrite <-(app_nil_r (obj _ _)) in H; by apply rd_bytes_sub in H end.
  - intros E. frame. at_cond PERF_SAMPLE_BRANCH_STACK. eexists. split; [done|].
    unfold enc_counted in *. by rewrite E in *.
  - frame. eapply regs_found; [|eassumption|eassumption]. done.
  - frame. eapply regs_found; [|eassumption|eassumption]. done.
  - intros E. frame. at_cond PERF_SAMPLE_STACK_USER.
    unfold enc_stack in *. rewrite E in *. cbv zeta in *.
    destruct (Z.eqb_spec (stack_len (user_stack s)) 0) as [Ez|Ez]; cbn [negb] in *; cbn; [by rewrite Ez|].
    split; [done|]. intros _. eexists. split; [done|].
    match goal with H : rd_bytes ev ?o _ = Some (le_split 8 _ ++ obj _ _ ++ _) |- _ =>
      apply rd_bytes_sub in H; by rewrite length_le_split in H end.
Qed.
End ReadBack.
End RoundTrip.

(** Parsing a sample record is the run of its blocks. *)
Lemma run_nested l1 l2 l3 s : run (l1 ++ l2 ++ l3) s = run (l1 ++ [run l2] ++ l3) s.
Proof.
  rewrite !run_app. destruct (run l1 s) as [[s'|e]|]; cbn [mbind option_bind]; try done.
  rewrite run_app. done.
Qed.

Lemma parse_of_run evsel misc hdr l post d :
  let n := 8 + zlen l in
  let ev := hdr ++ l ++ post in
  hdr = le_split 4 PERF_RECORD_SAMPLE ++ le_split 2 misc ++ le_split 2 n -> n < 2 ^ 16 ->
  0 <= sample_size evsel -> sample_size evsel <= zlen l ->
  run (all_blocks (sample_type (attr evsel)) (read_format (attr evsel)) (needs_swap evsel) ev n (attr evsel))
      (mkPst 8 (set_addr 0 (set_id (2 ^ 64 - 1) (init_sample evsel (u16 misc)))))
    = Some (inl (mkPst n d)) ->
  perf_evsel__parse_sample evsel ev = Some (inl d).
Proof.
  intros n ev Hh Hn Hs0 Hs Hrun. unfold perf_evsel__parse_sample.
  assert (header_size ev = Some n) as ->.
  { unfold ev, header_size. rewrite Hh, (app_assoc (le_split 4 _)), <-(app_assoc (_ ++ _)).
    apply rd_le_split; [rewrite length_app, !length_le_split; done|cbn; lia]. }
  assert (header_misc ev = Some (u16 misc)) as ->.
  { unfold ev, header_misc. rewrite Hh, <-(app_assoc (le_split 4 _)), <-(app_assoc (le_split 2 _)).
    unfold rd_le. rewrite (rd_bytes_app_eq (le_split 4 PERF_RECORD_SAMPLE)) by (rewrite ?length_le_split; done).
    cbn [mbind option_bind]. by rewrite le_combine_split. }
  assert (header_type ev = Some PERF_RECORD_SAMPLE) as ->.
  { unfold ev, header_type. rewrite Hh, <-(app_assoc (le_split 4 _)).
    apply (rd_le_split []); [done|cbn; unfold PERF_RECORD_SAMPLE; lia]. }
  cbn [mbind option_bind]. rewrite Z.eqb_refl. cbn [negb].
  rewrite u64_small by lia. rewrite Z.gtb_ltb, (proj2 (Z.ltb_ge _ _)) by lia.
  unfold all_blocks in Hrun. rewrite <-run_nested in Hrun. unfold sample_blocks. rewrite Hrun. done.
Qed.

Lemma length_enc_fixed type sw s u : zlen (enc_fixed type sw s u) = 8 * nset (fixed_conds type).
Proof.
  unfold enc_fixed, fixed_conds. rewrite !length_app, !Nat2Z.inj_add, !length_w64. cbn [length].
  rewrite !nset_cons. unfold nset. cbn [foldr].
  repeat match goal with |- context [tst type ?b] => destruct (tst type b) end; reflexivity.
Qed.

Lemma sample_bytes_bound type rf sw s u : wf_sample type rf s ->
  0 <= zlen (sample_bytes type rf sw s u) < 2 ^ 60.
Proof.
  intros Hs. split; [lia|]. unfold sample_bytes, enc_middle, enc_tail.
  rewrite !length_app, !Nat2Z.inj_add, length_enc_fixed, !length_w64. cbn [length].
  pose proof (nset_bound (fixed_conds type)) as Hf. change (Z.of_nat (length (fixed_conds type))) with 9 in Hf.
  assert (zlen (enc_read type rf s) <= 2 ^ 40) as H1.
  { pose proof (wf_second _ _ _ Hs) as H2. unfold enc_read, enc_second. destruct (tst type PERF_SAMPLE_READ); [|cbn; lia].
    specialize (H2 eq_refl). rewrite !length_app, !Nat2Z.inj_add, !length_w64. cbn [length].
    destruct (tst rf PERF_FORMAT_GROUP).
    - destruct H2 as (p & -> & Hn & Hpt). rewrite (length_obj _ _ Hpt). bdestr; lia.
    - destruct H2 as (v & -> & _). rewrite length_le_split. bdestr; lia. }
  assert (forall c p elt, 1 <= elt <= 24 -> (c = true -> wf_counted p elt) -> zlen (enc_counted c p elt) <= 2 ^ 40) as H2.
  { intros c p elt He Hw. unfold enc_counted. destruct c; [|cbn; lia]. specialize (Hw eq_refl).
    pose proof (nr_of_nonneg _ _ Hw). destruct Hw as (_ & _ & Hn & Hp). rewrite (length_obj _ _ Hp). nia. }
  pose proof (H2 _ (callchain s) 8 ltac:(lia) (wf_callchain _ _ _ Hs)).
  pose proof (H2 _ (branch_stack s) 24 ltac:(lia) (wf_branch _ _ _ Hs)).
  assert (zlen (enc_raw type s) <= 2 ^ 40) as H3.
  { pose proof (wf_raw _ _ _ Hs) as Hr. unfold enc_raw. destruct (tst type PERF_SAMPLE_RAW); [|cbn; lia].
    destruct (Hr eq_refl) as [Hr' Hp]. rewrite length_app, length_le_split, Nat2Z.inj_add, (length_obj _ _ Hp). lia. }
  assert (forall c r, (c = true -> wf_regs r) -> zlen (enc_regs c r) <= 2 ^ 40) as H4.
  { intros c r Hw. unfold enc_regs. destruct c; [|cbn; lia]. destruct (Hw eq_refl) as (_ & Hm & Hp).
    pose proof (hweight_range _ Hm). destruct (Z.eqb_spec (abi r) 0) as [E|E]; cbn [negb].
    - rewrite length_le_split. lia.
    - rewrite length_app, length_le_split, Nat2Z.inj_add, (length_obj _ _ (Hp E)). lia. }
  pose proof (H4 _ _ (wf_uregs _ _ _ Hs)). pose proof (H4 _ _ (wf_iregs _ _ _ Hs)).
  assert (zlen (enc_stack type s) <= 2 ^ 40) as Hst5.
  { pose proof (wf_stack _ _ _ Hs) as Hr. unfold enc_stack. destruct (tst type PERF_SAMPLE_STACK_USER); [|cbn; lia].
    destruct (Hr eq_refl) as [Hl Hp]. cbv zeta. rewrite length_app, length_le_split, Nat2Z.inj_add.
    destruct (_ =? 0); cbn [negb]; [cbn; lia|].
    rewrite length_app, length_le_split, Nat2Z.inj_add, (length_obj _ _ Hp). lia. }
  bdestr; lia.
Qed.

(** C4: For every sample type, read format and byte-order flag, and every
    sample whose values fit their fields and whose pointers lead to objects of
    the announced sizes: [perf_event__sample_event_size] announces exactly the
    number of bytes that [perf_event__synthesize_sample] needs; the writer
    stores them right behind the header, whatever its uninitialised union
    held, and changes no other byte of the buffer; and
    [perf_evsel__parse_sample] with the selector of that type reads the very
    same sample back, every field and the bytes behind every pointer, with the
    defaults in the fields that the type does not include.  (Raw data of a
    byte-swapped event is excluded, see the theorem on it.) *)
Theorem synthesize_parse_roundtrip evsel s u0 misc rest n :
  let a := attr evsel in
  let type := sample_type a in
  let rf := read_format a in
  let sw := needs_swap evsel in
  let hdr := le_split 4 PERF_RECORD_SAMPLE ++ le_split 2 misc ++ le_split 2 n in
  wf_sample type rf s -> (sw = true -> tst type PERF_SAMPLE_RAW = false) ->
  (tst type PERF_SAMPLE_REGS_USER = true -> sample_regs_user a = mask (user_regs s)) ->
  (tst type PERF_SAMPLE_REGS_INTR = true -> sample_regs_intr a = mask (intr_regs s)) ->
  sample_size evsel = __perf_evsel__sample_size type -> 0 <= u0 < 2 ^ 64 ->
  perf_event__sample_event_size s type rf = Some n -> n < 2 ^ 16 -> n <= 8 + zlen rest ->
  exists ev' d,
    perf_event__synthesize_sample u0 (hdr ++ rest) type rf s sw = Some (ev', n) /\
    take 8 ev' = hdr /\ drop (Z.to_nat n) ev' = drop (Z.to_nat n) (hdr ++ rest) /\
    perf_evsel__parse_sample evsel ev' = Some (inl d) /\ matches type rf s ev' a d.
Proof.
  intros a type rf sw hdr Hs Hraw Hmu Hmi Hsz Hu Hn H16 Hlen.
  pose proof (sample_bytes_bound type rf sw s u0 Hs) as Hbd.
  rewrite (sample_event_size_ok type rf sw s Hs Hraw u0) in Hn by lia. injection Hn as <-.
  set (l := sample_bytes type rf sw s u0) in *.
  assert (length hdr = 8%nat) as Hh by (unfold hdr; rewrite !length_app, !length_le_split; done).
  exists (hdr ++ l ++ drop (length l) rest).
  assert (rest = take (length l) rest ++ drop (length l) rest) as Hrest by by rewrite take_drop.
  assert (length (take (length l) rest) = length l) as Htl by (rewrite length_take; lia).
  destruct (run_chain (hdr ++ l ++ drop (length l) rest) (8 + zlen l)
    (all_blocks type rf sw (hdr ++ l ++ drop (length l) rest) (8 + zlen l) a) (full_spec type rf sw s u0)
    hdr (drop (length l) rest) (set_addr 0 (set_id (2 ^ 64 - 1) (init_sample evsel (u16 misc)))))
    as (d & Hrun & Hch).
  { by apply all_blocks_read. }
  { by rewrite full_spec_bytes. } { rewrite full_spec_bytes. fold l. lia. }
  rewrite full_spec_bytes in Hrun. fold l in Hrun. rewrite Hh in Hrun, Hch. change (Z.of_nat 8) with 8 in *.
  exists d. split; [rewrite Hrest at 1; by apply synthesize_ok|].
  split; [by rewrite <-Hh, take_app_length|].
  split.
  { replace (Z.to_nat (8 + zlen l)) with (length hdr + length l)%nat by lia.
    rewrite <-!drop_drop, !drop_app_length. done. }
  split; [|eapply (chain_matches type rf sw s); [done|done|..]; [exact Hmu|exact Hmi|exact Hu|reflexivity|exact Hch]].
  pose proof (nset_bound (fixed_conds type)).
  refine (parse_of_run evsel misc hdr l (drop (length l) rest) d eq_refl H16 _ _ Hrun);
    rewrite Hsz, sample_size_fixed; [lia|].
  unfold l, sample_bytes. rewrite length_app, Nat2Z.inj_add, length_enc_fixed. lia.
Qed.

Lemma synthesize_parse_roundtrip_witness :
  let type := PERF_SAMPLE_IP + PERF_SAMPLE_TID + PERF_SAMPLE_CPU + PERF_SAMPLE_CALLCHAIN
              + PERF_SAMPLE_RAW + PERF_SAMPLE_IDENTIFIER in
  let evsel := perf_evsel__init (mkAttr 1 type 0 true 0 0) false in
  let chain := le_split 8 2 ++ le_split 8 0x4010 ++ le_split 8 0x5000 in
  let s := mkSample 0x4000 11 12 0 0 77 0 0 0 0 3 4 0 0 0 0 (Some [1; 2; 3; 4]) (Some chain) None
             (mkRegs 0 0 None) (mkRegs 0 0 None) (mkStack 0 0 None) (mkRead 0 0 0 (one_id 0)) in
  let rest := repeat 0 80 in
  let hdr := le_split 4 PERF_RECORD_SAMPLE ++ le_split 2 2 ++ le_split 2 72 in
  exists ev' d,
    perf_event__synthesize_sample 5 (hdr ++ rest) type 0 s false = Some (ev', 72) /\
    perf_evsel__parse_sample evsel ev' = Some (inl d) /\ ip d = 0x4000 /\ cpu d = 3 /\ id d = 77.
Proof.
  intros type evsel chain s rest hdr.
  destruct (synthesize_parse_roundtrip evsel s 5 2 rest 72) as (ev' & d & H1 & _ & _ & H2 & H3).
  - split; try (intros E; vm_compute in E; discriminate E); try (cbn; lia).
    + intros _. split; [split; [by eexists|vm_compute; split; discriminate]|].
      split; [apply (bool_decide_unpack _); vm_compute; exact I|].
      split; [vm_compute; reflexivity|]. split; [by eexists|vm_compute; split; discriminate].
    + intros _. split; [cbn; lia|]. split; [by eexists|cbn; lia].
  - discriminate.
  - intros E; vm_compute in E; discriminate E.
  - intros E; vm_compute in E; discriminate E.
  - vm_compute. reflexivity.
  - lia.
  - vm_compute. reflexivity.
  - lia.
  - vm_compute. discriminate.
  - exists ev', d. split; [exact H1|]. split; [exact H2|].
    destruct H3 as [Hid Hip _ _ _ _ _ Hcpu _ _ _ _ _ _ _ _ _ _ _].
    split; [exact Hip|]. split; [exact Hcpu|exact Hid].
Defined.

(** ** Raw data of a swapped event *)

Lemma bswap_mk64 lo hi : 0 <= lo < 2 ^ 32 -> 0 <= hi < 2 ^ 32 ->
  bswap 8 (mk64 lo hi) = mk64 (bswap 4 hi) (bswap 4 lo).
Proof.
  intros Hlo Hhi. unfold bswap. change 8%nat with (4 + 4)%nat. rewrite le_split_app, le_split_mk64 by done.
  destruct (val32_mk64 lo hi Hlo) as [_ E]. unfold val32_1 in E.
  change (2 ^ (8 * Z.of_nat 4)) with (2 ^ 32). rewrite E, rev_app_distr, le_combine_app, length_rev, length_le_split.
  done.
Qed.


(** C35: For a byte-swapped event with raw data the writer loses the size of
    the data: what lands in the four bytes where the parser and the file format
    expect the size is the other half of the union, which the writer never
    assigned (here with raw data alone in the sample); the comment in the code
    calls the conversion the inverse of the parser's. *)
Theorem synthesize_raw_swapped_loses_size s u0 hdr rest rf :
  length hdr = 8%nat -> 0 <= u0 < 2 ^ 64 -> 4 <= raw_size s < 2 ^ 32 ->
  points_to (raw_data s) (raw_size s) -> 4 + raw_size s <= zlen rest ->
  exists ev', perf_event__synthesize_sample u0 (hdr ++ rest) PERF_SAMPLE_RAW rf s true
      = Some (ev', 12 + raw_size s) /\
    rd_le ev' 8 4 = Some (val32_1 u0).
Proof.
  intros Hh Hu Hr Hp Hl. destruct (val32_range u0 Hu) as [_ Hhi].
  set (v := reswap_both true (mk64 (raw_size s) (val32_1 u0))).
  assert (le_split 4 v = le_split 4 (val32_1 u0)) as Hv.
  { unfold v, reswap_both. destruct (val32_mk64 (raw_size s) (val32_1 u0) ltac:(lia)) as [-> ->].
    pose proof (bswap_range 4 (raw_size s)). pose proof (bswap_range 4 (val32_1 u0)).
    rewrite bswap_mk64, le_split_mk64, bswap_bswap by (done || apply bswap_range). done. }
  pose proof (writes_raw (raw_data s) (raw_size s) v u0 Hp ltac:(lia) hdr
    (take (Z.to_nat (4 + raw_size s)) rest) (drop (Z.to_nat (4 + raw_size s)) rest)) as Hw.
  rewrite take_drop, !length_app, length_le_split, length_take in Hw.
  pose proof (length_obj _ _ Hp) as Ho. specialize (Hw ltac:(lia)).
  eexists. split.
  - unfold perf_event__synthesize_sample. change (Z.of_nat 8) with 8 in Hw.
    change (wrun (synth_blocks PERF_SAMPLE_RAW rf s true))
      with (fun w => let* w := put_raw true PERF_SAMPLE_RAW s w in Some w).
    cbv beta. change (put_raw true PERF_SAMPLE_RAW s (mkWst (hdr ++ rest) 8 u0))
      with (let* w := store_u64 v (mkWst (hdr ++ rest) 8 v) in copy_bytes (raw_data s) (raw_size s) (advance 4 w)).
    rewrite Hh in Hw. cbn [mem warr] in Hw. change (Z.of_nat 8) with 8 in Hw. rewrite Hw. cbn [mbind option_bind mem warr].
    do 2 f_equal. lia.
  - rewrite Hv. rewrite <-app_assoc. apply rd_le_split; [lia|done].
Qed.

Lemma synthesize_raw_swapped_loses_size_witness :
  let s := mkSample 0 0 0 0 0 0 0 0 0 0 0 4 0 0 0 0 (Some [1; 2; 3; 4]) None None
             (mkRegs 0 0 None) (mkRegs 0 0 None) (mkStack 0 0 None) (mkRead 0 0 0 (one_id 0)) in
  exists ev', perf_event__synthesize_sample (2 ^ 32 * 0xdead) (repeat 0 8 ++ repeat 0 8) PERF_SAMPLE_RAW 0 s true
      = Some (ev', 16) /\ rd_le ev' 8 4 = Some 0xdead.
Proof.
  intros s.
  apply (synthesize_raw_swapped_loses_size s (2 ^ 32 * 0xdead) (repeat 0 8) (repeat 0 8) 0);
    [reflexivity|lia|cbn; lia| |cbn; lia].
  split; [by eexists|cbn; lia].
Defined.

(** ** Where the identifier of an event is *)

Section Positions.
Context (ev : list Z).

(** The blocks before the id, in a sample without identifier first. *)
Lemma run_skip_to c u bl s :
  run (get_u64 ev c u :: bl) s = (if c then let* v := rd_le ev (array s) 8 in
     run bl (mkPst (array s + 8) (u v (data s))) else run bl s).
Proof. cbn [run]. unfold get_u64. destruct c; [|done]. by destruct (rd_le _ _ _). Qed.

Lemma run_back_to c u bl s :
  run (get_back ev c u :: bl) s = (if c then let* v := rd_le ev (array s) 8 in
     run bl (mkPst (array s - 8) (u v (data s))) else run bl s).
Proof. cbn [run]. unfold get_back. destruct c; [|done]. by destruct (rd_le _ _ _). Qed.

(** A run of unchecked fields that do not touch the id. *)
Definition keeps_id (b : block) : Prop := forall s s', b s = Some (inl s') -> id (data s') = id (data s).

Lemma get_keeps_id c u : (forall v d, id (u v d) = id d) -> keeps_id (get_u64 ev c u).
Proof.
  intros Hu s s'. unfold get_u64. destruct c; [|by intros [= <-]].
  destruct (rd_le ev (array s) 8); cbn [mbind option_bind]; [|done]. intros [= <-]. apply Hu.
Qed.

Lemma back_keeps_id c u : (forall v d, id (u v d) = id d) -> keeps_id (get_back ev c u).
Proof.
  intros Hu s s'. unfold get_back. destruct c; [|by intros [= <-]].
  destruct (rd_le ev (array s) 8); cbn [mbind option_bind]; [|done]. intros [= <-]. apply Hu.
Qed.

Lemma run_keeps_id l s s' : Forall keeps_id l -> run l s = Some (inl s') -> id (data s') = id (data s).
Proof.
  intros Hl. revert s. induction Hl as [|b l Hb _ IH]; intros s; [by intros [= ->]|]. cbn [run].
  destruct (b s) as [[s1|e]|] eqn:E; cbn [mbind option_bind]; try done.
  intros H%IH. apply Hb in E. congruence.
Qed.
End Positions.

(** One field of a run. *)
Ltac one_field lem :=
  rewrite lem; cbn [array data];
  match goal with |- context [if ?c then _ else _] => destruct c end; cbn [array data];
  try (match goal with |- context [rd_le ?e ?o 8] =>
    destruct (rd_le e o 8) eqn:?; cbn [mbind option_bind]; [|done] end).

Lemma off_keeps_id (ev : list Z) u : keeps_id (get_u64 ev false u) /\ keeps_id (get_back ev false u).
Proof. by split; intros s s' [= <-]. Qed.

Ltac keeps_id_all := repeat (apply Forall_cons_2; [|]); try apply Forall_nil_2;
  first [apply off_keeps_id | (apply get_keeps_id || apply back_keeps_id); reflexivity].

(** The id is in the last word of a record, or in the first one of a sample. *)
Lemma identifier_position ev type (sw : bool) s s' : tst type PERF_SAMPLE_IDENTIFIER = true -> tst type PERF_SAMPLE_ID = false ->
  (run (id_blocks ev sw type) s = Some (inl s') -> rd_le ev (array s) 8 = Some (id (data s'))) /\
  (run (parse_fixed ev sw type) s = Some (inl s') -> rd_le ev (array s) 8 = Some (id (data s'))).
Proof.
  intros Hi Hd. unfold id_blocks, parse_fixed. rewrite run_back_to, run_skip_to, Hi, Hd.
  split; (destruct (rd_le ev (array s) 8) as [v|]; cbn [mbind option_bind]; [|done]; intros Er; apply run_keeps_id in Er; [by rewrite Er|keeps_id_all]).
Qed.

(** The other fields are skipped on the way to it. *)
Lemma id_position ev type (sw : bool) s s' : tst type PERF_SAMPLE_IDENTIFIER = false -> tst type PERF_SAMPLE_ID = true ->
  (run (id_blocks ev sw type) s = Some (inl s') -> rd_le ev (array s + 8 - 8 * __perf_evsel__calc_is_pos type) 8 = Some (id (data s'))) /\
  (run (parse_fixed ev sw type) s = Some (inl s') -> rd_le ev (array s + 8 * __perf_evsel__calc_id_pos type) 8 = Some (id (data s'))).
Proof.
  intros Hi Hd. unfold __perf_evsel__calc_is_pos, __perf_evsel__calc_id_pos. rewrite Hi, Hd. cbn [negb]. cbv zeta. split.
  - unfold id_blocks. rewrite run_back_to, Hi.
    one_field run_back_to; one_field run_back_to; rewrite run_back_to, Hd; cbn [array data];
      match goal with |- context [rd_le ev ?o 8] => destruct (rd_le ev o 8) as [v|] eqn:E end;
      cbn [mbind option_bind]; try done; intros Er; (apply run_keeps_id in Er; [|keeps_id_all]); rewrite Er; cbn; rewrite <-E; f_equal; lia.
  - unfold parse_fixed. rewrite run_skip_to, Hi.
    one_field run_skip_to; one_field run_skip_to; one_field run_skip_to; one_field run_skip_to;
      rewrite run_skip_to, Hd; cbn [array data];
      match goal with |- context [rd_le ev ?o 8] => destruct (rd_le ev o 8) as [v'|] eqn:E end;
      cbn [mbind option_bind]; try done; intros Er;
      (apply run_keeps_id in Er; [|keeps_id_all]); rewrite Er; cbn; rewrite <-E; f_equal; lia.
Qed.

(** C28: [id_pos] and [is_pos] are the positions of the event's id: for every
    selector whose type has exactly one of [PERF_SAMPLE_ID] and
    [PERF_SAMPLE_IDENTIFIER], as [perf_evsel__set_sample_id] leaves it, and for
    every non-sample record with a trailing id sample, the id that
    [perf_evsel__parse_id_sample] finds is the 64-bit word [is_pos] words from the
    end of the record; and the id that the parser finds in the fixed part of a
    sample is the word [id_pos] words behind the header. *)
Theorem id_positions evsel ev d d' size :
  let type := sample_type (attr evsel) in
  xorb (tst type PERF_SAMPLE_IDENTIFIER) (tst type PERF_SAMPLE_ID) = true ->
  header_size ev = Some size -> 8 <= size < 2 ^ 16 -> size mod 8 = 0 ->
  (perf_evsel__parse_id_sample evsel ev d = Some (inl d') ->
     rd_le ev (size - 8 * is_pos (perf_evsel__calc_id_pos evsel)) 8 = Some (id d')) /\
  (forall s s', run (parse_fixed ev (needs_swap evsel) type) s = Some (inl s') ->
     rd_le ev (array s + 8 * id_pos (perf_evsel__calc_id_pos evsel)) 8 = Some (id (data s'))).
Proof.
  intros type Hx Hsz H8 Hm. cbn [perf_evsel__calc_id_pos is_pos id_pos]. fold type. split.
  - unfold perf_evsel__parse_id_sample. rewrite Hsz. cbn [mbind option_bind]. fold type.
    rewrite u64_small by lia. set (o := 8 + 8 * _).
    assert (o = size - 8) as -> by (unfold o; Z.to_euclidean_division_equations; lia).
    destruct (run _ _) as [[s1|e]|] eqn:Er; cbn [mbind option_bind]; try done. intros [= <-].
    destruct (tst type PERF_SAMPLE_IDENTIFIER) eqn:Hi, (tst type PERF_SAMPLE_ID) eqn:Hd; try done.
    + apply (identifier_position ev type _ _ _ Hi Hd) in Er. unfold __perf_evsel__calc_is_pos. rewrite Hi. exact Er.
    + apply (id_position ev type _ _ _ Hi Hd) in Er. cbn [array] in Er. rewrite <-Er. f_equal. lia.
  - intros s s' Er. destruct (tst type PERF_SAMPLE_IDENTIFIER) eqn:Hi, (tst type PERF_SAMPLE_ID) eqn:Hd; try done.
    + apply (identifier_position ev type _ _ _ Hi Hd) in Er. unfold __perf_evsel__calc_id_pos. rewrite Hi, <-Er. f_equal. lia.
    + by apply (id_position ev type _ _ _ Hi Hd) in Er.
Qed.

Lemma id_positions_witness :
  let evsel bits := perf_evsel__init (mkAttr 1 (PERF_SAMPLE_TID + PERF_SAMPLE_TIME + bits + PERF_SAMPLE_CPU) 0 true 0 0) false in
  let ev := le_split 4 3 ++ le_split 2 0 ++ le_split 2 40 ++ le_split 8 7 ++ le_split 8 1000
            ++ le_split 8 99 ++ le_split 8 2 in
  (exists d', perf_evsel__parse_id_sample (evsel PERF_SAMPLE_ID) ev zero_sample = Some (inl d') /\
    rd_le ev (40 - 8 * is_pos (perf_evsel__calc_id_pos (evsel PERF_SAMPLE_ID))) 8 = Some (id d')) /\
  (exists d', perf_evsel__parse_id_sample (evsel PERF_SAMPLE_IDENTIFIER) ev zero_sample = Some (inl d') /\
    rd_le ev (40 - 8 * is_pos (perf_evsel__calc_id_pos (evsel PERF_SAMPLE_IDENTIFIER))) 8 = Some (id d')).
Proof.
  intros evsel ev. assert (forall bits, xorb (tst (sample_type (attr (evsel bits))) PERF_SAMPLE_IDENTIFIER) (tst (sample_type (attr (evsel bits))) PERF_SAMPLE_ID) = true ->
    forall d', perf_evsel__parse_id_sample (evsel bits) ev zero_sample = Some (inl d') ->
    rd_le ev (40 - 8 * is_pos (perf_evsel__calc_id_pos (evsel bits))) 8 = Some (id d')) as H.
  { intros bits Hb d'. apply (id_positions (evsel bits) ev zero_sample d' 40 Hb); vm_compute; try reflexivity. split; [discriminate|reflexivity]. }
  assert (forall r : option (perf_sample Z + Z), match r with Some (inl _) => true | _ => false end = true -> exists d, r = Some (inl d)) as Hok by (intros [[d|]|]; [by exists d|done..]).
  split.
  - destruct (Hok (perf_evsel__parse_id_sample (evsel PERF_SAMPLE_ID) ev zero_sample)) as [d' E]; [vm_compute; reflexivity|].
    exists d'. split; [exact E|]. exact (H PERF_SAMPLE_ID eq_refl d' E).
  - destruct (Hok (perf_evsel__parse_id_sample (evsel PERF_SAMPLE_IDENTIFIER) ev zero_sample)) as [d' E]; [vm_compute; reflexivity|].
    exists d'. split; [exact E|]. exact (H PERF_SAMPLE_IDENTIFIER eq_refl d' E).
Defined.

(** ** Changing the sample type *)

Definition single_bit (bit : Z) : Prop := exists i, 0 <= i < 64 /\ bit = 2 ^ i.

Lemma sample_size_count t :
  __perf_evsel__sample_size t = Bits.count (Z.testbit (Z.land t PERF_SAMPLE_MASK)) 0 64 * 8.
Proof.
  unfold __perf_evsel__sample_size. rewrite (sample_size_loop_count 64 _ 0 0 (Z.le_refl 0)), Z.add_0_l.
  reflexivity.
Qed.

Lemma count_set_one P Q i from n : from <= i < from + Z.of_nat n ->
  (forall j, j <> i -> P j = Q j) -> P i = true -> Q i = false ->
  Bits.count P from n = Bits.count Q from n + 1.
Proof.
  revert from. induction n as [|n IH]; intros from Hi Hext Hp Hq; [lia|]. cbn [Bits.count].
  destruct (Z.eq_dec from i) as [->|Hne].
  - rewrite Hp, Hq. cbn [Z.b2z]. enough (Bits.count P (i + 1) n = Bits.count Q (i + 1) n) by lia.
    clear IH. assert (forall k, i < k -> Bits.count P k n = Bits.count Q k n) as H; [|apply H; lia].
    induction n as [|n IHn]; intros k Hk; [done|]. cbn [Bits.count].
    rewrite (Hext k), IHn by lia. done.
  - rewrite (Hext from), (IH (from + 1)) by (done || lia). lia.
Qed.

Lemma count_split P Q from n : Bits.count P from n = Bits.count (fun i => P i && Q i) from n + Bits.count (fun i => P i && negb (Q i)) from n.
Proof. revert from. induction n as [|n IH]; intros from; [done|]. cbn [Bits.count]. rewrite IH. destruct (P from), (Q from); cbn [andb negb Z.b2z]; lia. Qed.
Lemma count_bounds P from n : 0 <= Bits.count P from n <= Z.of_nat n.
Proof. revert from. induction n as [|n IH]; intros from; cbn [Bits.count]; [lia|]. pose proof (IH (from + 1)). destruct (P from); cbn [Z.b2z]; lia. Qed.

(** The bits outside of [PERF_SAMPLE_MASK], and all bits of the type. *)
Definition outside (t : Z) : Z := Bits.count (Z.testbit (Z.ldiff t PERF_SAMPLE_MASK)) 0 64.

Lemma size_and_outside t : __perf_evsel__sample_size t + 8 * outside t = 8 * Bits.count (Z.testbit t) 0 64.
Proof.
  rewrite sample_size_count. unfold outside. rewrite (count_split (Z.testbit t) (Z.testbit PERF_SAMPLE_MASK)).
  rewrite (count_ext (Z.testbit (Z.land t _)) (fun i => Z.testbit t i && Z.testbit PERF_SAMPLE_MASK i)) by (intros; rewrite ?Z.land_spec; done || lia).
  rewrite (count_ext (Z.testbit (Z.ldiff t _)) (fun i => Z.testbit t i && negb (Z.testbit PERF_SAMPLE_MASK i))) by (intros; rewrite ?Z.ldiff_spec; done || lia). lia.
Qed.

(** Adding a bit to the type adds one word. *)
Lemma count_add_bit t i : 0 <= i < 64 -> Z.testbit t i = false -> Bits.count (Z.testbit (Z.lor t (2 ^ i))) 0 64 = Bits.count (Z.testbit t) 0 64 + 1.
Proof.
  intros Hi Ht. apply (count_set_one _ _ i); [lia| |rewrite Z.lor_spec, Z.pow2_bits_true by lia; apply orb_true_r|done].
  intros j Hj. rewrite Z.lor_spec. destruct (Z.lt_ge_cases j 0); [by rewrite !(Z.testbit_neg_r _ j)|]. by rewrite Z.pow2_bits_false, orb_false_r by lia.
Qed.

#[local] Opaque __perf_evsel__sample_size Bits.count.

(** Changes of a selector. *)
Inductive change := SetBit (bit : Z) | ResetBit (bit : Z) | SetId (can : bool).
Definition change_evsel (e : perf_evsel) (c : change) : perf_evsel :=
  match c with
  | SetBit bit => __perf_evsel__set_sample_bit e bit
  | ResetBit bit => __perf_evsel__reset_sample_bit e bit
  | SetId can => perf_evsel__set_sample_id e can
  end.
Definition change_ok (c : change) : Prop := match c with SetBit bit | ResetBit bit => single_bit bit | SetId _ => True end.
(** It concerns the fixed part of the sample. *)
Definition fixed_part (c : change) : bool := match c with SetBit bit | ResetBit bit => tst PERF_SAMPLE_MASK bit | SetId _ => true end.

(** A selector whose size was counted from a type with [n] bits outside of the mask. *)
Definition counted_from (n : Z) (e : perf_evsel) : Prop :=
  sample_size e = u32 (__perf_evsel__sample_size (sample_type (attr e)) + 8 * (outside (sample_type (attr e)) - n)) /\
  id_pos e = __perf_evsel__calc_id_pos (sample_type (attr e)) /\
  is_pos e = __perf_evsel__calc_is_pos (sample_type (attr e)).

Lemma u32_shift x k : u32 (u32 x + k) = u32 (x + k).
Proof. unfold u32. by rewrite Zplus_mod_idemp_l. Qed.

Lemma set_bit_counted n e bit : single_bit bit -> counted_from n e -> counted_from n (__perf_evsel__set_sample_bit e bit).
Proof.
  intros (i & Hi & ->) (H1 & H2 & H3). unfold __perf_evsel__set_sample_bit. rewrite tst_pow2 by lia.
  destruct (Z.testbit (sample_type (attr e)) i) eqn:Et; cbn [negb]; [exact (conj H1 (conj H2 H3))|].
  unfold counted_from. cbn [attr sample_size id_pos is_pos perf_evsel__calc_id_pos set_type sample_type]. split; [|split; reflexivity]. rewrite H1, u32_shift. f_equal.
  pose proof (size_and_outside (sample_type (attr e))) as Ha. pose proof (size_and_outside (Z.lor (sample_type (attr e)) (2 ^ i))) as Hb. rewrite count_add_bit in Hb by done. lia.
Qed.

Lemma reset_bit_counted n e bit : single_bit bit -> counted_from n e -> counted_from n (__perf_evsel__reset_sample_bit e bit).
Proof.
  intros (i & Hi & ->) (H1 & H2 & H3). unfold __perf_evsel__reset_sample_bit. rewrite tst_pow2 by lia. set (t := sample_type (attr e)) in *.
  destruct (Z.testbit t i) eqn:Et; [|exact (conj H1 (conj H2 H3))].
  unfold counted_from. cbn [attr sample_size id_pos is_pos perf_evsel__calc_id_pos set_type sample_type]. split; [|split; reflexivity]. rewrite H1. unfold Z.sub at 1. rewrite u32_shift. f_equal.
  assert (t = Z.lor (Z.ldiff t (2 ^ i)) (2 ^ i)) as Hl.
  { apply Z.bits_inj'. intros j Hj. rewrite Z.lor_spec, Z.ldiff_spec. destruct (Z.eq_dec j i) as [->|]; [rewrite Et, Z.pow2_bits_true by lia; done|].
    rewrite Z.pow2_bits_false by lia. by rewrite andb_true_r, orb_false_r. }
  assert (Z.testbit (Z.ldiff t (2 ^ i)) i = false) as Hc by (rewrite Z.ldiff_spec, Z.pow2_bits_true by lia; apply andb_false_r).
  pose proof (size_and_outside t) as Ha. pose proof (size_and_outside (Z.ldiff t (2 ^ i))) as Hb. pose proof (count_add_bit _ i Hi Hc) as Hd. rewrite <-Hl in Hd. lia.
Qed.

Lemma change_counted n e c : change_ok c -> counted_from n e -> counted_from n (change_evsel e c).
Proof.
  assert (single_bit PERF_SAMPLE_ID) as Hid by (exists 6; split; [lia|reflexivity]). assert (single_bit PERF_SAMPLE_IDENTIFIER) as Hident by (exists 16; split; [lia|reflexivity]).
  destruct c as [bit|bit|can]; cbn [change_ok change_evsel]; [apply set_bit_counted|apply reset_bit_counted|intros _ He].
  enough (counted_from n (if can then __perf_evsel__set_sample_bit (__perf_evsel__reset_sample_bit e PERF_SAMPLE_ID) PERF_SAMPLE_IDENTIFIER
    else __perf_evsel__set_sample_bit e PERF_SAMPLE_ID)) as H by exact H.
  destruct can; auto using set_bit_counted, reset_bit_counted.
Qed.

(** Nothing outside of the mask changes. *)
Lemma outside_ext t t' : (forall i, 0 <= i -> Z.testbit PERF_SAMPLE_MASK i = false -> Z.testbit t' i = Z.testbit t i) -> outside t' = outside t.
Proof.
  intros H. unfold outside. apply count_ext; [lia|]. intros i Hi. rewrite !Z.ldiff_spec. destruct (Z.testbit PERF_SAMPLE_MASK i) eqn:E; [by rewrite !andb_false_r|]. by rewrite H.
Qed.

Lemma fixed_bits e bit : single_bit bit -> tst PERF_SAMPLE_MASK bit = true ->
  outside (sample_type (attr (__perf_evsel__set_sample_bit e bit))) = outside (sample_type (attr e)) /\
  outside (sample_type (attr (__perf_evsel__reset_sample_bit e bit))) = outside (sample_type (attr e)).
Proof.
  intros (i & Hi & ->) Hm. rewrite tst_pow2 in Hm by lia. unfold __perf_evsel__set_sample_bit, __perf_evsel__reset_sample_bit. split; (destruct (tst _ _); cbn [negb]; [|try done]); try done;
    apply outside_ext; intros j Hj Hn; cbn [attr perf_evsel__calc_id_pos set_type sample_type]; (destruct (Z.eq_dec j i) as [->|]; [congruence|]);
    rewrite ?Z.lor_spec, ?Z.ldiff_spec, Z.pow2_bits_false by lia; by rewrite ?orb_false_r, ?andb_true_r.
Qed.

Lemma fixed_change e c : change_ok c -> fixed_part c = true -> outside (sample_type (attr (change_evsel e c))) = outside (sample_type (attr e)).
Proof.
  assert (single_bit PERF_SAMPLE_ID) as Hid by (exists 6; split; [lia|reflexivity]). assert (single_bit PERF_SAMPLE_IDENTIFIER) as Hident by (exists 16; split; [lia|reflexivity]).
  destruct c as [bit|bit|can]; cbn [change_ok change_evsel fixed_part]; [by apply fixed_bits|by apply fixed_bits|intros _ _].
  enough (outside (sample_type (attr (if can then __perf_evsel__set_sample_bit (__perf_evsel__reset_sample_bit e PERF_SAMPLE_ID) PERF_SAMPLE_IDENTIFIER
    else __perf_evsel__set_sample_bit e PERF_SAMPLE_ID))) = outside (sample_type (attr e))) as H by exact H.
  destruct can; [rewrite (proj1 (fixed_bits _ _ Hident eq_refl))|]; by apply fixed_bits.
Qed.

(** C29: What the cached values of a selector are after any sequence of setting
    and clearing bits of the sample type and of switching between id and
    identifier: [id_pos] and [is_pos] always are those of the type.
    [sample_size], which is to be the size of the fixed part, is so if only bits
    of the fixed part ([PERF_SAMPLE_MASK]) were changed; every other bit (call
    chains, raw data, ...) that was added or taken away since the selector was
    initialised is counted as a word more or less, modulo the width. *)
Theorem sample_bits_consistent a sw cs : Forall change_ok cs ->
  let e := foldl change_evsel (perf_evsel__init a sw) cs in let type := sample_type (attr e) in
  id_pos e = __perf_evsel__calc_id_pos type /\ is_pos e = __perf_evsel__calc_is_pos type /\
  sample_size e = u32 (__perf_evsel__sample_size type + 8 * (outside type - outside (sample_type a))) /\
  (forallb fixed_part cs = true -> sample_size e = __perf_evsel__sample_size type).
Proof.
  intros Hcs. cbv zeta. set (e0 := perf_evsel__init a sw).
  assert (forall t, 0 <= __perf_evsel__sample_size t < 2 ^ 32) as Hr.
  { intros t. rewrite sample_size_count. pose proof (count_bounds (Z.testbit (Z.land t PERF_SAMPLE_MASK)) 0 64). lia. }
  assert (counted_from (outside (sample_type a)) e0) as H0.
  { split; [|by split]. change (sample_type (attr e0)) with (sample_type a). rewrite Z.sub_diag, Z.add_0_r, u32_small by apply Hr. done. }
  assert (counted_from (outside (sample_type a)) (foldl change_evsel e0 cs)) as (H1 & H2 & H3).
  { clear Hr. generalize dependent e0. induction Hcs as [|c cs Hc _ IH]; intros e He; cbn [foldl]; [done|]. by apply IH, change_counted. }
  split_and!; [done..|]. intros Hf. rewrite H1. assert (outside (sample_type (attr (foldl change_evsel e0 cs))) = outside (sample_type a)) as ->; [|rewrite Z.sub_diag, Z.add_0_r, u32_small by apply Hr; done].
  change (outside (sample_type a)) with (outside (sample_type (attr e0))). clear -Hcs Hf. generalize dependent e0. induction Hcs as [|c cs Hc _ IH]; intros e; cbn [foldl]; [done|].
  cbn [forallb] in Hf. apply andb_true_iff in Hf as [Hf1 Hf2]. rewrite IH by done. by apply fixed_change.
Qed.

Lemma sample_bits_consistent_witness :
  let cs := [SetBit PERF_SAMPLE_TIME; SetId true; ResetBit PERF_SAMPLE_IP] in
  let e := foldl change_evsel (perf_evsel__init (mkAttr 1 (PERF_SAMPLE_IP + PERF_SAMPLE_ID) 0 true 0 0) false) cs in
  sample_size e = __perf_evsel__sample_size (sample_type (attr e)) /\ sample_type (attr e) = PERF_SAMPLE_TIME + PERF_SAMPLE_IDENTIFIER.
Proof.
  intros cs e. split; [|vm_compute; reflexivity].
  apply (sample_bits_consistent (mkAttr 1 (PERF_SAMPLE_IP + PERF_SAMPLE_ID) 0 true 0 0) false cs); [|vm_compute; reflexivity].
  apply Forall_cons_2; [exists 2; split; [lia|reflexivity]|]. apply Forall_cons_2; [exact I|]. apply Forall_cons_2; [exists 0; split; [lia|reflexivity]|apply Forall_nil_2].
Defined.

(** A bit outside of the mask is counted when it is set later, and not when it was
    there from the start; clearing it then is counted nevertheless. *)
Example callchain_counted :
  let e := perf_evsel__init (mkAttr 1 PERF_SAMPLE_IP 0 true 0 0) false in let e' := perf_evsel__init (mkAttr 1 (PERF_SAMPLE_IP + PERF_SAMPLE_CALLCHAIN) 0 true 0 0) false in
  sample_size (__perf_evsel__set_sample_bit e PERF_SAMPLE_CALLCHAIN) = 16 /\ sample_size e' = 8 /\ sample_size (__perf_evsel__reset_sample_bit e' PERF_SAMPLE_CALLCHAIN) = 0.
Proof. vm_compute. done. Qed.

End SampleTrip.
