(* ===== verification/Insn.v ===== *)
(** The x86 instruction decoder of [src/tools/perf/util/intel-pt-decoder]:
    the attribute lookups of [inat.c] and [inat.h], the field-by-field decoder
    of [insn.c] and [insn.h].

    The attribute tables are generated at build time and are a parameter, the
    record [inat_tables]; [tables_ok] is what the decoder relies on: the sizes
    the generator declares, and that no opcode has more than three bytes.

    A decoding function reads and writes the [struct insn] and may leave through
    its label [err_out]; it is a computation of the monad [M] below, in which
    undefined behaviour (a read outside of the buffer, an index outside of a
    table or of the four bytes of a field) is separate from that exit. *)

From stdpp Require Import base option list numbers.
From Stdlib Require Import ZArith Lia Bool.
From S2P Require Import Prelude.

Module Insn.

(** * [inat.h]: instruction attributes *)

Definition INAT_PFX_OPNDSZ : Z := 1.
Definition INAT_PFX_ADDRSZ : Z := 11.
Definition INAT_PFX_REX : Z := 12.
Definition INAT_PFX_VEX2 : Z := 13.
Definition INAT_PFX_VEX3 : Z := 14.
Definition INAT_PFX_EVEX : Z := 15.
Definition INAT_LSTPFX_MAX : Z := 3.
Definition INAT_LGCPFX_MAX : Z := 11.
Definition INAT_IMM_BYTE : Z := 1.
Definition INAT_IMM_WORD : Z := 2.
Definition INAT_IMM_DWORD : Z := 3.
Definition INAT_IMM_QWORD : Z := 4.
Definition INAT_IMM_PTR : Z := 5.
Definition INAT_IMM_VWORD32 : Z := 6.
Definition INAT_IMM_VWORD : Z := 7.
Definition INAT_PFX_OFFS : Z := 0.
Definition INAT_PFX_BITS : Z := 4.
Definition INAT_PFX_MASK : Z := Z.shiftl (Z.shiftl 1 INAT_PFX_BITS - 1) INAT_PFX_OFFS.
Definition INAT_ESC_OFFS : Z := INAT_PFX_OFFS + INAT_PFX_BITS.
Definition INAT_ESC_BITS : Z := 2.
Definition INAT_ESC_MASK : Z := Z.shiftl (Z.shiftl 1 INAT_ESC_BITS - 1) INAT_ESC_OFFS.
Definition INAT_GRP_OFFS : Z := INAT_ESC_OFFS + INAT_ESC_BITS.
Definition INAT_GRP_BITS : Z := 5.
Definition INAT_GRP_MASK : Z := Z.shiftl (Z.shiftl 1 INAT_GRP_BITS - 1) INAT_GRP_OFFS.
Definition INAT_IMM_OFFS : Z := INAT_GRP_OFFS + INAT_GRP_BITS.
Definition INAT_IMM_BITS : Z := 3.
Definition INAT_IMM_MASK : Z := Z.shiftl (Z.shiftl 1 INAT_IMM_BITS - 1) INAT_IMM_OFFS.
Definition INAT_FLAG_OFFS : Z := INAT_IMM_OFFS + INAT_IMM_BITS.
Definition INAT_MODRM : Z := Z.shiftl 1 INAT_FLAG_OFFS.
Definition INAT_FORCE64 : Z := Z.shiftl 1 (INAT_FLAG_OFFS + 1).
Definition INAT_SCNDIMM : Z := Z.shiftl 1 (INAT_FLAG_OFFS + 2).
Definition INAT_MOFFSET : Z := Z.shiftl 1 (INAT_FLAG_OFFS + 3).
Definition INAT_VARIANT : Z := Z.shiftl 1 (INAT_FLAG_OFFS + 4).
Definition INAT_VEXOK : Z := Z.shiftl 1 (INAT_FLAG_OFFS + 5).
Definition INAT_VEXONLY : Z := Z.shiftl 1 (INAT_FLAG_OFFS + 6).
Definition INAT_EVEXONLY : Z := Z.shiftl 1 (INAT_FLAG_OFFS + 7).

Definition inat_is_legacy_prefix (attr : Z) : bool :=
  let attr := Z.land attr INAT_PFX_MASK in negb (attr =? 0) && (attr <=? INAT_LGCPFX_MAX).
Definition inat_is_address_size_prefix (attr : Z) : bool :=
  Z.land attr INAT_PFX_MASK =? INAT_PFX_ADDRSZ.
Definition inat_is_operand_size_prefix (attr : Z) : bool :=
  Z.land attr INAT_PFX_MASK =? INAT_PFX_OPNDSZ.
Definition inat_is_rex_prefix (attr : Z) : bool := Z.land attr INAT_PFX_MASK =? INAT_PFX_REX.
Definition inat_last_prefix_id (attr : Z) : Z :=
  if Z.land attr INAT_PFX_MASK >? INAT_LSTPFX_MAX then 0 else Z.land attr INAT_PFX_MASK.
Definition inat_is_vex_prefix (attr : Z) : bool :=
  let attr := Z.land attr INAT_PFX_MASK in
  (attr =? INAT_PFX_VEX2) || (attr =? INAT_PFX_VEX3) || (attr =? INAT_PFX_EVEX).
Definition inat_is_evex_prefix (attr : Z) : bool := Z.land attr INAT_PFX_MASK =? INAT_PFX_EVEX.
Definition inat_is_vex3_prefix (attr : Z) : bool := Z.land attr INAT_PFX_MASK =? INAT_PFX_VEX3.
Definition inat_is_escape (attr : Z) : bool := tst attr INAT_ESC_MASK.
Definition inat_escape_id (attr : Z) : Z := Z.shiftr (Z.land attr INAT_ESC_MASK) INAT_ESC_OFFS.
Definition inat_is_group (attr : Z) : bool := tst attr INAT_GRP_MASK.
Definition inat_group_id (attr : Z) : Z := Z.shiftr (Z.land attr INAT_GRP_MASK) INAT_GRP_OFFS.
Definition inat_group_common_attribute (attr : Z) : Z := Z.ldiff attr INAT_GRP_MASK.
Definition inat_has_immediate (attr : Z) : bool := tst attr INAT_IMM_MASK.
Definition inat_immediate_size (attr : Z) : Z := Z.shiftr (Z.land attr INAT_IMM_MASK) INAT_IMM_OFFS.
Definition inat_has_modrm (attr : Z) : bool := tst attr INAT_MODRM.
Definition inat_is_force64 (attr : Z) : bool := tst attr INAT_FORCE64.
Definition inat_has_second_immediate (attr : Z) : bool := tst attr INAT_SCNDIMM.
Definition inat_has_moffset (attr : Z) : bool := tst attr INAT_MOFFSET.
Definition inat_has_variant (attr : Z) : bool := tst attr INAT_VARIANT.
Definition inat_accept_vex (attr : Z) : bool := tst attr INAT_VEXOK.
Definition inat_must_vex (attr : Z) : bool := tst attr (Z.lor INAT_VEXONLY INAT_EVEXONLY).
Definition inat_must_evex (attr : Z) : bool := tst attr INAT_EVEXONLY.

(** * [inat.c]: the lookups in the generated tables *)

(** [NULL] pointers in the tables of tables are [None]. *)
Record inat_tables := mkTables {
  inat_primary_table : list Z;
  inat_escape_tables : list (list (option (list Z)));
  inat_group_tables : list (list (option (list Z)));
  inat_avx_tables : list (list (option (list Z)));
}.

(** [tables[n][l]]; undefined outside of the arrays. *)
Definition sub_table (tables : list (list (option (list Z)))) (n l : Z) : option (option (list Z)) :=
  let* row := if 0 <=? n then tables !! Z.to_nat n else None in
  if 0 <=? l then row !! Z.to_nat l else None.

Definition X86_MODRM_MOD (modrm : Z) : Z := Z.shiftr (Z.land modrm 0xc0) 6.
Definition X86_MODRM_REG (modrm : Z) : Z := Z.shiftr (Z.land modrm 0x38) 3.
Definition X86_MODRM_RM (modrm : Z) : Z := Z.land modrm 0x07.
Definition X86_SIB_BASE (sib : Z) : Z := Z.land sib 0x07.
Definition X86_REX_W (rex : Z) : bool := tst rex 8.
Definition X86_VEX_W (vex : Z) : bool := tst vex 0x80.
Definition X86_EVEX_M (vex : Z) : Z := Z.land vex 0x03.
Definition X86_VEX3_M (vex : Z) : Z := Z.land vex 0x1f.
Definition X86_VEX2_M : Z := 1.
Definition X86_VEX_P (vex : Z) : Z := Z.land vex 0x03.
Definition X86_VEX_M_MAX : Z := 0x1f.
Definition MAX_INSN_SIZE : Z := 15.

Section lookups.
Context (T : inat_tables).

Definition inat_get_opcode_attribute (opcode : Z) : option Z := rd (inat_primary_table T) opcode.

Definition inat_get_last_prefix_id (last_pfx : Z) : option Z :=
  let* lpfx_attr := inat_get_opcode_attribute last_pfx in
  Some (inat_last_prefix_id lpfx_attr).

Definition inat_get_escape_attribute (opcode lpfx_id esc_attr : Z) : option Z :=
  let n := inat_escape_id esc_attr in
  let* table := sub_table (inat_escape_tables T) n 0 in
  match table with
  | None => Some 0
  | Some table =>
      let* a := rd table opcode in
      if inat_has_variant a && negb (lpfx_id =? 0) then
        let* table := sub_table (inat_escape_tables T) n lpfx_id in
        match table with
        | None => Some 0
        | Some table => rd table opcode
        end
      else Some a
  end.

Definition inat_get_group_attribute (modrm lpfx_id grp_attr : Z) : option Z :=
  let n := inat_group_id grp_attr in
  let common := inat_group_common_attribute grp_attr in
  let* table := sub_table (inat_group_tables T) n 0 in
  match table with
  | None => Some common
  | Some table =>
      let* a := rd table (X86_MODRM_REG modrm) in
      if inat_has_variant a && negb (lpfx_id =? 0) then
        let* table := sub_table (inat_group_tables T) n lpfx_id in
        match table with
        | None => Some common
        | Some table => let* a := rd table (X86_MODRM_REG modrm) in Some (Z.lor a common)
        end
      else Some (Z.lor a common)
  end.

Definition inat_get_avx_attribute (opcode vex_m vex_p : Z) : option Z :=
  if (vex_m >? X86_VEX_M_MAX) || (vex_p >? INAT_LSTPFX_MAX) then Some 0 else
  let* table := sub_table (inat_avx_tables T) vex_m 0 in
  match table with
  | None => Some 0
  | Some table =>
      let* a := rd table opcode in
      if negb (inat_is_group a) && negb (vex_p =? 0) then
        let* table := sub_table (inat_avx_tables T) vex_m vex_p in
        match table with
        | None => Some 0
        | Some table => rd table opcode
        end
      else Some a
  end.

End lookups.

(** What the generator guarantees: the declared sizes of the arrays, and that
    an escape leads to an opcode of at most three bytes. *)
Fixpoint escape_depth_le (T : inat_tables) (k : nat) (attr : Z) : bool :=
  negb (inat_is_escape attr) ||
  match k with
  | O => false
  | S k =>
      forallb (fun table => match table with None => true | Some table => forallb (escape_depth_le T k) table end)
        (default [] (inat_escape_tables T !! Z.to_nat (inat_escape_id attr)))
  end.

Definition dims_ok (rows size : nat) (tables : list (list (option (list Z)))) : bool :=
  (length tables =? rows)%nat &&
  forallb (fun row => (length row =? 4)%nat &&
    forallb (fun table => match table with None => true | Some table => (length table =? size)%nat end) row) tables.

Definition tables_ok (T : inat_tables) : bool :=
  (length (inat_primary_table T) =? 256)%nat && forallb (escape_depth_le T 2) (inat_primary_table T) &&
  dims_ok 4 256 (inat_escape_tables T) && dims_ok 32 8 (inat_group_tables T) &&
  dims_ok 32 256 (inat_avx_tables T).

(** * [insn.h]: the instruction under analysis *)

(** The union of [value] and [bytes[4]] is its four bytes. *)
Record insn_field := mkField { bytes : list Z; got : bool; nbytes : Z }.

(** [value], a signed 32-bit integer. *)
Definition value (f : insn_field) : Z := s32 (le_combine (bytes f)).
Definition byte (f : insn_field) (k : nat) : option Z := bytes f !! k.
Definition set_value (v : Z) (f : insn_field) : insn_field := mkField (le_split 4 v) (got f) (nbytes f).
Definition set_byte (k : nat) (b : Z) (f : insn_field) : insn_field := mkField (<[k := b]> (bytes f)) (got f) (nbytes f).
Definition set_got (f : insn_field) : insn_field := mkField (bytes f) true (nbytes f).
Definition set_nbytes (n : Z) (f : insn_field) : insn_field := mkField (bytes f) (got f) n.
Definition zero_field : insn_field := mkField [0; 0; 0; 0] false 0.

(** [immediate] is also [moffset1] and [immediate1], [immediate2] is also
    [moffset2].  Addresses are offsets from [kaddr]. *)
Record insn := mkInsn {
  prefixes : insn_field; rex_prefix : insn_field; vex_prefix : insn_field;
  opcode : insn_field; modrm : insn_field; sib : insn_field; displacement : insn_field;
  immediate : insn_field; immediate2 : insn_field;
  attr : Z; opnd_bytes : Z; addr_bytes : Z; len : Z; x86_64 : bool;
  end_kaddr : Z; next_byte : Z;
}.

Definition upd_prefixes (g : insn_field -> insn_field) (i : insn) : insn :=
    mkInsn (g (prefixes i)) (rex_prefix i) (vex_prefix i) (opcode i) (modrm i) (sib i) (displacement
    i) (immediate i) (immediate2 i) (attr i) (opnd_bytes i) (addr_bytes i) (len i) (x86_64 i)
    (end_kaddr i) (next_byte i).
Definition upd_rex_prefix (g : insn_field -> insn_field) (i : insn) : insn :=
    mkInsn (prefixes i) (g (rex_prefix i)) (vex_prefix i) (opcode i) (modrm i) (sib i) (displacement
    i) (immediate i) (immediate2 i) (attr i) (opnd_bytes i) (addr_bytes i) (len i) (x86_64 i)
    (end_kaddr i) (next_byte i).
Definition upd_vex_prefix (g : insn_field -> insn_field) (i : insn) : insn :=
    mkInsn (prefixes i) (rex_prefix i) (g (vex_prefix i)) (opcode i) (modrm i) (sib i) (displacement
    i) (immediate i) (immediate2 i) (attr i) (opnd_bytes i) (addr_bytes i) (len i) (x86_64 i)
    (end_kaddr i) (next_byte i).
Definition upd_opcode (g : insn_field -> insn_field) (i : insn) : insn :=
    mkInsn (prefixes i) (rex_prefix i) (vex_prefix i) (g (opcode i)) (modrm i) (sib i) (displacement
    i) (immediate i) (immediate2 i) (attr i) (opnd_bytes i) (addr_bytes i) (len i) (x86_64 i)
    (end_kaddr i) (next_byte i).
Definition upd_modrm (g : insn_field -> insn_field) (i : insn) : insn :=
    mkInsn (prefixes i) (rex_prefix i) (vex_prefix i) (opcode i) (g (modrm i)) (sib i) (displacement
    i) (immediate i) (immediate2 i) (attr i) (opnd_bytes i) (addr_bytes i) (len i) (x86_64 i)
    (end_kaddr i) (next_byte i).
Definition upd_sib (g : insn_field -> insn_field) (i : insn) : insn :=
    mkInsn (prefixes i) (rex_prefix i) (vex_prefix i) (opcode i) (modrm i) (g (sib i)) (displacement
    i) (immediate i) (immediate2 i) (attr i) (opnd_bytes i) (addr_bytes i) (len i) (x86_64 i)
    (end_kaddr i) (next_byte i).
Definition upd_displacement (g : insn_field -> insn_field) (i : insn) : insn :=
    mkInsn (prefixes i) (rex_prefix i) (vex_prefix i) (opcode i) (modrm i) (sib i) (g (displacement
    i)) (immediate i) (immediate2 i) (attr i) (opnd_bytes i) (addr_bytes i) (len i) (x86_64 i)
    (end_kaddr i) (next_byte i).
Definition upd_immediate (g : insn_field -> insn_field) (i : insn) : insn :=
    mkInsn (prefixes i) (rex_prefix i) (vex_prefix i) (opcode i) (modrm i) (sib i) (displacement i)
    (g (immediate i)) (immediate2 i) (attr i) (opnd_bytes i) (addr_bytes i) (len i) (x86_64 i)
    (end_kaddr i) (next_byte i).
Definition upd_immediate2 (g : insn_field -> insn_field) (i : insn) : insn :=
    mkInsn (prefixes i) (rex_prefix i) (vex_prefix i) (opcode i) (modrm i) (sib i) (displacement i)
    (immediate i) (g (immediate2 i)) (attr i) (opnd_bytes i) (addr_bytes i) (len i) (x86_64 i)
    (end_kaddr i) (next_byte i).
Definition set_attr (v : Z) (i : insn) : insn :=
    mkInsn (prefixes i) (rex_prefix i) (vex_prefix i) (opcode i) (modrm i) (sib i) (displacement i)
    (immediate i) (immediate2 i) v (opnd_bytes i) (addr_bytes i) (len i) (x86_64 i) (end_kaddr i)
    (next_byte i).
Definition set_opnd_bytes (v : Z) (i : insn) : insn :=
    mkInsn (prefixes i) (rex_prefix i) (vex_prefix i) (opcode i) (modrm i) (sib i) (displacement i)
    (immediate i) (immediate2 i) (attr i) v (addr_bytes i) (len i) (x86_64 i) (end_kaddr i)
    (next_byte i).
Definition set_addr_bytes (v : Z) (i : insn) : insn :=
    mkInsn (prefixes i) (rex_prefix i) (vex_prefix i) (opcode i) (modrm i) (sib i) (displacement i)
    (immediate i) (immediate2 i) (attr i) (opnd_bytes i) v (len i) (x86_64 i) (end_kaddr i)
    (next_byte i).
Definition set_len (v : Z) (i : insn) : insn :=
    mkInsn (prefixes i) (rex_prefix i) (vex_prefix i) (opcode i) (modrm i) (sib i) (displacement i)
    (immediate i) (immediate2 i) (attr i) (opnd_bytes i) (addr_bytes i) v (x86_64 i) (end_kaddr i)
    (next_byte i).
Definition set_end_kaddr (v : Z) (i : insn) : insn :=
    mkInsn (prefixes i) (rex_prefix i) (vex_prefix i) (opcode i) (modrm i) (sib i) (displacement i)
    (immediate i) (immediate2 i) (attr i) (opnd_bytes i) (addr_bytes i) (len i) (x86_64 i) v
    (next_byte i).
Definition set_next_byte (v : Z) (i : insn) : insn :=
    mkInsn (prefixes i) (rex_prefix i) (vex_prefix i) (opcode i) (modrm i) (sib i) (displacement i)
    (immediate i) (immediate2 i) (attr i) (opnd_bytes i) (addr_bytes i) (len i) (x86_64 i)
    (end_kaddr i) v.

(** * The decoding monad *)

(** [None] is undefined behaviour; otherwise the instruction after the call and
    the result, [None] when the function left through [err_out]. *)
Definition M (A : Type) : Type := insn -> option (insn * option A).

Definition ret {A} (a : A) : M A := fun i => Some (i, Some a).
Definition bind {A B} (m : M A) (f : A -> M B) : M B := fun i =>
  match m i with
  | None => None
  | Some (i', None) => Some (i', None)
  | Some (i', Some a) => f a i'
  end.
Definition goto_err_out {A} : M A := fun i => Some (i, None).
Definition undefined {A} : M A := fun _ => None.
Definition lift {A} (o : option A) : M A := fun i => let* a := o in Some (i, Some a).
Definition gets {A} (f : insn -> A) : M A := fun i => Some (i, Some (f i)).
Definition modify (f : insn -> insn) : M unit := fun i => Some (f i, Some tt).
(** The label [err_out] of a function: a failure inside ends the function. *)
Definition err_out (m : M unit) : M unit := fun i =>
  match m i with
  | None => None
  | Some (i', _) => Some (i', Some tt)
  end.
Definition when (b : bool) (m : M unit) : M unit := if b then m else ret tt.

Notation "'let!' x ':=' m 'in' k" := (bind m (fun x => k))
  (at level 10, x pattern, m at level 100, k at level 200) : cmonad_scope.
Notation "m1 ';;' m2" := (bind m1 (fun _ => m2))
  (at level 100, right associativity) : cmonad_scope.

(** The C types that the decoder loads. *)
Inductive ctype := t_byte | t_schar | t_short | t_ushort | t_int.
Definition sizeof (t : ctype) : nat :=
  match t with t_byte | t_schar => 1 | t_short | t_ushort => 2 | t_int => 4 end.
Definition convert (t : ctype) (v : Z) : Z :=
  match t with
  | t_byte | t_ushort => v
  | t_schar => sN 8 v
  | t_short => sN 16 v
  | t_int => s32 v
  end.

Section decoder.
Context (T : inat_tables) (buf : list Z).

(** * [insn.c] *)

Definition validate_next (t : ctype) (n : Z) (i : insn) : bool :=
  next_byte i + Z.of_nat (sizeof t) + n <=? end_kaddr i.

Definition __peek_nbyte_next (t : ctype) (n : Z) : M Z :=
  let! p := gets next_byte in
  let! v := lift (rd_le buf (p + n) (sizeof t)) in
  ret (convert t v).

Definition __get_next (t : ctype) : M Z :=
  let! p := gets next_byte in
  let! v := lift (rd_le buf p (sizeof t)) in
  modify (set_next_byte (p + Z.of_nat (sizeof t))) ;;
  ret (convert t v).

Definition get_next (t : ctype) : M Z :=
  let! ok := gets (validate_next t 0) in
  if ok then __get_next t else goto_err_out.

Definition peek_nbyte_next (t : ctype) (n : Z) : M Z :=
  let! ok := gets (validate_next t n) in
  if ok then __peek_nbyte_next t n else goto_err_out.

Definition peek_next (t : ctype) : M Z := peek_nbyte_next t 0.

(** [next_byte += n] *)
Definition skip (n : Z) : M unit := modify (fun i => set_next_byte (next_byte i + n) i).

Definition insn_init (buf_len : Z) (x86_64 : bool) : insn :=
  let buf_len := if buf_len >? MAX_INSN_SIZE then MAX_INSN_SIZE else buf_len in
  mkInsn zero_field zero_field zero_field zero_field zero_field zero_field zero_field zero_field zero_field
    0 4 (if x86_64 then 8 else 4) 0 x86_64 buf_len 0.

(** [bytes[k]] for a [k] of the program; undefined outside of the array. *)
Definition get_byte (f : insn -> insn_field) (k : Z) : M Z :=
  let! fl := gets f in lift (rd (bytes fl) k).
Definition put_byte (upd : (insn_field -> insn_field) -> insn -> insn) (k b : Z) : M unit :=
  if (0 <=? k) && (k <? 4) then modify (upd (set_byte (Z.to_nat k) b)) else undefined.

(** The loop that looks for [b] among the [n] prefixes from number [k] on. *)
Fixpoint same_prefix (n : nat) (k b : Z) : M bool :=
  match n with
  | O => ret false
  | S n => let! c := get_byte prefixes k in if c =? b then ret true else same_prefix n (k + 1) b
  end.

Definition size_switch (a : Z) : M unit :=
  if inat_is_address_size_prefix a then
    modify (fun i => set_addr_bytes (Z.lxor (addr_bytes i) (if x86_64 i then 12 else 6)) i)
  else when (inat_is_operand_size_prefix a)
    (modify (fun i => set_opnd_bytes (Z.lxor (opnd_bytes i) 6) i)).

(** The loop over the legacy prefixes; [nb] distinct ones so far, [lb] the last
    one, [b] the current byte. *)
Fixpoint prefix_loop (fuel : nat) (nb lb b : Z) : M (Z * Z) :=
  match fuel with
  | O => undefined
  | S fuel =>
      let! a := lift (inat_get_opcode_attribute T b) in
      if inat_is_legacy_prefix a then
        let! same := same_prefix (Z.to_nat nb) 0 b in
        if negb same && (nb =? 4) then ret (nb, lb) else
        when (negb same) (put_byte upd_prefixes nb b ;; size_switch a) ;;
        modify (fun i => upd_prefixes (set_nbytes (u8 (nbytes (prefixes i) + 1))) i) ;;
        skip 1 ;;
        let! b' := peek_next t_byte in
        prefix_loop fuel (if same then nb else nb + 1) b b'
      else ret (nb, lb)
  end.

(** The loop that replaces [lb] by [b] among the stored prefixes. *)
Fixpoint swap_prefix (n : nat) (k lb b : Z) : M unit :=
  match n with
  | O => ret tt
  | S n =>
      let! c := get_byte prefixes k in
      when (c =? lb) (put_byte upd_prefixes k b) ;;
      swap_prefix n (k + 1) lb b
  end.

Definition set_last_prefix (nb lb : Z) : M unit :=
  let! b3 := get_byte prefixes 3 in
  when (negb (lb =? 0) && negb (lb =? b3))
    (when (negb (b3 =? 0)) (swap_prefix (Z.to_nat nb) 0 lb b3) ;;
     put_byte upd_prefixes 3 lb).

Definition decode_rex : M unit :=
  let! x64 := gets x86_64 in
  when x64
    (let! b := peek_next t_byte in
     let! a := lift (inat_get_opcode_attribute T b) in
     when (inat_is_rex_prefix a)
       (modify (upd_rex_prefix (set_value b)) ;;
        modify (upd_rex_prefix (set_nbytes 1)) ;;
        skip 1 ;;
        when (X86_REX_W b) (modify (set_opnd_bytes 8)))).

(** [opnd_bytes = 8] for a VEX.W in 64-bit mode. *)
Definition vex_w (b2 : Z) : M unit :=
  let! x64 := gets x86_64 in when (x64 && X86_VEX_W b2) (modify (set_opnd_bytes 8)).

Definition decode_vex : M unit :=
  let! b := peek_next t_byte in
  let! a := lift (inat_get_opcode_attribute T b) in
  when (inat_is_vex_prefix a)
    (let! b2 := peek_nbyte_next t_byte 1 in
     let! x64 := gets x86_64 in
     if negb x64 && negb (X86_MODRM_MOD b2 =? 3) then ret tt else
     put_byte upd_vex_prefix 0 b ;;
     put_byte upd_vex_prefix 1 b2 ;;
     if inat_is_evex_prefix a then
       let! b2 := peek_nbyte_next t_byte 2 in
       put_byte upd_vex_prefix 2 b2 ;;
       let! b2 := peek_nbyte_next t_byte 3 in
       put_byte upd_vex_prefix 3 b2 ;;
       modify (upd_vex_prefix (set_nbytes 4)) ;;
       skip 4 ;;
       vex_w b2
     else if inat_is_vex3_prefix a then
       let! b2 := peek_nbyte_next t_byte 2 in
       put_byte upd_vex_prefix 2 b2 ;;
       modify (upd_vex_prefix (set_nbytes 3)) ;;
       skip 3 ;;
       vex_w b2
     else
       put_byte upd_vex_prefix 2 (Z.land b2 0x7f) ;;
       modify (upd_vex_prefix (set_nbytes 2)) ;;
       skip 2).

(** The body of [insn_get_prefixes] behind its first test. *)
Definition get_prefixes : M unit :=
  let! b := peek_next t_byte in
  let! (nb, lb) := prefix_loop 16 0 0 b in
  set_last_prefix nb lb ;;
  decode_rex ;;
  modify (upd_rex_prefix set_got) ;;
  decode_vex ;;
  modify (upd_vex_prefix set_got) ;;
  modify (upd_prefixes set_got).

Definition insn_get_prefixes : M unit :=
  let! g := gets (fun i => got (prefixes i)) in
  if g then ret tt else err_out get_prefixes.

(** [insn.h]: accessors that first collect the prefixes *)
Definition insn_is_avx : M bool :=
  insn_get_prefixes ;; gets (fun i => negb (value (vex_prefix i) =? 0)).
Definition insn_is_evex : M bool :=
  insn_get_prefixes ;; gets (fun i => nbytes (vex_prefix i) =? 4).

Definition insn_complete (i : insn) : bool :=
  got (opcode i) && got (modrm i) && got (sib i) && got (displacement i) && got (immediate i).

Definition insn_vex_m_bits : M Z :=
  let! n := gets (fun i => nbytes (vex_prefix i)) in
  if n =? 2 then ret X86_VEX2_M
  else let! b := get_byte vex_prefix 1 in ret (if n =? 3 then X86_VEX3_M b else X86_EVEX_M b).

Definition insn_vex_p_bits : M Z :=
  let! n := gets (fun i => nbytes (vex_prefix i)) in
  let! b := get_byte vex_prefix (if n =? 2 then 1 else 2) in ret (X86_VEX_P b).

Definition insn_last_prefix_id : M Z :=
  let! avx := insn_is_avx in
  if avx then insn_vex_p_bits else
  let! b := get_byte prefixes 3 in
  if b =? 0 then ret 0 else lift (inat_get_last_prefix_id T b).

Definition insn_offset_rex_prefix (i : insn) : Z := nbytes (prefixes i).
Definition insn_offset_vex_prefix (i : insn) : Z := insn_offset_rex_prefix i + nbytes (rex_prefix i).
Definition insn_offset_opcode (i : insn) : Z := insn_offset_vex_prefix i + nbytes (vex_prefix i).
Definition insn_offset_modrm (i : insn) : Z := insn_offset_opcode i + nbytes (opcode i).
Definition insn_offset_sib (i : insn) : Z := insn_offset_modrm i + nbytes (modrm i).
Definition insn_offset_displacement (i : insn) : Z := insn_offset_sib i + nbytes (sib i).
Definition insn_offset_immediate (i : insn) : Z := insn_offset_displacement i + nbytes (displacement i).

(** The bytes of an escaped opcode. *)
Fixpoint escape_loop (fuel : nat) : M unit :=
  match fuel with
  | O => undefined
  | S fuel =>
      let! a := gets attr in
      when (inat_is_escape a)
        (let! op := get_next t_byte in
         let! n := gets (fun i => nbytes (opcode i)) in
         put_byte upd_opcode n op ;;
         modify (upd_opcode (set_nbytes (n + 1))) ;;
         let! pfx_id := insn_last_prefix_id in
         let! a' := lift (inat_get_escape_attribute T op pfx_id a) in
         modify (set_attr a') ;;
         escape_loop fuel)
  end.

(** The attribute of an opcode behind a VEX prefix. *)
Definition avx_attribute (op : Z) : M unit :=
  let! m := insn_vex_m_bits in
  let! p := insn_vex_p_bits in
  let! a := lift (inat_get_avx_attribute T op m p) in
  modify (set_attr a) ;;
  let! bad := (if inat_must_evex a then let! e := insn_is_evex in ret (negb e) else ret false) in
  when (bad || (negb (inat_accept_vex a) && negb (inat_is_group a))) (modify (set_attr 0)).

(** The body of [insn_get_opcode] behind the collection of the prefixes. *)
Definition get_opcode : M unit :=
  let! op := get_next t_byte in
  put_byte upd_opcode 0 op ;;
  modify (upd_opcode (set_nbytes 1)) ;;
  let! avx := insn_is_avx in
  (if avx then avx_attribute op else
     let! a := lift (inat_get_opcode_attribute T op) in
     modify (set_attr a) ;;
     escape_loop 16 ;;
     let! a := gets attr in
     when (inat_must_vex a) (modify (set_attr 0))) ;;
  modify (upd_opcode set_got).

Definition insn_get_opcode : M unit :=
  let! g := gets (fun i => got (opcode i)) in
  if g then ret tt else err_out (insn_get_prefixes ;; get_opcode).

Definition get_modrm : M unit :=
  let! a := gets attr in
  when (inat_has_modrm a)
    (let! mod_ := get_next t_byte in
     modify (upd_modrm (set_value mod_)) ;;
     modify (upd_modrm (set_nbytes 1)) ;;
     when (inat_is_group a)
       (let! pfx_id := insn_last_prefix_id in
        let! a' := lift (inat_get_group_attribute T mod_ pfx_id a) in
        modify (set_attr a') ;;
        let! avx := insn_is_avx in
        when (avx && negb (inat_accept_vex a')) (modify (set_attr 0)))) ;;
  let! i := gets (fun i => i) in
  when (x86_64 i && inat_is_force64 (attr i)) (modify (set_opnd_bytes 8)) ;;
  modify (upd_modrm set_got).

Definition insn_get_modrm : M unit :=
  let! g := gets (fun i => got (modrm i)) in
  if g then ret tt else err_out (insn_get_opcode ;; get_modrm).

Definition insn_rip_relative : M bool :=
  let! x64 := gets x86_64 in
  if negb x64 then ret false else
  insn_get_modrm ;;
  gets (fun i => negb (nbytes (modrm i) =? 0) && (Z.land (value (modrm i)) 0xc7 =? 0x5)).

(** [insn->f.value = get_next(t, insn); insn->f.nbytes = sizeof(t);] *)
Definition get_field (upd : (insn_field -> insn_field) -> insn -> insn) (t : ctype) : M unit :=
  let! v := get_next t in
  modify (upd (set_value v)) ;;
  modify (upd (set_nbytes (Z.of_nat (sizeof t)))).

Definition get_sib : M unit :=
  let! i := gets (fun i => i) in
  let m := u8 (value (modrm i)) in
  when (negb (nbytes (modrm i) =? 0) && negb (addr_bytes i =? 2) &&
        negb (X86_MODRM_MOD m =? 3) && (X86_MODRM_RM m =? 4))
    (get_field upd_sib t_byte) ;;
  modify (upd_sib set_got).

Definition insn_get_sib : M unit :=
  let! g := gets (fun i => got (sib i)) in
  if g then ret tt else err_out (insn_get_modrm ;; get_sib).

Definition get_displacement : M unit :=
  let! i := gets (fun i => i) in
  let mod_ := X86_MODRM_MOD (value (modrm i)) in
  let rm := X86_MODRM_RM (value (modrm i)) in
  let base := X86_SIB_BASE (value (sib i)) in
  when (negb (nbytes (modrm i) =? 0) && negb (mod_ =? 3))
    (if mod_ =? 1 then get_field upd_displacement t_schar
     else if addr_bytes i =? 2 then
       when ((mod_ =? 0) && (rm =? 6) || (mod_ =? 2)) (get_field upd_displacement t_short)
     else
       when ((mod_ =? 0) && (rm =? 5) || (mod_ =? 2) || (mod_ =? 0) && (base =? 5))
         (get_field upd_displacement t_int)) ;;
  modify (upd_displacement set_got).

Definition insn_get_displacement : M unit :=
  let! g := gets (fun i => got (displacement i)) in
  if g then ret tt else err_out (insn_get_sib ;; get_displacement).

(** The helpers for immediates return 0 when they leave through [err_out], and
    their callers then do the same. *)
Definition both_got : M unit := modify (upd_immediate set_got) ;; modify (upd_immediate2 set_got).

Definition __get_moffset : M unit :=
  let! n := gets addr_bytes in
  (if n =? 2 then get_field upd_immediate t_short
   else if n =? 4 then get_field upd_immediate t_int
   else if n =? 8 then get_field upd_immediate t_int ;; get_field upd_immediate2 t_int
   else goto_err_out) ;;
  both_got.

Definition __get_immv32 : M unit :=
  let! n := gets opnd_bytes in
  if n =? 2 then get_field upd_immediate t_short
  else if (n =? 4) || (n =? 8) then get_field upd_immediate t_int
  else goto_err_out.

Definition __get_immv : M unit :=
  let! n := gets opnd_bytes in
  (if n =? 2 then get_field upd_immediate t_short
   else if n =? 4 then get_field upd_immediate t_int
   else if n =? 8 then get_field upd_immediate t_int ;; get_field upd_immediate2 t_int
   else goto_err_out) ;;
  both_got.

Definition __get_immptr : M unit :=
  let! n := gets opnd_bytes in
  (if n =? 2 then get_field upd_immediate t_short
   else if n =? 4 then get_field upd_immediate t_int
   else goto_err_out) ;;
  get_field upd_immediate2 t_ushort ;;
  both_got.

Definition get_imm (size : Z) : M unit :=
  if size =? INAT_IMM_BYTE then get_field upd_immediate t_schar
  else if size =? INAT_IMM_WORD then get_field upd_immediate t_short
  else if size =? INAT_IMM_DWORD then get_field upd_immediate t_int
  else if size =? INAT_IMM_QWORD then get_field upd_immediate t_int ;; get_field upd_immediate2 t_int
  else if size =? INAT_IMM_PTR then __get_immptr
  else if size =? INAT_IMM_VWORD32 then __get_immv32
  else if size =? INAT_IMM_VWORD then __get_immv
  else goto_err_out.

Definition get_immediate : M unit :=
  let! a := gets attr in
  (if inat_has_moffset a then __get_moffset
   else when (inat_has_immediate a)
     (get_imm (inat_immediate_size a) ;;
      when (inat_has_second_immediate a) (get_field upd_immediate2 t_schar))) ;;
  modify (upd_immediate set_got).

Definition insn_get_immediate : M unit :=
  let! g := gets (fun i => got (immediate i)) in
  if g then ret tt else err_out (insn_get_displacement ;; get_immediate).

Definition insn_get_length : M unit :=
  let! n := gets len in
  if negb (n =? 0) then ret tt else
  insn_get_immediate ;;
  modify (fun i => set_len (u8 (next_byte i)) i).

End decoder.

(** * The lookups stay inside of the tables *)

Lemma forallb_rd (p : Z -> bool) l k a : forallb p l = true -> rd l k = Some a -> p a = true.
Proof.
  unfold rd. destruct (0 <=? k); [|done]. intros Hf Ha.
  rewrite forallb_forall in Hf. apply Hf. apply list_elem_of_In. by eapply list_elem_of_lookup_2.
Qed.

Lemma forallb_lookup {A} (p : A -> bool) (l : list A) k a :
  forallb p l = true -> l !! k = Some a -> p a = true.
Proof.
  intros Hf Ha. rewrite forallb_forall in Hf. apply Hf. apply list_elem_of_In.
  by eapply list_elem_of_lookup_2.
Qed.

Lemma rd_len l n k : (length l =? n)%nat = true -> 0 <= k < Z.of_nat n -> exists a, rd l k = Some a.
Proof. intros Hl%Nat.eqb_eq Hk. apply rd_in_range. lia. Qed.

(** A table of tables of the declared dimensions. *)
Lemma sub_table_ok rows size tables n l :
  dims_ok rows size tables = true -> 0 <= n < Z.of_nat rows -> 0 <= l < 4 ->
  exists t, sub_table tables n l = Some t /\
    forall table, t = Some table -> (length table =? size)%nat = true.
Proof.
  unfold dims_ok, sub_table. intros [Hr Hf]%andb_true_iff Hn Hl. apply Nat.eqb_eq in Hr.
  rewrite !(proj2 (Z.leb_le 0 _)) by lia.
  destruct (lookup_lt_is_Some_2 tables (Z.to_nat n)) as [row Hrow]; [lia|]. rewrite Hrow. simpl.
  pose proof (forallb_lookup _ _ _ _ Hf Hrow) as [H4 Hs]%andb_true_iff. apply Nat.eqb_eq in H4.
  destruct (lookup_lt_is_Some_2 row (Z.to_nat l)) as [t Ht]; [lia|].
  exists t. split; [done|]. intros table ->. apply (forallb_lookup _ _ _ _ Hs Ht).
Qed.

Lemma field_id_range a m k n : 0 <= k -> 0 <= n -> m = Z.shiftl (Z.ones n) k ->
  0 <= Z.shiftr (Z.land a m) k < 2 ^ n.
Proof.
  intros Hk Hn ->. rewrite land_lane by done. rewrite <-Z.shiftl_mul_pow2 by done.
  rewrite Z.shiftr_shiftl_l, Z.sub_diag, Z.shiftl_0_r by lia. apply Z.mod_pos_bound.
  by apply Z.pow_pos_nonneg.
Qed.

Lemma escape_id_range a : 0 <= inat_escape_id a < 4.
Proof. by apply (field_id_range a _ 4 2). Qed.
Lemma group_id_range a : 0 <= inat_group_id a < 32.
Proof. by apply (field_id_range a _ 6 5). Qed.
Lemma modrm_reg_range a : 0 <= X86_MODRM_REG a < 8.
Proof. by apply (field_id_range a _ 3 3). Qed.
Lemma last_prefix_id_range a : 0 <= inat_last_prefix_id a < 4.
Proof.
  unfold inat_last_prefix_id. pose proof (land_bounded_r a INAT_PFX_MASK ltac:(done)).
  change INAT_LSTPFX_MAX with 3. destruct (_ >? _) eqn:E; bprop; lia.
Qed.
Lemma vex_p_range a : 0 <= X86_VEX_P a < 4.
Proof. unfold X86_VEX_P. pose proof (land_bounded_r a 3 ltac:(lia)) as H. change (0 <= Z.land a 3 < 4). lia. Qed.

Section tables.
Context (T : inat_tables) (HT : tables_ok T = true).

Lemma opcode_attribute_ok b :
  is_byte b -> exists a, inat_get_opcode_attribute T b = Some a /\ escape_depth_le T 2 a = true.
Proof using HT.
  unfold tables_ok in HT. bprop. intros Hb. unfold inat_get_opcode_attribute.
  destruct (rd_len (inat_primary_table T) 256 b) as [a Ha]; [done|exact Hb|].
  exists a. split; [done|]. eapply forallb_rd; eauto.
Qed.

Lemma last_prefix_ok b : is_byte b -> exists k, inat_get_last_prefix_id T b = Some k /\ 0 <= k < 4.
Proof using HT.
  intros Hb. unfold inat_get_last_prefix_id. destruct (opcode_attribute_ok b Hb) as (a & -> & _).
  eexists. split; [done|]. apply last_prefix_id_range.
Qed.

Lemma sub_table_depth a l t k : escape_depth_le T (S k) a = true -> inat_is_escape a = true ->
  sub_table (inat_escape_tables T) (inat_escape_id a) l = Some (Some t) ->
  forallb (escape_depth_le T k) t = true.
Proof using Type.
  intros Hd He. cbn [escape_depth_le] in Hd. rewrite He in Hd. cbn [negb orb] in Hd.
  unfold sub_table. pose proof (escape_id_range a). rewrite (proj2 (Z.leb_le 0 (inat_escape_id a))) by lia.
  destruct (inat_escape_tables T !! _) as [row|]; [|done]. cbn [mbind option_bind default] in *.
  destruct (0 <=? l); [|done]. intros Ht. apply (forallb_lookup _ _ _ _ Hd Ht).
Qed.

Lemma escape_attribute_ok k op pfx a :
  is_byte op -> 0 <= pfx < 4 -> escape_depth_le T (S k) a = true -> inat_is_escape a = true ->
  exists a', inat_get_escape_attribute T op pfx a = Some a' /\ escape_depth_le T k a' = true.
Proof using HT.
  intros Hop Hp Hd He. pose proof HT as H. unfold tables_ok in H. bprop.
  assert (escape_depth_le T k 0 = true) as Hz by (destruct k; done).
  unfold inat_get_escape_attribute. pose proof (escape_id_range a).
  destruct (sub_table_ok 4 256 (inat_escape_tables T) (inat_escape_id a) 0) as (t & Ht & Hs); [done|lia..|].
  rewrite Ht. destruct t as [t|]; [|by exists 0]. cbn [mbind option_bind].
  destruct (rd_len t 256 op) as [b Hb]; [by apply Hs|exact Hop|]. rewrite Hb. cbn [mbind option_bind].
  destruct (_ && _).
  - destruct (sub_table_ok 4 256 (inat_escape_tables T) (inat_escape_id a) pfx) as (t' & Ht' & Hs'); [done|lia..|].
    rewrite Ht'. destruct t' as [t'|]; [|by exists 0]. cbn [mbind option_bind].
    destruct (rd_len t' 256 op) as [b' Hb']; [by apply Hs'|exact Hop|].
    exists b'. split; [done|]. eapply forallb_rd; [|exact Hb']. eapply sub_table_depth; eauto.
  - exists b. split; [done|]. eapply forallb_rd; [|exact Hb]. eapply sub_table_depth; eauto.
Qed.

Lemma group_attribute_ok md pfx a : 0 <= pfx < 4 -> exists a', inat_get_group_attribute T md pfx a = Some a'.
Proof using HT.
  intros Hp. pose proof HT as H. unfold tables_ok in H. bprop.
  unfold inat_get_group_attribute. pose proof (group_id_range a). pose proof (modrm_reg_range md).
  destruct (sub_table_ok 32 8 (inat_group_tables T) (inat_group_id a) 0) as (t & -> & Hs); [done|lia..|].
  cbn [mbind option_bind]. destruct t as [t|]; [|eauto].
  destruct (rd_len t 8 (X86_MODRM_REG md)) as [b ->]; [by apply Hs|lia|]. cbn [mbind option_bind].
  destruct (_ && _); [|eauto].
  destruct (sub_table_ok 32 8 (inat_group_tables T) (inat_group_id a) pfx) as (t' & -> & Hs'); [done|lia..|].
  cbn [mbind option_bind]. destruct t' as [t'|]; [|eauto].
  destruct (rd_len t' 8 (X86_MODRM_REG md)) as [b' ->]; [by apply Hs'|lia|]. eauto.
Qed.

Lemma avx_attribute_ok op m p : is_byte op -> 0 <= m -> 0 <= p -> exists a, inat_get_avx_attribute T op m p = Some a.
Proof using HT.
  intros Hop Hm Hp. pose proof HT as H. unfold tables_ok in H. bprop.
  unfold inat_get_avx_attribute. change X86_VEX_M_MAX with 31. change INAT_LSTPFX_MAX with 3.
  destruct (_ || _) eqn:E; [eauto|]. bprop.
  destruct (sub_table_ok 32 256 (inat_avx_tables T) m 0) as (t & -> & Hs); [done|lia..|].
  cbn [mbind option_bind]. destruct t as [t|]; [|eauto].
  destruct (rd_len t 256 op) as [b ->]; [by apply Hs|exact Hop|]. cbn [mbind option_bind].
  destruct (_ && _); [|eauto].
  destruct (sub_table_ok 32 256 (inat_avx_tables T) m p) as (t' & -> & Hs'); [done|lia..|].
  cbn [mbind option_bind]. destruct t' as [t'|]; [|eauto].
  destruct (rd_len t' 256 op) as [b' ->]; [by apply Hs'|exact Hop|]. eauto.
Qed.

End tables.

(** * Weakest preconditions for the decoding monad *)

(** [m] is defined on [i]; it ends normally in [Q], through [err_out] in [E]. *)
Definition wp {A} (m : M A) (Q : A -> insn -> Prop) (E : insn -> Prop) (i : insn) : Prop :=
  match m i with
  | None => False
  | Some (i', None) => E i'
  | Some (i', Some a) => Q a i'
  end.

Section wp_rules.
Context {A B : Type}.
Implicit Types (m : M A) (f : A -> M B) (E : insn -> Prop).

Lemma wp_ret (a : A) Q E i : Q a i -> wp (ret a) Q E i.
Proof. done. Qed.
Lemma wp_bind m f Q E i : wp m (fun a => wp (f a) Q E) E i -> wp (bind m f) Q E i.
Proof. unfold wp, bind. by destruct (m i) as [[i' [a|]]|]. Qed.
Lemma wp_gets (g : insn -> A) Q E i : Q (g i) i -> wp (gets g) Q E i.
Proof. done. Qed.
Lemma wp_modify g Q E i : Q tt (g i) -> wp (modify g) Q E i.
Proof. done. Qed.
Lemma wp_lift (o : option A) a Q E i : o = Some a -> Q a i -> wp (lift o) Q E i.
Proof. by intros ->. Qed.
Lemma wp_err_out (m : M unit) (Q : unit -> insn -> Prop) E i : wp m (fun _ => Q tt) (Q tt) i -> wp (err_out m) Q E i.
Proof. unfold wp, err_out. by destruct (m i) as [[i' [a|]]|]. Qed.
Lemma wp_when b (m : M unit) (Q : unit -> insn -> Prop) E i :
  (b = true -> wp m Q E i) -> (b = false -> Q tt i) -> wp (when b m) Q E i.
Proof. destruct b; unfold when; [by intros H _; apply H|by intros _ H; apply H]. Qed.
Lemma wp_mono m (Q Q' : A -> insn -> Prop) (E E' : insn -> Prop) i :
  wp m Q E i -> (forall a i', Q a i' -> Q' a i') -> (forall i', E i' -> E' i') -> wp m Q' E' i.
Proof. unfold wp. destruct (m i) as [[i' [a|]]|]; auto. Qed.
(** The result of a computation, when it is needed as an equation. *)
Lemma wp_run m (Q : A -> insn -> Prop) E i : wp m Q E i ->
  exists i' r, m i = Some (i', r) /\ match r with Some a => Q a i' | None => E i' end.
Proof. unfold wp. destruct (m i) as [[i' [a|]]|]; [..|done]; eauto. Qed.
End wp_rules.

(** * What every state of the decoder satisfies *)

(** Four bytes in every field. *)
Definition fok (f : insn_field) : Prop := length (bytes f) = 4%nat /\ Forall is_byte (bytes f).

(** The bytes of the instruction that a field holds. *)
Definition fbytes (f : insn_field) : list Z := take (Z.to_nat (nbytes f)) (bytes f).

Lemma fok_set_byte k b f : is_byte b -> fok f -> fok (set_byte k b f).
Proof. intros Hb [Hl Hf]. split; cbn; [by rewrite length_insert|by apply Forall_insert]. Qed.
Lemma fok_set_value v f : fok (set_value v f).
Proof. split; [apply length_le_split|apply le_split_bytes]. Qed.
Lemma fok_set_nbytes n f : fok f -> fok (set_nbytes n f).
Proof. done. Qed.
Lemma fok_set_got f : fok f -> fok (set_got f).
Proof. done. Qed.
Lemma fok_zero : fok zero_field.
Proof. split; [done|]. repeat constructor; done. Qed.
#[local] Hint Resolve fok_set_byte fok_set_value fok_set_nbytes fok_set_got fok_zero : perf.

Section safety.
Context (T : inat_tables) (HT : tables_ok T = true).
Context (buf : list Z) (Hbuf : Forall is_byte buf).

Record wf (i : insn) : Prop := {
  wf_end : end_kaddr i <= 15 /\ end_kaddr i <= Z.of_nat (length buf);
  wf_next : 0 <= next_byte i /\ (next_byte i <= end_kaddr i \/ next_byte i = 0);
  wf_pfx : 0 <= nbytes (prefixes i) <= next_byte i;
  wf_prefixes : fok (prefixes i); wf_rex : fok (rex_prefix i); wf_vex : fok (vex_prefix i);
  wf_opcode : fok (opcode i); wf_modrm : fok (modrm i); wf_sib : fok (sib i);
  wf_displacement : fok (displacement i); wf_immediate : fok (immediate i); wf_immediate2 : fok (immediate2 i);
}.

(** The bytes of the buffer from [p] up to [q]. *)
Definition slice (p q : Z) : list Z := take (Z.to_nat (q - p)) (drop (Z.to_nat p) buf).

Lemma slice_app p q r : 0 <= p <= q -> q <= r -> slice p q ++ slice q r = slice p r.
Proof using Type.
  intros H1 H2. unfold slice. replace (Z.to_nat q) with (Z.to_nat p + Z.to_nat (q - p))%nat by lia.
  rewrite <-drop_drop, take_take_drop. f_equal. lia.
Qed.

Lemma slice_nil p : slice p p = [].
Proof using Type. unfold slice. by rewrite Z.sub_diag. Qed.

Lemma rd_le_slice p n : 0 <= p -> p + Z.of_nat n <= Z.of_nat (length buf) ->
  rd_le buf p n = Some (le_combine (slice p (p + Z.of_nat n))) /\
  length (slice p (p + Z.of_nat n)) = n /\ Forall is_byte (slice p (p + Z.of_nat n)).
Proof using Hbuf.
  intros Hp Hl. unfold rd_le, rd_bytes, slice.
  rewrite !(proj2 (Z.leb_le _ _)) by lia. cbn [andb mbind option_bind].
  replace (Z.to_nat (p + Z.of_nat n - p)) with n by lia. split; [done|].
  rewrite length_take, length_drop. split; [lia|]. by apply Forall_take, Forall_drop.
Qed.

Lemma convert_bytes t v : le_split (sizeof t) (convert t v) = le_split (sizeof t) v.
Proof using Type.
  assert (forall w x, 0 <= w -> sN w x mod 2 ^ w = x mod 2 ^ w) as Hs.
  { intros w x Hw. unfold sN. assert (0 < 2 ^ w) by (by apply Z.pow_pos_nonneg).
    destruct (_ <? _); [by rewrite Z.mod_mod by lia|].
    by rewrite <-(Z.mul_1_l (2 ^ w)) at 2; rewrite <-(Z.add_opp_r _ (1 * _)), <-Z.mul_opp_l, Z_mod_plus_full, Z.mod_mod by lia. }
  assert (forall n x y, x mod 2 ^ (8 * Z.of_nat n) = y mod 2 ^ (8 * Z.of_nat n) -> le_split n x = le_split n y) as Hd.
  { intros n x y Hxy. rewrite <-(le_split_combine (le_split n x)), <-(le_split_combine (le_split n y)) by apply le_split_bytes.
    by rewrite !length_le_split, !le_combine_split, Hxy. }
  apply Hd. destruct t; try done; by apply Hs.
Qed.

Lemma le_split_take n k v : (n <= k)%nat -> take n (le_split k v) = le_split n v.
Proof using Type.
  revert k v. induction n as [|n IH]; intros k v Hk; [done|].
  destruct k as [|k]; [lia|]. cbn. f_equal. apply IH. lia.
Qed.

(** ** Reading bytes *)

Lemma wf_room i t n : wf i -> 0 <= n -> validate_next t n i = true ->
  0 <= next_byte i /\ next_byte i + n + Z.of_nat (sizeof t) <= end_kaddr i <= Z.of_nat (length buf) /\ end_kaddr i <= 15.
Proof using Type. intros [[] [] _ _ _ _ _ _ _ _ _ _] Hn Hv%Z.leb_le. lia. Qed.

Lemma slice_bytes p n : 0 <= p -> p + Z.of_nat n <= Z.of_nat (length buf) ->
  le_split n (le_combine (slice p (p + Z.of_nat n))) = slice p (p + Z.of_nat n).
Proof using Hbuf.
  intros Hp Hl. destruct (rd_le_slice p n Hp Hl) as (_ & Hlen & Hf).
  pose proof (le_split_combine _ Hf) as H. by rewrite Hlen in H.
Qed.

(** The state behind a read of [sizeof t] bytes. *)
Definition advance (t : ctype) (i : insn) : insn := set_next_byte (next_byte i + Z.of_nat (sizeof t)) i.

Lemma wp_get_next t Q E i : wf i -> E i ->
  (forall v, next_byte i + Z.of_nat (sizeof t) <= end_kaddr i -> wf (advance t i) ->
     le_split (sizeof t) v = slice (next_byte i) (next_byte i + Z.of_nat (sizeof t)) ->
     v = convert t (le_combine (slice (next_byte i) (next_byte i + Z.of_nat (sizeof t)))) ->
     Q v (advance t i)) ->
  wp (get_next buf t) Q E i.
Proof using Hbuf.
  intros Hwf HE HQ. unfold get_next. apply wp_bind, wp_gets. destruct (validate_next t 0 i) eqn:Ev; [|done].
  destruct (wf_room i t 0 Hwf) as (H0 & [H1 H2] & H3); [lia|done|].
  unfold __get_next. apply wp_bind, wp_gets, wp_bind.
  destruct (rd_le_slice (next_byte i) (sizeof t)) as (Hr & _ & _); [lia..|].
  eapply wp_lift; [exact Hr|]. apply wp_bind, wp_modify, wp_ret. apply HQ; [lia| |..|done].
  - destruct Hwf as [[] [] [] ? ? ? ? ? ? ? ? ?]. constructor; cbn; try done; lia.
  - rewrite convert_bytes. apply slice_bytes; lia.
Qed.

Lemma wp_peek n Q E i : wf i -> 0 <= n -> E i ->
  (forall b, next_byte i + n + 1 <= end_kaddr i -> is_byte b ->
     slice (next_byte i + n) (next_byte i + n + 1) = [b] -> Q b i) ->
  wp (peek_nbyte_next buf t_byte n) Q E i.
Proof using Hbuf.
  intros Hwf Hn HE HQ. unfold peek_nbyte_next. apply wp_bind, wp_gets.
  destruct (validate_next t_byte n i) eqn:Ev; [|done].
  destruct (wf_room i t_byte n Hwf) as (H0 & [H1 H2] & H3); [lia|done|]. cbn in H1.
  unfold __peek_nbyte_next. apply wp_bind, wp_gets, wp_bind.
  destruct (rd_le_slice (next_byte i + n) 1) as (Hr & Hl & Hf); [lia..|].
  eapply wp_lift; [exact Hr|]. apply wp_ret. change (Z.of_nat 1) with 1 in *. cbn [convert].
  destruct (slice _ _) as [|b [|]] eqn:Es; try done. apply Forall_cons_1 in Hf as [Hb _].
  cbn [le_combine]. replace (b + _) with b by lia. apply HQ; done.
Qed.

Lemma wp_get_byte f k Q E i : fok (f i) -> 0 <= k < 4 ->
  (forall b, is_byte b -> rd (bytes (f i)) k = Some b -> Q b i) -> wp (get_byte f k) Q E i.
Proof using Type.
  intros [Hl Hf] Hk HQ. unfold get_byte. apply wp_bind, wp_gets.
  destruct (rd_in_range (bytes (f i)) k) as [b Hb]; [lia|].
  eapply wp_lift; [exact Hb|]. apply HQ; [by eapply rd_byte|done].
Qed.

Lemma wp_put_byte upd k b Q E i : 0 <= k < 4 ->
  Q tt (upd (set_byte (Z.to_nat k) b) i) -> wp (put_byte upd k b) Q E i.
Proof using Type.
  intros Hk HQ. unfold put_byte. rewrite (proj2 (Z.leb_le 0 k)), (proj2 (Z.ltb_lt k 4)) by lia. done.
Qed.

(** ** The prefixes *)

(** What the scan of the prefixes does not write. *)
Definition untouched (i : insn) :=
  (opcode i, modrm i, sib i, displacement i, immediate i, immediate2 i, attr i, len i, x86_64 i, end_kaddr i).

Definition is_legacy (b : Z) : bool :=
  match inat_get_opcode_attribute T b with Some a => inat_is_legacy_prefix a | None => false end.

(** [i'] is reached from [i] while the prefixes are scanned. *)
Record pstep (i i' : insn) : Prop := {
  ps_wf : wf i';
  ps_frame : untouched i' = untouched i;
  ps_got : got (prefixes i') = got (prefixes i);
  ps_next : next_byte i <= next_byte i';
}.

Lemma pstep_refl i : wf i -> pstep i i.
Proof using Type. by constructor. Qed.
Lemma pstep_trans i1 i2 i3 : pstep i1 i2 -> pstep i2 i3 -> pstep i1 i3.
Proof using Type. intros [] []. constructor; [done|congruence..|lia]. Qed.

Ltac wf_of H := destruct H as [[] [] [] ? ? ? ? ? ? ? ? ?]; constructor; cbn -[Z.lxor u8] in *; auto with perf; lia.
Ltac wf_upd := lazymatch goal with H : wf _ |- wf _ => wf_of H end.
Ltac pstep_upd := constructor; [wf_upd|done|done|cbn; lia].

Lemma wp_same_prefix n k b Q E i : wf i -> 0 <= k -> k + Z.of_nat n <= 4 ->
  (forall r, Q r i) -> wp (same_prefix n k b) Q E i.
Proof using Type.
  intros Hwf. revert k. induction n as [|n IH]; intros k Hk Hn HQ; [apply HQ|]. cbn [same_prefix].
  apply wp_bind, wp_get_byte; [apply Hwf|lia|]. intros c _ _. destruct (c =? b); [apply HQ|]. apply IH; [lia..|done].
Qed.

Lemma wp_size_switch a Q E i : wf i ->
  (forall i', pstep i i' -> (prefixes i', rex_prefix i', vex_prefix i', next_byte i') = (prefixes i, rex_prefix i, vex_prefix i, next_byte i) -> Q tt i') ->
  wp (size_switch a) Q E i.
Proof using Type.
  intros Hwf HQ. unfold size_switch. destruct (inat_is_address_size_prefix a).
  - apply wp_modify, HQ; [pstep_upd|done].
  - apply wp_when; intros _; [apply wp_modify|]; apply HQ; [pstep_upd|done|by apply pstep_refl|done].
Qed.

(** One more legacy prefix: the state behind it. *)
Lemma prefix_store {C} (k : M C) same nb b a i Q E : wf i -> 0 <= nb < 4 \/ same = true -> is_byte b ->
  next_byte i + 1 <= end_kaddr i ->
  (forall i', pstep i i' -> next_byte i' = next_byte i + 1 -> (rex_prefix i', vex_prefix i') = (rex_prefix i, vex_prefix i) ->
     nbytes (prefixes i') = nbytes (prefixes i) + 1 -> wp k Q E i') ->
  wp (when (negb same) (put_byte upd_prefixes nb b ;; size_switch a) ;;
      modify (fun i => upd_prefixes (set_nbytes (u8 (nbytes (prefixes i) + 1))) i) ;; skip 1 ;; k) Q E i.
Proof using Type.
  intros Hwf Hnb Hb Hn HQ. apply wp_bind.
  assert (forall i1, pstep i i1 -> (nbytes (prefixes i1), rex_prefix i1, vex_prefix i1, next_byte i1)
                                   = (nbytes (prefixes i), rex_prefix i, vex_prefix i, next_byte i) ->
    wp (modify (fun i => upd_prefixes (set_nbytes (u8 (nbytes (prefixes i) + 1))) i) ;; skip 1 ;; k) Q E i1) as Hk.
  { intros i1 Hp [= H1 H2 H3 H4]. apply wp_bind, wp_modify, wp_bind. unfold skip. apply wp_modify.
    pose proof (ps_wf _ _ Hp) as [[] [] [] ? ? ? ? ? ? ? ? ?]. injection (ps_frame _ _ Hp) as _ _ _ _ _ _ _ _ _ He.
    assert (u8 (nbytes (prefixes i1) + 1) = nbytes (prefixes i1) + 1) as Hu by (apply Z.mod_small; lia).
    apply HQ; cbn -[u8]; rewrite ?Hu; try congruence; try lia.
    constructor; cbn -[u8]; [constructor; cbn -[u8]; rewrite ?Hu; auto with perf; lia|apply Hp..|lia]. }
  apply wp_when; intros Hs; [|apply Hk; [by apply pstep_refl|done]].
  destruct Hnb as [Hnb| ->]; [|done]. apply wp_bind, wp_put_byte; [done|].
  assert (wf (upd_prefixes (set_byte (Z.to_nat nb) b) i)) as Hw' by wf_upd.
  apply wp_size_switch; [done|]. intros i' Hp Heq. apply Hk.
  - eapply pstep_trans; [|exact Hp]. constructor; cbn; done.
  - injection Heq as -> -> -> ->. done.
Qed.

(** The loop stops with all the bytes it passed being legacy prefixes. *)
Record passed (i i' : insn) : Prop := {
  pa_step : pstep i i';
  pa_same : (rex_prefix i', vex_prefix i') = (rex_prefix i, vex_prefix i);
  pa_count : nbytes (prefixes i') - nbytes (prefixes i) = next_byte i' - next_byte i;
  pa_legacy : Forall (fun b => is_legacy b = true) (slice (next_byte i) (next_byte i'));
}.

Lemma wp_prefix_loop fuel nb lb b i : wf i -> 0 <= nb <= 4 -> is_byte lb -> is_byte b ->
  slice (next_byte i) (next_byte i + 1) = [b] -> next_byte i + 1 <= end_kaddr i ->
  end_kaddr i - next_byte i < Z.of_nat fuel ->
  wp (prefix_loop T buf fuel nb lb b)
    (fun r i' => passed i i' /\ 0 <= fst r <= 4 /\ is_byte (snd r)) (pstep i) i.
Proof using HT Hbuf.
  revert nb lb b i. induction fuel as [|fuel IH]; intros nb lb b i Hwf Hnb Hlb Hb Hs Hn Hf.
  { lia. }
  assert (passed i i) as Hrefl.
  { constructor; [by apply pstep_refl|done|lia|]. rewrite slice_nil. constructor. }
  cbn [prefix_loop]. destruct (opcode_attribute_ok T HT b Hb) as (a & Ha & _).
  eapply wp_bind, wp_lift; [exact Ha|]. destruct (inat_is_legacy_prefix a) eqn:Hleg; [|done].
  apply wp_bind, wp_same_prefix; [done|lia..|]. intros same.
  destruct (negb same && (nb =? 4)) eqn:E4; [done|].
  assert (0 <= nb < 4 \/ same = true) as Hnb'.
  { destruct same; [by right|]. cbn in E4. apply Z.eqb_neq in E4. lia. }
  apply prefix_store; [done..|]. intros i1 Hp Hnx Hrv Hct.
  assert (end_kaddr i1 = end_kaddr i) as He by (injection (ps_frame _ _ Hp) as _ _ _ _ _ _ _ _ _ He; exact He).
  apply wp_bind, wp_peek; [apply Hp|lia|done|]. rewrite Z.add_0_r. intros b' Hn' Hb' Hs'.
  eapply wp_mono; [apply IH; [apply Hp| |done..|lia]| |intros i' H; by eapply pstep_trans].
  - destruct same; lia.
  - intros r i' ([Hp2 Hsame Hcount Hl] & Hr). split; [|done]. constructor; [by eapply pstep_trans|congruence|lia|].
    pose proof (wf_next _ Hwf). pose proof (ps_next _ _ Hp2).
    rewrite <-(slice_app (next_byte i) (next_byte i1) (next_byte i')) by lia. apply Forall_app_2; [|done].
    rewrite Hnx, Hs. apply Forall_cons_2; [|apply Forall_nil_2]. unfold is_legacy. by rewrite Ha.
Qed.

(** The scan only exchanges stored prefixes behind the loop. *)
Definition exchanged (i i' : insn) : Prop :=
  pstep i i' /\ (rex_prefix i', vex_prefix i', next_byte i', nbytes (prefixes i'))
                = (rex_prefix i, vex_prefix i, next_byte i, nbytes (prefixes i)).

Lemma put_prefix_exchanged i k b : wf i -> is_byte b -> exchanged i (upd_prefixes (set_byte k b) i).
Proof using Type. intros Hwf Hb. split; [pstep_upd|done]. Qed.
Lemma exchanged_refl i : wf i -> exchanged i i.
Proof using Type. intros Hwf. split; [by apply pstep_refl|done]. Qed.
Lemma exchanged_trans i1 i2 i3 : exchanged i1 i2 -> exchanged i2 i3 -> exchanged i1 i3.
Proof using Type. intros [] []. split; [by eapply pstep_trans|congruence]. Qed.

Lemma wp_swap_prefix n k lb b E i : wf i -> is_byte b -> 0 <= k -> k + Z.of_nat n <= 4 ->
  wp (swap_prefix n k lb b) (fun _ => exchanged i) E i.
Proof using Type.
  revert k i. induction n as [|n IH]; intros k i Hwf Hb Hk Hn; [by apply exchanged_refl|]. cbn [swap_prefix].
  apply wp_bind, wp_get_byte; [apply Hwf|lia|]. intros c _ _. apply wp_bind.
  assert (forall i', exchanged i i' -> wp (swap_prefix n (k + 1) lb b) (fun _ => exchanged i) E i') as Hrec.
  { intros i' He. eapply wp_mono; [apply IH; [apply He|done|lia..]| |done].
    intros ? i2 H2. by eapply exchanged_trans. }
  apply wp_when; intros _; [|by apply Hrec, exchanged_refl].
  apply wp_put_byte; [lia|]. by apply Hrec, put_prefix_exchanged.
Qed.

Lemma wp_set_last_prefix nb lb E i : wf i -> 0 <= nb <= 4 -> is_byte lb ->
  wp (set_last_prefix nb lb) (fun _ => exchanged i) E i.
Proof using Type.
  intros Hwf Hnb Hlb. unfold set_last_prefix. apply wp_bind, wp_get_byte; [apply Hwf|lia|]. intros b3 Hb3 _.
  apply wp_when; intros _; [|by apply exchanged_refl]. apply wp_bind.
  assert (forall i', exchanged i i' -> wp (put_byte upd_prefixes 3 lb) (fun _ => exchanged i) E i') as Hput.
  { intros i' He. apply wp_put_byte; [lia|]. eapply exchanged_trans; [exact He|]. apply put_prefix_exchanged; [apply He|done]. }
  apply wp_when; intros _; [|by apply Hput, exchanged_refl].
  eapply wp_mono; [apply wp_swap_prefix; [done|done|lia..]|intros [] i' Hi'; by apply Hput|done].
Qed.

(** The REX prefix: nothing, or one byte. *)
Definition moved (f : insn -> insn_field) (i i' : insn) : Prop :=
  pstep i i' /\ nbytes (prefixes i') = nbytes (prefixes i) /\
  ((next_byte i' = next_byte i /\ f i' = f i) \/
   (next_byte i' = next_byte i + nbytes (f i') /\ fbytes (f i') = slice (next_byte i) (next_byte i'))).

Lemma wp_set_opnd b n (Q : unit -> insn -> Prop) E i :
  (forall i', i' = i \/ i' = set_opnd_bytes n i -> Q tt i') -> wp (when b (modify (set_opnd_bytes n))) Q E i.
Proof using Type. intros HQ. apply wp_when; intros _; [apply wp_modify|]; apply HQ; auto. Qed.

Lemma wp_decode_rex i : wf i ->
  wp (decode_rex T buf) (fun _ i' => moved rex_prefix i i' /\ vex_prefix i' = vex_prefix i) (pstep i) i.
Proof using HT Hbuf.
  intros Hwf. unfold decode_rex. apply wp_bind, wp_gets.
  assert (moved rex_prefix i i /\ vex_prefix i = vex_prefix i) as Hno.
  { split; [|done]. split; [by apply pstep_refl|]. split; [done|by left]. }
  apply wp_when; intros _; [|done].
  apply wp_bind, wp_peek; [done|lia|by apply pstep_refl|]. rewrite Z.add_0_r. intros b Hn Hb Hs.
  destruct (opcode_attribute_ok T HT b Hb) as (a & Ha & _).
  eapply wp_bind, wp_lift; [exact Ha|]. apply wp_when; intros _; [|done].
  do 2 apply wp_bind, wp_modify. apply wp_bind. unfold skip. apply wp_modify.
  apply wp_set_opnd. intros i' Hi'.
  assert (wf i') as Hw' by (destruct Hi' as [->| ->]; wf_upd).
  split; [|by destruct Hi' as [->| ->]]. split; [|split; [by destruct Hi' as [->| ->]|right]].
  - destruct Hi' as [->| ->]; (constructor; [done..|cbn; lia]).
  - assert (take 1 (le_split 4 b) = [b]) as Ht
      by (rewrite le_split_take by lia; cbn [le_split]; rewrite Z.mod_small; done).
    destruct Hi' as [->| ->]; (split; [done|]); unfold fbytes; cbn -[le_split slice]; by rewrite Hs.
Qed.

Lemma fok_four f : fok f -> exists x y z w, bytes f = [x; y; z; w].
Proof using Type.
  intros [Hl _]. destruct (bytes f) as [|x [|y [|z [|w [|]]]]]; try done. by exists x, y, z, w.
Qed.

(** The state with the VEX prefix [l] stored and passed. *)
Lemma vex_moved l n i i' : wf i -> 0 <= n -> wf i' -> pstep i i' ->
  nbytes (prefixes i') = nbytes (prefixes i) -> next_byte i' = next_byte i + n -> nbytes (vex_prefix i') = n ->
  take (Z.to_nat n) (bytes (vex_prefix i')) = l -> slice (next_byte i) (next_byte i + n) = l -> moved vex_prefix i i'.
Proof using Type.
  intros Hwf Hn Hwf' Hp Hc Hx Hv Ht Hs. split; [done|]. split; [done|]. right. split; [lia|].
  unfold fbytes. by rewrite Hv, Ht, Hx.
Qed.

Lemma wp_vex_w b Q E i : (forall i', i' = i \/ i' = set_opnd_bytes 8 i -> Q tt i') -> wp (vex_w b) Q E i.
Proof using Type. intros HQ. unfold vex_w. by apply wp_bind, wp_gets, wp_set_opnd. Qed.

(** The bytes [l] from [next_byte] on, the current instruction not yet moved. *)
Definition ahead (i : insn) (l : list Z) : Prop :=
  next_byte i + Z.of_nat (length l) <= end_kaddr i /\ Forall is_byte l /\
  slice (next_byte i) (next_byte i + Z.of_nat (length l)) = l.

Lemma wp_peek_ahead n l Q E i i0 : wf i -> (next_byte i, end_kaddr i) = (next_byte i0, end_kaddr i0) -> E i ->
  ahead i0 l -> n = Z.of_nat (length l) ->
  (forall b, ahead i0 (l ++ [b]) -> is_byte b -> Q b i) -> wp (peek_nbyte_next buf t_byte n) Q E i.
Proof using Hbuf.
  intros Hwf [= Hx He] HE (Hl1 & Hl2 & Hl3) -> HQ. apply wp_peek; [done|lia|done|]. intros b Hn Hb Hs.
  apply HQ; [|done]. unfold ahead. rewrite length_app, Forall_app. cbn [length]. pose proof (wf_next _ Hwf).
  split; [lia|]. split; [split; [done|by apply Forall_cons_2, Forall_nil_2]|].
  rewrite <-(slice_app (next_byte i0) (next_byte i0 + Z.of_nat (length l))) by lia.
  rewrite Hl3. f_equal. rewrite <-Hs, Hx. f_equal; lia.
Qed.

Lemma put_vex_pstep i i1 k b : wf i -> is_byte b -> pstep i i1 -> pstep i (upd_vex_prefix (set_byte k b) i1).
Proof using Type.
  intros Hwf Hb Hp. eapply pstep_trans; [exact Hp|]. pose proof (ps_wf _ _ Hp). pstep_upd.
Qed.

(** A prefix of [n] bytes has been stored; it is counted and passed. *)
Lemma wp_vex_finish l n (m : M unit) i i1 : wf i -> pstep i i1 -> next_byte i1 = next_byte i ->
  (nbytes (prefixes i1), rex_prefix i1) = (nbytes (prefixes i), rex_prefix i) ->
  ahead i l -> n = Z.of_nat (length l) -> take (length l) (bytes (vex_prefix i1)) = l ->
  (forall i Q, (forall i', i' = i \/ i' = set_opnd_bytes 8 i -> Q tt i') -> wp m Q (fun _ => False) i) ->
  wp (modify (upd_vex_prefix (set_nbytes n)) ;; skip n ;; m)
    (fun _ i' => moved vex_prefix i i' /\ rex_prefix i' = rex_prefix i) (pstep i) i1.
Proof using Type.
  intros Hwf Hp Hx [= Hc Hr] (Hl1 & Hl2 & Hl3) -> Ht Hm. apply wp_bind, wp_modify, wp_bind. unfold skip. apply wp_modify.
  pose proof (ps_wf _ _ Hp) as Hw1. injection (ps_frame _ _ Hp) as _ _ _ _ _ _ _ _ _ He.
  eapply wp_mono; [apply Hm|by intros ? ? H; exact H|done]. intros i' Hi'.
  assert (wf i') as Hw' by (destruct Hi' as [->| ->]; wf_upd).
  split; [|destruct Hi' as [->| ->]; cbn; congruence].
  apply (vex_moved l (Z.of_nat (length l))); try done; try lia; try (destruct Hi' as [->| ->]; cbn; lia).
  - destruct Hi' as [->| ->]; (constructor; [done|apply Hp..|cbn; lia]).
  - destruct Hi' as [->| ->]; by rewrite Nat2Z.id.
Qed.

Lemma wp_decode_vex i : wf i ->
  wp (decode_vex T buf) (fun _ i' => moved vex_prefix i i' /\ rex_prefix i' = rex_prefix i) (pstep i) i.
Proof using HT Hbuf.
  intros Hwf. assert (moved vex_prefix i i /\ rex_prefix i = rex_prefix i) as Hno.
  { split; [|done]. split; [by apply pstep_refl|]. split; [done|by left]. }
  destruct (fok_four _ (wf_vex _ Hwf)) as (x & y & z & w & Hv).
  pose proof (pstep_refl i Hwf) as Hp0. unfold decode_vex.
  apply wp_bind, wp_peek; [done|lia|done|]. rewrite Z.add_0_r. intros b Hn Hb Hs.
  assert (ahead i [b]) as Ha1 by (split; [cbn; lia|split; [by apply Forall_cons_2, Forall_nil_2|done]]).
  destruct (opcode_attribute_ok T HT b Hb) as (a & Ha & _).
  eapply wp_bind, wp_lift; [exact Ha|]. apply wp_when; intros _; [|done].
  eapply wp_bind, wp_peek_ahead; [done|done|done|exact Ha1|done|]. intros b2 Ha2 Hb2.
  apply wp_bind, wp_gets. destruct (negb _ && negb _); [done|].
  do 2 (apply wp_bind, wp_put_byte; [lia|]). cbn [app] in Ha2.
  set (i1 := upd_vex_prefix _ (upd_vex_prefix _ i)).
  assert (pstep i i1) as Hp1 by (apply put_vex_pstep; [done..|]; by apply put_vex_pstep).
  destruct (inat_is_evex_prefix a); [|destruct (inat_is_vex3_prefix a)].
  - eapply wp_bind, wp_peek_ahead; [apply Hp1|done|done|exact Ha2|done|]. intros b3 Ha3 Hb3.
    apply wp_bind, wp_put_byte; [lia|]. pose proof (put_vex_pstep i i1 2 b3 Hwf Hb3 Hp1) as Hp2.
    eapply wp_bind, wp_peek_ahead; [apply Hp2|done|done|exact Ha3|done|]. intros b4 Ha4 Hb4.
    apply wp_bind, wp_put_byte; [lia|]. pose proof (put_vex_pstep i _ 3 b4 Hwf Hb4 Hp2) as Hp3.
    apply (wp_vex_finish [b; b2; b3; b4]); try done; [cbn; by rewrite Hv|]. intros; by apply wp_vex_w.
  - eapply wp_bind, wp_peek_ahead; [apply Hp1|done|done|exact Ha2|done|]. intros b3 Ha3 Hb3.
    apply wp_bind, wp_put_byte; [lia|]. pose proof (put_vex_pstep i i1 2 b3 Hwf Hb3 Hp1) as Hp2.
    apply (wp_vex_finish [b; b2; b3]); try done; [cbn; by rewrite Hv|]. intros; by apply wp_vex_w.
  - assert (is_byte (Z.land b2 127)) as Hb3 by (unfold is_byte; pose proof (land_bounded_r b2 127 ltac:(lia)); lia).
    apply wp_bind, wp_put_byte; [lia|]. pose proof (put_vex_pstep i i1 2 _ Hwf Hb3 Hp1) as Hp2.
    apply (wp_vex_finish [b; b2] 2 (ret tt)); try done; [cbn; by rewrite Hv|]. intros j Q HQ. apply wp_ret. auto.
Qed.

(** A complete scan. *)
Definition fresh_prefixes (i : insn) : Prop :=
  nbytes (prefixes i) = 0 /\ nbytes (rex_prefix i) = 0 /\ nbytes (vex_prefix i) = 0.

Record scanned (i i' : insn) : Prop := {
  sc_wf : wf i';
  sc_frame : untouched i' = untouched i;
  sc_next : next_byte i <= next_byte i';
  sc_got : got (prefixes i') = true;
  sc_layout : fresh_prefixes i -> next_byte i' = next_byte i + insn_offset_opcode i' /\
    exists pfx, Forall (fun b => is_legacy b = true) pfx /\ Z.of_nat (length pfx) = nbytes (prefixes i') /\
      slice (next_byte i) (next_byte i') = pfx ++ fbytes (rex_prefix i') ++ fbytes (vex_prefix i');
}.

Lemma length_slice p q : 0 <= p <= q -> q <= Z.of_nat (length buf) -> length (slice p q) = Z.to_nat (q - p).
Proof using Type. intros H1 H2. unfold slice. rewrite length_take, length_drop. lia. Qed.

Lemma next_in_buf i : wf i -> 0 <= next_byte i <= Z.of_nat (length buf).
Proof using Type. intros [[] [] _ _ _ _ _ _ _ _ _ _]. lia. Qed.

Lemma moved_bytes f i i' : 0 <= next_byte i -> nbytes (f i) = 0 -> moved f i i' ->
  next_byte i' = next_byte i + nbytes (f i') /\ slice (next_byte i) (next_byte i') = fbytes (f i').
Proof using Type.
  intros H0 Hz (_ & _ & [[Hx Hf]|[Hx Hf]]); [|done].
  unfold fbytes. rewrite Hf, Hz, Hx, slice_nil. split; [lia|done].
Qed.

Lemma wp_get_prefixes i : wf i -> wp (get_prefixes T buf) (fun _ => scanned i) (pstep i) i.
Proof using HT Hbuf.
  intros Hwf. pose proof (pstep_refl i Hwf) as Hp0. pose proof (next_in_buf i Hwf) as Hi. unfold get_prefixes.
  apply wp_bind, wp_peek; [done|lia|done|]. rewrite Z.add_0_r. intros b Hn Hb Hs.
  apply wp_bind. destruct (wf_end _ Hwf).
  eapply wp_mono; [apply wp_prefix_loop; try done; lia| |done]. intros [nb lb] i1 ([Hp1 Hsame Hct Hleg] & Hnb & Hlb).
  cbn [fst snd] in Hnb, Hlb. apply wp_bind.
  eapply wp_mono; [apply (wp_set_last_prefix nb lb (pstep i)); [apply Hp1|done..]| |done].
  intros _ i2 [Hp2 [= Hr2 Hv2 Hx2 Hc2]]. pose proof (pstep_trans _ _ _ Hp1 Hp2) as Hp12.
  apply wp_bind. eapply wp_mono; [apply wp_decode_rex, Hp2| |by intros; eapply pstep_trans].
  intros _ i3 [Hm3 Hv3]. pose proof (proj1 Hm3) as Hp3. pose proof (pstep_trans _ _ _ Hp12 Hp3) as Hp13.
  apply wp_bind, wp_modify, wp_bind. set (i3' := upd_rex_prefix set_got i3).
  assert (wf i3') as Hw3 by (pose proof (ps_wf _ _ Hp3); wf_upd).
  assert (pstep i i3') as Hp13' by (constructor; [done|apply Hp13..]).
  eapply wp_mono; [by apply wp_decode_vex| |by intros; eapply pstep_trans].
  intros _ i4 [Hm4 Hr4]. pose proof (proj1 Hm4) as Hp4. pose proof (pstep_trans _ _ _ Hp13' Hp4) as Hp14.
  apply wp_bind, wp_modify, wp_modify. pose proof (ps_wf _ _ Hp4) as Hw4.
  constructor; [wf_upd|by rewrite <-(ps_frame _ _ Hp14)|apply Hp14|done|].
  intros (Hz1 & Hz2 & Hz3). injection Hsame as Hrs Hvs.
  pose proof (next_in_buf i1 (ps_wf _ _ Hp1)). pose proof (next_in_buf i3 (ps_wf _ _ Hp3)).
  destruct (moved_bytes rex_prefix i2 i3) as [Hx3 Hs3]; [lia|congruence|done|].
  destruct (moved_bytes vex_prefix i3' i4) as [Hx4 Hs4]; [cbn; lia|cbn; congruence|done|].
  destruct Hm3 as (_ & Hc3 & _), Hm4 as (_ & Hc4 & _). cbn in Hx4, Hs4, Hr4, Hc4.
  unfold insn_offset_opcode, insn_offset_vex_prefix, insn_offset_rex_prefix. cbn. rewrite Hr4. cbn. split; [lia|].
  exists (slice (next_byte i) (next_byte i1)). split; [done|]. pose proof (ps_next _ _ Hp1).
  pose proof (ps_next _ _ Hp3). pose proof (ps_next _ _ Hp4) as Hl4. cbn in Hl4.
  split; [rewrite length_slice by lia; lia|].
  unfold fbytes at 1 2. cbn. fold (fbytes (rex_prefix i3)) (fbytes (vex_prefix i4)). rewrite <-Hs3, <-Hs4, Hx2, !slice_app by lia. done.
Qed.

(** [insn_get_prefixes] leaves a collected instruction alone. *)
Record collected (i i' : insn) : Prop := {
  co_wf : wf i';
  co_frame : untouched i' = untouched i;
  co_next : next_byte i <= next_byte i';
  co_noop : got (prefixes i) = true -> i' = i;
  co_scan : got (prefixes i) = false -> got (prefixes i') = true -> scanned i i';
}.

Lemma wp_insn_get_prefixes (Q : unit -> insn -> Prop) E i : wf i -> (forall i', collected i i' -> Q tt i') ->
  wp (insn_get_prefixes T buf) Q E i.
Proof using HT Hbuf.
  intros Hwf HQ. unfold insn_get_prefixes. apply wp_bind, wp_gets. destruct (got (prefixes i)) eqn:Hg.
  - apply wp_ret, HQ. constructor; try done; congruence || lia.
  - apply wp_err_out. eapply wp_mono; [by apply wp_get_prefixes|..].
    + intros [] i' Hs. apply HQ. constructor; try apply Hs; try done; congruence.
    + intros i' Hp. apply HQ. destruct Hp as [? ? Hgot ?]. constructor; try done; congruence.
Qed.

Lemma wp_is_avx (Q : bool -> insn -> Prop) E i : wf i ->
  (forall i', collected i i' -> Q (negb (value (vex_prefix i') =? 0)) i') -> wp (insn_is_avx T buf) Q E i.
Proof using HT Hbuf. intros Hwf HQ. apply wp_bind, wp_insn_get_prefixes; [done|]. intros i' Hc. by apply wp_gets, HQ. Qed.

Lemma wp_is_evex (Q : bool -> insn -> Prop) E i : wf i ->
  (forall i' r, collected i i' -> Q r i') -> wp (insn_is_evex T buf) Q E i.
Proof using HT Hbuf. intros Hwf HQ. apply wp_bind, wp_insn_get_prefixes; [done|]. intros i' Hc. by apply wp_gets, HQ. Qed.

Lemma wp_vex_m Q E i : wf i -> (forall m, 0 <= m -> Q m i) -> wp insn_vex_m_bits Q E i.
Proof using Type.
  intros Hwf HQ. unfold insn_vex_m_bits. apply wp_bind, wp_gets. destruct (_ =? 2); [by apply HQ|].
  apply wp_bind, wp_get_byte; [apply Hwf|lia|]. intros b _ _. apply wp_ret, HQ.
  unfold X86_VEX3_M, X86_EVEX_M. destruct (_ =? 3); apply land_bounded_r; lia.
Qed.

Lemma wp_vex_p Q E i : wf i -> (forall p, 0 <= p < 4 -> Q p i) -> wp insn_vex_p_bits Q E i.
Proof using Type.
  intros Hwf HQ. unfold insn_vex_p_bits. apply wp_bind, wp_gets.
  apply wp_bind, wp_get_byte; [apply Hwf|destruct (_ =? 2); lia|]. intros b _ _. apply wp_ret, HQ, vex_p_range.
Qed.

Lemma wp_last_prefix_id Q E i : wf i -> (forall i' p, collected i i' -> 0 <= p < 4 -> Q p i') ->
  wp (insn_last_prefix_id T buf) Q E i.
Proof using HT Hbuf.
  intros Hwf HQ. unfold insn_last_prefix_id. apply wp_bind, wp_is_avx; [done|]. intros i' Hc.
  destruct (negb _); [apply wp_vex_p; [apply Hc|auto]|].
  apply wp_bind, wp_get_byte; [apply (co_wf _ _ Hc)|lia|]. intros b Hb _. destruct (b =? 0); [apply wp_ret, HQ; [done|lia]|].
  destruct (last_prefix_ok T HT b Hb) as (p & Hp & Hr). eapply wp_lift; [exact Hp|]. auto.
Qed.

(** ** The opcode *)

(** What the collection of the opcode does not write, also when the prefixes
    have to be scanned again. *)
Definition behind_opcode (i : insn) :=
  (modrm i, sib i, displacement i, immediate i, immediate2 i, len i, x86_64 i, end_kaddr i).
Definition front (i : insn) := (prefixes i, rex_prefix i, vex_prefix i, opnd_bytes i, addr_bytes i).

Record ostep (i i' : insn) : Prop := {
  os_wf : wf i';
  os_frame : behind_opcode i' = behind_opcode i;
  os_next : next_byte i <= next_byte i';
  os_front : got (prefixes i) = true -> front i' = front i;
}.

Lemma ostep_refl i : wf i -> ostep i i.
Proof using Type. by constructor. Qed.
Lemma ostep_got i i' : ostep i i' -> got (prefixes i) = true -> got (prefixes i') = true.
Proof using Type. intros H Hg. injection (os_front _ _ H Hg) as -> _ _ _ _. done. Qed.
Lemma ostep_trans i1 i2 i3 : ostep i1 i2 -> ostep i2 i3 -> ostep i1 i3.
Proof using Type.
  intros H1 H2. constructor; [apply H2|by rewrite (os_frame _ _ H2), (os_frame _ _ H1)|
    pose proof (os_next _ _ H1); pose proof (os_next _ _ H2); lia|].
  intros Hg. rewrite (os_front _ _ H2); [by apply H1|by eapply ostep_got].
Qed.
Lemma collected_ostep i i' : collected i i' -> ostep i i'.
Proof using Type.
  intros [Hw Hf Hn Hg _]. constructor; [done| |done|by intros ->%Hg]. injection Hf as _ H2 H3 H4 H5 H6 _ H8 H9 H10.
  unfold behind_opcode. congruence.
Qed.

(** The opcode bytes read so far. *)
Record opc (i0 i : insn) : Prop := {
  op_step : ostep i0 i;
  op_got : got (opcode i) = got (opcode i0);
  op_n : 1 <= nbytes (opcode i) <= 3;
  op_lt : next_byte i0 < next_byte i;
  op_bytes : got (prefixes i0) = true ->
    next_byte i = next_byte i0 + nbytes (opcode i) /\ fbytes (opcode i) = slice (next_byte i0) (next_byte i);
}.

Lemma opc_collected i0 i i' : opc i0 i -> collected i i' -> opc i0 i'.
Proof using Type.
  intros [Hs Hg Hn Hl Hb] Hc. injection (co_frame _ _ Hc) as Ho _ _ _ _ _ _ _ _ _.
  pose proof (co_next _ _ Hc). constructor; rewrite ?Ho; try done; [|lia|].
  - eapply ostep_trans; [exact Hs|by apply collected_ostep].
  - intros Hp. rewrite (co_noop _ _ Hc) by (by eapply ostep_got). auto.
Qed.

Lemma opc_attr i0 i a : opc i0 i -> opc i0 (set_attr a i).
Proof using Type.
  intros [[Hw ? ? ?] ? ? ? ?]. constructor; try done. constructor; try done. wf_upd.
Qed.

Lemma opc_store n op i0 i : wf i0 -> is_byte op -> 0 <= n < 3 -> wf (advance t_byte i) ->
  (n = 0 /\ i = i0) \/ (opc i0 i /\ n = nbytes (opcode i)) ->
  slice (next_byte i) (next_byte i + 1) = [op] ->
  opc i0 (upd_opcode (set_nbytes (n + 1)) (upd_opcode (set_byte (Z.to_nat n) op) (advance t_byte i))).
Proof using Type.
  intros Hw0 Hop Hn Hw Hcase Hs.
  assert (ostep i0 i /\ got (opcode i) = got (opcode i0) /\ (got (prefixes i0) = true ->
    next_byte i = next_byte i0 + n /\ take (Z.to_nat n) (bytes (opcode i)) = slice (next_byte i0) (next_byte i)))
    as (Hst & Hg & Hb).
  { destruct Hcase as [[-> ->]|[[] ->]]; [|done]. split; [by apply ostep_refl|]. split; [done|]. intros _.
    split; [lia|]. by rewrite slice_nil. }
  destruct Hst as [Hwi Hfr Hnx Hfront]. destruct (wf_opcode _ Hwi) as [Hlen _].
  constructor; try done; [|cbn; lia|cbn; lia|].
  - constructor; [|done|cbn; lia|done]. wf_of Hw.
  - intros [Hx Ht]%Hb. split; [cbn; lia|]. unfold fbytes. cbn [opcode nbytes upd_opcode set_nbytes set_byte bytes next_byte advance set_next_byte].
    replace (Z.to_nat (n + 1)) with (S (Z.to_nat n)) by lia.
    rewrite (take_S_r _ _ op) by (apply list_lookup_insert_eq; lia). rewrite take_insert_ge, Ht by lia.
    change (Z.of_nat (sizeof t_byte)) with 1. rewrite <-Hs. apply slice_app; [pose proof (wf_next _ Hw0); lia|lia].
Qed.

Lemma byte_read i v : wf i ->
  le_split 1 v = slice (next_byte i) (next_byte i + 1) -> next_byte i + 1 <= end_kaddr i ->
  v = convert t_byte (le_combine (slice (next_byte i) (next_byte i + 1))) ->
  is_byte v /\ slice (next_byte i) (next_byte i + 1) = [v].
Proof using Hbuf.
  intros Hwf Hs Hn Hv. destruct (wf_end _ Hwf), (wf_next _ Hwf).
  destruct (rd_le_slice (next_byte i) 1) as (_ & Hl & Hf); [lia..|]. change (Z.of_nat 1) with 1 in *.
  destruct (slice (next_byte i) (next_byte i + 1)) as [|b [|]] eqn:E; try done.
  apply Forall_cons_1 in Hf as [Hb _]. assert (v = b) as -> by (rewrite Hv; cbn; lia). done.
Qed.

(** The error exits of the collection of the opcode. *)
Record oerr (i0 i : insn) : Prop := { oe_step : ostep i0 i; oe_got : got (opcode i) = got (opcode i0) }.
Lemma opc_err i0 i : opc i0 i -> oerr i0 i.
Proof using Type. intros []. by constructor. Qed.

Lemma wp_escape_loop k fuel i0 i : (k < fuel)%nat -> wf i0 -> opc i0 i ->
  nbytes (opcode i) + Z.of_nat k <= 3 -> escape_depth_le T k (attr i) = true ->
  wp (escape_loop T buf fuel) (fun _ => opc i0) (oerr i0) i.
Proof using HT Hbuf.
  revert fuel i. induction k as [|k IH]; intros fuel i Hf Hw0 Ho Hn Hd; (destruct fuel as [|fuel]; [lia|]);
    cbn [escape_loop]; apply wp_bind, wp_gets; apply wp_when; intros He; try done.
  { cbn in Hd. by rewrite He in Hd. }
  pose proof (os_wf _ _ (op_step _ _ Ho)) as Hwi. pose proof (op_n _ _ Ho).
  apply wp_bind, wp_get_next; [done|by apply opc_err|]. intros op Hx Hw' Hs Hv.
  destruct (byte_read i op Hwi Hs Hx Hv) as [Hop Hsl].
  apply wp_bind, wp_gets. change (nbytes (opcode (advance t_byte i))) with (nbytes (opcode i)).
  apply wp_bind, wp_put_byte; [lia|]. apply wp_bind, wp_modify.
  pose proof (opc_store (nbytes (opcode i)) op i0 i Hw0 Hop ltac:(lia) Hw' (or_intror (conj Ho eq_refl)) Hsl) as Ho'.
  set (i1 := upd_opcode _ (upd_opcode _ _)) in *. apply wp_bind, wp_last_prefix_id; [apply Ho'|].
  intros i2 p Hc Hp. destruct (escape_attribute_ok T HT k op p (attr i) Hop Hp Hd He) as (a' & Ha' & Hd').
  eapply wp_bind, wp_lift; [exact Ha'|]. apply wp_bind, wp_modify. apply IH; try done; [lia|..].
  - by eapply opc_attr, opc_collected.
  - cbn [opcode set_attr]. injection (co_frame _ _ Hc) as -> _ _ _ _ _ _ _ _ _. cbn. lia.
Qed.

Lemma wp_avx_attribute op i0 i E : is_byte op -> opc i0 i -> wp (avx_attribute T buf op) (fun _ => opc i0) E i.
Proof using HT Hbuf.
  intros Hop Ho. pose proof (os_wf _ _ (op_step _ _ Ho)) as Hwi. unfold avx_attribute.
  apply wp_bind, wp_vex_m; [done|]. intros m Hm. apply wp_bind, wp_vex_p; [done|]. intros p Hp.
  destruct (avx_attribute_ok T HT op m p) as [a Ha]; [done|lia..|].
  eapply wp_bind, wp_lift; [exact Ha|]. apply wp_bind, wp_modify, wp_bind.
  assert (forall r i', opc i0 i' ->
    wp (when (r || negb (inat_accept_vex a) && negb (inat_is_group a)) (modify (set_attr 0))) (fun _ => opc i0) E i') as Hk.
  { intros r i' Ho'. apply wp_when; intros _; [by apply wp_modify, opc_attr|done]. }
  destruct (inat_must_evex a); [|by apply wp_ret, Hk, opc_attr].
  apply wp_bind, wp_is_evex; [apply (opc_attr i0 i a Ho)|]. intros i' r Hc.
  apply wp_ret, Hk. by eapply opc_collected, Hc; apply opc_attr.
Qed.

(** A collected opcode. *)
Definition opc_done (i0 i : insn) : Prop := exists i1, opc i0 i1 /\ i = upd_opcode set_got i1.

Lemma wp_get_opcode i : wf i -> wp (get_opcode T buf) (fun _ => opc_done i) (oerr i) i.
Proof using HT Hbuf.
  intros Hwf. unfold get_opcode.
  apply wp_bind, wp_get_next; [done|constructor; [by apply ostep_refl|done]|]. intros op Hx Hw' Hs Hv.
  destruct (byte_read i op Hwf Hs Hx Hv) as [Hop Hsl].
  apply wp_bind, wp_put_byte; [lia|]. apply wp_bind, wp_modify.
  pose proof (opc_store 0 op i i Hwf Hop ltac:(lia) Hw' (or_introl (conj eq_refl eq_refl)) Hsl) as Ho.
  set (i1 := upd_opcode _ (upd_opcode _ _)) in *. apply wp_bind, wp_is_avx; [apply Ho|].
  intros i2 Hc. pose proof (opc_collected _ _ _ Ho Hc) as Ho2. apply wp_bind.
  apply (wp_mono _ (fun _ => opc i) _ (oerr i)); [|intros [] i3 Ho3; apply wp_modify; by exists i3|done].
  destruct (negb _); [by apply wp_avx_attribute|].
  destruct (opcode_attribute_ok T HT op Hop) as (a & Ha & Hd).
  eapply wp_bind, wp_lift; [exact Ha|]. apply wp_bind, wp_modify, wp_bind.
  eapply wp_mono; [apply (wp_escape_loop 2 16 i); [lia|done|by apply opc_attr| |done]| |done].
  - cbn [opcode set_attr]. injection (co_frame _ _ Hc) as -> _ _ _ _ _ _ _ _ _. cbn. lia.
  - intros [] i3 Ho3. apply wp_bind, wp_gets. apply wp_when; intros _; [by apply wp_modify, opc_attr|done].
Qed.

(** ** ModRM *)

Definition behind_modrm (i : insn) :=
  (opcode i, sib i, displacement i, immediate i, immediate2 i, len i, x86_64 i, end_kaddr i).

Record mstep (i i' : insn) : Prop := {
  ms_wf : wf i';
  ms_frame : behind_modrm i' = behind_modrm i;
  ms_next : next_byte i <= next_byte i';
  ms_front : got (prefixes i) = true ->
    (prefixes i', rex_prefix i', vex_prefix i', addr_bytes i') = (prefixes i, rex_prefix i, vex_prefix i, addr_bytes i);
  ms_got : got (modrm i') = got (modrm i);
  ms_bytes : nbytes (modrm i) = 0 -> 0 <= nbytes (modrm i') <= 1 /\ (got (prefixes i) = true ->
    next_byte i' = next_byte i + nbytes (modrm i') /\ fbytes (modrm i') = slice (next_byte i) (next_byte i'));
}.

Lemma mstep_collected i i1 i2 : mstep i i1 -> collected i1 i2 -> mstep i i2.
Proof using Type.
  intros [Hw Hf Hn Hp Hg Hb] Hc. injection (co_frame _ _ Hc) as E1 E2 E3 E4 E5 E6 _ E8 E9 E10.
  assert (got (prefixes i) = true -> i2 = i1) as Hno.
  { intros H. apply (co_noop _ _ Hc). injection (Hp H) as -> _ _ _. done. }
  pose proof (co_next _ _ Hc). constructor; [apply Hc| |lia|by intros H'; rewrite (Hno H'); auto|by rewrite E2|].
  - rewrite <-Hf. unfold behind_modrm. congruence.
  - intros H0. rewrite E2. destruct (Hb H0) as [Hr Hs]. split; [done|]. intros H'. rewrite (Hno H'). auto.
Qed.

Lemma mstep_attr i i' a : mstep i i' -> mstep i (set_attr a i').
Proof using Type. intros [Hw ? ? ? ? ?]. constructor; try done. wf_upd. Qed.
Lemma mstep_opnd i i' n : mstep i i' -> mstep i (set_opnd_bytes n i').
Proof using Type. intros [Hw ? ? ? ? ?]. constructor; try done. wf_upd. Qed.

Lemma mstep_refl i : wf i -> mstep i i.
Proof using Type.
  intros Hwf. constructor; try done. intros H0. split; [lia|]. intros _. split; [lia|].
  unfold fbytes. by rewrite H0, slice_nil.
Qed.

Lemma fbytes_value t v f : fbytes (set_nbytes (Z.of_nat (sizeof t)) (set_value v f)) = le_split (sizeof t) v.
Proof using Type. unfold fbytes. cbn -[le_split]. rewrite Nat2Z.id. apply le_split_take. destruct t; cbn; lia. Qed.

Lemma wp_get_modrm i : wf i ->
  wp (get_modrm T buf) (fun _ i' => exists i1, mstep i i1 /\ i' = upd_modrm set_got i1) (mstep i) i.
Proof using HT Hbuf.
  intros Hwf. pose proof (mstep_refl i Hwf) as Hm0. unfold get_modrm. apply wp_bind, wp_gets, wp_bind.
  apply (wp_mono _ (fun _ => mstep i) _ (mstep i)); [|intros [] i1 Hm1|done].
  2: { apply wp_bind, wp_gets, wp_bind. apply wp_when; intros _;
    [apply wp_modify, wp_modify; eexists; split; [|done]; by apply mstep_opnd|apply wp_modify; eauto]. }
  apply wp_when; intros _; [|done]. apply wp_bind, wp_get_next; [done|done|]. intros md Hx Hw' Hs Hv.
  do 2 apply wp_bind, wp_modify. set (i1 := upd_modrm _ (upd_modrm _ _)).
  assert (mstep i i1) as Hm1.
  { constructor; [wf_of Hw'|done|cbn; lia|done|done|]. intros _. split; [cbn; lia|]. intros _. split; [done|].
    unfold i1. cbn [modrm upd_modrm next_byte advance set_next_byte].
    change 1 with (Z.of_nat (sizeof t_byte)) at 1. by rewrite fbytes_value. }
  apply wp_when; intros _; [|done]. apply wp_bind, wp_last_prefix_id; [apply Hm1|]. intros i2 p Hc Hp.
  destruct (group_attribute_ok T HT md p (attr i) Hp) as [a' Ha']. eapply wp_bind, wp_lift; [exact Ha'|].
  apply wp_bind, wp_modify. assert (mstep i (set_attr a' i2)) as Hm2 by (by eapply mstep_attr, mstep_collected).
  apply wp_bind, wp_is_avx; [apply Hm2|]. intros i3 Hc3. pose proof (mstep_collected _ _ _ Hm2 Hc3) as Hm3.
  apply wp_when; intros _; [by apply wp_modify, mstep_attr|done].
Qed.

(** ** SIB, displacement and immediates *)

Lemma wp_get_field upd t (Q : unit -> insn -> Prop) E i : wf i -> E i ->
  (forall v, wf (advance t i) ->
     le_split (sizeof t) v = slice (next_byte i) (next_byte i + Z.of_nat (sizeof t)) ->
     v = convert t (le_combine (slice (next_byte i) (next_byte i + Z.of_nat (sizeof t)))) ->
     Q tt (upd (set_nbytes (Z.of_nat (sizeof t))) (upd (set_value v) (advance t i)))) ->
  wp (get_field buf upd t) Q E i.
Proof using Hbuf.
  intros Hwf HE HQ. apply wp_bind, wp_get_next; [done..|]. intros v _ Hw Hs Hv.
  apply wp_bind, wp_modify, wp_modify. auto.
Qed.

Definition is_signed (t : ctype) : bool := match t with t_schar | t_short | t_int => true | _ => false end.

(** A field that was empty holds the bytes passed since, and their value. *)
Record took (K : ctype -> Prop) (f : insn -> insn_field) (i i' : insn) : Prop := {
  tk_wf : wf i';
  tk_next : next_byte i' = next_byte i + nbytes (f i');
  tk_n : 0 <= nbytes (f i') <= 4;
  tk_bytes : fbytes (f i') = slice (next_byte i) (next_byte i');
  tk_value : nbytes (f i') = 0 \/ exists t, nbytes (f i') = Z.of_nat (sizeof t) /\ K t /\
    value (f i') = convert t (le_combine (fbytes (f i')));
}.

Lemma sN_range w x : 0 < w -> - 2 ^ (w - 1) <= sN w x < 2 ^ (w - 1).
Proof using Type.
  intros Hw. unfold sN. assert (2 ^ w = 2 * 2 ^ (w - 1)) as Hp.
  { rewrite <-Z.pow_succ_r by lia. f_equal. lia. }
  pose proof (Z.mod_pos_bound x (2 ^ w) ltac:(apply Z.pow_pos_nonneg; lia)). destruct (Z.ltb_spec (x mod 2 ^ w) (2 ^ (w - 1))); lia.
Qed.

Lemma convert_range t l : length l = sizeof t -> Forall is_byte l ->
  - 2 ^ 31 <= convert t (le_combine l) < 2 ^ 31.
Proof using Type.
  intros Hl Hf. pose proof (le_combine_range l Hf) as Hr. rewrite Hl in Hr.
  destruct t; cbn in Hr |- *; try lia;
    [pose proof (sN_range 8 (le_combine l) ltac:(lia))|pose proof (sN_range 16 (le_combine l) ltac:(lia))|
     pose proof (sN_range 32 (le_combine l) ltac:(lia))]; cbn -[sN le_combine] in *; unfold s32; lia.
Qed.

Lemma value_set_value t l f : length l = sizeof t -> Forall is_byte l ->
  value (set_value (convert t (le_combine l)) f) = convert t (le_combine l).
Proof using Type.
  intros Hl Hf. pose proof (convert_range t l Hl Hf) as Hr. unfold value, set_value. cbn [bytes].
  rewrite le_combine_split. change (8 * Z.of_nat 4) with 32.
  rewrite <-(s32_small (convert t (le_combine l))) at 2 by done. unfold s32, sN. by rewrite Z.mod_mod.
Qed.

(** A field read with [get_field]; [upd] writes the field [f]. *)
Lemma took_field (K : ctype -> Prop) f upd t v i : K t ->
  (forall g j, f (upd g j) = g (f j)) -> (forall g j, next_byte (upd g j) = next_byte j) ->
  (forall g j, wf j -> fok (g (f j)) -> wf (upd g j)) ->
  wf i -> wf (advance t i) ->
  le_split (sizeof t) v = slice (next_byte i) (next_byte i + Z.of_nat (sizeof t)) ->
  v = convert t (le_combine (slice (next_byte i) (next_byte i + Z.of_nat (sizeof t)))) ->
  took K f i (upd (set_nbytes (Z.of_nat (sizeof t))) (upd (set_value v) (advance t i))).
Proof using Hbuf.
  intros Ht Hget Hnx Hup Hwi Hw Hs Hv. set (i' := upd _ _).
  assert (f i' = set_nbytes (Z.of_nat (sizeof t)) (set_value v (f (advance t i)))) as Hf by (unfold i'; by rewrite !Hget).
  assert (next_byte i' = next_byte i + Z.of_nat (sizeof t)) as Hn by (unfold i'; by rewrite !Hnx).
  assert (nbytes (f i') = Z.of_nat (sizeof t)) as Hnb by (by rewrite Hf).
  assert (fbytes (f i') = slice (next_byte i) (next_byte i')) as Hfb by (by rewrite Hf, fbytes_value, Hn).
  constructor; [|congruence|rewrite Hnb; destruct t; cbn; lia|done|right; exists t; split; [done|split; [done|]]].
  - unfold i'. apply Hup; [|rewrite Hget; apply fok_set_nbytes, fok_set_value]. apply Hup; [done|apply fok_set_value].
  - rewrite Hfb, Hn, Hf, Hv. change (value (set_nbytes ?n ?x)) with (value x).
    destruct (next_in_buf _ Hw) as [? Hl]; [..]. cbn in Hl. pose proof (wf_next _ Hwi).
    apply value_set_value; [rewrite length_slice by lia; lia|apply Forall_take, Forall_drop, Hbuf].
Qed.

Lemma took_none K f i : wf i -> nbytes (f i) = 0 -> took K f i i.
Proof using Type.
  intros Hwf H0. constructor; rewrite ?H0; [done|lia|lia| |by left]. unfold fbytes. by rewrite H0, slice_nil.
Qed.

(** Only one field and the position change. *)
Definition only (f : insn -> insn_field) (upd : (insn_field -> insn_field) -> insn -> insn) (i i' : insn) : Prop :=
  i' = upd (fun _ => f i') (set_next_byte (next_byte i') i).

Ltac took_solve := apply took_field; try done; let H := fresh in intros ? ? H ?; wf_of H.

Lemma wp_get_sib i : wf i -> nbytes (sib i) = 0 ->
  wp (get_sib buf) (fun _ i' => exists i1, took (eq t_byte) sib i i1 /\ only sib upd_sib i i1 /\ i' = upd_sib set_got i1) (eq i) i.
Proof using Hbuf.
  intros Hwf H0. unfold get_sib. apply wp_bind, wp_gets, wp_bind. apply wp_when; intros _.
  - apply wp_get_field; [done..|]. intros v Hw Hs Hv. apply wp_modify.
    exists (upd_sib (set_nbytes 1) (upd_sib (set_value v) (advance t_byte i))). split; [|done].
    apply (took_field _ _ _ t_byte); try done; intros ? ? Hj ?; wf_of Hj.
  - apply wp_modify. exists i. split; [by apply took_none|]. by destruct i.
Qed.

Lemma wp_get_displacement i : wf i -> nbytes (displacement i) = 0 ->
  wp (get_displacement buf) (fun _ i' => exists i1, took (fun t => is_signed t = true) displacement i i1 /\ only displacement upd_displacement i i1 /\
    i' = upd_displacement set_got i1) (eq i) i.
Proof using Hbuf.
  intros Hwf H0. unfold get_displacement. apply wp_bind, wp_gets, wp_bind.
  apply (wp_mono _ (fun _ i1 => took (fun t => is_signed t = true) displacement i i1 /\ only displacement upd_displacement i i1) _ (eq i));
    [|intros [] i1 []; apply wp_modify; eauto|done].
  assert (took (fun t => is_signed t = true) displacement i i /\ only displacement upd_displacement i i) as Hno
    by (split; [by apply took_none|by destruct i]).
  assert (forall t, is_signed t = true -> wp (get_field buf upd_displacement t)
    (fun _ i1 => took (fun t => is_signed t = true) displacement i i1 /\ only displacement upd_displacement i i1) (eq i) i) as Hget.
  { intros t Ht. apply wp_get_field; [done..|]. intros v Hw Hs Hv. split; [took_solve|done]. }
  apply wp_when; intros _; [|done]. destruct (_ =? 1); [by apply Hget|].
  destruct (_ =? 2); (apply wp_when; intros _; [by apply Hget|done]).
Qed.

(** Both immediates. *)
Record imms (i i' : insn) : Prop := {
  im_wf : wf i';
  im_frame : i' = upd_immediate (fun _ => immediate i') (upd_immediate2 (fun _ => immediate2 i') (set_next_byte (next_byte i') i));
  im_next : next_byte i' = next_byte i + nbytes (immediate i') + nbytes (immediate2 i');
  im_n : 0 <= nbytes (immediate i') <= 4 /\ 0 <= nbytes (immediate2 i') <= 4;
  im_bytes : fbytes (immediate i') ++ fbytes (immediate2 i') = slice (next_byte i) (next_byte i');
  im_value : nbytes (immediate i') = 0 \/ exists t, nbytes (immediate i') = Z.of_nat (sizeof t) /\ is_signed t = true /\
    value (immediate i') = convert t (le_combine (fbytes (immediate i')));
}.

(** [imms] with [got] of the first immediate still clear, and the size of the
    second one. *)
Definition imms_at (k : Z -> Prop) (i i' : insn) : Prop :=
  imms i i' /\ got (immediate i') = got (immediate i) /\ k (nbytes (immediate2 i')).

Lemma wp_imm1 t i : is_signed t = true -> wf i -> nbytes (immediate i) = 0 -> nbytes (immediate2 i) = 0 ->
  wp (get_field buf upd_immediate t) (fun _ => imms_at (eq 0) i) (imms_at (fun _ => True) i) i.
Proof using Hbuf.
  intros Ht Hwf H1 H2. apply wp_get_field; [done|..].
  - split; [|done]. constructor; rewrite ?H1, ?H2; [done|by destruct i|lia|lia| |by left].
    unfold fbytes. by rewrite H1, H2, slice_nil.
  - intros v Hw Hs Hv. assert (took (fun t => is_signed t = true) immediate i (upd_immediate (set_nbytes (Z.of_nat (sizeof t))) (upd_immediate (set_value v) (advance t i)))) as [? ? ? ? ?] by took_solve.
    split; [|done]. constructor; try done; cbn [immediate2 upd_immediate advance set_next_byte]; rewrite ?H2.
    + lia.
    + split; [done|lia].
    + unfold fbytes at 2. by rewrite H2, app_nil_r.
Qed.

Lemma wp_imm2 t i i1 : wf i -> imms_at (eq 0) i i1 ->
  wp (get_field buf upd_immediate2 t) (fun _ => imms_at (fun _ => True) i) (imms_at (fun _ => True) i) i1.
Proof using Hbuf.
  intros Hwf (Him & Hg & Hz). pose proof (im_wf _ _ Him) as Hw1.
  apply wp_get_field; [done|by split; [done|split]|]. intros v Hw Hs Hv. destruct Him as [_ Hfr Hnx Hn Hb Hval].
  assert (fbytes (immediate2 i1) = []) as E2 by (unfold fbytes; by rewrite <-Hz).
  rewrite E2, app_nil_r in Hb. rewrite <-Hz in Hnx.
  split; [|done]. constructor; try done.
  - wf_of Hw.
  - rewrite Hfr. done.
  - cbn -[sizeof]. lia.
  - split; [apply Hn|cbn -[sizeof]; destruct t; cbn; lia].
  - cbn [immediate immediate2 upd_immediate2 advance set_next_byte next_byte]. rewrite fbytes_value, Hb, Hs.
    apply slice_app; [|lia]. pose proof (wf_next _ Hwf). destruct Hn. lia.
Qed.

(** A second immediate only follows a first one that left [immediate2] alone:
    then no byte is lost, and [immediate.got] is only set at the end. *)
Definition short_imm (size : Z) : bool :=
  (size =? INAT_IMM_BYTE) || (size =? INAT_IMM_WORD) || (size =? INAT_IMM_DWORD) || (size =? INAT_IMM_VWORD32).
Definition second_ok (a : Z) : bool := negb (inat_has_second_immediate a) || short_imm (inat_immediate_size a).

(** Only the immediates and the position change. *)
Record iframe (i i' : insn) : Prop := {
  if_wf : wf i';
  if_eq : i' = upd_immediate (fun _ => immediate i') (upd_immediate2 (fun _ => immediate2 i') (set_next_byte (next_byte i') i));
  if_next : next_byte i <= next_byte i';
}.

Lemma imms_iframe i i' : imms i i' -> iframe i i'.
Proof using Type. intros [Hw Hf Hn Hr _ _]. constructor; [done|done|lia]. Qed.

Lemma imms_both_got i i' : imms i i' -> imms i (upd_immediate2 set_got (upd_immediate set_got i')).
Proof using Type. intros [Hw Hf ? ? ? ?]. constructor; try done; [wf_upd|by rewrite Hf]. Qed.
Lemma imms_got i i' : imms i i' -> imms i (upd_immediate set_got i').
Proof using Type. intros [Hw Hf ? ? ? ?]. constructor; try done; [wf_upd|by rewrite Hf]. Qed.

Section immediates.
Context (i : insn) (Hwf : wf i) (H1 : nbytes (immediate i) = 0) (H2 : nbytes (immediate2 i) = 0).

Let E := imms_at (fun _ => True) i.

Lemma imms_at_refl : E i.
Proof using Hwf H1 H2.
  split; [|done]. constructor; rewrite ?H1, ?H2; [done|by destruct i|lia|lia| |by left].
  unfold fbytes. by rewrite H1, H2, slice_nil.
Qed.

Lemma imms_at_any k i' : imms_at k i i' -> E i'.
Proof using Type. intros (? & ? & _). by split. Qed.

Lemma wp_two t1 t2 : is_signed t1 = true ->
  wp (get_field buf upd_immediate t1 ;; get_field buf upd_immediate2 t2) (fun _ => E) E i.
Proof using Hbuf Hwf H1 H2.
  intros Ht. apply wp_bind. eapply wp_mono; [by apply wp_imm1| |done]. intros [] i1 Hi1. by apply wp_imm2.
Qed.

Lemma wp_one t : is_signed t = true -> wp (get_field buf upd_immediate t) (fun _ => E) E i.
Proof using Hbuf Hwf H1 H2.
  intros Ht. eapply wp_mono; [by apply wp_imm1|intros [] i1; apply imms_at_any|done].
Qed.

Lemma wp_both_got (m : M unit) : wp m (fun _ => E) E i -> wp (m ;; both_got) (fun _ => imms i) E i.
Proof using Type.
  intros Hm. apply wp_bind. eapply wp_mono; [exact Hm| |done]. intros [] i1 [Hi1 _].
  apply wp_bind, wp_modify, wp_modify. by apply imms_both_got.
Qed.

Lemma wp_moffset : wp (__get_moffset buf) (fun _ => imms i) E i.
Proof using Hbuf Hwf H1 H2.
  apply wp_bind, wp_gets, wp_both_got. destruct (_ =? 2); [by apply wp_one|]. destruct (_ =? 4); [by apply wp_one|].
  destruct (_ =? 8); [by apply wp_two|]. apply imms_at_refl.
Qed.

Lemma wp_immv : wp (__get_immv buf) (fun _ => imms i) E i.
Proof using Hbuf Hwf H1 H2.
  apply wp_bind, wp_gets, wp_both_got. destruct (_ =? 2); [by apply wp_one|]. destruct (_ =? 4); [by apply wp_one|].
  destruct (_ =? 8); [by apply wp_two|]. apply imms_at_refl.
Qed.

Lemma wp_immptr : wp (__get_immptr buf) (fun _ => imms i) E i.
Proof using Hbuf Hwf H1 H2.
  apply wp_bind, wp_gets. apply (wp_mono _ (fun _ => imms i) _ E); [|done..].
  apply wp_bind. apply (wp_mono _ (fun _ => imms_at (eq 0) i) _ E); [| |done].
  - destruct (_ =? 2); [by apply wp_imm1|]. destruct (_ =? 4); [by apply wp_imm1|]. apply imms_at_refl.
  - intros [] i1 Hi1. apply wp_bind. eapply wp_mono; [by apply wp_imm2| |done]. intros [] i2 [Hi2 _].
    apply wp_bind, wp_modify, wp_modify. by apply imms_both_got.
Qed.

Lemma wp_immv32 : wp (__get_immv32 buf) (fun _ => imms_at (eq 0) i) E i.
Proof using Hbuf Hwf H1 H2.
  apply wp_bind, wp_gets. destruct (_ =? 2); [by apply wp_imm1|]. destruct (_ || _); [by apply wp_imm1|].
  apply imms_at_refl.
Qed.

Lemma wp_get_imm size :
  wp (get_imm buf size) (fun _ i' => imms i i' /\ (short_imm size = true -> imms_at (eq 0) i i')) E i.
Proof using Hbuf Hwf H1 H2.
  assert (forall m : M unit, wp m (fun _ => imms_at (eq 0) i) E i ->
    wp m (fun _ i' => imms i i' /\ (short_imm size = true -> imms_at (eq 0) i i')) E i) as Hs.
  { intros m Hm. eapply wp_mono; [exact Hm| |done]. intros [] i' Hi'. split; [apply Hi'|done]. }
  assert (forall m : M unit, short_imm size = false -> wp m (fun _ => imms i) E i ->
    wp m (fun _ i' => imms i i' /\ (short_imm size = true -> imms_at (eq 0) i i')) E i) as Hl.
  { intros m Hf Hm. eapply wp_mono; [exact Hm| |done]. intros [] i' Hi'. split; [done|congruence]. }
  unfold get_imm.
  repeat match goal with
  | |- wp (if ?c then _ else _) _ _ _ => destruct c eqn:?
  end; bprop; subst; try (apply Hs; (by apply wp_imm1) || exact wp_immv32).
  - apply Hl; [done|]. eapply wp_mono; [by apply wp_two|intros [] i' [H _]; exact H|done].
  - apply Hl; [done|]. exact wp_immptr.
  - apply Hl; [done|]. exact wp_immv.
  - apply imms_at_refl.
Qed.

Lemma wp_second i1 : imms i i1 ->
  wp (get_field buf upd_immediate2 t_schar) (fun _ => iframe i) (iframe i) i1.
Proof using Hbuf Hwf.
  intros Hi. pose proof (imms_iframe _ _ Hi) as [Hw Hf Hn]. apply wp_get_field; [done|by constructor|].
  intros v Hw' _ _. constructor; [wf_of Hw'|by rewrite Hf|cbn; lia].
Qed.

Lemma wp_get_immediate :
  wp (get_immediate buf)
    (fun _ i' => iframe i i' /\ got (immediate i') = true /\ (second_ok (attr i) = true -> imms i i'))
    (fun i' => iframe i i' /\ (second_ok (attr i) = true -> got (immediate i') = got (immediate i))) i.
Proof using Hbuf Hwf H1 H2.
  unfold get_immediate. apply wp_bind, wp_gets, wp_bind.
  assert (forall i', E i' -> iframe i i' /\ (second_ok (attr i) = true -> got (immediate i') = got (immediate i))) as HE.
  { intros i' (Hi & Hg & _). split; [by apply imms_iframe|done]. }
  apply (wp_mono _ (fun _ i' => iframe i i' /\ (second_ok (attr i) = true -> imms i i')) _
           (fun i' => iframe i i' /\ (second_ok (attr i) = true -> got (immediate i') = got (immediate i)))); [| |done].
  2: { intros [] i1 [Hf Hi]. apply wp_modify. split; [|split; [done|intros H; by apply imms_got, Hi]].
       destruct Hf as [Hw Hf Hn]. constructor; [wf_upd|by rewrite Hf|done]. }
  destruct (inat_has_moffset _).
  { eapply wp_mono; [exact wp_moffset| |exact HE]. intros [] i' Hi'. split; [by apply imms_iframe|done]. }
  apply wp_when; intros _; [|destruct imms_at_refl as [Hi _]; split; [by apply imms_iframe|done]].
  apply wp_bind. eapply wp_mono; [apply wp_get_imm| |exact HE]. intros [] i1 [Hi1 Hsh].
  apply wp_when; intros Hsec; [|split; [by apply imms_iframe|done]].
  unfold second_ok. rewrite Hsec. cbn [negb orb]. destruct (short_imm _) eqn:Hshort.
  - eapply wp_mono; [by apply wp_imm2, Hsh| |].
    + intros [] i2 [Hi2 _]. split; [by apply imms_iframe|done].
    + intros i2 (Hi2 & Hg & _). split; [by apply imms_iframe|done].
  - eapply wp_mono; [by apply wp_second|..]; [intros [] i2 Hi2|intros i2 Hi2]; (split; [done|congruence]).
Qed.

End immediates.

(** ** The whole instruction *)

(** The states between the stages, from a fresh instruction on. *)
Record trace (i0 i1 i2 i3 i4 i5 i6 : insn) (r2 r3 r4 r5 r6 : option unit) : Prop := {
  tr_pfx : insn_get_prefixes T buf i0 = Some (i1, Some tt);
  tr_opc : get_opcode T buf i1 = Some (i2, r2);
  tr_mod : get_modrm T buf i2 = Some (i3, r3);
  tr_sib : get_sib buf i3 = Some (i4, r4);
  tr_dis : get_displacement buf i4 = Some (i5, r5);
  tr_imm : get_immediate buf i5 = Some (i6, r6);
  tr_collected : collected i0 i1;
  tr_opc' : match r2 with Some _ => opc_done i1 i2 | None => oerr i1 i2 end;
  tr_mod' : match r3 with Some _ => exists j, mstep i2 j /\ i3 = upd_modrm set_got j | None => mstep i2 i3 end;
  tr_sib' : match r4 with
            | Some _ => exists j, took (eq t_byte) sib i3 j /\ only sib upd_sib i3 j /\ i4 = upd_sib set_got j
            | None => i4 = i3 end;
  tr_dis' : match r5 with
            | Some _ => exists j, took (fun t => is_signed t = true) displacement i4 j /\ only displacement upd_displacement i4 j /\ i5 = upd_displacement set_got j
            | None => i5 = i4 end;
  tr_imm' : match r6 with
            | Some _ => iframe i5 i6 /\ got (immediate i6) = true /\ (second_ok (attr i5) = true -> imms i5 i6)
            | None => iframe i5 i6 /\ (second_ok (attr i5) = true -> got (immediate i6) = got (immediate i5)) end;
}.

Definition all_zero (i : insn) : Prop :=
  prefixes i = zero_field /\ rex_prefix i = zero_field /\ vex_prefix i = zero_field /\ opcode i = zero_field /\
  modrm i = zero_field /\ sib i = zero_field /\ displacement i = zero_field /\
  immediate i = zero_field /\ immediate2 i = zero_field /\ len i = 0 /\ next_byte i = 0.

(** What the fields behind a stage look like before it. *)
Lemma opcode_stage i1 i2 (r2 : option unit) : match r2 with Some _ => opc_done i1 i2 | None => oerr i1 i2 end ->
  wf i2 /\ behind_opcode i2 = behind_opcode i1 /\ next_byte i1 <= next_byte i2 /\
  (got (prefixes i1) = true -> front i2 = front i1) /\
  got (opcode i2) = (match r2 with Some _ => true | None => got (opcode i1) end).
Proof using Type.
  destruct r2.
  - intros (j & [[Hw Hf Hn Hp] Hg Ho Hl Hb] & ->). split; [wf_upd|done].
  - intros [[Hw Hf Hn Hp] Hg]. done.
Qed.

Lemma modrm_stage i2 i3 (r3 : option unit) :
  match r3 with Some _ => exists j, mstep i2 j /\ i3 = upd_modrm set_got j | None => mstep i2 i3 end ->
  wf i3 /\ behind_modrm i3 = behind_modrm i2 /\ next_byte i2 <= next_byte i3 /\
  got (modrm i3) = (match r3 with Some _ => true | None => got (modrm i2) end).
Proof using Type.
  destruct r3.
  - intros (j & [Hw Hf Hn Hp Hg Hb] & ->). split; [wf_upd|done].
  - intros [Hw Hf Hn Hp Hg Hb]. done.
Qed.

Lemma sib_stage i3 i4 (r4 : option unit) : wf i3 ->
  match r4 with Some _ => exists j, took (eq t_byte) sib i3 j /\ only sib upd_sib i3 j /\ i4 = upd_sib set_got j | None => i4 = i3 end ->
  wf i4 /\ next_byte i3 <= next_byte i4 /\ i4 = upd_sib (fun _ => sib i4) (set_next_byte (next_byte i4) i3) /\
  got (sib i4) = (match r4 with Some _ => true | None => got (sib i3) end).
Proof using Type.
  intros Hw3. destruct r4.
  - intros (j & [Hw Hn Hr Hb Hv] & Ho & ->). split; [wf_upd|]. split; [cbn; lia|]. split; [by rewrite Ho|done].
  - intros ->. split; [done|]. split; [lia|]. split; [by destruct i3|done].
Qed.

Lemma displacement_stage i4 i5 (r5 : option unit) : wf i4 ->
  match r5 with
  | Some _ => exists j, took (fun t => is_signed t = true) displacement i4 j /\ only displacement upd_displacement i4 j /\ i5 = upd_displacement set_got j
  | None => i5 = i4 end ->
  wf i5 /\ next_byte i4 <= next_byte i5 /\ i5 = upd_displacement (fun _ => displacement i5) (set_next_byte (next_byte i5) i4) /\
  got (displacement i5) = (match r5 with Some _ => true | None => got (displacement i4) end).
Proof using Type.
  intros Hw4. destruct r5.
  - intros (j & [Hw Hn Hr Hb Hv] & Ho & ->). split; [wf_upd|]. split; [cbn; lia|]. split; [by rewrite Ho|done].
  - intros ->. split; [done|]. split; [lia|]. split; [by destruct i4|done].
Qed.

Lemma wp_trace i0 : wf i0 -> all_zero i0 ->
  exists i1 i2 i3 i4 i5 i6 r2 r3 r4 r5 r6, trace i0 i1 i2 i3 i4 i5 i6 r2 r3 r4 r5 r6.
Proof using HT Hbuf.
  intros Hw0 (Zp & Zr & Zv & Zo & Zm & Zs & Zd & Zi & Zi2 & Zl & Zn).
  destruct (wp_run _ (fun _ i1 => collected i0 i1) (fun _ => False) i0
    (wp_insn_get_prefixes _ _ _ Hw0 (fun _ H => H))) as (i1 & [[]|] & E1 & C1); [|done].
  destruct (wp_run _ _ _ _ (wp_get_opcode i1 (co_wf _ _ C1))) as (i2 & r2 & E2 & C2).
  assert (match r2 with Some _ => opc_done i1 i2 | None => oerr i1 i2 end) as C2' by (by destruct r2).
  destruct (opcode_stage _ _ _ C2') as (Hw2 & F2 & _).
  destruct (wp_run _ _ _ _ (wp_get_modrm i2 Hw2)) as (i3 & r3 & E3 & C3).
  assert (match r3 with Some _ => exists j, mstep i2 j /\ i3 = upd_modrm set_got j | None => mstep i2 i3 end) as C3'
    by (by destruct r3).
  destruct (modrm_stage _ _ _ C3') as (Hw3 & F3 & _).
  injection (co_frame _ _ C1) as A1 A2 A3 A4 A5 A6 A7 A8 A9 A10. injection F2 as B1 B2 B3 B4 B5 B6 B7 B8.
  injection F3 as D1 D2 D3 D4 D5 D6 D7 D8.
  assert (nbytes (sib i3) = 0) as Z3 by (rewrite D2, B2, A3, Zs; done).
  destruct (wp_run _ _ _ _ (wp_get_sib i3 Hw3 Z3)) as (i4 & r4 & E4 & C4).
  assert (match r4 with Some _ => exists j, took (eq t_byte) sib i3 j /\ only sib upd_sib i3 j /\ i4 = upd_sib set_got j | None => i4 = i3 end)
    as C4' by (by destruct r4).
  destruct (sib_stage _ _ _ Hw3 C4') as (Hw4 & _ & F4 & _).
  assert (nbytes (displacement i4) = 0) as Z4 by (rewrite F4; cbn; rewrite D3, B3, A4, Zd; done).
  destruct (wp_run _ _ _ _ (wp_get_displacement i4 Hw4 Z4)) as (i5 & r5 & E5 & C5).
  assert (match r5 with Some _ => exists j, took (fun t => is_signed t = true) displacement i4 j /\ only displacement upd_displacement i4 j /\ i5 = upd_displacement set_got j
    | None => i5 = i4 end) as C5' by (by destruct r5).
  destruct (displacement_stage _ _ _ Hw4 C5') as (Hw5 & _ & F5 & _).
  assert (nbytes (immediate i5) = 0) as Z5 by (rewrite F5, F4; cbn; rewrite D4, B4, A5, Zi; done).
  assert (nbytes (immediate2 i5) = 0) as Z6 by (rewrite F5, F4; cbn; rewrite D5, B5, A6, Zi2; done).
  destruct (wp_run _ _ _ _ (wp_get_immediate i5 Hw5 Z5 Z6)) as (i6 & r6 & E6 & C6).
  exists i1, i2, i3, i4, i5, i6, r2, r3, r4, r5, r6. constructor; try done; by destruct r6.
Qed.

(** The nested calls run the stages one after the other. *)
Lemma stages_run i0 i1 i2 i3 i4 i5 i6 r2 r3 r4 r5 r6 : all_zero i0 ->
  insn_get_prefixes T buf i0 = Some (i1, Some tt) -> get_opcode T buf i1 = Some (i2, r2) ->
  get_modrm T buf i2 = Some (i3, r3) -> get_sib buf i3 = Some (i4, r4) ->
  get_displacement buf i4 = Some (i5, r5) -> get_immediate buf i5 = Some (i6, r6) ->
  insn_get_length T buf i0 = Some (set_len (u8 (next_byte i6)) i6, Some tt).
Proof using Type.
  intros (_ & _ & _ & Zo & Zm & Zs & Zd & Zi & _ & Zl & _) E1 E2 E3 E4 E5 E6.
  assert (insn_get_opcode T buf i0 = Some (i2, Some tt)) as R2.
  { unfold insn_get_opcode, bind, gets, err_out, bind. rewrite Zo. cbn [got zero_field]. rewrite E1, E2. done. }
  assert (insn_get_modrm T buf i0 = Some (i3, Some tt)) as R3.
  { unfold insn_get_modrm, bind, gets, err_out, bind. rewrite Zm. cbn [got zero_field]. rewrite R2, E3. done. }
  assert (insn_get_sib T buf i0 = Some (i4, Some tt)) as R4.
  { unfold insn_get_sib, bind, gets, err_out, bind. rewrite Zs. cbn [got zero_field]. rewrite R3, E4. done. }
  assert (insn_get_displacement T buf i0 = Some (i5, Some tt)) as R5.
  { unfold insn_get_displacement, bind, gets, err_out, bind. rewrite Zd. cbn [got zero_field]. rewrite R4, E5. done. }
  assert (insn_get_immediate T buf i0 = Some (i6, Some tt)) as R6.
  { unfold insn_get_immediate, bind, gets, err_out, bind. rewrite Zi. cbn [got zero_field]. rewrite R5, E6. done. }
  unfold insn_get_length, bind, gets, modify. rewrite Zl. cbn [Z.eqb negb]. by rewrite R6.
Qed.

Section trace_facts.
Context {i0 i1 i2 i3 i4 i5 i6 : insn} {r2 r3 r4 r5 r6 : option unit}.
Context (Hw0 : wf i0) (Hz : all_zero i0) (Htr : trace i0 i1 i2 i3 i4 i5 i6 r2 r3 r4 r5 r6).

(** What each stage leaves alone, collected. *)
Lemma trace_frames :
  (wf i1 /\ wf i2 /\ wf i3 /\ wf i4 /\ wf i5 /\ wf i6) /\
  (next_byte i1 <= next_byte i2 <= next_byte i3 /\ next_byte i3 <= next_byte i4 <= next_byte i5 /\ next_byte i5 <= next_byte i6) /\
  (untouched i1 = untouched i0 /\ behind_opcode i2 = behind_opcode i1 /\ behind_modrm i3 = behind_modrm i2) /\
  i4 = upd_sib (fun _ => sib i4) (set_next_byte (next_byte i4) i3) /\
  i5 = upd_displacement (fun _ => displacement i5) (set_next_byte (next_byte i5) i4) /\
  i6 = upd_immediate (fun _ => immediate i6) (upd_immediate2 (fun _ => immediate2 i6) (set_next_byte (next_byte i6) i5)).
Proof using Htr.
  destruct Htr as [_ _ _ _ _ _ [C1 U1 N1 _ _] C2 C3 C4 C5 C6].
  destruct (opcode_stage _ _ _ C2) as (W2 & F2 & N2 & _ & _), (modrm_stage _ _ _ C3) as (W3 & F3 & N3 & _).
  destruct (sib_stage _ _ _ W3 C4) as (W4 & N4 & F4 & _). destruct (displacement_stage _ _ _ W4 C5) as (W5 & N5 & F5 & _).
  assert (iframe i5 i6) as [W6 F6 N6] by (destruct r6; apply C6). split_and!; done || lia.
Qed.

(** The flags at the end tell which stages succeeded. *)
Lemma trace_flags :
  got (opcode i6) = bool_decide (r2 = Some tt) /\ got (modrm i6) = bool_decide (r3 = Some tt) /\
  got (sib i6) = bool_decide (r4 = Some tt) /\ got (displacement i6) = bool_decide (r5 = Some tt).
Proof using Hz Htr.
  destruct trace_frames as ((W1 & W2 & W3 & W4 & W5 & W6) & _ & (U1 & U2 & U3) & F4 & F5 & F6).
  destruct Htr as [_ _ _ _ _ _ _ C2 C3 C4 C5 _].
  destruct (opcode_stage _ _ _ C2) as (_ & _ & _ & _ & G2), (modrm_stage _ _ _ C3) as (_ & _ & _ & G3).
  destruct (sib_stage _ _ _ W3 C4) as (_ & _ & _ & G4), (displacement_stage _ _ _ W4 C5) as (_ & _ & _ & G5).
  destruct Hz as (_ & _ & _ & Zo & Zm & Zs & Zd & _). injection U1 as A1 A2 A3 A4 _ _ _ _ _ _.
  injection U2 as B1 B2 B3 _ _ _ _ _. injection U3 as D1 D2 D3 _ _ _ _ _.
  rewrite F6. cbn. rewrite F5. cbn. rewrite G5. rewrite F4. cbn. rewrite G4, G3, D1, G2, D2, D3, B1, B2, B3, A1, A2, A3, A4, Zo, Zm, Zs, Zd.
  destruct r2 as [[]|], r3 as [[]|], r4 as [[]|], r5 as [[]|]; done.
Qed.

Lemma trace_run : insn_get_length T buf i0 = Some (set_len (u8 (next_byte i6)) i6, Some tt).
Proof using Hz Htr. destruct Htr as [E1 E2 E3 E4 E5 E6 _ _ _ _ _ _]. eapply stages_run; eassumption. Qed.

(** An opcode that was collected has at least one byte. *)
Lemma trace_opcode_byte : got (opcode i6) = true -> 1 <= next_byte i6.
Proof using Hw0 Hz Htr.
  destruct trace_flags as (-> & _). intros Hr%bool_decide_eq_true.
  destruct trace_frames as ((W1 & _) & N & _). rewrite Hr in Htr. destruct Htr as [_ _ _ _ _ _ _ (j & [_ _ _ Hl _] & ->) _ _ _ _].
  pose proof (wf_next _ W1). cbn in N. lia.
Qed.

(** The fields at the end are those of the stage that collected them. *)
Lemma trace_fields : got (prefixes i1) = true ->
  (prefixes i6, rex_prefix i6, vex_prefix i6) = (prefixes i1, rex_prefix i1, vex_prefix i1) /\
  got (prefixes i2) = true /\ opcode i6 = opcode i2 /\ modrm i6 = modrm i3 /\ sib i6 = sib i4 /\ displacement i6 = displacement i5 /\
  attr i6 = attr i5.
Proof using Htr.
  intros Hg. destruct trace_frames as (_ & _ & (U1 & U2 & U3) & F4 & F5 & F6).
  destruct Htr as [_ _ _ _ _ _ _ C2 C3 _ _ _].
  destruct (opcode_stage _ _ _ C2) as (_ & _ & _ & P2 & _). injection (P2 Hg) as P21 P22 P23 _ _.
  assert (got (prefixes i2) = true) as Hg2 by (by rewrite P21).
  assert ((prefixes i3, rex_prefix i3, vex_prefix i3) = (prefixes i2, rex_prefix i2, vex_prefix i2)) as P3.
  { destruct r3; [destruct C3 as (j & C3 & ->)|]; injection (ms_front _ _ C3 Hg2) as Q1 Q2 Q3 _; cbn; congruence. }
  injection P3 as P31 P32 P33. injection U3 as D1 _ _ _ _ _ _ _.
  rewrite F6. cbn. rewrite F5. cbn. rewrite F4. cbn. rewrite P31, P32, P33, P21, P22, P23, D1. done.
Qed.

(** [immediate.got] is only set by an immediate stage that succeeds. *)
Lemma imm_success : second_ok (attr i5) = true -> got (immediate i6) = true -> r6 = Some tt.
Proof using Hz Htr.
  intros Hs Hg. destruct trace_frames as (_ & _ & (U1 & U2 & U3) & F4 & F5 & _).
  destruct Htr as [_ _ _ _ _ _ _ _ _ _ _ C6]. destruct r6 as [[]|]; [done|]. destruct C6 as [_ C6].
  rewrite (C6 Hs), F5, F4 in Hg. cbn in Hg. destruct Hz as (_ & _ & _ & _ & _ & _ & _ & Zi & _).
  injection U1 as _ _ _ _ A5 _ _ _ _ _. injection U2 as _ _ _ B4 _ _ _ _. injection U3 as _ _ _ D4 _ _ _ _.
  by rewrite D4, B4, A5, Zi in Hg.
Qed.

Lemma imms_got_clear : second_ok (attr i5) = true -> got (immediate i6) = true -> imms i5 i6.
Proof using Hz Htr.
  intros Hs Hg. pose proof (imm_success Hs Hg) as Hr. destruct Htr as [_ _ _ _ _ _ _ _ _ _ _ C6].
  rewrite Hr in C6. by apply C6.
Qed.

(** The bytes of each stage, when all of them succeeded. *)
Lemma trace_slices : got (prefixes i1) = true -> r2 = Some tt -> r3 = Some tt -> r4 = Some tt -> r5 = Some tt ->
  (next_byte i2 = next_byte i1 + nbytes (opcode i2) /\ fbytes (opcode i2) = slice (next_byte i1) (next_byte i2)) /\
  (next_byte i3 = next_byte i2 + nbytes (modrm i3) /\ fbytes (modrm i3) = slice (next_byte i2) (next_byte i3)) /\
  (next_byte i4 = next_byte i3 + nbytes (sib i4) /\ fbytes (sib i4) = slice (next_byte i3) (next_byte i4)) /\
  (next_byte i5 = next_byte i4 + nbytes (displacement i5) /\ fbytes (displacement i5) = slice (next_byte i4) (next_byte i5)).
Proof using Hz Htr.
  intros Hg R2 R3 R4 R5. destruct (trace_fields Hg) as (_ & Hg2 & _).
  destruct trace_frames as (_ & _ & (U1 & U2 & _) & _). injection U1 as _ A2 _ _ _ _ _ _ _ _. injection U2 as B1 _ _ _ _ _ _ _.
  destruct Hz as (_ & _ & _ & _ & Zm & _). destruct Htr as [_ _ _ _ _ _ _ C2 C3 C4 C5 _].
  rewrite R2 in C2. rewrite R3 in C3. rewrite R4 in C4. rewrite R5 in C5.
  destruct C2 as (j2 & O2 & E2), C3 as (j3 & M3 & ->), C4 as (j4 & T4 & _ & ->), C5 as (j5 & T5 & _ & ->).
  split; [|split; [|split; [split; [apply T4|apply T4]|split; [apply T5|apply T5]]]].
  - rewrite E2. exact (op_bytes _ _ O2 Hg).
  - apply (ms_bytes _ _ M3); [|done]. by rewrite B1, A2, Zm.
Qed.

(** The instruction is the sequence of its fields, when the prefixes were
    collected before anything else. *)
Lemma trace_layout : got (prefixes i1) = true -> insn_complete i6 = true -> second_ok (attr i6) = true ->
  next_byte i6 = insn_offset_immediate i6 + nbytes (immediate i6) + nbytes (immediate2 i6) /\
  exists pfx, Forall (fun b => is_legacy b = true) pfx /\ Z.of_nat (length pfx) = nbytes (prefixes i6) /\
    slice 0 (next_byte i6) = pfx ++ fbytes (rex_prefix i6) ++ fbytes (vex_prefix i6) ++ fbytes (opcode i6) ++
      fbytes (modrm i6) ++ fbytes (sib i6) ++ fbytes (displacement i6) ++ fbytes (immediate i6) ++ fbytes (immediate2 i6).
Proof using Hw0 Hz Htr.
  intros Hg Hc Hsec. unfold insn_complete in Hc. bprop. destruct trace_flags as (G2 & G3 & G4 & G5).
  destruct (trace_fields Hg) as (P & _ & Eo & Em & Es & Ed & Ea). injection P as Ep Er Ev.
  rewrite Ea in Hsec. pose proof (imms_got_clear Hsec ltac:(assumption)) as [_ _ Hn6 _ Hb6 _].
  destruct (trace_slices Hg) as ((N2 & B2) & (N3 & B3) & (N4 & B4) & (N5 & B5));
    [apply (bool_decide_eq_true_1 _); congruence..|].
  destruct trace_frames as ((W1 & _) & N & _). pose proof (wf_next _ W1).
  destruct Hz as (Zp & Zr & Zv & _ & _ & _ & _ & _ & _ & _ & Zn).
  assert (scanned i0 i1) as [_ _ _ _ Hl] by (apply (tr_collected _ _ _ _ _ _ _ _ _ _ _ _ Htr); [by rewrite Zp|done]).
  destruct Hl as (N1 & pfx & Hleg & Hlen & Hs1). { unfold fresh_prefixes. by rewrite Zp, Zr, Zv. }
  unfold insn_offset_immediate, insn_offset_displacement, insn_offset_sib, insn_offset_modrm.
  unfold insn_offset_opcode, insn_offset_vex_prefix, insn_offset_rex_prefix in *.
  rewrite Ep, Er, Ev, Eo, Em, Es, Ed. split; [lia|]. exists pfx. split; [done|]. split; [done|].
  rewrite B2, B3, B4, B5, Hb6. rewrite !slice_app by lia. rewrite <-Zn at 1.
  rewrite <-(slice_app _ (next_byte i1)), Hs1 by lia. by rewrite <-!app_assoc.
Qed.

(** Displacement and immediate are sign-extended. *)
Definition sign_extended (f : insn_field) : Prop :=
  nbytes f = 0 \/ value f = sN (8 * nbytes f) (le_combine (fbytes f)).

Lemma sign_extended_intro f :
  nbytes f = 0 \/ (exists t, nbytes f = Z.of_nat (sizeof t) /\ is_signed t = true /\ value f = convert t (le_combine (fbytes f))) ->
  sign_extended f.
Proof using Type. intros [H|(t & Hn & Ht & Hv)]; [by left|right]. rewrite Hn, Hv. by destruct t. Qed.

Lemma trace_values : got (prefixes i1) = true -> insn_complete i6 = true -> second_ok (attr i6) = true ->
  sign_extended (displacement i6) /\ sign_extended (immediate i6).
Proof using Hz Htr.
  intros Hg Hc Hsec. unfold insn_complete in Hc. bprop. destruct trace_flags as (_ & _ & _ & G5).
  destruct (trace_fields Hg) as (_ & _ & _ & _ & _ & Ed & Ea). rewrite Ea in Hsec.
  split; apply sign_extended_intro; [|exact (im_value _ _ (imms_got_clear Hsec ltac:(assumption)))].
  assert (r5 = Some tt) as R5 by (apply (bool_decide_eq_true_1 _); congruence).
  destruct Htr as [_ _ _ _ _ _ _ _ _ _ C5 _]. rewrite R5 in C5. destruct C5 as (j5 & T5 & _ & E5).
  rewrite Ed, E5. exact (tk_value _ _ _ _ T5).
Qed.

End trace_facts.

End safety.

End Insn.
