(* ===== verification/InsnStable.v ===== *)
(** Longer buffers do not change what the instruction decoder of [Insn] makes
    of the bytes it has read: a computation that succeeds on a buffer gives the
    same result on every extension of it. *)

From stdpp Require Import base option list numbers.
From Stdlib Require Import ZArith Lia Bool.
From S2P Require Import Prelude Insn.
Import Insn.

Module InsnStable.

Section stable.
Context (T : inat_tables) (buf more : list Z) (e : Z).

(** The same instruction with a later end of the buffer. *)
Definition ext (i : insn) : insn := set_end_kaddr e i.

(** [m] on the buffer and [m'] on its extension agree whenever [m] succeeds from
    a state in [P]. *)
Definition stable {A} (P : insn -> Prop) (m m' : M A) : Prop :=
  forall i i' a, P i -> end_kaddr i <= e -> m i = Some (i', Some a) ->
    m' (ext i) = Some (ext i', Some a) /\ P i' /\ end_kaddr i' = end_kaddr i.

Lemma st_ret {A} P (a : A) : stable P (ret a) (ret a).
Proof using Type. intros i i' a' HP _ [= <- <-]. done. Qed.
Lemma st_lift {A} P (o : option A) : stable P (lift o) (lift o).
Proof using Type. intros i i' a HP _. unfold lift. destruct o; [|done]. intros [= <- <-]. done. Qed.
Lemma st_goto {A} P (m : M A) : stable P goto_err_out m.
Proof using Type. done. Qed.
Lemma st_undefined {A} P (m : M A) : stable P undefined m.
Proof using Type. done. Qed.
Lemma st_bind {A B} P (m m' : M A) (f f' : A -> M B) :
  stable P m m' -> (forall a, stable P (f a) (f' a)) -> stable P (bind m f) (bind m' f').
Proof using Type.
  intros Hm Hf i i' b HP He. unfold bind. destruct (m i) as [[i1 [a|]]|] eqn:E; [|done..]. intros E'.
  destruct (Hm _ _ _ HP He E) as (-> & HP1 & He1). destruct (Hf a i1 i' b HP1 ltac:(lia) E') as (-> & ? & ?).
  split_and!; [done..|lia].
Qed.
Lemma st_gets {A B} P (g : insn -> A) (f f' : A -> M B) :
  (forall j, stable P (f (g j)) (f' (g (ext j)))) -> stable P (bind (gets g) f) (bind (gets g) f').
Proof using Type. intros Hf i i' b HP He E. exact (Hf i i i' b HP He E). Qed.
Lemma st_get {A} P (g : insn -> A) : (forall j, g (ext j) = g j) -> stable P (gets g) (gets g).
Proof using Type. intros Hg i i' a HP He [= <- <-]. unfold gets. by rewrite Hg. Qed.
Lemma st_modify (P : insn -> Prop) g :
  (forall j, g (ext j) = ext (g j)) -> (forall j, end_kaddr (g j) = end_kaddr j) -> (forall j, P j -> P (g j)) ->
  stable P (modify g) (modify g).
Proof using Type. intros H1 H2 H3 i i' a HP He [= <- <-]. unfold modify. rewrite H1, H2. auto. Qed.
Lemma st_if {A} P (b : bool) (m1 m1' m2 m2' : M A) : stable P m1 m1' -> stable P m2 m2' ->
  stable P (if b then m1 else m2) (if b then m1' else m2').
Proof using Type. by destruct b. Qed.
Lemma st_when P b (m m' : M unit) : stable P m m' -> stable P (when b m) (when b m').
Proof using Type. intros Hm. destruct b; [exact Hm|apply st_ret]. Qed.

Lemma st_validate t n i : end_kaddr i <= e -> validate_next t n i = true -> validate_next t n (ext i) = true.
Proof using Type. unfold validate_next. cbn -[Z.leb]. intros He Hv%Z.leb_le. apply Z.leb_le. lia. Qed.

Lemma st_peek P t n : stable P (peek_nbyte_next buf t n) (peek_nbyte_next (buf ++ more) t n).
Proof using Type.
  intros i i' a HP He. unfold peek_nbyte_next, bind, gets. destruct (validate_next t n i) eqn:Ev; [|done].
  rewrite (st_validate t n i He Ev).
  unfold __peek_nbyte_next, bind, gets, lift. cbn [next_byte ext set_end_kaddr].
  destruct (rd_le buf _ _) as [v|] eqn:Er; [|done]. rewrite (rd_le_app_l _ _ _ _ _ Er). cbn. intros [= <- <-]. done.
Qed.

Lemma st_get_next (P : insn -> Prop) t : (forall v j, P j -> P (set_next_byte v j)) ->
  stable P (get_next buf t) (get_next (buf ++ more) t).
Proof using Type.
  intros HPn i i' a HP He. unfold get_next, bind, gets. destruct (validate_next t 0 i) eqn:Ev; [|done].
  rewrite (st_validate t 0 i He Ev).
  unfold __get_next, bind, gets, lift, modify. cbn [next_byte ext set_end_kaddr].
  destruct (rd_le buf _ _) as [v|] eqn:Er; [|done]. rewrite (rd_le_app_l _ _ _ _ _ Er). cbn. intros [= <- <-].
  split_and!; [done| |done]. by apply HPn.
Qed.

(** The prefixes have been collected; or nothing is known. *)
Definition any (i : insn) : Prop := True.
Definition collected_pfx (i : insn) : Prop := got (prefixes i) = true.

Lemma st_put_byte P upd k b : (forall g j, upd g (ext j) = ext (upd g j)) ->
  (forall g j, end_kaddr (upd g j) = end_kaddr j) -> (forall g j, P j -> P (upd g j)) ->
  stable P (put_byte upd k b) (put_byte upd k b).
Proof using Type. intros H1 H2 H3. unfold put_byte. apply st_if; [apply st_modify; auto|apply st_undefined]. Qed.

Lemma st_get_byte P f k : (forall j, f (ext j) = f j) -> stable P (get_byte f k) (get_byte f k).
Proof using Type. intros Hf. apply st_gets. intros j. rewrite Hf. apply st_lift. Qed.

(** One rule per shape of the computation. *)
Ltac stb_step :=
  lazymatch goal with
  | |- stable _ (ret _) _ => apply st_ret
  | |- stable _ (lift _) _ => apply st_lift
  | |- stable _ goto_err_out _ => apply st_goto
  | |- stable _ undefined _ => apply st_undefined
  | |- stable _ (peek_nbyte_next _ _ _) _ => apply st_peek
  | |- stable _ (get_next _ _) _ => apply st_get_next; by auto
  | |- stable _ (get_byte _ _) _ => apply st_get_byte; done
  | |- stable _ (put_byte _ _ _) _ => apply st_put_byte; [done|done|by auto]
  | |- stable _ (modify _) _ => apply st_modify; [done|done|by auto]
  | |- stable _ (when _ _) _ => apply st_when
  | |- stable _ (if _ then _ else _) _ => apply st_if
  | |- stable _ (bind (gets _) _) _ => apply st_gets; intros ?;
      cbn [ext set_end_kaddr prefixes rex_prefix vex_prefix opcode modrm sib displacement immediate immediate2
           attr opnd_bytes addr_bytes len x86_64 next_byte]
  | |- stable _ (gets _) _ => apply st_get; done
  | |- stable _ (bind _ _) _ => apply st_bind; [|intros ?]
  end.
Ltac stb := repeat stb_step.

Lemma st_same_prefix P n k b : stable P (same_prefix n k b) (same_prefix n k b).
Proof using Type. revert k. induction n as [|n IH]; intros k; cbn [same_prefix]; stb. apply IH. Qed.

Lemma st_swap_prefix n k lb b : stable any (swap_prefix n k lb b) (swap_prefix n k lb b).
Proof using Type. revert k. induction n as [|n IH]; intros k; cbn [swap_prefix]; stb. apply IH. Qed.

Lemma st_prefix_loop fuel nb lb b : stable any (prefix_loop T buf fuel nb lb b) (prefix_loop T (buf ++ more) fuel nb lb b).
Proof using Type.
  revert nb lb b. induction fuel as [|fuel IH]; intros nb lb b; cbn [prefix_loop]; [apply st_undefined|].
  unfold size_switch, skip, peek_next. stb; [apply st_same_prefix|apply IH].
Qed.

Lemma st_get_prefixes : stable any (get_prefixes T buf) (get_prefixes T (buf ++ more)).
Proof using Type.
  unfold get_prefixes, set_last_prefix, decode_rex, decode_vex, vex_w, skip, peek_next.
  apply st_bind; [stb|intros b]. apply st_bind; [apply st_prefix_loop|intros [nb lb]]. stb. apply st_swap_prefix.
Qed.

(** Behind the prefixes. *)
Lemma st_insn_get_prefixes buf' : stable collected_pfx (insn_get_prefixes T buf) (insn_get_prefixes T buf').
Proof using Type.
  intros i i' a HP He. unfold insn_get_prefixes, bind, gets. cbn [prefixes ext set_end_kaddr].
  unfold collected_pfx in HP. rewrite HP. intros [= <- <-]. done.
Qed.

Lemma st_is_avx : stable collected_pfx (insn_is_avx T buf) (insn_is_avx T (buf ++ more)).
Proof using Type. unfold insn_is_avx. apply st_bind; [apply st_insn_get_prefixes|intros _]. stb. Qed.
Lemma st_is_evex : stable collected_pfx (insn_is_evex T buf) (insn_is_evex T (buf ++ more)).
Proof using Type. unfold insn_is_evex. apply st_bind; [apply st_insn_get_prefixes|intros _]. stb. Qed.
Lemma st_vex_p : stable collected_pfx insn_vex_p_bits insn_vex_p_bits.
Proof using Type. unfold insn_vex_p_bits. stb. Qed.
Lemma st_vex_m : stable collected_pfx insn_vex_m_bits insn_vex_m_bits.
Proof using Type. unfold insn_vex_m_bits. stb. Qed.
Lemma st_last_prefix_id : stable collected_pfx (insn_last_prefix_id T buf) (insn_last_prefix_id T (buf ++ more)).
Proof using Type. unfold insn_last_prefix_id. apply st_bind; [apply st_is_avx|intros a]. stb. apply st_vex_p. Qed.

Lemma st_escape_loop fuel : stable collected_pfx (escape_loop T buf fuel) (escape_loop T (buf ++ more) fuel).
Proof using Type.
  induction fuel as [|fuel IH]; cbn [escape_loop]; [apply st_undefined|].
  stb; [apply st_last_prefix_id|apply IH].
Qed.

Lemma st_avx_attribute op : stable collected_pfx (avx_attribute T buf op) (avx_attribute T (buf ++ more) op).
Proof using Type.
  unfold avx_attribute. apply st_bind; [apply st_vex_m|intros m]. apply st_bind; [apply st_vex_p|intros p].
  stb. apply st_is_evex.
Qed.

Lemma st_get_opcode : stable collected_pfx (get_opcode T buf) (get_opcode T (buf ++ more)).
Proof using Type.
  unfold get_opcode. apply st_bind; [stb|intros op]. do 2 (apply st_bind; [stb|intros _]).
  apply st_bind; [apply st_is_avx|intros avx]. apply st_bind; [|intros _; stb].
  apply st_if; [apply st_avx_attribute|]. apply st_bind; [stb|intros a]. apply st_bind; [stb|intros _].
  apply st_bind; [apply st_escape_loop|intros _]. stb.
Qed.

Lemma st_get_modrm : stable collected_pfx (get_modrm T buf) (get_modrm T (buf ++ more)).
Proof using Type.
  unfold get_modrm. stb; [apply st_last_prefix_id|apply st_is_avx].
Qed.

Lemma st_get_sib : stable collected_pfx (get_sib buf) (get_sib (buf ++ more)).
Proof using Type. unfold get_sib, get_field. stb. Qed.

Lemma st_get_displacement : stable collected_pfx (get_displacement buf) (get_displacement (buf ++ more)).
Proof using Type. unfold get_displacement, get_field. stb. Qed.

Lemma st_get_immediate : stable collected_pfx (get_immediate buf) (get_immediate (buf ++ more)).
Proof using Type.
  unfold get_immediate, get_imm, __get_moffset, __get_immv, __get_immv32, __get_immptr, both_got, get_field. stb.
Qed.

Lemma prefixes_succeed i0 i1 : tables_ok T = true -> Forall is_byte buf -> wf buf i0 -> got (prefixes i0) = false ->
  insn_get_prefixes T buf i0 = Some (i1, Some tt) -> got (prefixes i1) = true -> get_prefixes T buf i0 = Some (i1, Some tt).
Proof using Type.
  intros HT Hb Hw H0. unfold insn_get_prefixes, bind, gets, err_out. rewrite H0.
  destruct (wp_run _ _ _ _ (wp_get_prefixes T HT buf Hb i0 Hw)) as (i & r & E & C). rewrite E. intros [= ->] H1.
  destruct r as [[]|]; [done|]. pose proof (ps_got _ _ _ C). congruence.
Qed.

(** All stages succeeded on [buf]: they do the same on the extension. *)
Lemma trace_extends i0 i1 i2 i3 i4 i5 i6 : tables_ok T = true -> Forall is_byte buf -> wf buf i0 -> all_zero i0 ->
  end_kaddr i0 <= e -> trace T buf i0 i1 i2 i3 i4 i5 i6 (Some tt) (Some tt) (Some tt) (Some tt) (Some tt) ->
  got (prefixes i1) = true ->
  insn_get_length T (buf ++ more) (ext i0) = Some (set_len (u8 (next_byte i6)) (ext i6), Some tt) /\
  collected_pfx i6 /\ end_kaddr i6 = end_kaddr i0.
Proof using Type.
  intros HT Hb Hw Hz He Htr Hg. destruct Htr as [E1 E2 E3 E4 E5 E6 _ _ _ _ _ _]. pose proof Hz as (Zp & _).
  pose proof (prefixes_succeed i0 i1 HT Hb Hw ltac:(by rewrite Zp) E1 Hg) as E1'.
  destruct (st_get_prefixes i0 i1 tt I He E1') as (R1 & _ & N1).
  destruct (st_get_opcode i1 i2 tt Hg ltac:(lia) E2) as (R2 & P2 & N2).
  destruct (st_get_modrm i2 i3 tt P2 ltac:(lia) E3) as (R3 & P3 & N3).
  destruct (st_get_sib i3 i4 tt P3 ltac:(lia) E4) as (R4 & P4 & N4).
  destruct (st_get_displacement i4 i5 tt P4 ltac:(lia) E5) as (R5 & P5 & N5).
  destruct (st_get_immediate i5 i6 tt P5 ltac:(lia) E6) as (R6 & P6 & N6).
  split; [|split; [done|lia]]. change (next_byte i6) with (next_byte (ext i6)).
  eapply stages_run; [exact Hz| |exact R2|exact R3|exact R4|exact R5|exact R6].
  unfold insn_get_prefixes, bind, gets, err_out. cbn [ext set_end_kaddr prefixes]. rewrite Zp. cbn [got zero_field].
  by rewrite R1.
Qed.

End stable.
End InsnStable.
