(* ===== verification/PtInsn.v ===== *)
(** The instruction classifier of the Intel PT decoder,
    [src/tools/perf/util/intel-pt-decoder/intel-pt-insn-decoder.c], and what the
    instruction decoder of [Insn] guarantees to it. *)

From stdpp Require Import base option list numbers strings.
From Stdlib Require Import ZArith Lia Bool Ascii.
From S2P Require Import Prelude CFmt Insn InsnStable.
Import Insn InsnStable.

Module PtInsn.

Inductive intel_pt_insn_op :=
  | INTEL_PT_OP_OTHER | INTEL_PT_OP_CALL | INTEL_PT_OP_RET | INTEL_PT_OP_JCC | INTEL_PT_OP_JMP
  | INTEL_PT_OP_LOOP | INTEL_PT_OP_IRET | INTEL_PT_OP_INT | INTEL_PT_OP_SYSCALL | INTEL_PT_OP_SYSRET.

Inductive intel_pt_insn_branch :=
  | INTEL_PT_BR_NO_BRANCH | INTEL_PT_BR_INDIRECT | INTEL_PT_BR_CONDITIONAL | INTEL_PT_BR_UNCONDITIONAL.

#[global] Instance intel_pt_insn_op_eq_dec : EqDecision intel_pt_insn_op.
Proof. solve_decision. Defined.
#[global] Instance intel_pt_insn_branch_eq_dec : EqDecision intel_pt_insn_branch.
Proof. solve_decision. Defined.

Definition INTEL_PT_INSN_DBG_BUF_SZ : Z := 16.
Definition INTEL_PT_INSN_DESC_MAX : Z := 32.

(** [dbg] is the member [buf]. *)
Record intel_pt_insn := mkPtInsn {
  op : intel_pt_insn_op; branch : intel_pt_insn_branch; length_ : Z; rel : Z; dbg : list Z;
}.

(** The big switch: the kind of an instruction by its opcode and ModRM bytes. *)
Definition between (a x b : Z) : bool := (a <=? x) && (x <=? b).

Definition classify_0f (b1 : Z) : intel_pt_insn_op * intel_pt_insn_branch :=
  if (b1 =? 0x05) || (b1 =? 0x34) then (INTEL_PT_OP_SYSCALL, INTEL_PT_BR_INDIRECT)
  else if (b1 =? 0x07) || (b1 =? 0x35) then (INTEL_PT_OP_SYSRET, INTEL_PT_BR_INDIRECT)
  else if between 0x80 b1 0x8f then (INTEL_PT_OP_JCC, INTEL_PT_BR_CONDITIONAL)
  else (INTEL_PT_OP_OTHER, INTEL_PT_BR_NO_BRANCH).

Definition classify_ff (modrm : Z) : intel_pt_insn_op * intel_pt_insn_branch :=
  let ext := Z.land (Z.shiftr modrm 3) 7 in
  if (ext =? 2) || (ext =? 3) then (INTEL_PT_OP_CALL, INTEL_PT_BR_INDIRECT)
  else if (ext =? 4) || (ext =? 5) then (INTEL_PT_OP_JMP, INTEL_PT_BR_INDIRECT)
  else (INTEL_PT_OP_OTHER, INTEL_PT_BR_NO_BRANCH).

Definition classify (b0 b1 modrm : Z) : intel_pt_insn_op * intel_pt_insn_branch :=
  if b0 =? 0x0f then classify_0f b1
  else if between 0x70 b0 0x7f then (INTEL_PT_OP_JCC, INTEL_PT_BR_CONDITIONAL)
  else if (b0 =? 0xc2) || (b0 =? 0xc3) || (b0 =? 0xca) || (b0 =? 0xcb) then (INTEL_PT_OP_RET, INTEL_PT_BR_INDIRECT)
  else if b0 =? 0xcf then (INTEL_PT_OP_IRET, INTEL_PT_BR_INDIRECT)
  else if between 0xcc b0 0xce then (INTEL_PT_OP_INT, INTEL_PT_BR_INDIRECT)
  else if b0 =? 0xe8 then (INTEL_PT_OP_CALL, INTEL_PT_BR_UNCONDITIONAL)
  else if b0 =? 0x9a then (INTEL_PT_OP_CALL, INTEL_PT_BR_INDIRECT)
  else if between 0xe0 b0 0xe2 then (INTEL_PT_OP_LOOP, INTEL_PT_BR_CONDITIONAL)
  else if b0 =? 0xe3 then (INTEL_PT_OP_JCC, INTEL_PT_BR_CONDITIONAL)
  else if (b0 =? 0xe9) || (b0 =? 0xeb) then (INTEL_PT_OP_JMP, INTEL_PT_BR_UNCONDITIONAL)
  else if b0 =? 0xea then (INTEL_PT_OP_JMP, INTEL_PT_BR_INDIRECT)
  else if b0 =? 0xff then classify_ff modrm
  else (INTEL_PT_OP_OTHER, INTEL_PT_BR_NO_BRANCH).

(** [rel] is only assigned for direct branches (on a little-endian host). *)
Definition intel_pt_insn_decoder (T : inat_tables) (buf : list Z) (out : intel_pt_insn) : M intel_pt_insn :=
  let! avx := insn_is_avx T buf in
  let! i := gets (fun i => i) in
  if avx then ret (mkPtInsn INTEL_PT_OP_OTHER INTEL_PT_BR_NO_BRANCH (len i) (rel out) (dbg out)) else
  let! b0 := get_byte opcode 0 in
  let! b1 := get_byte opcode 1 in
  let! m := get_byte modrm 0 in
  let (o, b) := classify b0 b1 m in
  ret (mkPtInsn o b (len i)
    (match b with
     | INTEL_PT_BR_CONDITIONAL | INTEL_PT_BR_UNCONDITIONAL => value (immediate i)
     | _ => rel out
     end) (dbg out)).

(** The return value and the caller's structure. *)
Definition intel_pt_get_insn (T : inat_tables) (buf : list Z) (buf_len : Z) (x86_64 : bool) (out : intel_pt_insn)
    : option (Z * intel_pt_insn) :=
  match insn_get_length T buf (insn_init (s32 buf_len) x86_64) with
  | Some (i, _) =>
      if negb (insn_complete i) || (len i >? buf_len) then Some (-1, out) else
      match intel_pt_insn_decoder T buf out i with
      | Some (i, Some out) =>
          let n := if len i <? INTEL_PT_INSN_DBG_BUF_SZ then len i else INTEL_PT_INSN_DBG_BUF_SZ in
          let* data := rd_bytes buf 0 (Z.to_nat n) in
          let* dbg' := CFmt.wr_bytes (dbg out) 0 data in
          Some (0, mkPtInsn (op out) (branch out) (length_ out) (rel out) dbg')
      | _ => None
      end
  | None => None
  end.

Definition intel_pt_insn_name (o : intel_pt_insn_op) : list Z :=
  CFmt.bs match o with
  | INTEL_PT_OP_OTHER => "Other"
  | INTEL_PT_OP_CALL => "Call"
  | INTEL_PT_OP_RET => "Ret"
  | INTEL_PT_OP_JCC => "Jcc"
  | INTEL_PT_OP_JMP => "Jmp"
  | INTEL_PT_OP_LOOP => "Loop"
  | INTEL_PT_OP_IRET => "IRet"
  | INTEL_PT_OP_INT => "Int"
  | INTEL_PT_OP_SYSCALL => "Syscall"
  | INTEL_PT_OP_SYSRET => "Sysret"
  end.

Definition intel_pt_insn_desc (p : intel_pt_insn) (buf : list Z) (buf_len : Z) : option (Z * list Z) :=
  match branch p with
  | INTEL_PT_BR_CONDITIONAL | INTEL_PT_BR_UNCONDITIONAL =>
      CFmt.snprintf buf 0 buf_len
        (intel_pt_insn_name (op p) ++ CFmt.bs " " ++ (if rel p >? 0 then CFmt.bs "+" else []) ++ CFmt.fmt_d (rel p))
  | INTEL_PT_BR_NO_BRANCH | INTEL_PT_BR_INDIRECT => CFmt.snprintf buf 0 buf_len (intel_pt_insn_name (op p))
  end.

Definition intel_pt_insn_max_size : Z := MAX_INSN_SIZE.

Definition PERF_IP_FLAG_BRANCH : Z := BIT 0.
Definition PERF_IP_FLAG_CALL : Z := BIT 1.
Definition PERF_IP_FLAG_RETURN : Z := BIT 2.
Definition PERF_IP_FLAG_CONDITIONAL : Z := BIT 3.
Definition PERF_IP_FLAG_SYSCALLRET : Z := BIT 4.
Definition PERF_IP_FLAG_INTERRUPT : Z := BIT 6.

Definition intel_pt_insn_type (o : intel_pt_insn_op) : Z :=
  match o with
  | INTEL_PT_OP_OTHER => 0
  | INTEL_PT_OP_CALL => Z.lor PERF_IP_FLAG_BRANCH PERF_IP_FLAG_CALL
  | INTEL_PT_OP_RET => Z.lor PERF_IP_FLAG_BRANCH PERF_IP_FLAG_RETURN
  | INTEL_PT_OP_JCC => Z.lor PERF_IP_FLAG_BRANCH PERF_IP_FLAG_CONDITIONAL
  | INTEL_PT_OP_JMP => PERF_IP_FLAG_BRANCH
  | INTEL_PT_OP_LOOP => Z.lor PERF_IP_FLAG_BRANCH PERF_IP_FLAG_CONDITIONAL
  | INTEL_PT_OP_IRET => Z.lor (Z.lor PERF_IP_FLAG_BRANCH PERF_IP_FLAG_RETURN) PERF_IP_FLAG_INTERRUPT
  | INTEL_PT_OP_INT => Z.lor (Z.lor PERF_IP_FLAG_BRANCH PERF_IP_FLAG_CALL) PERF_IP_FLAG_INTERRUPT
  | INTEL_PT_OP_SYSCALL => Z.lor (Z.lor PERF_IP_FLAG_BRANCH PERF_IP_FLAG_CALL) PERF_IP_FLAG_SYSCALLRET
  | INTEL_PT_OP_SYSRET => Z.lor (Z.lor PERF_IP_FLAG_BRANCH PERF_IP_FLAG_RETURN) PERF_IP_FLAG_SYSCALLRET
  end.

(** * The state that [intel_pt_get_insn] hands to the decoder *)

Lemma s32_le x : 0 <= x -> s32 x <= x.
Proof.
  intros Hx. unfold s32, sN. pose proof (Z.mod_le x (2 ^ 32) Hx ltac:(lia)).
  destruct (_ <? _); lia.
Qed.

Lemma init_wf buf n x : n <= Z.of_nat (length buf) -> wf buf (insn_init n x).
Proof.
  intros Hn. pose proof fok_zero. constructor; cbn -[zero_field Z.gtb]; try done; [|lia].
  destruct (n >? MAX_INSN_SIZE) eqn:E; bprop; change MAX_INSN_SIZE with 15 in *; lia.
Qed.

Lemma init_zero n x : all_zero (insn_init n x).
Proof. by repeat split. Qed.

(** A direct branch has the flag of a branch, a conditional one that of a
    condition, and only these. *)
Definition flags_ok (o : intel_pt_insn_op) (b : intel_pt_insn_branch) : Prop :=
  tst (intel_pt_insn_type o) PERF_IP_FLAG_BRANCH = bool_decide (b <> INTEL_PT_BR_NO_BRANCH) /\
  tst (intel_pt_insn_type o) PERF_IP_FLAG_CONDITIONAL = bool_decide (b = INTEL_PT_BR_CONDITIONAL).

Lemma classify_flags b0 b1 m : flags_ok (classify b0 b1 m).1 (classify b0 b1 m).2.
Proof.
  unfold classify, classify_0f, classify_ff. cbv zeta.
  repeat match goal with |- context [if ?c then _ else _] => destruct c end; by vm_compute.
Qed.

Lemma value_range f : - 2 ^ 31 <= value f < 2 ^ 31.
Proof. apply (sN_range 32); lia. Qed.

Lemma wp_decoder T buf out i : tables_ok T = true -> Forall is_byte buf -> wf buf i ->
  wp (intel_pt_insn_decoder T buf out) (fun out' i' => len i' = len i /\ length_ out' = len i /\ dbg out' = dbg out /\
    flags_ok (op out') (branch out') /\ (rel out' = rel out \/ - 2 ^ 31 <= rel out' < 2 ^ 31)) (fun _ => False) i.
Proof.
  intros HT Hb Hwf. unfold intel_pt_insn_decoder. apply wp_bind, (wp_is_avx T HT buf Hb); [done|]. intros i' Hc.
  injection (co_frame _ _ _ _ Hc) as _ _ _ _ _ _ _ El _ _. pose proof (co_wf _ _ _ _ Hc) as Hw'.
  apply wp_bind, wp_gets. destruct (negb _); [apply wp_ret; repeat split; auto|].
  apply wp_bind, wp_get_byte; [apply Hw'|lia|]. intros b0 _ _.
  apply wp_bind, wp_get_byte; [apply Hw'|lia|]. intros b1 _ _.
  apply wp_bind, wp_get_byte; [apply Hw'|lia|]. intros m _ _.
  pose proof (classify_flags b0 b1 m) as Hf. destruct (classify b0 b1 m) as [o b]. apply wp_ret. cbn -[value].
  pose proof (value_range (immediate i')). split_and!; try done. destruct b; auto.
Qed.

(** The copy of the bytes for debugging. *)
Lemma copy_dbg buf n d : 0 <= n <= 15 -> n <= Z.of_nat (length buf) -> length d = 16%nat ->
  (let* data := rd_bytes buf 0 (Z.to_nat (if n <? INTEL_PT_INSN_DBG_BUF_SZ then n else INTEL_PT_INSN_DBG_BUF_SZ)) in
   CFmt.wr_bytes d 0 data) = Some (take (Z.to_nat n) buf ++ drop (Z.to_nat n) d).
Proof.
  intros Hn Hl Hd. change INTEL_PT_INSN_DBG_BUF_SZ with 16. rewrite (proj2 (Z.ltb_lt n 16)) by lia.
  unfold rd_bytes. rewrite (proj2 (Z.leb_le _ (Z.of_nat (length buf)))) by lia. cbn [Z.leb Z.compare andb mbind option_bind Z.to_nat].
  rewrite drop_0. change d with ([] ++ d) at 1. rewrite CFmt.wr_bytes_app by (rewrite ?length_take; done || lia).
  cbn [app]. by rewrite length_take_le by lia.
Qed.

(** The run of [intel_pt_get_insn] in terms of the states between the stages. *)
Lemma get_insn_run T buf n x out : tables_ok T = true -> Forall is_byte buf -> 0 <= n <= Z.of_nat (length buf) ->
  length (dbg out) = 16%nat ->
  exists i1 i2 i3 i4 i5 i6 r2 r3 r4 r5 r6,
    trace T buf (insn_init (s32 n) x) i1 i2 i3 i4 i5 i6 r2 r3 r4 r5 r6 /\ 0 <= next_byte i6 <= 15 /\
    ((intel_pt_get_insn T buf n x out = Some (-1, out) /\ insn_complete i6 = false) \/
     (insn_complete i6 = true /\ 1 <= next_byte i6 <= n /\ exists i7 out',
       intel_pt_insn_decoder T buf out (set_len (next_byte i6) i6) = Some (i7, Some out') /\
       (len i7 = next_byte i6 /\ dbg out' = dbg out) /\ length_ out' = next_byte i6 /\ flags_ok (op out') (branch out') /\ (rel out' = rel out \/ - 2 ^ 31 <= rel out' < 2 ^ 31) /\
       intel_pt_get_insn T buf n x out = Some (0, mkPtInsn (op out') (branch out') (length_ out') (rel out')
         (take (Z.to_nat (next_byte i6)) buf ++ drop (Z.to_nat (next_byte i6)) (dbg out))))).
Proof.
  intros HT Hb Hn Hd. pose proof (s32_le n ltac:(lia)) as Hs.
  assert (wf buf (insn_init (s32 n) x)) as Hw0 by (apply init_wf; lia).
  destruct (wp_trace T HT buf Hb _ Hw0 (init_zero _ _)) as (i1 & i2 & i3 & i4 & i5 & i6 & r2 & r3 & r4 & r5 & r6 & Htr).
  exists i1, i2, i3, i4, i5, i6, r2, r3, r4, r5, r6. split; [done|].
  destruct (trace_frames T buf Htr) as ((_ & _ & _ & _ & _ & W6) & _ & (U1 & U2 & U3) & F4 & F5 & F6).
  assert (end_kaddr i6 <= n) as He.
  { rewrite F6. cbn. rewrite F5. cbn. rewrite F4. cbn. injection U1 as _ _ _ _ _ _ _ _ _ E1.
    injection U2 as _ _ _ _ _ _ _ E2. injection U3 as _ _ _ _ _ _ _ E3. rewrite E3, E2, E1. cbn -[Z.gtb].
    destruct (_ >? _) eqn:E; bprop; lia. }
  destruct (wf_end _ _ W6), (wf_next _ _ W6) as [? Hnx].
  assert (0 <= next_byte i6 <= 15) as Hr by lia. split; [done|].
  assert (u8 (next_byte i6) = next_byte i6) as Hu by (apply Z.mod_small; lia).
  unfold intel_pt_get_insn. rewrite (trace_run T buf (init_zero _ _) Htr), Hu. cbn [len set_len].
  change (insn_complete (set_len (next_byte i6) i6)) with (insn_complete i6).
  destruct (insn_complete i6) eqn:Hc; [right|by left]. cbn [negb orb]. rewrite (Z.gtb_ltb _ n), (proj2 (Z.ltb_ge n _)) by lia.
  assert (1 <= next_byte i6) as Hone.
  { apply (trace_opcode_byte T buf Hw0 (init_zero _ _) Htr). unfold insn_complete in Hc. by bprop. }
  split; [done|]. split; [lia|].
  assert (wf buf (set_len (next_byte i6) i6)) as W7 by (destruct W6; by constructor).
  destruct (wp_run _ _ _ _ (wp_decoder T buf out _ HT Hb W7)) as (i7 & [out'|] & E7 & C7); [|done].
  destruct C7 as (El & Elen & Ed & Hf & Hrel). exists i7, out'. rewrite E7. split_and!; try done.
  rewrite El, Ed. cbn [len set_len]. pose proof (copy_dbg buf (next_byte i6) (dbg out) Hr ltac:(lia) Hd) as Hcp.
  destruct (rd_bytes _ _ _) as [data|]; [|done]. cbn [mbind option_bind] in *. by rewrite Hcp.
Qed.

(** * Tables for concrete instructions

    The attributes of some opcodes of [x86-opcode-map.txt], as the generator
    encodes them; enough to evaluate the decoder. *)

Definition make_imm (k : Z) : Z := Z.shiftl k INAT_IMM_OFFS.
Definition Jb : Z := make_imm INAT_IMM_BYTE.
Definition Jbf : Z := Z.lor Jb INAT_FORCE64.
Definition Jz : Z := Z.lor (make_imm INAT_IMM_VWORD32) INAT_FORCE64.

Definition primary_attr (b : Z) : Z :=
  if b =? 0x66 then 1 else if b =? 0xf3 then 2 else if b =? 0xf2 then 3 else if b =? 0xf0 then 4
  else if b =? 0x2e then 5 else if b =? 0x67 then 11 else if between 0x40 b 0x4f then 12
  else if b =? 0xc5 then Z.lor 13 INAT_MODRM else if b =? 0xc4 then Z.lor 14 INAT_MODRM
  else if b =? 0x62 then Z.lor 15 INAT_MODRM
  else if b =? 0x0f then Z.shiftl 1 INAT_ESC_OFFS
  else if between 0x70 b 0x7f then Jb
  else if between 0xe0 b 0xe3 || (b =? 0xeb) then Jbf
  else if (b =? 0xe8) || (b =? 0xe9) then Jz
  else if between 0xb8 b 0xbf then make_imm INAT_IMM_VWORD
  else if b =? 0xc8 then Z.lor (make_imm INAT_IMM_WORD) INAT_SCNDIMM
  else if between 0xa0 b 0xa3 then INAT_MOFFSET
  else if b =? 0xff then Z.lor (Z.shiftl 5 INAT_GRP_OFFS) INAT_MODRM
  else if between 0x00 b 0x03 || between 0x88 b 0x8b then INAT_MODRM
  else 0.

Definition escape_attr (b : Z) : Z :=
  if b =? 0x38 then Z.shiftl 2 INAT_ESC_OFFS
  else if between 0x80 b 0x8f then Jz
  else if (b =? 0x05) || (b =? 0x34) then 0 else INAT_MODRM.

Definition avx_attr (b : Z) : Z := if b =? 0x58 then Z.lor INAT_MODRM INAT_VEXOK else INAT_MODRM.

Definition demo_tables : inat_tables :=
  mkTables (primary_attr <$> seqZ 0 256)
    [[None; None; None; None]; [Some (escape_attr <$> seqZ 0 256); None; None; None];
     [Some ((fun _ => INAT_MODRM) <$> seqZ 0 256); None; None; None]; [None; None; None; None]]
    (replicate 32 [None; None; None; None])
    ([None; None; None; None] :: [Some (avx_attr <$> seqZ 0 256); None; None; None] :: replicate 30 [None; None; None; None]).

Definition blank : intel_pt_insn := mkPtInsn INTEL_PT_OP_OTHER INTEL_PT_BR_NO_BRANCH 0 0 (replicate 16 0).

Lemma demo_tables_ok : tables_ok demo_tables = true.
Proof. vm_compute. reflexivity. Qed.

(** * Safety and classification *)

(** C6: For any attribute tables of the generated shape, any buffer of bytes
    and either mode, [intel_pt_get_insn] terminates, reads nothing outside of
    the buffer, of the tables or of the four bytes of a field, and either
    returns -1 and leaves the result alone, or returns 0 with a length between 1
    and 15 that is inside of the buffer, a copy of exactly those bytes for
    debugging, and an operation whose sample flags say whether it branches, and
    whether conditionally, as [branch] does. *)
Theorem get_insn_safe T buf n x out :
  tables_ok T = true -> Forall is_byte buf -> 0 <= n <= Z.of_nat (length buf) -> length (dbg out) = 16%nat ->
  exists r out', intel_pt_get_insn T buf n x out = Some (r, out') /\
    ((r = -1 /\ out' = out) \/
     (r = 0 /\ 1 <= length_ out' <= 15 /\ length_ out' <= n /\
      dbg out' = take (Z.to_nat (length_ out')) buf ++ drop (Z.to_nat (length_ out')) (dbg out) /\
      tst (intel_pt_insn_type (op out')) PERF_IP_FLAG_BRANCH = bool_decide (branch out' <> INTEL_PT_BR_NO_BRANCH) /\
      tst (intel_pt_insn_type (op out')) PERF_IP_FLAG_CONDITIONAL = bool_decide (branch out' = INTEL_PT_BR_CONDITIONAL))).
Proof.
  intros HT Hb Hn Hd. destruct (get_insn_run T buf n x out HT Hb Hn Hd)
    as (i1 & i2 & i3 & i4 & i5 & i6 & r2 & r3 & r4 & r5 & r6 & _ & Hr & [[E _]|(_ & H1 & i7 & out' & _ & _ & El & [Hf1 Hf2] & _ & E)]).
  - exists (-1), out. auto.
  - eexists 0, _. split; [exact E|]. right. cbn [length_ dbg op branch]. rewrite El. split_and!; done || lia.
Qed.

Lemma get_insn_safe_witness :
  exists r out', intel_pt_get_insn demo_tables [0x0f; 0x84; 0x10; 0; 0; 0; 0x90] 7 true blank = Some (r, out') /\
    ((r = -1 /\ out' = blank) \/
     (r = 0 /\ 1 <= length_ out' <= 15 /\ length_ out' <= 7 /\
      dbg out' = take (Z.to_nat (length_ out')) [0x0f; 0x84; 0x10; 0; 0; 0; 0x90] ++ drop (Z.to_nat (length_ out')) (dbg blank) /\
      tst (intel_pt_insn_type (op out')) PERF_IP_FLAG_BRANCH = bool_decide (branch out' <> INTEL_PT_BR_NO_BRANCH) /\
      tst (intel_pt_insn_type (op out')) PERF_IP_FLAG_CONDITIONAL = bool_decide (branch out' = INTEL_PT_BR_CONDITIONAL))).
Proof.
  apply (get_insn_safe demo_tables [0x0f; 0x84; 0x10; 0; 0; 0; 0x90] 7 true blank);
    [exact demo_tables_ok|apply (bool_decide_unpack _); vm_compute; exact I|cbn; lia|reflexivity].
Defined.

Example jcc_evaluates : intel_pt_get_insn demo_tables [0x0f; 0x84; 0x10; 0; 0; 0; 0x90] 7 true blank
  = Some (0, mkPtInsn INTEL_PT_OP_JCC INTEL_PT_BR_CONDITIONAL 6 16 ([0x0f; 0x84; 0x10; 0; 0; 0] ++ replicate 10 0)).
Proof. vm_compute. reflexivity. Qed.

(** * The fields are the bytes of the instruction *)

(** C20: When the scan of the prefixes reached its end and the instruction is
    complete, its bytes are, in this order and without a gap, the legacy
    prefixes (every one of them), the REX and VEX prefixes, the opcode, ModRM,
    SIB, displacement and immediates as the fields hold them; the
    [insn_offset] functions are therefore the positions of the fields, and
    displacement and immediate are the sign extensions of their bytes.  (The
    second immediate of an instruction must follow a first one that does not
    use the second field, as in all of the opcode map.) *)
Theorem insn_layout T buf n x i1 i :
  tables_ok T = true -> Forall is_byte buf -> n <= Z.of_nat (length buf) ->
  insn_get_prefixes T buf (insn_init n x) = Some (i1, Some tt) -> got (prefixes i1) = true ->
  insn_get_length T buf (insn_init n x) = Some (i, Some tt) -> insn_complete i = true -> second_ok (attr i) = true ->
  len i = insn_offset_immediate i + nbytes (immediate i) + nbytes (immediate2 i) /\
  (exists pfx, Forall (fun b => is_legacy T b = true) pfx /\ Z.of_nat (length pfx) = nbytes (prefixes i) /\
    take (Z.to_nat (len i)) buf = pfx ++ fbytes (rex_prefix i) ++ fbytes (vex_prefix i) ++ fbytes (opcode i) ++
      fbytes (modrm i) ++ fbytes (sib i) ++ fbytes (displacement i) ++ fbytes (immediate i) ++ fbytes (immediate2 i)) /\
  sign_extended (displacement i) /\ sign_extended (immediate i).
Proof.
  intros HT Hb Hn Hp Hg Hl Hc Hs. pose proof (init_wf buf n x Hn) as Hw0. pose proof (init_zero n x) as Hz.
  destruct (wp_trace T HT buf Hb _ Hw0 Hz) as (i1' & i2 & i3 & i4 & i5 & i6 & r2 & r3 & r4 & r5 & r6 & Htr).
  rewrite (tr_pfx _ _ _ _ _ _ _ _ _ _ _ _ _ _ Htr) in Hp. injection Hp as ->.
  rewrite (trace_run T buf Hz Htr) in Hl. injection Hl as <-.
  destruct (trace_layout T buf Hw0 Hz Htr Hg Hc Hs) as (Hlen & pfx & Hleg & Hpl & Hbytes).
  destruct (trace_frames T buf Htr) as ((_ & _ & _ & _ & _ & W6) & _).
  destruct (wf_end _ _ W6), (wf_next _ _ W6) as [? Hnx].
  assert (u8 (next_byte i6) = next_byte i6) as Hu by (apply Z.mod_small; lia). rewrite Hu.
  split; [exact Hlen|]. split; [|exact (trace_values T buf Hz Htr Hg Hc Hs)].
  exists pfx. split; [done|]. split; [done|]. unfold slice in Hbytes. rewrite Z.sub_0_r in Hbytes. exact Hbytes.
Qed.

(** The result of the decoder on a buffer, for evaluation. *)
Definition decoded (T : inat_tables) (buf : list Z) (x : bool) : insn :=
  match insn_get_length T buf (insn_init (Z.of_nat (length buf)) x) with Some (i, _) => i | None => insn_init 0 x end.
Definition scan (T : inat_tables) (buf : list Z) (x : bool) : insn :=
  match insn_get_prefixes T buf (insn_init (Z.of_nat (length buf)) x) with Some (i, _) => i | None => insn_init 0 x end.

Lemma insn_layout_witness :
  let buf := [0x66; 0x48; 0x8b; 0x84; 0xc8; 0x10; 0; 0; 0x80; 0x90] in
  let i := decoded demo_tables buf true in
  len i = 9 /\ value (displacement i) = 16 - 2 ^ 31 /\
  len i = insn_offset_immediate i + nbytes (immediate i) + nbytes (immediate2 i) /\
  (exists pfx, Forall (fun b => is_legacy demo_tables b = true) pfx /\ Z.of_nat (length pfx) = nbytes (prefixes i) /\
    take (Z.to_nat (len i)) buf = pfx ++ fbytes (rex_prefix i) ++ fbytes (vex_prefix i) ++ fbytes (opcode i) ++
      fbytes (modrm i) ++ fbytes (sib i) ++ fbytes (displacement i) ++ fbytes (immediate i) ++ fbytes (immediate2 i)) /\
  sign_extended (displacement i) /\ sign_extended (immediate i).
Proof.
  intros buf i. split; [vm_compute; reflexivity|]. split; [vm_compute; reflexivity|].
  apply (insn_layout demo_tables buf 10 true (scan demo_tables buf true) i);
    [exact demo_tables_ok|apply (bool_decide_unpack _); vm_compute; exact I|apply (bool_decide_unpack _); vm_compute; exact I|
     vm_compute; reflexivity..].
Defined.

(** * Longer buffers *)

Lemma st_decoder T buf more e out :
  stable e collected_pfx (intel_pt_insn_decoder T buf out) (intel_pt_insn_decoder T (buf ++ more) out).
Proof.
  unfold intel_pt_insn_decoder. apply st_bind; [apply st_is_avx|intros avx].
  apply st_gets. intros j. apply st_if; [apply st_ret|].
  do 3 (apply st_bind; [by apply st_get_byte|intros ?]). destruct (classify _ _ _). apply st_ret.
Qed.

Lemma s32_id n : 0 <= n < 2 ^ 31 -> s32 n = n.
Proof. intros Hn. apply s32_small. lia. Qed.

Lemma trace_all T buf i0 i1 i2 i3 i4 i5 i6 r2 r3 r4 r5 r6 : all_zero i0 ->
  trace T buf i0 i1 i2 i3 i4 i5 i6 r2 r3 r4 r5 r6 -> insn_complete i6 = true -> second_ok (attr i6) = true ->
  got (prefixes i1) = true ->
  r2 = Some tt /\ r3 = Some tt /\ r4 = Some tt /\ r5 = Some tt /\ r6 = Some tt.
Proof.
  intros Hz Htr Hc Hs Hg. destruct (trace_flags T buf Hz Htr) as (G2 & G3 & G4 & G5).
  destruct (trace_fields T buf Htr Hg) as (_ & _ & _ & _ & _ & _ & Ea).
  unfold insn_complete in Hc. bprop. split_and!; try (apply (bool_decide_eq_true_1 _); congruence).
  apply (imm_success T buf Hz Htr); congruence.
Qed.

Lemma get_insn_extends T buf more x out out' :
  tables_ok T = true -> Forall is_byte buf -> Z.of_nat (length (buf ++ more)) < 2 ^ 31 -> length (dbg out) = 16%nat ->
  got (prefixes (scan T buf x)) = true -> second_ok (attr (decoded T buf x)) = true ->
  intel_pt_get_insn T buf (Z.of_nat (length buf)) x out = Some (0, out') ->
  intel_pt_get_insn T (buf ++ more) (Z.of_nat (length (buf ++ more))) x out = Some (0, out').
Proof.
  intros HT Hb Hn Hd Hg Hs. rewrite length_app in *. set (n := Z.of_nat (length buf)) in *.
  set (n' := Z.of_nat (length buf + length more)) in *. assert (0 <= n <= n') as Hnn by lia.
  assert (n <= Z.of_nat (length buf)) as Hnl by lia. pose proof (init_wf buf n x Hnl) as Hw0.
  destruct (get_insn_run T buf n x out HT Hb ltac:(lia) Hd)
    as (i1 & i2 & i3 & i4 & i5 & i6 & r2 & r3 & r4 & r5 & r6 & Htr & Hr & [[-> _]|(Hc & H1 & i7 & o & Ed & [El Edb] & _ & _ & _ & ->)]); [done|].
  rewrite s32_id in Htr by lia. intros [= <-].
  unfold scan in Hg. fold n in Hg. rewrite (tr_pfx _ _ _ _ _ _ _ _ _ _ _ _ _ _ Htr) in Hg.
  unfold decoded in Hs. fold n in Hs. rewrite (trace_run T buf (init_zero _ _) Htr) in Hs.
  destruct (trace_all _ _ _ _ _ _ _ _ _ _ _ _ _ _ (init_zero n x) Htr Hc Hs Hg) as (-> & -> & -> & -> & ->).
  set (e := end_kaddr (insn_init n' x)).
  assert (end_kaddr (insn_init n x) <= e) as He.
  { unfold e. cbn -[Z.gtb]. change MAX_INSN_SIZE with 15. destruct (n >? 15) eqn:?, (n' >? 15) eqn:?; bprop; lia. }
  destruct (trace_extends T buf more e _ _ _ _ _ _ _ HT Hb Hw0 (init_zero n x) He Htr Hg) as (Hrun & Hp6 & He6).
  unfold intel_pt_get_insn. rewrite s32_id by lia. change (insn_init n' x) with (ext e (insn_init n x)). rewrite Hrun.
  assert (u8 (next_byte i6) = next_byte i6) as Hu by (apply Z.mod_small; lia). rewrite Hu. cbn [len set_len].
  change (insn_complete (set_len (next_byte i6) (ext e i6))) with (insn_complete i6). rewrite Hc. cbn [negb orb].
  rewrite (Z.gtb_ltb _ n'), (proj2 (Z.ltb_ge n' _)) by lia.
  destruct (st_decoder T buf more e out (set_len (next_byte i6) i6) i7 o Hp6) as (Hd' & _ & _);
    [change (end_kaddr i6 <= e); lia|exact Ed|].
  change (set_len (next_byte i6) (ext e i6)) with (ext e (set_len (next_byte i6) i6)). rewrite Hd'.
  change (len (ext e i7)) with (len i7). rewrite El, Edb.
  pose proof (copy_dbg (buf ++ more) (next_byte i6) (dbg out) Hr ltac:(rewrite length_app; lia) Hd) as Hcp.
  destruct (rd_bytes _ _ _) as [data|]; [|done]. cbn [mbind option_bind] in *. rewrite Hcp. cbn [mbind option_bind].
  rewrite take_app_le by lia. done.
Qed.

(** C21: What was decoded does not depend on what follows: when the scan of the
    prefixes reached its end and [intel_pt_get_insn] accepts the instruction at
    the start of a buffer, it gives the same result (kind, length, target and
    debugging copy) for every longer buffer. *)
Theorem get_insn_stable T buf more x out out' :
  tables_ok T = true -> Forall is_byte buf -> Z.of_nat (length (buf ++ more)) < 2 ^ 31 -> length (dbg out) = 16%nat ->
  got (prefixes (scan T buf x)) = true -> second_ok (attr (decoded T buf x)) = true ->
  intel_pt_get_insn T buf (Z.of_nat (length buf)) x out = Some (0, out') ->
  intel_pt_get_insn T (buf ++ more) (Z.of_nat (length (buf ++ more))) x out = Some (0, out').
Proof. apply get_insn_extends. Qed.

Lemma get_insn_stable_witness :
  intel_pt_get_insn demo_tables ([0xf3; 0x48; 0xff; 0x14; 0x25; 4; 0; 0; 0] ++ [0x90; 0xe8]) 11 true blank
  = Some (0, mkPtInsn INTEL_PT_OP_CALL INTEL_PT_BR_INDIRECT 9 0 ([0xf3; 0x48; 0xff; 0x14; 0x25; 4; 0; 0; 0] ++ replicate 7 0)).
Proof.
  apply (get_insn_stable demo_tables [0xf3; 0x48; 0xff; 0x14; 0x25; 4; 0; 0; 0] [0x90; 0xe8] true blank);
    [exact demo_tables_ok|apply (bool_decide_unpack _); vm_compute; exact I|reflexivity|reflexivity|vm_compute; reflexivity..].
Defined.

(** * Symbolic execution of the decoder on given bytes *)

Lemma wp_eq {A} (m : M A) i j a : wp m (fun a' j' => j' = j /\ a' = a) (fun _ => False) i -> m i = Some (j, Some a).
Proof. unfold wp. destruct (m i) as [[i' [a'|]]|]; [|done..]. by intros [-> ->]. Qed.

Lemma wp_of_run {A} (m : M A) i j a (Q : A -> insn -> Prop) E : m i = Some (j, Some a) -> Q a j -> wp m Q E i.
Proof. unfold wp. by intros ->. Qed.

Lemma wp_peek_eq buf n b Q E i : validate_next t_byte n i = true -> rd_le buf (next_byte i + n) 1 = Some b ->
  Q b i -> wp (peek_nbyte_next buf t_byte n) Q E i.
Proof.
  intros Hv Hr HQ. unfold peek_nbyte_next, __peek_nbyte_next. apply wp_bind, wp_gets. rewrite Hv.
  apply wp_bind, wp_gets, wp_bind. by eapply wp_lift.
Qed.
Lemma wp_peek_end buf n Q (E : insn -> Prop) i : validate_next t_byte n i = false -> E i -> wp (peek_nbyte_next buf t_byte n) Q E i.
Proof. intros Hv HE. unfold peek_nbyte_next. apply wp_bind, wp_gets. by rewrite Hv. Qed.
Lemma wp_next_eq buf t v Q E i : validate_next t 0 i = true -> rd_le buf (next_byte i) (sizeof t) = Some v ->
  Q (convert t v) (set_next_byte (next_byte i + Z.of_nat (sizeof t)) i) -> wp (get_next buf t) Q E i.
Proof.
  intros Hv Hr HQ. unfold get_next, __get_next. apply wp_bind, wp_gets. rewrite Hv.
  apply wp_bind, wp_gets, wp_bind. eapply wp_lift; [exact Hr|]. by apply wp_bind, wp_modify, wp_ret.
Qed.

(** A byte that is no prefix. *)
Lemma no_prefix_facts a : Z.land a INAT_PFX_MASK = 0 ->
  inat_is_legacy_prefix a = false /\ inat_is_rex_prefix a = false /\ inat_is_vex_prefix a = false.
Proof. intros H. unfold inat_is_legacy_prefix, inat_is_rex_prefix, inat_is_vex_prefix. by rewrite H. Qed.

Lemma prefix_loop_stop T buf fuel nb lb b a i : inat_get_opcode_attribute T b = Some a -> inat_is_legacy_prefix a = false ->
  prefix_loop T buf (S fuel) nb lb b i = Some (i, Some (nb, lb)).
Proof. intros Ha Hl. cbn [prefix_loop]. unfold bind at 1, lift. rewrite Ha. cbn [mbind option_bind]. by rewrite Hl. Qed.

(** The start of the scan at a byte that is no legacy prefix. *)
Lemma wp_scan_start T buf b a (k : M unit) Q E i : validate_next t_byte 0 i = true -> rd_le buf (next_byte i + 0) 1 = Some b ->
  inat_get_opcode_attribute T b = Some a -> inat_is_legacy_prefix a = false -> fok (prefixes i) ->
  wp k Q E i ->
  wp (let! b := peek_next buf t_byte in let! (nb, lb) := prefix_loop T buf 16 0 0 b in set_last_prefix nb lb ;; k) Q E i.
Proof.
  intros Hv Hr Ha Hl Hf Hk. apply wp_bind. eapply wp_peek_eq; [done..|]. apply wp_bind.
  eapply wp_of_run; [exact (prefix_loop_stop T buf 15 0 0 b a i Ha Hl)|]. apply wp_bind. unfold set_last_prefix. apply wp_bind, wp_get_byte; [done|lia|]. intros c _ _.
  by apply wp_when; intros H.
Qed.

(** The whole scan when there is no prefix. *)
Lemma scan_plain T buf b a i : validate_next t_byte 0 i = true -> rd_le buf (next_byte i + 0) 1 = Some b ->
  inat_get_opcode_attribute T b = Some a -> Z.land a INAT_PFX_MASK = 0 -> fok (prefixes i) ->
  get_prefixes T buf i = Some (upd_prefixes set_got (upd_vex_prefix set_got (upd_rex_prefix set_got i)), Some tt).
Proof.
  intros Hv Hr Ha Hp Hf. destruct (no_prefix_facts a Hp) as (Hl & Hrex & Hvex). apply wp_eq.
  unfold get_prefixes. eapply wp_scan_start; [done..|]. apply wp_bind.
  unfold decode_rex. apply wp_bind, wp_gets. apply (wp_mono _ (fun _ i' => i' = i) _ (fun _ => False)); [|intros [] ? ->|done].
  { apply wp_when; intros _; [|done]. apply wp_bind. eapply wp_peek_eq; [done..|].
    apply wp_bind. eapply wp_lift; [exact Ha|]. by rewrite Hrex. }
  apply wp_bind, wp_modify, wp_bind. unfold decode_vex. apply wp_bind. eapply wp_peek_eq; [done..|].
  apply wp_bind. eapply wp_lift; [exact Ha|]. rewrite Hvex. apply wp_bind, wp_modify, wp_modify. done.
Qed.

(** ** A scan with one byte left

    [near_end i i']: the bytes of the VEX prefix are those of [i], and the scan has
    not gone back. *)
Definition near_end (i i' : insn) : Prop :=
  bytes (vex_prefix i') = bytes (vex_prefix i) /\ nbytes (vex_prefix i') = nbytes (vex_prefix i) /\
  next_byte i <= next_byte i' /\ end_kaddr i' = end_kaddr i.
Definition keeps {A} (m : M A) : Prop := forall i i' r, m i = Some (i', r) -> near_end i i'.

Lemma near_end_refl i : near_end i i.
Proof. by repeat split. Qed.
Lemma near_end_trans i1 i2 i3 : near_end i1 i2 -> near_end i2 i3 -> near_end i1 i3.
Proof. intros (? & ? & ? & ?) (? & ? & ? & ?). repeat split; congruence || lia. Qed.

Lemma keeps_bind {A B} (m : M A) (f : A -> M B) : keeps m -> (forall a, keeps (f a)) -> keeps (bind m f).
Proof.
  intros Hm Hf i i' r. unfold bind. destruct (m i) as [[j [a|]]|] eqn:E; [|by intros [= <- <-]; apply Hm in E|done].
  intros E'. eapply near_end_trans; [exact (Hm _ _ _ E)|exact (Hf a _ _ _ E')].
Qed.
Lemma keeps_ret {A} (a : A) : keeps (ret a).
Proof. intros i i' r [= <- _]. apply near_end_refl. Qed.
Lemma keeps_gets {A} (g : insn -> A) : keeps (gets g).
Proof. intros i i' r [= <- _]. apply near_end_refl. Qed.
Lemma keeps_modify g : (forall i, near_end i (g i)) -> keeps (modify g).
Proof. intros Hg i i' r [= <- _]. apply Hg. Qed.
Lemma keeps_lift {A} (o : option A) : keeps (lift o).
Proof. intros i i' r. unfold lift. destruct o; [|done]. intros [= <- _]. apply near_end_refl. Qed.
Lemma keeps_goto {A} : keeps (@goto_err_out A).
Proof. intros i i' r [= <- _]. apply near_end_refl. Qed.
Lemma keeps_undefined {A} : keeps (@undefined A).
Proof. done. Qed.
Lemma keeps_if {A} (b : bool) (m n : M A) : keeps m -> keeps n -> keeps (if b then m else n).
Proof. by destruct b. Qed.
Lemma keeps_peek buf n : keeps (peek_nbyte_next buf t_byte n).
Proof. apply keeps_bind; [apply keeps_gets|]. intros [|]; [|apply keeps_goto]. repeat (apply keeps_bind; [first [apply keeps_gets|apply keeps_lift]|intros ?]). apply keeps_ret. Qed.

Ltac keep := repeat lazymatch goal with
  | |- keeps (bind _ _) => apply keeps_bind; [|intros ?]
  | |- keeps (ret _) => apply keeps_ret
  | |- keeps (gets _) => apply keeps_gets
  | |- keeps (lift _) => apply keeps_lift
  | |- keeps goto_err_out => apply keeps_goto
  | |- keeps undefined => apply keeps_undefined
  | |- keeps (peek_nbyte_next _ _ _) => apply keeps_peek
  | |- keeps (if _ then _ else _) => apply keeps_if
  | |- keeps (modify _) => apply keeps_modify; intros ?; repeat split; cbn; lia
  end.

Lemma keeps_same_prefix n k b : keeps (same_prefix n k b).
Proof. revert k. induction n as [|n IH]; intros k; cbn [same_prefix]; [keep|]. unfold get_byte. keep. apply IH. Qed.
Lemma keeps_prefix_loop T buf fuel nb lb b : keeps (prefix_loop T buf fuel nb lb b).
Proof.
  revert nb lb b. induction fuel as [|fuel IH]; intros nb lb b; cbn [prefix_loop]; [keep|]. unfold put_byte, size_switch, when, skip, peek_next.
  keep; first [apply keeps_same_prefix|apply IH].
Qed.
Lemma keeps_swap_prefix n k lb b : keeps (swap_prefix n k lb b).
Proof. revert k. induction n as [|n IH]; intros k; cbn [swap_prefix]; [keep|]. unfold get_byte, put_byte, when. keep; apply IH. Qed.

(** Behind the legacy prefixes and REX there is at most one byte, which is not
    enough for a VEX prefix. *)
Definition at_end {A} (m : M A) : Prop := forall i i' r, end_kaddr i <= next_byte i + 1 -> m i = Some (i', r) -> near_end i i'.
Lemma at_end_bind {A B} (m : M A) (f : A -> M B) : keeps m -> (forall a, at_end (f a)) -> at_end (bind m f).
Proof.
  intros Hm Hf i i' r He. unfold bind. destruct (m i) as [[j [a|]]|] eqn:E; [|by intros [= <- <-]; apply Hm in E|done]. apply Hm in E.
  intros E'. apply (near_end_trans _ j); [done|]. apply (Hf a j i' r); [destruct E as (_ & _ & ? & ?); lia|done].
Qed.

Lemma decode_vex_at_end T buf : at_end (decode_vex T buf ;; modify (upd_vex_prefix set_got) ;; modify (upd_prefixes set_got)).
Proof.
  intros k k' r He. unfold bind at 1. destruct (decode_vex T buf k) as [[j r']|] eqn:E; [|done].
  assert (j = k) as ->; [|destruct r'; intros [= <- _]; repeat split; cbn; lia].
  revert E. unfold decode_vex, peek_next, peek_nbyte_next, bind, gets. destruct (validate_next t_byte 0 k); [|by intros [= <- _]].
  unfold __peek_nbyte_next, bind, gets, lift, ret. destruct (rd_le buf _ _) as [b|]; [|done]. cbn [mbind option_bind]. match goal with |- context [inat_get_opcode_attribute T ?x] => destruct (inat_get_opcode_attribute T x) as [a|]; [|done] end.
  cbn [mbind option_bind]. unfold when. destruct (inat_is_vex_prefix a); [|by intros [= <- _]].
  assert (validate_next t_byte 1 k = false) as -> by (unfold validate_next; apply Z.leb_gt; cbn [sizeof]; lia). by intros [= <- _].
Qed.

Lemma scan_near_end T buf : at_end (insn_get_prefixes T buf).
Proof.
  intros i i' r He. unfold insn_get_prefixes, bind at 1, gets. destruct (got (prefixes i)); [intros [= <- _]; apply near_end_refl|].
  unfold err_out. destruct (get_prefixes T buf i) as [[j r']|] eqn:E; [|done]. intros [= <- _]. revert i j r' He E.
  change (at_end (get_prefixes T buf)). unfold get_prefixes, peek_next. apply at_end_bind; [keep|intros b]. apply at_end_bind; [apply keeps_prefix_loop|intros [nb lb]].
  apply at_end_bind; [unfold set_last_prefix, get_byte, put_byte, when; keep; apply keeps_swap_prefix|intros _].
  apply at_end_bind; [unfold decode_rex, when, skip, peek_next; keep|intros _]. apply at_end_bind; [keep|intros _]. apply decode_vex_at_end.
Qed.

(** The first scan gives up in the middle of an EVEX prefix. *)
Definition half_evex (b2 : Z) : insn :=
  upd_vex_prefix (set_byte 1 b2) (upd_vex_prefix (set_byte 0 0x62) (upd_rex_prefix set_got (insn_init 2 true))).
Definition half_opcode (b2 : Z) : insn := upd_opcode (set_nbytes 1) (upd_opcode (set_byte 0 0x62) (set_next_byte 1 (half_evex b2))).

Section half.
Context (T : inat_tables) (HT : tables_ok T = true) (b2 : Z) (Hb : is_byte b2).
Context (H62 : inat_get_opcode_attribute T 0x62 = Some (Z.lor INAT_PFX_EVEX INAT_MODRM)).
Local Abbreviation buf := [0x62; b2].

Lemma half_bytes : Forall is_byte buf.
Proof using Hb. apply Forall_cons_2; [done|]. apply Forall_cons_2; [done|apply Forall_nil_2]. Qed.

Lemma half_reads : rd_le buf 0 1 = Some 0x62 /\ rd_le buf 1 1 = Some b2.
Proof using Type.
  split; [done|]. assert (rd_le [0x62; b2] 1 1 = Some (b2 + 256 * 0)) as -> by reflexivity. f_equal. lia.
Qed.

Lemma half_first : insn_get_prefixes T buf (insn_init 2 true) = Some (half_evex b2, Some tt).
Proof using H62.
  destruct half_reads as [R0 R1].
  apply wp_eq. unfold insn_get_prefixes. apply wp_bind, wp_gets. cbn [insn_init prefixes zero_field got]. apply wp_err_out.
  unfold get_prefixes. eapply wp_scan_start; [done|exact R0|exact H62|done|apply fok_zero|].
  apply wp_bind. unfold decode_rex. apply wp_bind, wp_gets. apply wp_bind. eapply wp_peek_eq; [done|exact R0|].
  apply wp_bind. eapply wp_lift; [exact H62|]. apply wp_ret, wp_bind, wp_modify, wp_bind. unfold decode_vex.
  apply wp_bind. eapply wp_peek_eq; [done|exact R0|]. apply wp_bind. eapply wp_lift; [exact H62|].
  apply wp_bind. eapply wp_peek_eq; [done|exact R1|]. apply wp_bind, wp_gets.
  do 2 (apply wp_bind, wp_put_byte; [lia|]). apply wp_bind, wp_peek_end; done.
Qed.

(** A later scan: what was stored of the prefix stays. *)
Record rescanned (i : insn) : Prop := {
  rs_wf : wf buf i; rs_vex : bytes (vex_prefix i) = [0x62; b2; 0; 0] /\ nbytes (vex_prefix i) = 0; rs_next : 1 <= next_byte i; rs_end : end_kaddr i = 2 }.

Lemma rescan i : rescanned i -> exists i', insn_is_avx T buf i = Some (i', Some true) /\ rescanned i' /\ untouched i' = untouched i.
Proof using HT Hb.
  intros [Hw [Hv Hvn] Hn He]. destruct (wp_run _ _ _ _ (wp_insn_get_prefixes T HT buf half_bytes (fun _ i' => collected T buf i i') (fun _ => False) i Hw (fun _ H => H))) as (i' & [[]|] & E & Hc); [|done].
  destruct (scan_near_end T buf i i' _ ltac:(lia) E) as (Kb & Kn & Kx & Ke). exists i'. split; [|split; [|apply Hc]].
  - unfold insn_is_avx, bind. rewrite E. unfold gets. do 3 f_equal. apply negb_true_iff, Z.eqb_neq. unfold value. rewrite Kb, Hv.
    unfold is_byte in Hb. change (s32 (98 + 256 * (b2 + 256 * 0)) <> 0). rewrite s32_small by lia. lia.
  - constructor; [apply Hc|by rewrite Kb, Kn|lia|lia].
Qed.

Lemma half_opcode_scan : rescanned (half_opcode b2).
Proof using Hb.
  constructor; [|done|done|done]. pose proof fok_zero as Hz. assert (is_byte 0x62) as H0 by done.
  constructor; try exact Hz; try (cbn; lia).
  - exact (fok_set_byte 1 b2 _ Hb (fok_set_byte 0 0x62 _ H0 Hz)).
  - exact (fok_set_byte 0 0x62 _ H0 Hz).
Qed.

Lemma half_opcode_run a : inat_get_avx_attribute T 0x62 (X86_EVEX_M b2) 0 = Some a ->
  inat_accept_vex a = false -> inat_is_group a = false -> inat_must_evex a = false ->
  exists i, get_opcode T buf (half_evex b2) = Some (upd_opcode set_got (set_attr 0 (set_attr a i)), Some tt) /\ rescanned i /\ untouched i = untouched (half_opcode b2).
Proof using HT Hb.
  intros Ha Hacc Hgrp Hev. destruct half_reads as [R0 R1]. destruct (rescan _ half_opcode_scan) as (i & E & [Hw [Hv Hvn] Hn He] & Hu). exists i. split; [|split; [by constructor|done]].
  apply wp_eq. unfold get_opcode. apply wp_bind. eapply wp_next_eq; [done|exact R0|].
  apply wp_bind, wp_put_byte; [lia|]. apply wp_bind, wp_modify. apply wp_bind. apply (wp_of_run _ _ i true); [exact E|]. apply wp_bind.
  unfold avx_attribute. apply wp_bind. unfold insn_vex_m_bits. apply wp_bind, wp_gets. rewrite Hvn. apply wp_bind.
  unfold get_byte. apply wp_bind, wp_gets. apply (wp_lift _ b2); [by rewrite Hv|]. apply wp_ret, wp_bind.
  unfold insn_vex_p_bits. apply wp_bind, wp_gets. rewrite Hvn. apply wp_bind, wp_bind, wp_gets. apply (wp_lift _ 0); [by rewrite Hv|]. apply wp_ret, wp_bind.
  eapply wp_lift; [exact Ha|]. apply wp_bind, wp_modify, wp_bind. rewrite Hev. apply wp_ret. rewrite Hacc, Hgrp.
  apply wp_modify, wp_modify. done.
Qed.

End half.

(** The stages of an instruction without ModRM. *)
Lemma stage_no_modrm T buf i : inat_has_modrm (attr i) = false ->
  get_modrm T buf i = Some (upd_modrm set_got (if x86_64 i && inat_is_force64 (attr i) then set_opnd_bytes 8 i else i), Some tt).
Proof.
  intros Hm. apply wp_eq. unfold get_modrm. apply wp_bind, wp_gets. rewrite Hm. apply wp_bind, wp_ret, wp_bind, wp_gets.
  apply wp_bind, wp_when; intros ->; [apply wp_modify|]; by apply wp_modify.
Qed.
Lemma stage_no_modrm_sib buf j : nbytes (modrm j) = 0 -> get_sib buf j = Some (upd_sib set_got j, Some tt).
Proof. intros Hj. unfold get_sib, bind, gets, when, modify, ret. by rewrite Hj. Qed.
Lemma stage_no_modrm_displacement buf j :
  nbytes (modrm j) = 0 -> get_displacement buf j = Some (upd_displacement set_got j, Some tt).
Proof. intros Hj. unfold get_displacement, bind, gets, when, modify, ret. by rewrite Hj. Qed.

(** An instruction that consists of its opcode. *)
Lemma bare_run T buf i0 i1 i : all_zero i0 -> insn_get_prefixes T buf i0 = Some (i1, Some tt) ->
  get_opcode T buf i1 = Some (i, Some tt) -> attr i = 0 -> nbytes (modrm i) = 0 ->
  insn_get_length T buf i0 = Some (set_len (u8 (next_byte i))
    (upd_immediate set_got (upd_displacement set_got (upd_sib set_got (upd_modrm set_got i)))), Some tt).
Proof.
  intros Hz E1 E2 Ha Hm.
  assert (get_modrm T buf i = Some (upd_modrm set_got i, Some tt)) as E3.
  { rewrite stage_no_modrm by (by rewrite Ha). rewrite Ha. by rewrite andb_false_r. }
  assert (forall j, attr j = 0 -> get_immediate buf j = Some (upd_immediate set_got j, Some tt)) as E6.
  { intros j Hj. unfold get_immediate, bind, gets, when, modify, ret. by rewrite Hj. }
  exact (stages_run T buf i0 _ _ _ _ _ _ _ _ _ _ _ Hz E1 E2 E3 (stage_no_modrm_sib _ (upd_modrm set_got i) Hm)
    (stage_no_modrm_displacement _ (upd_sib set_got (upd_modrm set_got i)) Hm)
    (E6 (upd_displacement set_got (upd_sib set_got (upd_modrm set_got i))) Ha)).
Qed.

(** A complete instruction that has a VEX prefix on another look is of no interest
    to the caller. *)
Lemma get_insn_avx T buf n x out i i' : s32 n = n -> insn_get_length T buf (insn_init n x) = Some (i, Some tt) ->
  insn_complete i = true -> insn_is_avx T buf i = Some (i', Some true) -> len i' = len i ->
  0 <= len i <= 15 -> len i <= n <= Z.of_nat (length buf) -> length (dbg out) = 16%nat ->
  intel_pt_get_insn T buf n x out = Some (0, mkPtInsn INTEL_PT_OP_OTHER INTEL_PT_BR_NO_BRANCH (len i) (rel out)
    (take (Z.to_nat (len i)) buf ++ drop (Z.to_nat (len i)) (dbg out))).
Proof.
  intros Hn Hrun Hc Hv Hll Hl Hln Hd. unfold intel_pt_get_insn. rewrite Hn, Hrun, Hc. cbn [negb orb].
  rewrite Z.gtb_ltb, (proj2 (Z.ltb_ge n _)) by lia.
  assert (intel_pt_insn_decoder T buf out i
    = Some (i', Some (mkPtInsn INTEL_PT_OP_OTHER INTEL_PT_BR_NO_BRANCH (len i) (rel out) (dbg out)))) as ->.
  { apply wp_eq. unfold intel_pt_insn_decoder. apply wp_bind. apply (wp_of_run _ _ i' true); [exact Hv|]. apply wp_bind, wp_gets, wp_ret. by rewrite Hll. }
  rewrite Hll. pose proof (copy_dbg buf (len i) (dbg out) Hl ltac:(lia) Hd) as Hcp.
  destruct (rd_bytes _ _ _) as [data|]; [|done]. cbn [mbind option_bind dbg] in *. by rewrite Hcp.
Qed.

(** C36: A truncated EVEX instruction is accepted in 64-bit mode.  With only the
    first two bytes of an instruction behind an EVEX prefix in the buffer, whatever the second
    one is, the scan of the prefixes gives up having stored half of the prefix;
    the opcode is then taken to be the prefix byte itself, and
    [intel_pt_get_insn] returns 0 with length 1, or 2 when the second scan takes
    the other byte for a prefix, where it should return -1, as it does when the
    buffer ends behind the prefix.  (The tables are those of the decoder's
    invariant; 0x62 is the EVEX prefix in them, and as an opcode behind a prefix
    without mandatory prefix it is no AVX instruction.) *)
Theorem truncated_evex_accepted T b2 out a :
  tables_ok T = true -> is_byte b2 -> length (dbg out) = 16%nat ->
  inat_get_opcode_attribute T 0x62 = Some (Z.lor INAT_PFX_EVEX INAT_MODRM) ->
  inat_get_avx_attribute T 0x62 (X86_EVEX_M b2) 0 = Some a ->
  inat_accept_vex a = false -> inat_is_group a = false -> inat_must_evex a = false ->
  exists k, 1 <= k <= 2 /\ intel_pt_get_insn T [0x62; b2] 2 true out
    = Some (0, mkPtInsn INTEL_PT_OP_OTHER INTEL_PT_BR_NO_BRANCH k (rel out) (take (Z.to_nat k) [0x62; b2] ++ drop (Z.to_nat k) (dbg out))).
Proof.
  intros HT Hb Hd H62 Ha Hacc Hgrp Hev.
  destruct (half_opcode_run T HT b2 Hb a Ha Hacc Hgrp Hev) as (i & E3 & [Hw [Hv Hvn] Hn He] & Hu). injection Hu as U1 U2 U3 U4 U5 U6 U7 U8 U9 U10.
  pose proof (bare_run T [0x62; b2] _ _ _ (init_zero 2 true) (half_first T b2 H62) E3 eq_refl ltac:(cbn; by rewrite U2)) as Hrun.
  set (fin := upd_immediate set_got _) in Hrun. pose proof (proj2 (wf_next _ _ Hw)).
  assert (u8 (next_byte (upd_opcode set_got (set_attr 0 (set_attr a i)))) = next_byte i) as Hx by (cbn; unfold u8; rewrite Z.mod_small; lia).
  rewrite Hx in Hrun.
  assert (rescanned b2 (set_len (next_byte i) fin)) as Hf by (constructor; [|done..]; destruct Hw; constructor; cbn; auto using fok_set_got).
  destruct (rescan T HT b2 Hb _ Hf) as (i' & Hav & _ & Hu'). injection Hu' as _ _ _ _ _ _ _ Hlen _ _. exists (next_byte i). split; [lia|].
  apply (get_insn_avx T [0x62; b2] 2 true out (set_len (next_byte i) fin) i'); try done; cbn -[fin]; lia.
Qed.

Lemma truncated_evex_accepted_witness :
  (exists k, 1 <= k <= 2 /\ intel_pt_get_insn demo_tables [0x62; 0xf2] 2 true blank
    = Some (0, mkPtInsn INTEL_PT_OP_OTHER INTEL_PT_BR_NO_BRANCH k 0 (take (Z.to_nat k) [0x62; 0xf2] ++ drop (Z.to_nat k) (replicate 16 0)))) /\
  (forall k, 4 <= k <= 5 -> intel_pt_get_insn demo_tables (take (Z.to_nat k) [0x62; 0xf1; 0x7c; 0x48; 0x58; 0xc1]) k true blank
     = Some (-1, blank)) /\
  (exists r, intel_pt_get_insn demo_tables [0x62; 0xf1; 0x7c; 0x48; 0x58; 0xc1] 6 true blank = Some (0, r) /\ length_ r = 6).
Proof.
  split; [|split].
  - apply (truncated_evex_accepted demo_tables 0xf2 blank 0); [exact demo_tables_ok|apply (bool_decide_unpack _); vm_compute; exact I|reflexivity|vm_compute; reflexivity..].
  - intros k Hk. assert (k = 4 \/ k = 5) as [->| ->] by lia; vm_compute; reflexivity.
  - eexists. split; vm_compute; reflexivity.
Defined.

(** The lengths for the second bytes 0xf1 and 0xf2. *)
Example truncated_evex_lengths : map (fun b => match intel_pt_get_insn demo_tables [0x62; b] 2 true blank with Some (r, o) => (r, length_ o) | None => (0, 0) end) [0xf1; 0xf2]
  = [(0, 1); (0, 2)].
Proof. vm_compute. reflexivity. Qed.

(** * Near branches *)

Lemma escape_loop_stop T buf fuel i : inat_is_escape (attr i) = false -> escape_loop T buf (S fuel) i = Some (i, Some tt).
Proof. intros H. cbn [escape_loop]. unfold bind at 1, gets. by rewrite H. Qed.

Lemma wp_escape_step T buf fuel Q E i : inat_is_escape (attr i) = true ->
  wp (let! op := get_next buf t_byte in
      let! n := gets (fun i => nbytes (opcode i)) in
      put_byte upd_opcode n op ;;
      modify (upd_opcode (set_nbytes (n + 1))) ;;
      let! pfx_id := insn_last_prefix_id T buf in
      let! a' := lift (inat_get_escape_attribute T op pfx_id (attr i)) in
      modify (set_attr a') ;;
      escape_loop T buf fuel) Q E i -> wp (escape_loop T buf (S fuel)) Q E i.
Proof. intros He H. cbn [escape_loop]. apply wp_bind, wp_gets. by rewrite He. Qed.

(** The attributes of a direct branch: a displacement of one byte, with the
    operand size forced or not, or of a word that is forced to four. *)
Inductive near : Z -> ctype -> Prop := near_b : near Jb t_schar | near_bf : near Jbf t_schar | near_z : near Jz t_int.

(** An opcode of one byte, or of two behind an escape, has the attribute [a]. *)
Inductive opcode_attr (T : inat_tables) (a : Z) : list Z -> Prop :=
| one_byte o : inat_get_opcode_attribute T o = Some a -> opcode_attr T a [o]
| two_bytes o e o2 : inat_get_opcode_attribute T o = Some e -> Z.land e INAT_PFX_MASK = 0 -> inat_is_escape e = true ->
    inat_get_escape_attribute T o2 0 e = Some a -> opcode_attr T a [o; o2].

(** The decoder behind the prefixes, the opcode, the ModRM byte and the
    displacement, and at the end. *)
Definition near_len (os : list Z) (t : ctype) : Z := Z.of_nat (length os) + Z.of_nat (sizeof t).
Definition near_1 (os : list Z) (t : ctype) (x : bool) : insn :=
  upd_prefixes set_got (upd_vex_prefix set_got (upd_rex_prefix set_got (insn_init (near_len os t) x))).
Definition near_op (e : Z) (os : list Z) (i : insn) : insn :=
  match os with
  | o :: more =>
      let i := upd_opcode (set_nbytes 1) (upd_opcode (set_byte 0 o) (set_next_byte 1 i)) in
      match more with
      | o2 :: _ => upd_opcode (set_nbytes 2) (upd_opcode (set_byte 1 o2) (set_next_byte 2 (set_attr e i)))
      | [] => i
      end
  | [] => i
  end.
Definition near_2 (a e : Z) (os : list Z) (t : ctype) (x : bool) : insn := upd_opcode set_got (set_attr a (near_op e os (near_1 os t x))).
Definition near_3 (a e : Z) (os : list Z) (t : ctype) (x : bool) : insn :=
  upd_modrm set_got (if x && inat_is_force64 a then set_opnd_bytes 8 (near_2 a e os t x) else near_2 a e os t x).
Definition near_5 (a e : Z) (os : list Z) (t : ctype) (x : bool) : insn := upd_displacement set_got (upd_sib set_got (near_3 a e os t x)).
Definition near_6 (a e : Z) (os : list Z) (t : ctype) (l : list Z) (x : bool) : insn :=
  upd_immediate (set_nbytes (Z.of_nat (sizeof t)))
    (upd_immediate (set_value (convert t (le_combine l))) (set_next_byte (near_len os t) (near_5 a e os t x))).
Definition near_insn (a e : Z) (os : list Z) (t : ctype) (l : list Z) (x : bool) : insn := upd_immediate set_got (near_6 a e os t l x).

Lemma rd_le_app pre l m n : length l = n -> rd_le (pre ++ l ++ m) (Z.of_nat (length pre)) n = Some (le_combine l).
Proof.
  intros Hl. unfold rd_le, rd_bytes. rewrite !length_app, (proj2 (Z.leb_le 0 _)), (proj2 (Z.leb_le (_ + _) _)) by lia.
  cbn [andb mbind option_bind]. by rewrite Nat2Z.id, drop_app_length, take_app_length'.
Qed.
Lemma rd_le_byte pre b m : rd_le (pre ++ b :: m) (Z.of_nat (length pre)) 1 = Some b.
Proof. change (b :: m) with ([b] ++ m). rewrite (rd_le_app pre [b] m 1) by done. cbn [le_combine]. f_equal. lia. Qed.

Section near.
Context (T : inat_tables) (os : list Z) (a : Z) (t : ctype) (l : list Z) (x : bool).
Context (Hnear : near a t) (Hl : length l = sizeof t).

Lemma near_facts : Z.land a INAT_PFX_MASK = 0 /\ inat_is_escape a = false /\ inat_must_vex a = false /\ inat_has_modrm a = false /\ second_ok a = true.
Proof using Hnear. clear -Hnear. by destruct Hnear. Qed.

Lemma near_scan : opcode_attr T a os -> insn_get_prefixes T (os ++ l) (insn_init (near_len os t) x) = Some (near_1 os t x, Some tt).
Proof using Hnear Hl.
  intros Hos. assert (exists o more e, os = o :: more /\ (length more <= 1)%nat /\ inat_get_opcode_attribute T o = Some e /\ Z.land e INAT_PFX_MASK = 0)
    as (o & more & e & -> & Hm & He & Hp) by (destruct Hos; [eexists _, [], _|eexists _, [_], _]; cbn [length]; split_and!; try done; try lia; apply near_facts).
  assert (validate_next t_byte 0 (insn_init (near_len (o :: more) t) x) = true) as Hv by (clear -Hm; destruct more as [|? [|? ?]]; [by destruct t..|cbn [length] in Hm; lia]).
  pose proof (scan_plain T ((o :: more) ++ l) o e _ Hv (rd_le_byte [] o (more ++ l)) He Hp fok_zero) as Hs.
  unfold insn_get_prefixes, bind, gets, err_out. cbn [insn_init prefixes zero_field got] in *. by rewrite Hs.
Qed.

Lemma near_opcode : opcode_attr T a os -> exists e, get_opcode T (os ++ l) (near_1 os t x) = Some (near_2 a e os t x, Some tt).
Proof using Hnear Hl.
  destruct near_facts as (_ & Hesc & Hmv & _).
  intros [o Ho|o e o2 Ho Hp He He2]; [exists 0|exists e]; apply wp_eq; unfold get_opcode; apply wp_bind;
    (eapply wp_next_eq; [clear; by destruct t|exact (rd_le_byte [] o _)|]);
    (apply wp_bind, wp_put_byte; [lia|]); apply wp_bind, wp_modify, wp_bind; unfold insn_is_avx; apply wp_bind;
    unfold insn_get_prefixes; apply wp_bind, wp_gets, wp_ret, wp_gets, wp_bind, wp_bind; (eapply wp_lift; [exact Ho|]);
    apply wp_bind, wp_modify, wp_bind.
  - eapply wp_of_run; [apply (escape_loop_stop T _ 15); exact Hesc|].
    apply wp_bind, wp_gets. apply wp_when; intros Hv; [by cbn [attr set_attr] in Hv; rewrite Hmv in Hv|]. by apply wp_modify.
  - apply (wp_escape_step T _ 15); [exact He|]. apply wp_bind. eapply wp_next_eq; [clear; by destruct t|exact (rd_le_byte [o] o2 l)|].
    apply wp_bind, wp_gets, wp_bind, wp_put_byte; [done|]. apply wp_bind, wp_modify, wp_bind. unfold insn_last_prefix_id, insn_is_avx. apply wp_bind, wp_bind.
    unfold insn_get_prefixes. apply wp_bind, wp_gets, wp_ret, wp_gets. unfold get_byte. apply wp_bind, wp_bind, wp_gets.
    apply (wp_lift _ 0); [done|]. apply wp_ret, wp_bind. eapply wp_lift; [exact He2|]. apply wp_bind, wp_modify.
    eapply wp_of_run; [apply (escape_loop_stop T _ 14); exact Hesc|].
    apply wp_bind, wp_gets. apply wp_when; intros Hv; [by cbn [attr set_attr] in Hv; rewrite Hmv in Hv|]. by apply wp_modify.
Qed.

Context (e : Z) (Hlen : (length os <= 2)%nat).

Lemma near_modrm : get_modrm T (os ++ l) (near_2 a e os t x) = Some (near_3 a e os t x, Some tt).
Proof using Hnear. clear Hl. destruct near_facts as (_ & _ & _ & Hm & _). rewrite (stage_no_modrm T (os ++ l) (near_2 a e os t x) Hm).
  assert (x86_64 (near_2 a e os t x) = x) as -> by (clear; by destruct os as [|? [|? ?]]). done. Qed.

(** The fields that matter behind the ModRM stage. *)
Lemma near_5_fields : os <> [] -> next_byte (near_5 a e os t x) = Z.of_nat (length os) /\ end_kaddr (near_5 a e os t x) = near_len os t /\
  attr (near_5 a e os t x) = a /\ nbytes (modrm (near_3 a e os t x)) = 0 /\
  (a = Jz -> opnd_bytes (near_5 a e os t x) = if x then 8 else 4).
Proof using Hnear Hlen.
  clear -Hnear Hlen. intros Hos. unfold near_5, near_3. destruct os as [|o [|o2 [|]]]; [done| | |cbn [length] in Hlen; lia]; destruct Hnear, x; (split_and!; [done..|]); intros H; done.
Qed.
Context (Hos : os <> []).

Lemma near_field : get_field (os ++ l) upd_immediate t (near_5 a e os t x) = Some (near_6 a e os t l x, Some tt).
Proof using Hl Hnear Hlen Hos.
  destruct (near_5_fields Hos) as (Hn & He & _). pose proof (rd_le_app os l [] (sizeof t) Hl) as R. rewrite app_nil_r in R.
  apply wp_eq. unfold get_field. apply wp_bind.
  eapply wp_next_eq; [|rewrite Hn; exact R|apply wp_bind, wp_modify, wp_modify; by rewrite Hn].
  unfold validate_next. rewrite Hn, He. apply Z.leb_le. unfold near_len. lia.
Qed.

Lemma near_immediate : get_immediate (os ++ l) (near_5 a e os t x) = Some (near_insn a e os t l x, Some tt).
Proof using Hl Hnear Hlen Hos.
  pose proof near_field as Hf. destruct (near_5_fields Hos) as (_ & _ & Ha & _ & Hopnd).
  apply wp_eq. unfold get_immediate. apply wp_bind, wp_gets. rewrite Ha. apply wp_bind.
  apply (wp_mono _ (fun _ i => i = near_6 a e os t l x) _ (fun _ => False)); [|by intros [] ? ->; apply wp_modify|done].
  clear Ha. clear -Hf Hopnd Hnear. destruct Hnear.
  - apply wp_bind, (wp_of_run _ _ _ _ _ _ Hf), wp_ret. done.
  - apply wp_bind, (wp_of_run _ _ _ _ _ _ Hf), wp_ret. done.
  - specialize (Hopnd eq_refl). apply wp_bind.
    change (get_imm (os ++ l) (inat_immediate_size Jz)) with (__get_immv32 (os ++ l)). unfold __get_immv32.
    apply wp_bind, wp_gets. rewrite Hopnd. destruct x; apply (wp_of_run _ _ _ _ _ _ Hf), wp_ret; done.
Qed.

Lemma near_run : insn_get_prefixes T (os ++ l) (insn_init (near_len os t) x) = Some (near_1 os t x, Some tt) ->
  get_opcode T (os ++ l) (near_1 os t x) = Some (near_2 a e os t x, Some tt) ->
  insn_get_length T (os ++ l) (insn_init (near_len os t) x) = Some (set_len (near_len os t) (near_insn a e os t l x), Some tt).
Proof using Hl Hnear Hlen Hos.
  intros Hscan Hop. destruct (near_5_fields Hos) as (_ & _ & _ & Hm & _).
  pose proof (stages_run T (os ++ l) _ _ _ _ _ _ _ _ _ _ _ _ (init_zero (near_len os t) x) Hscan Hop near_modrm
    (stage_no_modrm_sib _ _ Hm) (stage_no_modrm_displacement _ (upd_sib set_got (near_3 a e os t x)) Hm) near_immediate) as ->.
  assert (u8 (next_byte (near_insn a e os t l x)) = near_len os t) as ->; [|done].
  clear -Hlen. unfold near_insn, near_6, near_len. destruct os as [|? [|? [|]]]; [by destruct t..|cbn [length] in Hlen; lia].
Qed.

End near.

(** Any complete instruction without a VEX prefix. *)
Lemma get_insn_plain T buf n x out i b0 b1 m : s32 n = n -> insn_get_length T buf (insn_init n x) = Some (i, Some tt) ->
  insn_complete i = true -> got (prefixes i) = true -> negb (value (vex_prefix i) =? 0) = false ->
  rd (bytes (opcode i)) 0 = Some b0 -> rd (bytes (opcode i)) 1 = Some b1 -> rd (bytes (modrm i)) 0 = Some m ->
  0 <= len i <= 15 -> len i <= n <= Z.of_nat (length buf) -> length (dbg out) = 16%nat ->
  intel_pt_get_insn T buf n x out = Some (0, mkPtInsn (classify b0 b1 m).1 (classify b0 b1 m).2 (len i)
    (match (classify b0 b1 m).2 with
     | INTEL_PT_BR_CONDITIONAL | INTEL_PT_BR_UNCONDITIONAL => value (immediate i)
     | _ => rel out
     end) (take (Z.to_nat (len i)) buf ++ drop (Z.to_nat (len i)) (dbg out))).
Proof.
  intros Hn Hrun Hc Hg Hv H0 H1 Hm Hl Hln Hd. unfold intel_pt_get_insn. rewrite Hn, Hrun, Hc. cbn [negb orb].
  rewrite Z.gtb_ltb, (proj2 (Z.ltb_ge n _)) by lia.
  match goal with |- context [mkPtInsn ?o ?b ?l ?r _] =>
    assert (intel_pt_insn_decoder T buf out i = Some (i, Some (mkPtInsn o b l r (dbg out)))) as -> end.
  { apply wp_eq. unfold intel_pt_insn_decoder. apply wp_bind. unfold insn_is_avx. apply wp_bind.
    unfold insn_get_prefixes. apply wp_bind, wp_gets. rewrite Hg. apply wp_ret, wp_gets. rewrite Hv. apply wp_bind, wp_gets.
    unfold get_byte. apply wp_bind, wp_bind, wp_gets. eapply wp_lift; [exact H0|].
    apply wp_bind, wp_bind, wp_gets. eapply wp_lift; [exact H1|]. apply wp_bind, wp_bind, wp_gets. eapply wp_lift; [exact Hm|].
    destruct (classify b0 b1 m) as [o b]. apply wp_ret. done. }
  pose proof (copy_dbg buf (len i) (dbg out) Hl ltac:(lia) Hd) as Hcp.
  destruct (rd_bytes _ _ _) as [data|]; [|done]. cbn [mbind option_bind dbg] in *. by rewrite Hcp.
Qed.

(** The direct near branches of the manual: opcode, displacement, operation and
    kind of branch. *)
Inductive near_branch : list Z -> ctype -> intel_pt_insn_op -> intel_pt_insn_branch -> Prop :=
| nb_jcc_short cc : 0 <= cc < 16 -> near_branch [0x70 + cc] t_schar INTEL_PT_OP_JCC INTEL_PT_BR_CONDITIONAL
| nb_jcc_near cc : 0 <= cc < 16 -> near_branch [0x0f; 0x80 + cc] t_int INTEL_PT_OP_JCC INTEL_PT_BR_CONDITIONAL
| nb_loopne : near_branch [0xe0] t_schar INTEL_PT_OP_LOOP INTEL_PT_BR_CONDITIONAL
| nb_loope : near_branch [0xe1] t_schar INTEL_PT_OP_LOOP INTEL_PT_BR_CONDITIONAL
| nb_loop : near_branch [0xe2] t_schar INTEL_PT_OP_LOOP INTEL_PT_BR_CONDITIONAL
| nb_jcxz : near_branch [0xe3] t_schar INTEL_PT_OP_JCC INTEL_PT_BR_CONDITIONAL
| nb_call_near : near_branch [0xe8] t_int INTEL_PT_OP_CALL INTEL_PT_BR_UNCONDITIONAL
| nb_jmp_near : near_branch [0xe9] t_int INTEL_PT_OP_JMP INTEL_PT_BR_UNCONDITIONAL
| nb_jmp_short : near_branch [0xeb] t_schar INTEL_PT_OP_JMP INTEL_PT_BR_UNCONDITIONAL.

(** What [x86-opcode-map.txt] says of their opcodes: [Jb] for the short
    conditional jumps, [Jb (f64)] for the loops and the short jump, [Jz (f64)]
    for the others. *)
Definition branch_map (T : inat_tables) : bool :=
  forallb (fun o => bool_decide (inat_get_opcode_attribute T o = Some Jb)) (seqZ 0x70 16) &&
  forallb (fun o => bool_decide (inat_get_opcode_attribute T o = Some Jbf)) [0xe0; 0xe1; 0xe2; 0xe3; 0xeb] &&
  forallb (fun o => bool_decide (inat_get_opcode_attribute T o = Some Jz)) [0xe8; 0xe9] &&
  bool_decide (inat_get_opcode_attribute T 0x0f = Some (Z.shiftl 1 INAT_ESC_OFFS)) &&
  forallb (fun o => bool_decide (inat_get_escape_attribute T o 0 (Z.shiftl 1 INAT_ESC_OFFS) = Some Jz)) (seqZ 0x80 16).

Lemma branch_attr T os t o b : branch_map T = true -> near_branch os t o b -> exists a, opcode_attr T a os /\ near a t.
Proof.
  unfold branch_map. rewrite !andb_true_iff, !forallb_forall, bool_decide_eq_true. intros ((((H1 & H2) & H3) & H4) & H5) Hb.
  assert (forall lo cc, 0 <= cc < 16 -> In (lo + cc) (seqZ lo 16)) as Hin by (intros lo cc Hc; apply list_elem_of_In, elem_of_seqZ; lia).
  destruct Hb as [cc Hc|cc Hc| | | | | | | ].
  1: exists Jb; split; [|constructor]; apply one_byte; by eapply bool_decide_eq_true, H1, Hin.
  1: exists Jz; split; [|constructor]; eapply two_bytes; [exact H4|done|done|]; by eapply bool_decide_eq_true, H5, Hin.
  1, 2, 3, 4, 7: exists Jbf; split; [|constructor]; apply one_byte; eapply bool_decide_eq_true, H2; cbn; tauto.
  all: exists Jz; split; [|constructor]; apply one_byte; eapply bool_decide_eq_true, H3; cbn; tauto.
Qed.

(** They are recognised. *)
Lemma branch_class os t o b : near_branch os t o b ->
  classify (nth 0 os 0) (nth 1 os 0) 0 = (o, b) /\ (b = INTEL_PT_BR_CONDITIONAL \/ b = INTEL_PT_BR_UNCONDITIONAL) /\ (length os <= 2)%nat /\ os <> [].
Proof.
  intros Hb. split; [|destruct Hb; cbn [length]; split_and!; auto; lia].
  destruct Hb as [cc Hc|cc Hc| | | | | | | ]; [..|done|done|done|done|done|done|done]; cbn [nth]; unfold classify, classify_0f, between.
  - rewrite (proj2 (Z.eqb_neq (0x70 + cc) 0x0f)), (proj2 (Z.leb_le 0x70 _)), (proj2 (Z.leb_le (0x70 + cc) _)) by lia. done.
  - rewrite !(proj2 (Z.eqb_neq (0x80 + cc) _)), (proj2 (Z.leb_le 0x80 _)), (proj2 (Z.leb_le (0x80 + cc) _)) by lia. done.
Qed.

(** C22: Near branches: with the attributes that the opcode map gives them, every
    direct near branch (conditional jumps with a displacement of one and of four
    bytes, loops, jumps and calls), without prefixes in front and with any bytes
    behind it, is recognised as that branch in both modes; its length is that of
    the opcode and the displacement, and its relative target is the signed
    displacement. *)
Theorem near_branch_target T os t o b l more x out :
  tables_ok T = true -> branch_map T = true -> near_branch os t o b -> Forall is_byte l -> length l = sizeof t ->
  Z.of_nat (length ((os ++ l) ++ more)) < 2 ^ 31 -> length (dbg out) = 16%nat ->
  exists d, intel_pt_get_insn T ((os ++ l) ++ more) (Z.of_nat (length ((os ++ l) ++ more))) x out
    = Some (0, mkPtInsn o b (Z.of_nat (length os + length l)) (sN (8 * Z.of_nat (length l)) (le_combine l)) d).
Proof.
  intros HT Hmap Hbr Hb Hl Hsz Hd. destruct (branch_attr T os t o b Hmap Hbr) as (a & Hos & Hnear). destruct (branch_class os t o b Hbr) as (Hcl & Hdir & Hlen & Hne).
  pose proof (near_scan T os a t l x Hnear Hl Hos) as Hscan. destruct (near_opcode T os a t l x Hnear Hl Hos) as [e Hop].
  pose proof (near_run T os a t l x Hnear Hl e Hlen Hne Hscan Hop) as Hrun.
  assert (Z.of_nat (length (os ++ l)) = near_len os t) as Hln by (rewrite length_app; unfold near_len; lia).
  eexists. apply get_insn_extends; [done| |done|done| | |].
  - apply Forall_app. split; [|done]. clear -Hbr. unfold is_byte. destruct Hbr; repeat constructor; lia.
  - unfold scan. rewrite Hln, Hscan. done.
  - unfold decoded. rewrite Hln, Hrun. destruct (near_5_fields os a t x Hnear e Hlen Hne) as (_ & _ & Ha & _ & _).
    change (attr (set_len _ _)) with (attr (near_5 a e os t x)). rewrite Ha. apply (near_facts a t Hnear).
  - rewrite Hln. set (i := set_len (near_len os t) (near_insn a e os t l x)) in *.
    assert (value (immediate i) = sN (8 * Z.of_nat (length l)) (le_combine l)) as Hval.
    { transitivity (convert t (le_combine l)); [apply value_set_value; done|]. rewrite Hl. clear -Hnear. by destruct Hnear. }
    assert (insn_complete i = true /\ got (prefixes i) = true /\ negb (value (vex_prefix i) =? 0) = false /\
      rd (bytes (opcode i)) 0 = Some (nth 0 os 0) /\ rd (bytes (opcode i)) 1 = Some (nth 1 os 0) /\ rd (bytes (modrm i)) 0 = Some 0) as (Hc & Hg & Hv & H0 & H1 & Hmo).
    { clear -Hlen Hne. unfold i, near_insn, near_6, near_5, near_3. destruct os as [|? [|? [|]]]; [done| | |cbn [length] in Hlen; lia]; destruct (x && _); split_and!; done. }
    assert (2 <= near_len os t <= 6) as Hr by (clear -Hnear Hlen Hne; unfold near_len; destruct os; [done|]; cbn [length] in *; destruct Hnear; cbn [sizeof]; lia).
    rewrite (get_insn_plain T (os ++ l) (near_len os t) x out i (nth 0 os 0) (nth 1 os 0) 0); try done; try (change (len i) with (near_len os t); lia).
    + rewrite Hcl, Hval. cbn [fst snd]. assert (len i = Z.of_nat (length os + length l)) as -> by (change (len i) with (near_len os t); unfold near_len; lia).
      by destruct Hdir as [->| ->].
    + rewrite s32_small; lia.
Qed.

Lemma near_branch_target_witness :
  (exists d, intel_pt_get_insn demo_tables (([0xe8] ++ [0xf0; 0xff; 0xff; 0xff]) ++ [0x90; 0x90]) 7 false blank
    = Some (0, mkPtInsn INTEL_PT_OP_CALL INTEL_PT_BR_UNCONDITIONAL 5 (-16) d)) /\
  (exists d, intel_pt_get_insn demo_tables (([0xeb] ++ [0x7f]) ++ [0x90; 0x90]) 4 true blank
    = Some (0, mkPtInsn INTEL_PT_OP_JMP INTEL_PT_BR_UNCONDITIONAL 2 127 d)) /\
  (exists d, intel_pt_get_insn demo_tables (([0x0f; 0x84] ++ [0xfe; 0xff; 0xff; 0xff]) ++ []) 6 true blank
    = Some (0, mkPtInsn INTEL_PT_OP_JCC INTEL_PT_BR_CONDITIONAL 6 (-2) d)).
Proof.
  split_and!.
  - apply (near_branch_target demo_tables [0xe8] t_int _ _ [0xf0; 0xff; 0xff; 0xff] [0x90; 0x90] false blank);
      [exact demo_tables_ok|vm_compute; reflexivity|constructor|apply (bool_decide_unpack _); vm_compute; exact I|reflexivity..].
  - apply (near_branch_target demo_tables [0xeb] t_schar _ _ [0x7f] [0x90; 0x90] true blank);
      [exact demo_tables_ok|vm_compute; reflexivity|constructor|apply (bool_decide_unpack _); vm_compute; exact I|reflexivity..].
  - apply (near_branch_target demo_tables [0x0f; 0x80 + 4] t_int _ _ [0xfe; 0xff; 0xff; 0xff] [] true blank);
      [exact demo_tables_ok|vm_compute; reflexivity|constructor; lia|apply (bool_decide_unpack _); vm_compute; exact I|reflexivity..].
Defined.

(** * Printing *)

(** The text of an instruction: the name, and the signed target of a direct
    branch. *)
Definition insn_text (p : intel_pt_insn) : list Z :=
  match branch p with
  | INTEL_PT_BR_CONDITIONAL | INTEL_PT_BR_UNCONDITIONAL =>
      intel_pt_insn_name (op p) ++ CFmt.bs " " ++ (if rel p >? 0 then CFmt.bs "+" else []) ++ CFmt.fmt_d (rel p)
  | _ => intel_pt_insn_name (op p)
  end.

Lemma insn_text_length p : (length (insn_text p) <= 30)%nat.
Proof.
  unfold insn_text. pose proof (CFmt.fmt_d_length (rel p)).
  assert (length (intel_pt_insn_name (op p)) <= 7)%nat by (destruct (op p); cbn; lia).
  assert (length (if rel p >? 0 then CFmt.bs "+" else []) <= 1)%nat by (destruct (_ >? _); cbn; lia).
  destruct (branch p); rewrite ?length_app; try change (length (CFmt.bs " ")) with 1%nat; lia.
Qed.

(** C39: A buffer of [INTEL_PT_INSN_DESC_MAX] bytes is large enough for the
    description of every instruction: nothing is written outside of it, nothing
    is truncated, the text is terminated, and its length is returned. *)
Theorem insn_desc_fits p buf : length buf = 32%nat ->
  exists tail, intel_pt_insn_desc p buf INTEL_PT_INSN_DESC_MAX
    = Some (Z.of_nat (length (insn_text p)), insn_text p ++ 0 :: tail) /\
    length (insn_text p ++ 0 :: tail) = 32%nat.
Proof.
  intros Hb. pose proof (insn_text_length p) as Hl. exists (drop (S (length (insn_text p))) buf).
  assert (intel_pt_insn_desc p buf INTEL_PT_INSN_DESC_MAX = CFmt.snprintf ([] ++ buf) 0 32 (insn_text p)) as ->.
  { unfold intel_pt_insn_desc, insn_text. by destruct (branch p). }
  rewrite CFmt.snprintf_fits by (done || lia). split; [done|].
  rewrite length_app. cbn [length]. rewrite length_drop. lia.
Qed.

Lemma insn_desc_fits_witness :
  exists tail, intel_pt_insn_desc (mkPtInsn INTEL_PT_OP_SYSCALL INTEL_PT_BR_CONDITIONAL 5 (- 2 ^ 31) []) (replicate 32 0xff) INTEL_PT_INSN_DESC_MAX
    = Some (Z.of_nat (length (insn_text (mkPtInsn INTEL_PT_OP_SYSCALL INTEL_PT_BR_CONDITIONAL 5 (- 2 ^ 31) []))),
        insn_text (mkPtInsn INTEL_PT_OP_SYSCALL INTEL_PT_BR_CONDITIONAL 5 (- 2 ^ 31) []) ++ 0 :: tail) /\
    length (insn_text (mkPtInsn INTEL_PT_OP_SYSCALL INTEL_PT_BR_CONDITIONAL 5 (- 2 ^ 31) []) ++ 0 :: tail) = 32%nat.
Proof. apply insn_desc_fits. reflexivity. Defined.

End PtInsn.
