(* ===== verification/PtStack.v ===== *)
(** The call stack of the Intel PT decoder, the first part of
    [src/tools/perf/util/intel-pt-decoder/intel-pt-decoder.c]: a chain of blocks
    of 1024 return addresses with one spare block.

    The chain of blocks behind [blk] is a list, newest first; what [malloc]
    returns is an argument of [intel_pt_push]. *)

From stdpp Require Import base option list numbers.
From Stdlib Require Import ZArith Lia Bool.
From S2P Require Import Prelude.

Module PtStack.

Definition INTEL_PT_BLK_SIZE : Z := 1024.
Definition ENOMEM : Z := 12.

(** The member [ip] of a block; [prev] is the position in the chain. *)
Definition intel_pt_blk : Type := list Z.

Record intel_pt_stack := mkStack { blk : list intel_pt_blk; spare : option intel_pt_blk; pos : Z }.

Definition empty_stack : intel_pt_stack := mkStack [] None 0.

(** Dereferences [stack->blk]. *)
Definition intel_pt_pop_blk (s : intel_pt_stack) : option intel_pt_stack :=
  match blk s with
  | [] => None
  | b :: prev => Some (mkStack prev (match spare s with None => Some b | Some c => Some c end) (pos s))
  end.

(** [stack->blk->ip[--stack->pos]] *)
Definition pop_top (s : intel_pt_stack) : option (Z * intel_pt_stack) :=
  match blk s with
  | [] => None
  | b :: _ => let p := pos s - 1 in let* ip := rd b p in Some (ip, mkStack (blk s) (spare s) p)
  end.

Definition intel_pt_pop (s : intel_pt_stack) : option (Z * intel_pt_stack) :=
  if pos s =? 0 then
    match blk s with
    | [] => Some (0, s)
    | _ =>
        let* s := intel_pt_pop_blk s in
        match blk s with
        | [] => Some (0, s)
        | _ => pop_top (mkStack (blk s) (spare s) INTEL_PT_BLK_SIZE)
        end
    end
  else pop_top s.

(** [malloc] is only consulted when there is no spare block. *)
Definition intel_pt_alloc_blk (malloc : option intel_pt_blk) (s : intel_pt_stack) : Z * intel_pt_stack :=
  match spare s with
  | Some b => (0, mkStack (b :: blk s) None 0)
  | None =>
      match malloc with
      | None => (- ENOMEM, s)
      | Some b => (0, mkStack (b :: blk s) None 0)
      end
  end.

(** [stack->blk->ip[stack->pos++] = ip] *)
Definition push_top (s : intel_pt_stack) (ip : Z) : option intel_pt_stack :=
  match blk s with
  | [] => None
  | b :: prev =>
      ub_unless ((0 <=? pos s) && (pos s <? Z.of_nat (length b)))
        (Some (mkStack (<[Z.to_nat (pos s) := ip]> (b : list Z) :: prev) (spare s) (pos s + 1)))
  end.

Definition intel_pt_push (malloc : option intel_pt_blk) (s : intel_pt_stack) (ip : Z) : option (Z * intel_pt_stack) :=
  let full := match blk s with [] => true | _ => pos s =? INTEL_PT_BLK_SIZE end in
  let '(err, s) := if full then intel_pt_alloc_blk malloc s else (0, s) in
  if negb (err =? 0) then Some (err, s) else
  let* s := push_top s ip in Some (0, s).

(** [while (stack->blk) intel_pt_pop_blk(stack)] *)
Fixpoint clear_loop (n : nat) (s : intel_pt_stack) : option intel_pt_stack :=
  match blk s, n with
  | [], _ => Some s
  | _, O => None
  | _, S n => let* s := intel_pt_pop_blk s in clear_loop n s
  end.

Definition intel_pt_clear_stack (s : intel_pt_stack) : option intel_pt_stack :=
  let* s := clear_loop (length (blk s)) s in Some (mkStack (blk s) (spare s) 0).

Definition intel_pt_free_stack (s : intel_pt_stack) : option intel_pt_stack :=
  let* s := intel_pt_clear_stack s in Some (mkStack [] None (pos s)).

(** * The stack as a list *)

(** The addresses on the stack, the newest first. *)
Definition contents (s : intel_pt_stack) : list Z :=
  match blk s with
  | [] => []
  | b :: prev => rev (take (Z.to_nat (pos s)) b) ++ concat (map (@rev Z) prev)
  end.

Definition blk_ok (b : intel_pt_blk) : Prop := length b = 1024%nat.
#[global] Instance blk_ok_dec b : Decision (blk_ok b).
Proof. unfold blk_ok. apply _. Defined.

Record stack_ok (s : intel_pt_stack) : Prop := {
  so_blks : Forall blk_ok (blk s);
  so_spare : forall b, spare s = Some b -> blk_ok b;
  so_pos : 0 <= pos s <= 1024;
  so_empty : blk s = [] -> pos s = 0;
}.

Lemma pop_blk_ok s b prev : stack_ok s -> blk s = b :: prev -> pos s = 0 ->
  exists s', intel_pt_pop_blk s = Some s' /\ blk s' = prev /\ pos s' = 0 /\ stack_ok s'.
Proof.
  intros [Hb Hs Hp He] E H0. unfold intel_pt_pop_blk. rewrite E in *. apply Forall_cons_1 in Hb as [Hb Hf].
  eexists. split; [done|]. split; [done|]. split; [done|]. constructor; cbn; [done| |lia|done].
  intros c Hc. destruct (spare s); injection Hc as <-; auto.
Qed.

Lemma pop_top_ok s b prev : stack_ok s -> blk s = b :: prev -> 1 <= pos s ->
  exists ip s', pop_top s = Some (ip, s') /\ contents s = ip :: contents s' /\ stack_ok s'.
Proof.
  intros [Hb Hs Hp He] E H1. unfold pop_top. rewrite E in *. apply Forall_cons_1 in Hb as [Hb Hf].
  destruct (rd_in_range b (pos s - 1)) as [ip Hip]; [unfold blk_ok in Hb; lia|]. rewrite Hip.
  exists ip. eexists. split; [reflexivity|]. split.
  - unfold contents. rewrite E. cbn [blk pos]. unfold rd in Hip.
    destruct (0 <=? pos s - 1); [|done]. replace (Z.to_nat (pos s)) with (S (Z.to_nat (pos s - 1))) by lia.
    rewrite (take_S_r _ _ _ Hip), rev_app_distr. done.
  - constructor; cbn; [by constructor|done|lia|done].
Qed.

(** A pop removes the newest address, or gives 0. *)
Lemma pop_contents s : stack_ok s ->
  exists s', intel_pt_pop s = Some (default 0 (head (contents s)), s') /\ contents s' = tail (contents s) /\ stack_ok s'.
Proof.
  intros Hok. unfold intel_pt_pop. destruct (Z.eqb_spec (pos s) 0) as [H0|H0].
  - destruct (blk s) as [|b prev] eqn:E.
    { exists s. unfold contents. rewrite E. split_and!; [reflexivity|reflexivity|exact Hok]. }
    destruct (pop_blk_ok s b prev Hok E H0) as (s1 & -> & E1 & H1 & Hok1). cbn [mbind option_bind]. rewrite E1.
    destruct prev as [|b2 prev].
    { exists s1. unfold contents. rewrite E1, E, H0. split_and!; [reflexivity|reflexivity|exact Hok1]. }
    assert (stack_ok (mkStack (b2 :: prev) (spare s1) INTEL_PT_BLK_SIZE)) as Hok2.
    { destruct Hok1 as [Hb Hs Hp He]. rewrite E1 in Hb. constructor; cbn; [done|done|unfold INTEL_PT_BLK_SIZE; lia|done]. }
    destruct (pop_top_ok _ b2 prev Hok2 eq_refl ltac:(cbn; unfold INTEL_PT_BLK_SIZE; lia)) as (ip & s2 & -> & Hc & Hok3).
    unfold contents in Hc. cbn [blk pos] in Hc. pose proof (so_blks _ Hok2) as Hf2. cbn [blk] in Hf2.
    apply Forall_cons_1 in Hf2 as [Hb2 _].
    cbn [map concat]. rewrite take_ge in Hc by (unfold blk_ok in *; unfold INTEL_PT_BLK_SIZE; lia).
    exists s2. fold (contents s2) in Hc. unfold contents at 1 3. rewrite E, H0. cbn [Z.to_nat take rev app map concat]. rewrite Hc. split_and!; [reflexivity|reflexivity|exact Hok3].
  - destruct (blk s) as [|b prev] eqn:E.
    { destruct Hok as [_ _ _ He]. specialize (He E). lia. }
    destruct (pop_top_ok s b prev Hok E) as (ip & s' & -> & Hc & Hok'); [destruct (so_pos _ Hok); lia|].
    exists s'. rewrite Hc. split_and!; [reflexivity|reflexivity|exact Hok'].
Qed.

Lemma alloc_contents m s err s1 : stack_ok s -> (forall b, m = Some b -> blk_ok b) ->
  (blk s = [] \/ pos s = INTEL_PT_BLK_SIZE) -> intel_pt_alloc_blk m s = (err, s1) ->
  stack_ok s1 /\ contents s1 = contents s /\
  ((err = - ENOMEM /\ s1 = s /\ spare s = None /\ m = None) \/ (err = 0 /\ pos s1 = 0 /\ exists b, blk s1 = b :: blk s)).
Proof.
  intros Hok Hm Hfull. assert (forall b, blk_ok b -> stack_ok (mkStack (b :: blk s) None 0) /\
    contents (mkStack (b :: blk s) None 0) = contents s) as Hnew.
  { intros b Hb. split; [constructor; cbn; [constructor; [done|apply Hok]|done|lia|done]|].
    unfold contents. cbn [blk pos Z.to_nat take rev app]. destruct (blk s) as [|c prev] eqn:E; [done|].
    destruct Hfull as [Hf|Hf]; [done|]. rewrite Hf. cbn [map concat].
    assert (blk_ok c) as Hc by (pose proof (so_blks _ Hok) as Hf'; rewrite E in Hf'; by apply Forall_cons_1 in Hf' as [? _]).
    rewrite (take_ge c); [reflexivity|]. unfold blk_ok in Hc. unfold INTEL_PT_BLK_SIZE. lia. }
  unfold intel_pt_alloc_blk. destruct (spare s) as [b|] eqn:Es; [|destruct m as [b|] eqn:Em].
  - intros [= <- <-]. destruct (Hnew b) as [? ?]; [by apply Hok|]. split; [done|]. split; [done|]. right. eauto.
  - intros [= <- <-]. destruct (Hnew b) as [? ?]; [auto|]. split; [done|]. split; [done|]. right. eauto.
  - intros [= <- <-]. split; [done|]. split; [done|]. by left.
Qed.

Lemma push_top_contents s ip b prev : stack_ok s -> blk s = b :: prev -> pos s < 1024 ->
  exists s', push_top s ip = Some s' /\ contents s' = ip :: contents s /\ stack_ok s'.
Proof.
  intros [Hb Hs Hp He] E Hlt. unfold push_top. rewrite E in *. apply Forall_cons_1 in Hb as [Hb Hf]. unfold blk_ok in Hb.
  rewrite (proj2 (Z.leb_le 0 _)), (proj2 (Z.ltb_lt (pos s) _)) by lia. cbn [andb ub_unless].
  eexists. split; [reflexivity|]. split.
  - unfold contents. rewrite E. cbn [blk pos]. replace (Z.to_nat (pos s + 1)) with (S (Z.to_nat (pos s))) by lia.
    rewrite (take_S_r _ _ ip) by (apply list_lookup_insert_eq; lia). rewrite take_insert_ge by lia.
    by rewrite rev_app_distr.
  - constructor; cbn; [constructor; [unfold blk_ok; by rewrite length_insert|done]|done|lia|done].
Qed.

(** A push adds the address, or fails without a change when there is no memory. *)
Lemma push_contents m s ip : stack_ok s -> (forall b, m = Some b -> blk_ok b) ->
  exists err s', intel_pt_push m s ip = Some (err, s') /\ stack_ok s' /\
    ((err = 0 /\ contents s' = ip :: contents s) \/ (err = - ENOMEM /\ m = None /\ s' = s)).
Proof.
  intros Hok Hm. unfold intel_pt_push.
  assert (forall s1, stack_ok s1 -> contents s1 = contents s -> blk s1 <> [] -> pos s1 < 1024 ->
    exists err s', (if negb (0 =? 0) then Some (0, s1) else let* s := push_top s1 ip in Some (0, s)) = Some (err, s') /\ stack_ok s' /\
    ((err = 0 /\ contents s' = ip :: contents s) \/ (err = - ENOMEM /\ m = None /\ s' = s))) as Hgo.
  { intros s1 Hok1 Hc Hne Hlt. destruct (blk s1) as [|b prev] eqn:E; [done|].
    destruct (push_top_contents s1 ip b prev Hok1 E Hlt) as (s' & Hs' & Hc' & Hok'). cbn [Z.eqb negb]. rewrite Hs'.
    exists 0, s'. split; [done|]. split; [done|]. left. split; [done|congruence]. }
  destruct (match blk s with [] => true | _ => pos s =? INTEL_PT_BLK_SIZE end) eqn:Hfull.
  - assert (blk s = [] \/ pos s = INTEL_PT_BLK_SIZE) as Hf by (destruct (blk s); [by left|right; by apply Z.eqb_eq]).
    destruct (intel_pt_alloc_blk m s) as [err s1] eqn:Ea.
    destruct (alloc_contents m s err s1 Hok Hm Hf Ea) as (Hok1 & Hc & [(-> & -> & _ & ->)|(-> & Hp & b & Hb)]).
    + exists (- ENOMEM), s. split; [done|]. split; [done|]. by right.
    + apply Hgo; [done|done|by rewrite Hb|lia].
  - apply Hgo; [done|done|by destruct (blk s)|]. destruct (blk s); [done|]. apply Z.eqb_neq in Hfull.
    destruct (so_pos _ Hok). unfold INTEL_PT_BLK_SIZE in Hfull. lia.
Qed.

Lemma clear_loop_ok n s : (length (blk s) <= n)%nat -> (forall b, spare s = Some b -> blk_ok b) -> Forall blk_ok (blk s) ->
  exists s', clear_loop n s = Some s' /\ blk s' = [] /\ (forall b, spare s' = Some b -> blk_ok b).
Proof.
  revert s. induction n as [|n IH]; intros s Hl Hs Hf; cbn [clear_loop]; destruct (blk s) as [|b prev] eqn:E; cbn in Hl; try lia; eauto.
  unfold intel_pt_pop_blk. rewrite E. cbn [mbind option_bind]. apply Forall_cons_1 in Hf as [Hb Hf].
  apply IH; cbn; [lia| |done]. intros c Hc. destruct (spare s); injection Hc as <-; auto.
Qed.

Lemma clear_contents s : stack_ok s -> exists s', intel_pt_clear_stack s = Some s' /\ contents s' = [] /\ stack_ok s'.
Proof.
  intros [Hb Hs Hp He]. unfold intel_pt_clear_stack.
  destruct (clear_loop_ok (length (blk s)) s ltac:(lia) Hs Hb) as (s1 & -> & E & Hs1). cbn [mbind option_bind].
  eexists. split; [reflexivity|]. unfold contents. cbn [blk]. rewrite E. split; [done|]. constructor; cbn; rewrite ?E; done || lia.
Qed.

(** * The refinement *)

(** A request to the stack; a push says what [malloc] would return. *)
Inductive request := Push (ip : Z) (malloc : option intel_pt_blk) | Pop | Clear.

(** The block stack, with the results of the requests. *)
Fixpoint run (rs : list request) (s : intel_pt_stack) : option (list Z * intel_pt_stack) :=
  match rs with
  | [] => Some ([], s)
  | r :: rs =>
      let* (out, s) := match r with
        | Push ip m => intel_pt_push m s ip
        | Pop => intel_pt_pop s
        | Clear => let* s := intel_pt_clear_stack s in Some (0, s)
        end in
      let* (outs, s) := run rs s in Some (out :: outs, s)
  end.

(** The list stack: a push may only fail when there is no memory. *)
Inductive spec : list request -> list Z -> list Z -> list Z -> Prop :=
  | spec_nil l : spec [] l [] l
  | spec_push ip m rs l outs l' : spec rs (ip :: l) outs l' -> spec (Push ip m :: rs) l (0 :: outs) l'
  | spec_full ip rs l outs l' : spec rs l outs l' -> spec (Push ip None :: rs) l (- ENOMEM :: outs) l'
  | spec_pop rs l outs l' : spec rs (tail l) outs l' -> spec (Pop :: rs) l (default 0 (head l) :: outs) l'
  | spec_clear rs l outs l' : spec rs [] outs l' -> spec (Clear :: rs) l (0 :: outs) l'.

Definition request_ok (r : request) : Prop := match r with Push _ (Some b) => blk_ok b | _ => True end.
#[global] Instance request_ok_dec r : Decision (request_ok r).
Proof. destruct r as [? [b|]| |]; unfold request_ok; apply _. Defined.

Lemma run_refines rs s : stack_ok s -> Forall request_ok rs ->
  exists outs s', run rs s = Some (outs, s') /\ spec rs (contents s) outs (contents s') /\ stack_ok s'.
Proof.
  revert s. induction rs as [|r rs IH]; intros s Hok Hrs.
  { exists [], s. repeat split; try constructor; apply Hok. }
  apply Forall_cons_1 in Hrs as [Hr Hrs]. cbn [run]. destruct r as [ip m| |].
  - destruct (push_contents m s ip Hok) as (err & s1 & -> & Hok1 & Hcase); [by destruct m; intros ? [= <-]|].
    cbn [mbind option_bind]. destruct (IH s1 Hok1 Hrs) as (outs & s' & -> & Hsp & Hok').
    exists (err :: outs), s'. split; [done|]. split; [|done].
    destruct Hcase as [[-> Hc]|(-> & -> & ->)]; [rewrite Hc in Hsp; by constructor|by constructor].
  - destruct (pop_contents s Hok) as (s1 & -> & Hc & Hok1). cbn [mbind option_bind].
    destruct (IH s1 Hok1 Hrs) as (outs & s' & -> & Hsp & Hok'). rewrite Hc in Hsp.
    eexists _, s'. split; [done|]. split; [by constructor|done].
  - destruct (clear_contents s Hok) as (s1 & -> & Hc & Hok1). cbn [mbind option_bind].
    destruct (IH s1 Hok1 Hrs) as (outs & s' & -> & Hsp & Hok'). rewrite Hc in Hsp.
    eexists _, s'. split; [done|]. split; [by constructor|done].
Qed.

(** C19: Over any sequence of pushes, pops and clears from an empty stack, the
    blocks with their spare one behave as a list of addresses: a push adds its
    address (or returns [-ENOMEM] and changes nothing, only when [malloc]
    fails), a pop returns and removes the newest one, or returns 0 when there
    is none, a clear removes all; no access leaves a block. *)
Theorem stack_refines rs : Forall request_ok rs ->
  exists outs s', run rs empty_stack = Some (outs, s') /\ spec rs [] outs (contents s') /\ stack_ok s'.
Proof. intros Hrs. apply (run_refines rs empty_stack); [|done]. constructor; cbn; [constructor|done|lia|done]. Qed.

Lemma stack_refines_witness :
  exists outs s', run [Push 7 (Some (replicate 1024 9)); Push 8 None; Pop; Pop; Pop; Push 9 None] empty_stack = Some (outs, s') /\
    spec [Push 7 (Some (replicate 1024 9)); Push 8 None; Pop; Pop; Pop; Push 9 None] [] outs (contents s') /\ stack_ok s'.
Proof. apply stack_refines. apply (bool_decide_unpack _). vm_compute. exact I. Defined.

End PtStack.
