(* ===== verification/PtOverlap.v ===== *)
(** The overlap detection of the Intel PT decoder, the last part of
    [src/tools/perf/util/intel-pt-decoder/intel-pt-decoder.c].

    A pointer is an offset into the buffer [m] it belongs to, a buffer argument
    an offset with a length; the functions that move their buffer arguments
    return the new ones.  [None] is undefined behaviour. *)

From stdpp Require Import base option list numbers.
From Stdlib Require Import ZArith Lia Bool.
From S2P Require Import Prelude PtPkt.

Module PtOverlap.
Import PtPkt.

Definition INTEL_PT_PSB_LEN : Z := 16.
Definition INTEL_PT_PSB_STR : list Z :=
  [0x02; 0x82; 0x02; 0x82; 0x02; 0x82; 0x02; 0x82; 0x02; 0x82; 0x02; 0x82; 0x02; 0x82; 0x02; 0x82].

(** * The string functions of the C library *)

Fixpoint is_prefix (n h : list Z) : bool :=
  match n, h with
  | [], _ => true
  | x :: n, y :: h => (x =? y) && is_prefix n h
  | _, _ => false
  end.

Fixpoint find_sub (h n : list Z) : option nat :=
  if is_prefix n h then Some O else match h with [] => None | _ :: h => S <$> find_sub h n end.

Definition memmem (m : list Z) (off len : Z) (needle : list Z) : option (option Z) :=
  let* h := rd_bytes m off (Z.to_nat len) in Some ((fun k => off + Z.of_nat k) <$> find_sub h needle).

(** The last of the first [k] bytes that is [c]. *)
Fixpoint rfind (h : list Z) (c : Z) : option nat :=
  match h with
  | [] => None
  | x :: h => match rfind h c with Some k => Some (S k) | None => if x =? c then Some O else None end
  end.

Definition memrchr (m : list Z) (off c k : Z) : option (option Z) :=
  let* h := rd_bytes m off (Z.to_nat k) in Some ((fun k => off + Z.of_nat k) <$> rfind h c).

Definition memcmp_eq (m : list Z) (off : Z) (s : list Z) : option bool :=
  let* h := rd_bytes m off (length s) in Some (is_prefix s h).

(** * PSB packets *)

Definition intel_pt_at_psb (m : list Z) (off len : Z) : option bool :=
  if len <? INTEL_PT_PSB_LEN then Some false else
  let* r := memmem m off INTEL_PT_PSB_LEN INTEL_PT_PSB_STR in Some (match r with Some _ => true | None => false end).

Definition intel_pt_next_psb (m : list Z) (off len : Z) : option (bool * Z * Z) :=
  let* next := memmem m off len INTEL_PT_PSB_STR in
  match next with
  | Some next => Some (true, next, len - (next - off))
  | None => Some (false, off, len)
  end.

Definition intel_pt_step_psb (m : list Z) (off len : Z) : option (bool * Z * Z) :=
  if len =? 0 then Some (false, off, len) else
  let* next := memmem m (off + 1) (len - 1) INTEL_PT_PSB_STR in
  match next with
  | Some next => Some (true, next, len - (next - off))
  | None => Some (false, off, len)
  end.

(** The [while (1)] loop; [k] decreases. *)
Fixpoint last_psb_loop (fuel : nat) (m : list Z) (off k : Z) : option (option Z) :=
  match fuel with
  | O => None
  | S fuel =>
      let* p := memrchr m off (hd 0 INTEL_PT_PSB_STR) k in
      match p with
      | None => Some None
      | Some p =>
          let* same := memcmp_eq m (p + 1) (tl INTEL_PT_PSB_STR) in
          if same : bool then Some (Some p) else
          let k := p - off in
          if k =? 0 then Some None else last_psb_loop fuel m off k
      end
  end.

Definition intel_pt_last_psb (m : list Z) (off len : Z) : option (option Z) :=
  if len <? INTEL_PT_PSB_LEN then Some None else
  let k := len - INTEL_PT_PSB_LEN + 1 in
  last_psb_loop (Z.to_nat k) m off k.

(** * Timestamps *)

(** [while (len)]; every round consumes a packet of at least one byte. *)
Fixpoint next_tsc_loop (fuel : nat) (m : list Z) (off len : Z) : option (option Z) :=
  if len =? 0 then Some None else
  match fuel with
  | O => None
  | S fuel =>
      let* buf := rd_bytes m off (Z.to_nat len) in
      let* (ret, packet) := intel_pt_get_packet buf len in
      if ret <=? 0 then Some None else
      match type packet with
      | INTEL_PT_TSC => Some (Some (payload packet))
      | INTEL_PT_PSBEND => Some None
      | _ => next_tsc_loop fuel m (off + ret) (len - ret)
      end
  end.

Definition intel_pt_next_tsc (m : list Z) (off len : Z) : option (option Z) :=
  next_tsc_loop (Z.to_nat len) m off len.

Definition intel_pt_tsc_cmp (tsc1 tsc2 : Z) : Z :=
  let halfway := 2 ^ 55 in
  if tsc1 =? tsc2 then 0 else
  if tsc1 <? tsc2 then if tsc2 - tsc1 <? halfway then -1 else 1
  else if tsc1 - tsc2 <? halfway then 1 else -1.

(** The [while (1)] loop; every round moves [off_b] on. *)
Fixpoint tsc_loop (fuel : nat) (tsc_a : Z) (b : list Z) (off_b len_b : Z) : option Z :=
  match fuel with
  | O => None
  | S fuel =>
      let* r := intel_pt_next_tsc b off_b len_b in
      if match r with Some tsc_b => intel_pt_tsc_cmp tsc_a tsc_b <? 0 | None => false end then Some off_b else
      let* (more, off_b, len_b) := intel_pt_step_psb b off_b len_b in
      if more : bool then tsc_loop fuel tsc_a b off_b len_b else Some (off_b + len_b)
  end.

Definition intel_pt_find_overlap_tsc (a : list Z) (off_a len_a : Z) (b : list Z) (off_b len_b : Z) : option Z :=
  let* p := intel_pt_last_psb a off_a len_a in
  match p with
  | None => Some off_b
  | Some p =>
      let len := len_a - (p - off_a) in
      let* t := intel_pt_next_tsc a p len in
      let* t := match t with
        | Some tsc_a => Some (Some tsc_a)
        | None =>
            let len_a := len_a - len in
            let* p := intel_pt_last_psb a off_a len_a in
            match p with
            | None => Some None
            | Some p => intel_pt_next_tsc a p (len_a - (p - off_a))
            end
        end in
      match t with
      | None => Some off_b
      | Some tsc_a => tsc_loop (S (Z.to_nat len_b)) tsc_a b off_b len_b
      end
  end.

(** * The overlap *)

(** [while (!cond) if (!intel_pt_step_psb(&buf_a, &len_a)) return buf_b;],
    where [None] in the result is the [return]. *)
Fixpoint step_until (fuel : nat) (cond : Z -> option bool) (a : list Z) (off_a len_a : Z) : option (option (Z * Z)) :=
  match fuel with
  | O => None
  | S fuel =>
      let* c := cond len_a in
      if c : bool then Some (Some (off_a, len_a)) else
      let* (more, off_a, len_a) := intel_pt_step_psb a off_a len_a in
      if more : bool then step_until fuel cond a off_a len_a else Some None
  end.

(** [len_b >= len_a], and [intel_pt_at_psb(buf_b + len_a, len_b - len_a)]. *)
Definition fits (len_b len_a : Z) : option bool := Some (negb (len_b <? len_a)).
Definition leftover (b : list Z) (off_b len_b len_a : Z) : option bool :=
  intel_pt_at_psb b (off_b + len_a) (u64 (len_b - len_a)).

(** The final [while (1)] loop. *)
Fixpoint compare_loop (fuel : nat) (a : list Z) (off_a len_a : Z) (b : list Z) (off_b len_b : Z) : option Z :=
  match fuel with
  | O => None
  | S fuel' =>
      let* needle := rd_bytes b off_b (Z.to_nat len_a) in
      let* found := memmem a off_a len_a needle in
      match found with
      | Some _ => Some (off_b + len_a)
      | None =>
          let* (more, off_a, len_a) := intel_pt_step_psb a off_a len_a in
          if more : bool then
            let* r := step_until fuel (leftover b off_b len_b) a off_a len_a in
            match r with
            | None => Some off_b
            | Some (off_a, len_a) => compare_loop fuel' a off_a len_a b off_b len_b
            end
          else Some off_b
      end
  end.

(** A pointer into [buf_b] is not [NULL]: the result of
    [intel_pt_find_overlap_tsc] is always returned. *)
Definition intel_pt_find_overlap (a b : list Z) (have_tsc : bool) : option Z :=
  let* (psb_b, off_b, len_b) := intel_pt_next_psb b 0 (Z.of_nat (length b)) in
  if negb psb_b then Some (off_b + len_b) else
  let* (psb_a, off_a, len_a) := intel_pt_next_psb a 0 (Z.of_nat (length a)) in
  if negb psb_a then Some off_b else
  if have_tsc : bool then intel_pt_find_overlap_tsc a off_a len_a b off_b len_b else
  let fuel := S (Z.to_nat len_a) in
  let* r := step_until fuel (fits len_b) a off_a len_a in
  match r with
  | None => Some off_b
  | Some (off_a, len_a) =>
      let* r := if len_b >? len_a then step_until fuel (leftover b off_b len_b) a off_a len_a
                else Some (Some (off_a, len_a)) in
      match r with
      | None => Some off_b
      | Some (off_a, len_a) => compare_loop fuel a off_a len_a b off_b len_b
      end
  end.

(** * Lemmas on the string functions *)

Lemma is_prefix_spec n h : is_prefix n h = true <-> exists r, h = n ++ r.
Proof.
  revert h. induction n as [|x n IH]; intros h; [split; [by exists h|done]|].
  destruct h as [|y h]; cbn [is_prefix]; [split; [done|by intros [r [=]]]|].
  rewrite andb_true_iff, IH, Z.eqb_eq. split; [intros [-> [r ->]]; by exists r|intros [r [= -> ->]]; split; [done|by exists r]].
Qed.

Lemma find_sub_Some h n k : find_sub h n = Some k ->
  is_prefix n (drop k h) = true /\ forall j, (j < k)%nat -> is_prefix n (drop j h) = false.
Proof.
  revert k. induction h as [|x h IH]; intros k; cbn [find_sub]; destruct (is_prefix n _) eqn:E; try done.
  1, 2: intros [= <-]; split; [done|lia].
  destruct (find_sub h n) as [k'|]; [|done]. intros [= <-]. destruct (IH k' eq_refl) as [H1 H2]. split; [done|].
  intros [|j] Hj; [done|]. apply H2. lia.
Qed.

Lemma find_sub_None h n j : find_sub h n = None -> is_prefix n (drop j h) = false.
Proof.
  revert j. induction h as [|x h IH]; intros j; cbn [find_sub]; destruct (is_prefix n _) eqn:E; try done.
  - intros _. by rewrite drop_nil.
  - destruct (find_sub h n); [done|]. intros _. destruct j; [done|]. by apply IH.
Qed.

Lemma rfind_Some h c k : rfind h c = Some k -> h !! k = Some c /\ forall j, (k < j)%nat -> h !! j <> Some c.
Proof.
  revert k. induction h as [|x h IH]; intros k; cbn [rfind]; [done|].
  destruct (rfind h c) as [k'|] eqn:E.
  - intros [= <-]. destruct (IH k' eq_refl) as [H1 H2]. split; [done|]. intros [|j] Hj; [lia|]. apply H2. lia.
  - destruct (Z.eqb_spec x c) as [->|]; [|done]. intros [= <-]. split; [done|]. intros [|j] Hj; [lia|]. cbn.
    clear IH Hj. intros Hj. revert j Hj E. induction h as [|y h IH]; [done|]. intros j Hj. cbn [rfind].
    destruct (rfind h c) eqn:E; [done|]. destruct (Z.eqb_spec y c); [done|]. destruct j; cbn in Hj; [congruence|eauto].
Qed.

Lemma rfind_None h c j : rfind h c = None -> h !! j <> Some c.
Proof.
  revert j. induction h as [|y h IH]; [done|]. intros j. cbn [rfind].
  destruct (rfind h c) eqn:E; [done|]. destruct (Z.eqb_spec y c); [done|]. destruct j; cbn; [congruence|eauto].
Qed.

(** * PSB positions *)

(** A whole PSB starts at offset [i]. *)
Definition psb_at (m : list Z) (i : Z) : bool := (0 <=? i) && is_prefix INTEL_PT_PSB_STR (drop (Z.to_nat i) m).

Lemma rd_bytes_suffix m off len : 0 <= off -> 0 <= len -> off + len <= Z.of_nat (length m) ->
  rd_bytes m off (Z.to_nat len) = Some (take (Z.to_nat len) (drop (Z.to_nat off) m)).
Proof.
  intros. unfold rd_bytes. rewrite (proj2 (Z.leb_le 0 off)), (proj2 (Z.leb_le _ _)) by lia. done.
Qed.

Lemma prefix_take n l k : is_prefix n (take k l) = is_prefix n l && (length n <=? k)%nat.
Proof.
  revert l k. induction n as [|x n IH]; intros l k; [done|]. destruct l as [|y l]; [by rewrite take_nil|].
  destruct k as [|k]; cbn [take is_prefix length]; [by rewrite andb_false_r|]. rewrite IH.
  change (S (length n) <=? S k)%nat with (length n <=? k)%nat. by rewrite andb_assoc.
Qed.

Lemma psb_at_bound m i : psb_at m i = true -> 0 <= i /\ i + 16 <= Z.of_nat (length m).
Proof.
  unfold psb_at. intros [H0 [r Hr]%is_prefix_spec]%andb_true_iff. bprop. split; [done|].
  apply (f_equal length) in Hr. rewrite length_drop, length_app in Hr. cbn in Hr. lia.
Qed.

(** What [memmem] finds in a suffix or a shorter view: the first PSB. *)
Lemma memmem_psb m off len : 0 <= off -> 0 <= len -> off + len <= Z.of_nat (length m) ->
  exists r, memmem m off len INTEL_PT_PSB_STR = Some r /\
  match r with
  | Some p => off <= p /\ p + 16 <= off + len /\ psb_at m p = true /\ forall i, off <= i < p -> psb_at m i = false
  | None => forall i, off <= i -> i + 16 <= off + len -> psb_at m i = false
  end.
Proof.
  intros Ho Hl Hm. unfold memmem. rewrite rd_bytes_suffix by done. cbn [mbind option_bind].
  eexists. split; [reflexivity|]. set (v := take _ _).
  assert (forall i, off <= i -> is_prefix INTEL_PT_PSB_STR (drop (Z.to_nat (i - off)) v) = psb_at m i && (i + 16 <=? off + len)) as Hv.
  { intros i Hi. unfold v. rewrite skipn_firstn_comm, prefix_take, drop_drop. unfold psb_at.
    rewrite (proj2 (Z.leb_le 0 i)) by lia. cbn [andb]. replace (Z.to_nat off + Z.to_nat (i - off))%nat with (Z.to_nat i) by lia.
    f_equal. destruct (Z.leb_spec (i + 16) (off + len)); [apply Nat.leb_le|apply Nat.leb_gt]; cbn [length INTEL_PT_PSB_STR]; lia. }
  destruct (find_sub v INTEL_PT_PSB_STR) as [k|] eqn:E; cbn [fmap option_fmap option_map].
  - apply find_sub_Some in E as [H1 H2]. specialize (Hv (off + Z.of_nat k) ltac:(lia)) as Hk.
    replace (Z.to_nat (off + Z.of_nat k - off)) with k in Hk by lia. rewrite H1 in Hk. symmetry in Hk.
    apply andb_true_iff in Hk as [Hk1 Hk2]. bprop. split_and!; [lia|lia|done|].
    intros i Hi. specialize (Hv i ltac:(lia)). rewrite H2 in Hv by lia. symmetry in Hv.
    apply andb_false_iff in Hv as [Hv|Hv]; [done|]. bprop. lia.
  - intros i Hi H16. specialize (Hv i Hi). rewrite (find_sub_None _ _ _ E) in Hv. symmetry in Hv.
    apply andb_false_iff in Hv as [Hv|Hv]; [done|]. bprop. lia.
Qed.

(** A view of the buffer that reaches its end. *)
Definition tail_view (m : list Z) (off len : Z) : Prop := 0 <= off /\ 0 <= len /\ off + len = Z.of_nat (length m).

Definition next_ok (m : list Z) (from : Z) (off len : Z) (r : bool * Z * Z) : Prop :=
  match r with
  | (true, o, l) => from <= o /\ psb_at m o = true /\ tail_view m o l /\ forall i, from <= i < o -> psb_at m i = false
  | (false, o, l) => o = off /\ l = len /\ forall i, from <= i -> psb_at m i = false
  end.

Lemma next_psb_ok m off len : tail_view m off len ->
  exists r, intel_pt_next_psb m off len = Some r /\ next_ok m off off len r.
Proof.
  intros (H0 & H1 & H2). unfold intel_pt_next_psb.
  destruct (memmem_psb m off len H0 H1 ltac:(lia)) as (r & -> & Hr). cbn [mbind option_bind].
  destruct r as [p|]; eexists; (split; [reflexivity|]); unfold next_ok.
  - destruct Hr as (? & ? & ? & ?). split_and!; auto. repeat split; lia.
  - split_and!; auto. intros i Hi. destruct (psb_at m i) eqn:E; [|done]. rewrite <-E. apply Hr; [done|].
    apply psb_at_bound in E. lia.
Qed.

Lemma step_psb_ok m off len : tail_view m off len ->
  exists r, intel_pt_step_psb m off len = Some r /\ next_ok m (off + 1) off len r.
Proof.
  intros (H0 & H1 & H2). unfold intel_pt_step_psb. destruct (Z.eqb_spec len 0) as [->|Hn].
  { eexists. split; [reflexivity|]. split_and!; auto. intros i Hi. destruct (psb_at m i) eqn:E; [|done].
    apply psb_at_bound in E. lia. }
  destruct (memmem_psb m (off + 1) (len - 1) ltac:(lia) ltac:(lia) ltac:(lia)) as (r & -> & Hr). cbn [mbind option_bind].
  destruct r as [p|]; eexists; (split; [reflexivity|]); unfold next_ok.
  - destruct Hr as (? & ? & ? & ?). split_and!; auto. repeat split; lia.
  - split_and!; auto. intros i Hi. destruct (psb_at m i) eqn:E; [|done]. rewrite <-E. apply Hr; [done|].
    apply psb_at_bound in E. lia.
Qed.

Lemma at_psb_ok m off len : tail_view m off len -> intel_pt_at_psb m off len = Some (psb_at m off).
Proof.
  intros (H0 & H1 & H2). unfold intel_pt_at_psb, INTEL_PT_PSB_LEN. destruct (Z.ltb_spec len 16).
  { f_equal. destruct (psb_at m off) eqn:E; [|done]. apply psb_at_bound in E. lia. }
  destruct (memmem_psb m off 16 H0 ltac:(lia) ltac:(lia)) as (r & -> & Hr). cbn [mbind option_bind]. f_equal.
  destruct r as [p|]; [|rewrite Hr; [done|lia..]]. destruct Hr as (? & ? & Hp & _). by replace off with p by lia.
Qed.

Lemma psb_at_hd m i k : psb_at m (i + Z.of_nat k) = true -> 0 <= i -> drop (Z.to_nat i) m !! k = Some (hd 0 INTEL_PT_PSB_STR).
Proof.
  unfold psb_at. intros [H0 [r Hr]%is_prefix_spec]%andb_true_iff Hi.
  rewrite lookup_drop. replace (Z.to_nat i + k)%nat with (Z.to_nat (i + Z.of_nat k) + 0)%nat by lia.
  rewrite <-lookup_drop, Hr. done.
Qed.

(** The loop finds the last PSB that starts before [off + k]. *)
Lemma last_psb_loop_ok fuel m off k : 0 <= off -> 1 <= k -> off + k + 15 <= Z.of_nat (length m) -> k <= Z.of_nat fuel ->
  exists r, last_psb_loop fuel m off k = Some r /\
  match r with
  | Some p => off <= p < off + k /\ psb_at m p = true /\ forall i, p < i < off + k -> psb_at m i = false
  | None => forall i, off <= i < off + k -> psb_at m i = false
  end.
Proof.
  revert k. induction fuel as [|fuel IH]; intros k H0 H1 H2 Hf; [lia|]. cbn [last_psb_loop].
  unfold memrchr. rewrite rd_bytes_suffix by lia. cbn [mbind option_bind].
  assert (forall i, off <= i < off + k -> psb_at m i = true ->
    take (Z.to_nat k) (drop (Z.to_nat off) m) !! Z.to_nat (i - off) = Some (hd 0 INTEL_PT_PSB_STR)) as Hhd.
  { intros i Hi Hp. rewrite lookup_take_lt by lia. apply psb_at_hd; [|done].
    by replace (off + Z.of_nat (Z.to_nat (i - off))) with i by lia. }
  destruct (rfind _ _) as [j|] eqn:E; cbn [fmap option_fmap option_map].
  2: { eexists. split; [reflexivity|]. intros i Hi. destruct (psb_at m i) eqn:Ei; [|done].
       exfalso. by eapply rfind_None; [exact E|apply Hhd]. }
  apply rfind_Some in E as [Hj Hlast]. pose proof (lookup_lt_Some _ _ _ Hj) as Hlt. rewrite length_take in Hlt.
  rewrite lookup_take_lt, lookup_drop in Hj by lia.
  assert (forall i, off + Z.of_nat j < i < off + k -> psb_at m i = false) as Hafter.
  { intros i Hi. destruct (psb_at m i) eqn:Ei; [|done]. exfalso. apply (Hlast (Z.to_nat (i - off))); [lia|]. apply Hhd; [lia|done]. }
  assert (memcmp_eq m (off + Z.of_nat j + 1) (tl INTEL_PT_PSB_STR) = Some (psb_at m (off + Z.of_nat j))) as ->.
  { unfold memcmp_eq. change (length (tl INTEL_PT_PSB_STR)) with (Z.to_nat 15). rewrite rd_bytes_suffix by lia. cbn [mbind option_bind].
    f_equal. rewrite prefix_take. change (length (tl INTEL_PT_PSB_STR) <=? Z.to_nat 15)%nat with true. rewrite andb_true_r.
    unfold psb_at. rewrite (proj2 (Z.leb_le 0 _)) by lia. cbn [andb].
    rewrite (drop_S m (hd 0 INTEL_PT_PSB_STR) (Z.to_nat (off + Z.of_nat j)))
      by (rewrite <-Hj; f_equal; lia).
    replace (Z.to_nat (off + Z.of_nat j + 1)) with (S (Z.to_nat (off + Z.of_nat j))) by lia. done. }
  cbn [mbind option_bind]. destruct (psb_at m (off + Z.of_nat j)) eqn:Ep.
  { eexists. split; [reflexivity|]. split_and!; [lia|lia|done|done]. }
  replace (off + Z.of_nat j - off) with (Z.of_nat j) by lia.
  assert (forall i, off + Z.of_nat j <= i < off + k -> psb_at m i = false) as Hrest.
  { intros i Hi. destruct (Z.eq_dec i (off + Z.of_nat j)) as [->|]; [done|]. apply Hafter. lia. }
  destruct (Z.eqb_spec (Z.of_nat j) 0) as [Hz|Hz].
  { eexists. split; [reflexivity|]. intros i Hi. apply Hrest. lia. }
  destruct (IH (Z.of_nat j)) as (r & -> & Hr); [lia..|]. eexists. split; [reflexivity|].
  destruct r as [p|].
  - destruct Hr as (? & ? & Hr). split_and!; [lia|lia|done|]. intros i Hi.
    destruct (Z.lt_ge_cases i (off + Z.of_nat j)); [apply Hr|apply Hrest]; lia.
  - intros i Hi. destruct (Z.lt_ge_cases i (off + Z.of_nat j)); [apply Hr|apply Hrest]; lia.
Qed.

Lemma last_psb_ok m off len : 0 <= off -> 0 <= len -> off + len <= Z.of_nat (length m) ->
  exists r, intel_pt_last_psb m off len = Some r /\
  match r with
  | Some p => off <= p /\ p + 16 <= off + len /\ psb_at m p = true /\ forall i, p < i -> i + 16 <= off + len -> psb_at m i = false
  | None => forall i, off <= i -> i + 16 <= off + len -> psb_at m i = false
  end.
Proof.
  intros H0 H1 H2. unfold intel_pt_last_psb, INTEL_PT_PSB_LEN. destruct (Z.ltb_spec len 16).
  { eexists. split; [reflexivity|]. cbn. lia. }
  destruct (last_psb_loop_ok (Z.to_nat (len - 16 + 1)) m off (len - 16 + 1)) as (r & -> & Hr); [lia..|].
  eexists. split; [reflexivity|]. destruct r as [p|]; [destruct Hr as (? & ? & Hr); split_and!; [lia|lia|done|]|];
    intros i Hi Hi'; apply Hr; lia.
Qed.

Lemma step_until_ok fuel cond c a off len : tail_view a off len -> psb_at a off = true -> len < Z.of_nat fuel ->
  (forall l, 0 <= l <= len -> cond l = Some (c l)) ->
  exists r, step_until fuel cond a off len = Some r /\
  match r with
  | Some (o, l) => off <= o /\ tail_view a o l /\ psb_at a o = true /\ c l = true /\
      forall i, off <= i < o -> psb_at a i = true -> c (Z.of_nat (length a) - i) = false
  | None => forall i, off <= i -> psb_at a i = true -> c (Z.of_nat (length a) - i) = false
  end.
Proof.
  revert off len. induction fuel as [|fuel IH]; intros off len Hv Hp Hf Hc; [destruct Hv; lia|]. cbn [step_until].
  rewrite Hc by (destruct Hv; lia). cbn [mbind option_bind]. destruct (c len) eqn:Ec.
  { eexists. split; [reflexivity|]. split_and!; [lia|apply Hv..|done|done|]. intros; lia. }
  assert (c (Z.of_nat (length a) - off) = false) as Hoff by (rewrite <-Ec; f_equal; destruct Hv as (? & ? & ?); lia).
  destruct (step_psb_ok a off len Hv) as ([[[] o] l] & -> & Hr); cbn [mbind option_bind].
  - destruct Hr as (Ho & Hpo & Hvo & Hn).
    destruct (IH o l Hvo Hpo) as (r & -> & Hr).
    { destruct Hv as (? & ? & ?), Hvo as (? & ? & ?). lia. }
    { intros k Hk. apply Hc. destruct Hv as (? & ? & ?), Hvo as (? & ? & ?). lia. }
    eexists. split; [reflexivity|].
    assert (forall i, off <= i < o -> psb_at a i = true -> c (Z.of_nat (length a) - i) = false) as Hlow.
    { intros i Hi Hpi. destruct (Z.eq_dec i off) as [->|]; [done|]. rewrite Hn in Hpi by lia. done. }
    destruct r as [[o' l']|].
    + destruct Hr as (? & ? & ? & ? & Hr). split_and!; try done; [lia|]. intros i Hi Hpi.
      destruct (Z.lt_ge_cases i o); [apply Hlow|apply Hr]; done || lia.
    + intros i Hi Hpi. destruct (Z.lt_ge_cases i o); [apply Hlow|apply Hr]; done || lia.
  - eexists. split; [reflexivity|]. destruct Hr as (_ & _ & Hn). intros i Hi Hpi.
    destruct (Z.eq_dec i off) as [->|]; [done|]. rewrite Hn in Hpi by lia. done.
Qed.

(** The bytes of [a] from its PSB at [i] on are the bytes of [b] from [off_b]
    on, and what is left of [b] is empty or starts at a PSB. *)
Definition overlaps (a b : list Z) (off_b i : Z) : Prop :=
  let n := Z.of_nat (length a) - i in
  psb_at a i = true /\ off_b + n <= Z.of_nat (length b) /\
  (off_b + n = Z.of_nat (length b) \/ psb_at b (off_b + n) = true) /\
  drop (Z.to_nat i) a = take (Z.to_nat n) (drop (Z.to_nat off_b) b).

(** The offset behind the longest overlap at or behind [from], or [off_b]. *)
Definition overlap_end (a b : list Z) (from off_b r : Z) : Prop :=
  (exists i, from <= i /\ overlaps a b off_b i /\ (forall j, from <= j < i -> ~ overlaps a b off_b j) /\
     r = off_b + (Z.of_nat (length a) - i))
  \/ ((forall i, from <= i -> ~ overlaps a b off_b i) /\ r = off_b).

Lemma overlap_end_skip a b from from' off_b r : from <= from' -> (forall i, from <= i < from' -> ~ overlaps a b off_b i) ->
  overlap_end a b from' off_b r -> overlap_end a b from off_b r.
Proof.
  intros Hle Hs [(i & Hi & Ho & Hl & ->)|[Hn ->]]; [left|right].
  - exists i. split_and!; [lia|done| |done]. intros j Hj. destruct (Z.lt_ge_cases j from'); [apply Hs|apply Hl]; lia.
  - split; [|done]. intros i Hi. destruct (Z.lt_ge_cases i from'); [apply Hs|apply Hn]; lia.
Qed.

Lemma overlap_end_none a b from off_b : (forall i, from <= i -> ~ overlaps a b off_b i) -> overlap_end a b from off_b off_b.
Proof. intros H. by right. Qed.

Lemma leftover_ok b off_b len_b l : tail_view b off_b len_b -> len_b < 2 ^ 64 -> 0 <= l <= len_b ->
  leftover b off_b len_b l = Some (psb_at b (off_b + l)).
Proof.
  intros (? & ? & ?) H64 Hl. unfold leftover. rewrite u64_small by lia. apply at_psb_ok. repeat split; lia.
Qed.

(** The comparison of [len_a] bytes. *)
Lemma memmem_all a off len needle : tail_view a off len -> length needle = Z.to_nat len ->
  exists r, memmem a off len needle = Some r /\
  match r with Some _ => drop (Z.to_nat off) a = needle | None => drop (Z.to_nat off) a <> needle end.
Proof.
  intros (H0 & H1 & H2) Hn. unfold memmem. rewrite rd_bytes_suffix by lia. cbn [mbind option_bind].
  rewrite take_ge by (rewrite length_drop; lia). eexists. split; [reflexivity|].
  destruct (find_sub _ _) as [k|] eqn:E; cbn [fmap option_fmap option_map].
  - apply find_sub_Some in E as [H _]. rewrite drop_drop in H. apply is_prefix_spec in H as [r Hr].
    pose proof (f_equal length Hr) as Hl. rewrite length_drop, length_app in Hl.
    assert (k = 0%nat \/ needle = []) as [-> | ->] by (destruct needle; [by right|left; cbn in *; lia]).
    + rewrite Nat.add_0_r in Hr. rewrite Hr. destruct r; [by rewrite app_nil_r|]. cbn in Hl. lia.
    + apply nil_length_inv. rewrite length_drop. cbn in Hn. lia.
  - intros <-. apply (find_sub_None _ _ 0) in E. rewrite drop_0 in E.
    assert (is_prefix (drop (Z.to_nat off) a) (drop (Z.to_nat off) a) = true); [|congruence].
    apply is_prefix_spec. exists []. by rewrite app_nil_r.
Qed.

Lemma compare_loop_ok fuel a off_a len_a b off_b len_b : tail_view a off_a len_a -> psb_at a off_a = true ->
  len_a < Z.of_nat fuel -> tail_view b off_b len_b -> len_b < 2 ^ 64 -> len_a <= len_b ->
  (len_a = len_b \/ psb_at b (off_b + len_a) = true) ->
  exists r, compare_loop fuel a off_a len_a b off_b len_b = Some r /\ overlap_end a b off_a off_b r.
Proof.
  revert off_a len_a. induction fuel as [|fuel IH]; intros off_a len_a Hv Hp Hf Hb H64 Hle Hleft; [destruct Hv; lia|].
  remember (S fuel) as fu eqn:Efu. rewrite Efu. cbn [compare_loop]. rewrite <-Efu.
  destruct Hv as (Ha0 & Ha1 & Ha2), Hb as (Hb0 & Hb1 & Hb2).
  rewrite rd_bytes_suffix by lia. cbn [mbind option_bind].
  destruct (memmem_all a off_a len_a (take (Z.to_nat len_a) (drop (Z.to_nat off_b) b))) as (r & -> & Hr);
    [repeat split; lia|rewrite length_take, length_drop; lia|]. cbn [mbind option_bind]. destruct r as [k|].
  { eexists. split; [reflexivity|]. left. exists off_a. assert (Z.of_nat (length a) - off_a = len_a) as El by lia.
    split_and!; [lia| |intros; lia|lia]. unfold overlaps. rewrite El. split_and!; [done|lia| |done].
    destruct Hleft; [left; lia|by right]. }
  assert (~ overlaps a b off_b off_a) as Hno.
  { intros (_ & _ & _ & He). apply Hr. rewrite He. do 2 f_equal. lia. }
  destruct (step_psb_ok a off_a len_a) as ([[[] o] l] & -> & Hs); [repeat split; lia|..]; cbn [mbind option_bind].
  2: { eexists. split; [reflexivity|]. apply overlap_end_none. intros i Hi Hov. destruct (Z.eq_dec i off_a) as [->|]; [done|].
       destruct Hov as [Hpi _]. destruct Hs as (_ & _ & Hs). rewrite Hs in Hpi by lia. done. }
  destruct Hs as (Ho & Hpo & Hvo & Hs). pose proof Hvo as (Ho0 & Ho1 & Ho2).
  destruct (step_until_ok fu (leftover b off_b len_b) (fun l => psb_at b (off_b + l)) a o l Hvo Hpo) as (r & -> & Hu); [lia| |].
  { intros k' Hk'. apply leftover_ok; [repeat split; lia|done|lia]. }
  assert (forall i, off_a <= i -> overlaps a b off_b i -> o <= i /\ psb_at b (off_b + (Z.of_nat (length a) - i)) = true) as Hcand.
  { intros i Hi Hov. assert (o <= i) as Hoi.
    { destruct (Z.lt_ge_cases i o); [|done]. destruct (Z.eq_dec i off_a) as [->|]; [done|].
      destruct Hov as [Hpi _]. rewrite Hs in Hpi by lia. done. }
    split; [done|]. destruct Hov as (Hpi & _ & [He|He] & _); [|done]. lia. }
  cbn [mbind option_bind]. destruct r as [[o' l']|].
  - destruct Hu as (Ho' & Hvo' & Hpo' & Hc' & Hu). pose proof Hvo' as (? & ? & ?).
    destruct (IH o' l' Hvo' Hpo') as (r & -> & Hr'); [lia|repeat split; lia|done|lia|by right|].
    eexists. split; [reflexivity|]. eapply overlap_end_skip; [|..|exact Hr']; [lia|].
    intros i Hi Hov. destruct (Hcand i) as [? Hq]; [lia|done|]. rewrite Hu in Hq; [done|lia|apply Hov].
  - eexists. split; [reflexivity|]. apply overlap_end_none. intros i Hi Hov.
    destruct (Hcand i Hi Hov) as [? Hq]. rewrite Hu in Hq; [done|lia|apply Hov].
Qed.

(** * The timestamps *)

(** The first TSC packet in front of a PSBEND packet or of what is no packet. *)
Inductive first_tsc : list Z -> option Z -> Prop :=
  | ft_end : first_tsc [] None
  | ft_bad l ret p : l <> [] -> intel_pt_get_packet l (Z.of_nat (length l)) = Some (ret, p) -> ret <= 0 -> first_tsc l None
  | ft_tsc l ret p : intel_pt_get_packet l (Z.of_nat (length l)) = Some (ret, p) -> 0 < ret -> type p = INTEL_PT_TSC ->
      first_tsc l (Some (payload p))
  | ft_psbend l ret p : intel_pt_get_packet l (Z.of_nat (length l)) = Some (ret, p) -> 0 < ret -> type p = INTEL_PT_PSBEND ->
      first_tsc l None
  | ft_skip l ret p r : intel_pt_get_packet l (Z.of_nat (length l)) = Some (ret, p) -> 0 < ret ->
      type p <> INTEL_PT_TSC -> type p <> INTEL_PT_PSBEND -> first_tsc (drop (Z.to_nat ret) l) r -> first_tsc l r.

Lemma first_tsc_fun l r r' : first_tsc l r -> first_tsc l r' -> r = r'.
Proof.
  intros H. revert r'. induction H as [|l ret p Hl Hg Hr|l ret p Hg Hr Ht|l ret p Hg Hr Ht|l ret p r Hg Hr Ht Hn Hs IH];
    intros r' H'; inversion H'; subst; try done;
    try match goal with H : intel_pt_get_packet [] _ = Some _ |- _ => by injection H as <- <- end;
    repeat match goal with H : intel_pt_get_packet ?l ?n = Some _, H' : intel_pt_get_packet ?l ?n = Some _ |- _ =>
      rewrite H in H'; injection H' as -> -> end; try done; try lia; try congruence; auto.
Qed.

(** No CYC packet with five or more extension bytes, at any offset. *)
Definition no_overlong_cyc (m : list Z) : bool := forallb (fun i => negb (overlong_cyc (drop i m))) (seq 0 (length m)).

Lemma overlong_cyc_take n l : overlong_cyc (take n l) = true -> overlong_cyc l = true.
Proof.
  destruct l as [|b0 [|b1 [|b2 [|b3 [|b4 [|b5 l]]]]]]; destruct n as [|[|[|[|[|[|n]]]]]]; done.
Qed.

Lemma no_overlong_view m k n : no_overlong_cyc m = true -> overlong_cyc (take n (drop k m)) = false.
Proof.
  intros H. destruct (overlong_cyc _) eqn:E; [|done]. apply overlong_cyc_take in E.
  destruct (Nat.lt_ge_cases k (length m)) as [Hk|Hk]; [|by rewrite drop_ge in E by lia].
  unfold no_overlong_cyc in H. rewrite forallb_forall in H. specialize (H k). rewrite E in H.
  by discriminate H; apply in_seq; lia.
Qed.

Lemma next_tsc_loop_ok fuel m off len : Forall is_byte m -> no_overlong_cyc m = true ->
  0 <= off -> 0 <= len -> off + len <= Z.of_nat (length m) -> len <= Z.of_nat fuel ->
  exists r, next_tsc_loop fuel m off len = Some r /\ first_tsc (take (Z.to_nat len) (drop (Z.to_nat off) m)) r.
Proof.
  intros Hm Hno. revert off len. induction fuel as [|fuel IH]; intros off len H0 H1 H2 Hf; cbn [next_tsc_loop];
    destruct (Z.eqb_spec len 0) as [->|Hl]; try (eexists; split; [reflexivity|constructor]); [lia|].
  rewrite rd_bytes_suffix by lia. cbn [mbind option_bind]. set (v := take _ _).
  assert (Z.of_nat (length v) = len) as Hlen by (unfold v; rewrite length_take, length_drop; lia).
  destruct (get_packet_ok v) as ([ret p] & E & Hok); [by apply Forall_take, Forall_drop|by apply no_overlong_view|].
  pose proof E as E0. rewrite Hlen in E. rewrite E. cbn [mbind option_bind]. destruct (Z.leb_spec ret 0) as [Hr|Hr].
  { eexists. split; [reflexivity|]. eapply ft_bad; [intros Ev; rewrite Ev in Hlen; cbn in Hlen; lia|exact E0|done]. }
  unfold res_ok, INTEL_PT_NEED_MORE_BYTES, INTEL_PT_BAD_PACKET in Hok. cbn [fst snd] in Hok.
  assert (type p <> INTEL_PT_TSC -> type p <> INTEL_PT_PSBEND ->
    exists r, next_tsc_loop fuel m (off + ret) (len - ret) = Some r /\ first_tsc v r) as Hskip.
  { intros Ht He. destruct (IH (off + ret) (len - ret)) as (r & -> & Hs); [lia..|]. eexists. split; [reflexivity|].
    eapply ft_skip; [exact E0|done..|]. unfold v. rewrite skipn_firstn_comm, drop_drop.
    replace (Z.to_nat off + Z.to_nat ret)%nat with (Z.to_nat (off + ret)) by lia.
    by replace (Z.to_nat len - Z.to_nat ret)%nat with (Z.to_nat (len - ret)) by lia. }
  destruct (type p) eqn:Et; try (apply Hskip; done); (eexists; split; [reflexivity|]);
    [eapply ft_tsc|eapply ft_psbend]; eauto.
Qed.

Lemma next_tsc_ok m off len : Forall is_byte m -> no_overlong_cyc m = true ->
  0 <= off -> 0 <= len -> off + len <= Z.of_nat (length m) ->
  exists r, intel_pt_next_tsc m off len = Some r /\ first_tsc (take (Z.to_nat len) (drop (Z.to_nat off) m)) r.
Proof. intros. apply next_tsc_loop_ok; done || lia. Qed.

Lemma next_tsc_tail m off len : Forall is_byte m -> no_overlong_cyc m = true -> tail_view m off len ->
  exists r, intel_pt_next_tsc m off len = Some r /\ first_tsc (drop (Z.to_nat off) m) r.
Proof.
  intros Hm Hno (? & ? & ?). destruct (next_tsc_ok m off len) as (r & E & Hr); try done; [lia|].
  rewrite take_ge in Hr by (rewrite length_drop; lia). eauto.
Qed.

(** The PSB+ at [i] has a TSC later than [ta]. *)
Definition later (ta : Z) (b : list Z) (i : Z) : Prop :=
  psb_at b i = true /\ exists tb, first_tsc (drop (Z.to_nat i) b) (Some tb) /\ intel_pt_tsc_cmp ta tb < 0.

(** The first later PSB+ at or behind [from], or the end. *)
Definition first_later (ta : Z) (b : list Z) (from r : Z) : Prop :=
  (from <= r /\ later ta b r /\ forall i, from <= i < r -> ~ later ta b i)
  \/ ((forall i, from <= i -> ~ later ta b i) /\ r = Z.of_nat (length b)).

Lemma tsc_loop_ok fuel ta b off len : Forall is_byte b -> no_overlong_cyc b = true ->
  tail_view b off len -> psb_at b off = true -> len < Z.of_nat fuel ->
  exists r, tsc_loop fuel ta b off len = Some r /\ first_later ta b off r.
Proof.
  intros Hb Hno. revert off len. induction fuel as [|fuel IH]; intros off len Hv Hp Hf; [destruct Hv; lia|].
  cbn [tsc_loop]. destruct (next_tsc_tail b off len Hb Hno Hv) as (t & -> & Ht). cbn [mbind option_bind].
  destruct (match t with Some tb => intel_pt_tsc_cmp ta tb <? 0 | None => false end) eqn:Ec.
  { eexists. split; [reflexivity|]. left. split_and!; [lia| |intros; lia]. split; [done|].
    destruct t as [tb|]; [|done]. bprop. eauto. }
  assert (~ later ta b off) as Hno'.
  { intros (_ & tb & Htb & Hlt). rewrite (first_tsc_fun _ _ _ Ht Htb) in Ec. bprop. lia. }
  destruct (step_psb_ok b off len Hv) as ([[[] o] l] & -> & Hs); cbn [mbind option_bind].
  - destruct Hs as (Ho & Hpo & Hvo & Hs). destruct (IH o l Hvo Hpo) as (r & -> & Hr).
    { destruct Hv as (? & ? & ?), Hvo as (? & ? & ?). lia. }
    eexists. split; [reflexivity|].
    assert (forall i, off <= i < o -> ~ later ta b i) as Hlow.
    { intros i Hi [Hpi Hl]. destruct (Z.eq_dec i off) as [->|]; [by apply Hno'|]. rewrite Hs in Hpi by lia. done. }
    destruct Hr as [(? & ? & Hr)|[Hr ->]]; [left; split_and!; [lia|done|]|right; split; [|done]];
      intros i Hi; (destruct (Z.lt_ge_cases i o); [apply Hlow|apply Hr]); lia.
  - destruct Hs as (-> & -> & Hs). destruct Hv as (? & ? & ?). eexists. split; [reflexivity|]. right. split; [|lia].
    intros i Hi [Hpi Hl]. destruct (Z.eq_dec i off) as [->|]; [by apply Hno'|]. rewrite Hs in Hpi by lia. done.
Qed.

(** The last PSB of [m] that ends at [e] or before. *)
Definition last_psb_before (m : list Z) (e p : Z) : Prop :=
  psb_at m p = true /\ p + 16 <= e /\ forall i, p < i -> i + 16 <= e -> psb_at m i = false.

(** The TSC of the last PSB+ of [a] or, when that has none, of the one in
    front of it. *)
Definition ref_tsc (a : list Z) (t : Z) : Prop :=
  exists p, last_psb_before a (Z.of_nat (length a)) p /\
    (first_tsc (drop (Z.to_nat p) a) (Some t)
     \/ first_tsc (drop (Z.to_nat p) a) None /\
        exists q, last_psb_before a p q /\ first_tsc (take (Z.to_nat (p - q)) (drop (Z.to_nat q) a)) (Some t)).

Lemma last_psb_before_fun m e p q : last_psb_before m e p -> last_psb_before m e q -> p = q.
Proof.
  intros (Hp & He & Hl) (Hq & Hf & Hr). destruct (Z.lt_trichotomy p q) as [H|[H|H]]; [|done|].
  - rewrite Hl in Hq by lia. done.
  - rewrite Hr in Hp by lia. done.
Qed.

Lemma last_psb_before_ok m off len : 0 <= off -> 0 <= len -> off + len <= Z.of_nat (length m) ->
  (forall i, i < off -> psb_at m i = false) ->
  exists r, intel_pt_last_psb m off len = Some r /\
  match r with Some p => off <= p /\ last_psb_before m (off + len) p | None => forall p, ~ last_psb_before m (off + len) p end.
Proof.
  intros H0 H1 H2 Hlow. destruct (last_psb_ok m off len H0 H1 H2) as (r & -> & Hr). eexists. split; [reflexivity|].
  destruct r as [p|].
  - destruct Hr as (? & ? & ? & ?). repeat split; auto.
  - intros p (Hp & He & _). destruct (Z.lt_ge_cases p off); [by rewrite Hlow in Hp|]. by rewrite Hr in Hp.
Qed.

Lemma find_overlap_tsc_ok a off_a len_a b off_b len_b : Forall is_byte a -> no_overlong_cyc a = true ->
  Forall is_byte b -> no_overlong_cyc b = true -> tail_view a off_a len_a -> (forall i, i < off_a -> psb_at a i = false) ->
  tail_view b off_b len_b -> psb_at b off_b = true ->
  exists r, intel_pt_find_overlap_tsc a off_a len_a b off_b len_b = Some r /\
    ((forall t, ~ ref_tsc a t) /\ r = off_b \/ exists t, ref_tsc a t /\ first_later t b off_b r).
Proof.
  intros Ha Hna Hb Hnb (Ha0 & Ha1 & Ha2) Hlow Hvb Hpb. unfold intel_pt_find_overlap_tsc.
  destruct (last_psb_before_ok a off_a len_a) as (p & -> & Hp); [done..|lia|done|]. rewrite Ha2 in Hp. cbn [mbind option_bind].
  destruct p as [p|].
  2: { eexists. split; [reflexivity|]. left. split; [|done]. intros t (p & Hq & _). by apply (Hp p). }
  destruct Hp as [Hop Hp].
  assert (p + 16 <= Z.of_nat (length a)) by apply Hp.
  destruct (next_tsc_tail a p (len_a - (p - off_a)) Ha Hna) as (t & -> & Ht); [repeat split; lia|].
  assert (forall t, ref_tsc a t -> exists r, tsc_loop (S (Z.to_nat len_b)) t b off_b len_b = Some r /\
    ((forall t, ~ ref_tsc a t) /\ r = off_b \/ exists t, ref_tsc a t /\ first_later t b off_b r)) as Hloop.
  { intros t0 H0. destruct (tsc_loop_ok (S (Z.to_nat len_b)) t0 b off_b len_b) as (r & -> & Hr); [done..| |].
    { destruct Hvb. lia. } eexists. split; [reflexivity|]. right. eauto. }
  cbn [mbind option_bind]. destruct t as [t|]; cbn [mbind option_bind].
  { apply Hloop. exists p. auto. }
  assert (forall t, ref_tsc a t -> exists q, last_psb_before a p q /\ first_tsc (take (Z.to_nat (p - q)) (drop (Z.to_nat q) a)) (Some t)) as Hback.
  { intros t (p' & Hp' & Hor). rewrite (last_psb_before_fun _ _ _ _ Hp' Hp) in Hor. destruct Hor as [Hq|[_ Hq]]; [|done].
    by pose proof (first_tsc_fun _ _ _ Ht Hq). }
  replace (len_a - (len_a - (p - off_a))) with (p - off_a) by lia.
  destruct (last_psb_before_ok a off_a (p - off_a)) as (q & -> & Hq); [lia..|done|]. cbn [mbind option_bind].
  replace (off_a + (p - off_a)) with p in Hq by lia. destruct q as [q|]; cbn [mbind option_bind].
  2: { eexists. split; [reflexivity|]. left. split; [|done]. intros t (q & Hq' & _)%Hback. by apply (Hq q). }
  destruct Hq as [Hoq Hq]. assert (q + 16 <= p) by apply Hq.
  destruct (next_tsc_ok a q (p - off_a - (q - off_a))) as (t & -> & Htq); [done|done|lia..|]. cbn [mbind option_bind].
  replace (p - off_a - (q - off_a)) with (p - q) in Htq by lia. destruct t as [t|].
  { apply Hloop. exists p. split; [done|]. right. eauto. }
  eexists. split; [reflexivity|]. left. split; [|done]. intros t (q' & Hq' & Hf)%Hback.
  rewrite (last_psb_before_fun _ _ _ _ Hq' Hq) in Hf. by pose proof (first_tsc_fun _ _ _ Htq Hf).
Qed.

(** * The claims *)

Definition first_psb (b : list Z) (off : Z) : Prop := psb_at b off = true /\ forall i, i < off -> psb_at b i = false.

Lemma next_psb_whole m : exists r, intel_pt_next_psb m 0 (Z.of_nat (length m)) = Some r /\
  match r with
  | (true, o, l) => tail_view m o l /\ first_psb m o
  | (false, o, l) => o + l = Z.of_nat (length m) /\ forall i, psb_at m i = false
  end.
Proof.
  destruct (next_psb_ok m 0 (Z.of_nat (length m))) as ([[[] o] l] & -> & Hr); [repeat split; lia|..];
    (eexists; split; [reflexivity|]).
  - destruct Hr as (? & ? & ? & Hr). split; [done|]. split; [done|]. intros i Hi.
    destruct (Z.lt_ge_cases i 0); [|by apply Hr]. unfold psb_at. by rewrite (proj2 (Z.leb_gt 0 i)).
  - destruct Hr as (-> & -> & Hr). split; [done|]. intros i. destruct (Z.lt_ge_cases i 0); [|by apply Hr].
    unfold psb_at. by rewrite (proj2 (Z.leb_gt 0 i)).
Qed.

(** The part of the search behind the first loop. *)
Lemma align_compare_ok fuel a o l b off_b len_b : tail_view a o l -> psb_at a o = true -> l < Z.of_nat fuel ->
  tail_view b off_b len_b -> len_b < 2 ^ 64 -> l <= len_b ->
  exists r, (let* r := if len_b >? l then step_until fuel (leftover b off_b len_b) a o l else Some (Some (o, l)) in
      match r with
      | None => Some off_b
      | Some (off_a, len_a) => compare_loop fuel a off_a len_a b off_b len_b
      end) = Some r /\ overlap_end a b o off_b r.
Proof.
  intros Hvo Hpo Hf Hvb H64 Hle. pose proof Hvo as (Ho0 & Ho1 & Ho2). pose proof Hvb as (Hb0 & Hb1 & Hb2).
  destruct (Z.gtb_spec len_b l) as [Hgt|Hgt]; cbn [mbind option_bind].
  2: { apply compare_loop_ok; try done. left. lia. }
  destruct (step_until_ok fuel (leftover b off_b len_b) (fun l => psb_at b (off_b + l)) a o l Hvo Hpo) as (r & -> & Hu); [done| |].
  { intros k Hk. apply leftover_ok; [done|lia..]. }
  assert (forall i, o <= i -> overlaps a b off_b i -> psb_at b (off_b + (Z.of_nat (length a) - i)) = true) as Hcand.
  { intros i Hi (_ & _ & [He|He] & _); [lia|done]. }
  cbn [mbind option_bind]. destruct r as [[o' l']|].
  - destruct Hu as (Ho' & Hvo' & Hpo' & Hc' & Hu). pose proof Hvo' as (? & ? & ?).
    destruct (compare_loop_ok fuel a o' l' b off_b len_b) as (r & -> & He); try done; [lia..|by right|].
    eexists. split; [reflexivity|]. apply (overlap_end_skip _ _ o o'); [lia| |done].
    intros i Hi Hov. pose proof (Hcand i ltac:(lia) Hov) as Hq. rewrite Hu in Hq; [done|lia|apply Hov].
  - eexists. split; [reflexivity|]. apply overlap_end_none. intros i Hi Hov.
    pose proof (Hcand i Hi Hov) as Hq. rewrite Hu in Hq; [done|lia|apply Hov].
Qed.

(** C18: Without timestamps, [intel_pt_find_overlap] reads only inside of its
    two buffers, returns, and finds the longest overlap: with the data of [b]
    starting at its first PSB, the result is behind the longest tail of [a]
    that starts at a PSB, equals the start of [b], and leaves nothing of [b] or
    something that starts at a PSB; it is the start of [b] when there is no
    such tail, and the end of [b] when [b] has no PSB. *)
Theorem find_overlap_longest a b : Z.of_nat (length b) < 2 ^ 64 ->
  exists r, intel_pt_find_overlap a b false = Some r /\
    ((forall i, psb_at b i = false) /\ r = Z.of_nat (length b)
     \/ exists off_b, first_psb b off_b /\ overlap_end a b 0 off_b r).
Proof.
  intros H64. unfold intel_pt_find_overlap.
  destruct (next_psb_whole b) as ([[[] off_b] len_b] & -> & Hb); cbn [mbind option_bind negb].
  2: { eexists. split; [reflexivity|]. left. destruct Hb. auto. }
  destruct Hb as [Hvb Hfb]. pose proof Hvb as (Hb0 & Hb1 & Hb2).
  enough (exists r, (let* (psb_a, off_a, len_a) := intel_pt_next_psb a 0 (Z.of_nat (length a)) in _) = Some r /\ overlap_end a b 0 off_b r)
    as (r & -> & Hr) by (eexists; split; [reflexivity|]; right; eauto).
  destruct (next_psb_whole a) as ([[[] off_a] len_a] & -> & Ha); cbn [mbind option_bind negb].
  2: { eexists. split; [reflexivity|]. apply overlap_end_none. intros i _ [Hi _]. by rewrite (proj2 Ha) in Hi. }
  destruct Ha as (Hva & Hpa & Hlow). pose proof Hva as (Ha0 & Ha1 & Ha2).
  assert (forall i, 0 <= i < off_a -> ~ overlaps a b off_b i) as Hlow0 by (intros i Hi [Hp _]; rewrite Hlow in Hp by lia; done).
  destruct (step_until_ok (S (Z.to_nat len_a)) (fits len_b) (fun l => negb (len_b <? l)) a off_a len_a Hva Hpa) as (r & -> & Hr); [lia|done|].
  cbn [mbind option_bind]. destruct r as [[o l]|].
  2: { eexists. split; [reflexivity|]. apply overlap_end_none. intros i Hi Hov. destruct (Z.lt_ge_cases i off_a); [apply (Hlow0 i); [lia|done]|].
       destruct Hov as (Hp & Hle & _). apply Hr in Hp; [bprop; lia|done]. }
  destruct Hr as (Ho & Hvo & Hpo & Hc & Hr). pose proof Hvo as (Ho0 & Ho1 & Ho2). bprop.
  assert (forall i, 0 <= i < o -> ~ overlaps a b off_b i) as Hlow1.
  { intros i Hi Hov. destruct (Z.lt_ge_cases i off_a); [apply (Hlow0 i); [lia|done]|]. destruct Hov as (Hp & Hle & _).
    apply Hr in Hp; [bprop; lia|lia]. }
  destruct (align_compare_ok (S (Z.to_nat len_a)) a o l b off_b len_b) as (r & -> & He); try done; [lia..|].
  eexists. split; [reflexivity|]. by apply (overlap_end_skip _ _ 0 o).
Qed.


(** C40: The order of the 7-byte TSC values is the order of the times they are
    the low 56 bits of, wherever the counter wraps, as long as the times are
    less than half of its range apart. *)
Theorem tsc_cmp_wraps t1 t2 : Z.abs (t1 - t2) < 2 ^ 55 ->
  intel_pt_tsc_cmp (t1 mod 2 ^ 56) (t2 mod 2 ^ 56) = Z.sgn (t1 - t2).
Proof.
  intros H. unfold intel_pt_tsc_cmp.
  pose proof (Z.mod_pos_bound t1 (2 ^ 56) ltac:(lia)). pose proof (Z.mod_pos_bound t2 (2 ^ 56) ltac:(lia)).
  assert (exists k, t1 - t2 = t1 mod 2 ^ 56 - t2 mod 2 ^ 56 + k * 2 ^ 56) as [k Hk].
  { exists (t1 / 2 ^ 56 - t2 / 2 ^ 56). pose proof (Z.div_mod t1 (2 ^ 56) ltac:(lia)). pose proof (Z.div_mod t2 (2 ^ 56) ltac:(lia)). lia. }
  rewrite Hk in *. assert (k = -1 \/ k = 0 \/ k = 1) by lia.
  repeat (match goal with |- context [if ?c then _ else _] => destruct c eqn:? end); bprop; lia.
Qed.

Lemma tsc_cmp_wraps_witness : intel_pt_tsc_cmp ((2 ^ 56 - 3) mod 2 ^ 56) ((2 ^ 56 + 4) mod 2 ^ 56) = Z.sgn ((2 ^ 56 - 3) - (2 ^ 56 + 4)).
Proof. apply tsc_cmp_wraps. vm_compute. reflexivity. Defined.

(** A PSB+ with a TSC, and padding. *)
Definition psb_tsc (t : Z) : list Z := INTEL_PT_PSB_STR ++ [0x19] ++ le_split 7 t ++ [0x02; 0x23].

Lemma find_overlap_longest_witness :
  exists r, intel_pt_find_overlap ([1; 2] ++ psb_tsc 5 ++ psb_tsc 6) ([9] ++ psb_tsc 6 ++ psb_tsc 7) false = Some r /\
    ((forall i, psb_at ([9] ++ psb_tsc 6 ++ psb_tsc 7) i = false) /\ r = Z.of_nat (length ([9] ++ psb_tsc 6 ++ psb_tsc 7))
     \/ exists off_b, first_psb ([9] ++ psb_tsc 6 ++ psb_tsc 7) off_b /\
          overlap_end ([1; 2] ++ psb_tsc 5 ++ psb_tsc 6) ([9] ++ psb_tsc 6 ++ psb_tsc 7) 0 off_b r).
Proof. apply find_overlap_longest. vm_compute. reflexivity. Defined.

Example find_overlap_27 : intel_pt_find_overlap ([1; 2] ++ psb_tsc 5 ++ psb_tsc 6) ([9] ++ psb_tsc 6 ++ psb_tsc 7) false = Some 27
  /\ intel_pt_find_overlap ([1; 2] ++ psb_tsc 5 ++ psb_tsc 6) ([9] ++ psb_tsc 6 ++ psb_tsc 7) true = Some 27.
Proof. split; vm_compute; reflexivity. Qed.

End PtOverlap.
