(* ===== verification/PtDec.v ===== *)
(** The Intel PT decoder,
    [src/tools/perf/util/intel-pt-decoder/intel-pt-decoder.c] without its call
    stack (PtStack.v) and its overlap detection (PtOverlap.v): the state of the
    decoder and every function that reads or changes it, by explicit state
    passing.

    [struct intel_pt_decoder] is a record of groups of members; the groups are
    coercions, so that [ip d] is [decoder->ip], and [d <| ip := v |>] is the
    assignment [decoder->ip = v].  The pointers [buf] and [next_buf] with their
    lengths are the bytes they give access to.  Members that are never read
    ([insn_bytes], [data]) and all logging are left out.

    The callbacks [get_trace] and [walk_insn] and the calls of [malloc] are
    parameters: the answers of [get_trace] that are still to come are a list in
    the state, behind which it has no more data; the answers of the others are
    functions of the number of the call ([PtEnv]).  [None] is undefined
    behaviour or the end of the fuel that bounds a loop. *)

From stdpp Require Import base option list numbers.
From Stdlib Require Import ZArith Lia Bool SpecFloat.
From S2P Require Import Prelude PtPkt PtInsn PtStack PtOverlap.

(** * The type [double]: IEEE 754 binary64 *)

Module CDouble.

Definition double : Type := spec_float.
Definition prec : Z := 53.
Definition emax : Z := 1024.

Definition of_Z (z : Z) : double := binary_normalize prec emax z 0 false.
Definition zero : double := S754_zero false.
Definition div : double -> double -> double := SFdiv prec emax.
Definition mul : double -> double -> double := SFmul prec emax.
Definition add : double -> double -> double := SFadd prec emax.
Definition gt (a b : double) : bool := SFltb b a.

(** The integer part, if there is one. *)
Definition trunc (x : double) : option Z :=
  match x with
  | S754_zero _ => Some 0
  | S754_finite s m e =>
      let a := if 0 <=? e then Z.pos m * 2 ^ e else Z.pos m / 2 ^ (- e) in
      Some (if s then - a else a)
  | _ => None
  end.

(** Conversion to [uint64_t], [None] where it is undefined.  ISO C leaves the
    conversion of a value out of range undefined; where its Annex F holds, it
    gives an unspecified value.  [oob] tells the two apart. *)
Definition to_u64 (oob : double -> option Z) (x : double) : option Z :=
  match trunc x with
  | Some a => if (0 <=? a) && (a <? 2 ^ 64) then Some a else u64 <$> oob x
  | None => u64 <$> oob x
  end.

(** The constant 1.25. *)
Definition five_quarters : double := binary_normalize prec emax 5 (-2) false.

End CDouble.

Module PtDec.
Import PtPkt PtInsn PtStack CDouble.

(** * Constants and types *)

Definition ENOENT : Z := 2.
Definition EAGAIN : Z := 11.
Definition EINVAL : Z := 22.
Definition ENOSPC : Z := 28.
Definition ENOSYS : Z := 38.
Definition ELOOP : Z := 40.
Definition ENODATA : Z := 61.
Definition ENOLINK : Z := 67.
Definition EBADMSG : Z := 74.
Definition EOVERFLOW : Z := 75.
Definition EILSEQ : Z := 84.

Definition INTEL_PT_RETURN : Z := 1.
Definition INTEL_PT_MAX_LOOPS : Z := 10000.

Definition INTEL_PT_IN_TX : Z := 1.
Definition INTEL_PT_ABORT_TX : Z := 2.
Definition INTEL_PT_ASYNC : Z := 4.

(** [enum intel_pt_sample_type], a set of flags. *)
Definition INTEL_PT_BRANCH : Z := 1.
Definition INTEL_PT_INSTRUCTION : Z := 2.
Definition INTEL_PT_TRANSACTION : Z := 4.

Inductive intel_pt_period_type :=
  | INTEL_PT_PERIOD_NONE | INTEL_PT_PERIOD_INSTRUCTIONS | INTEL_PT_PERIOD_TICKS | INTEL_PT_PERIOD_MTC.
#[global] Instance intel_pt_period_type_eq_dec : EqDecision intel_pt_period_type.
Proof. solve_decision. Defined.

Inductive intel_pt_pkt_state :=
  | INTEL_PT_STATE_NO_PSB | INTEL_PT_STATE_NO_IP | INTEL_PT_STATE_ERR_RESYNC | INTEL_PT_STATE_IN_SYNC
  | INTEL_PT_STATE_TNT | INTEL_PT_STATE_TIP | INTEL_PT_STATE_TIP_PGD | INTEL_PT_STATE_FUP | INTEL_PT_STATE_FUP_NO_TIP.
#[global] Instance intel_pt_pkt_state_eq_dec : EqDecision intel_pt_pkt_state.
Proof. solve_decision. Defined.

Definition INTEL_PT_ERR_NOMEM : Z := 1.
Definition INTEL_PT_ERR_INTERN : Z := 2.
Definition INTEL_PT_ERR_BADPKT : Z := 3.
Definition INTEL_PT_ERR_NODATA : Z := 4.
Definition INTEL_PT_ERR_NOINSN : Z := 5.
Definition INTEL_PT_ERR_MISMAT : Z := 6.
Definition INTEL_PT_ERR_OVR : Z := 7.
Definition INTEL_PT_ERR_LOST : Z := 8.
Definition INTEL_PT_ERR_UNK : Z := 9.
Definition INTEL_PT_ERR_NELOOP : Z := 10.
Definition INTEL_PT_ERR_MAX : Z := 11.

(** * The environment *)

(** [struct intel_pt_buffer], with what [get_trace] returns. *)
Record intel_pt_buffer := mkBuffer {
  b_ret : Z; b_buf : list Z; b_consecutive : bool; b_ref_timestamp : Z; b_trace_nr : Z }.
Definition no_buffer : intel_pt_buffer := mkBuffer 0 [] false 0 0.

(** What a call of [walk_insn] returns and stores. *)
Record walk_answer := mkAnswer { a_err : Z; a_insn : intel_pt_insn; a_insn_cnt : Z; a_ip : Z }.

(** The answers of the [n]-th call of [walk_insn], given [ip], [to_ip] and
    [max_insn_cnt], and of the [n]-th [malloc]; and what the conversion of a
    [double] out of range gives, if it is defined. *)
Class PtEnv := {
  walk_insn_cb : nat -> Z -> Z -> Z -> walk_answer;
  malloc_cb : nat -> option intel_pt_blk;
  cvt_oob : double -> option Z;
}.

(** * The state of the decoder *)

(** The members that only [intel_pt_decoder_new] sets. *)
Record config := mkConfig {
  return_compression : bool; period : Z; period_type : intel_pt_period_type; period_mask : Z; period_ticks : Z;
  tsc_ctc_ratio_n : Z; tsc_ctc_ratio_d : Z; tsc_ctc_mult : Z; tsc_slip : Z; ctc_rem_mask : Z; mtc_shift : Z;
  max_non_turbo_ratio : Z; max_non_turbo_ratio_fp : double }.

Record input := mkInput {
  buf : list Z; next_buf : option (list Z); pos : Z; packet : intel_pt_pkt; pkt_step : Z; pkt_len : Z;
  last_packet_type : intel_pt_pkt_type }.

Record times := mkTimes {
  have_tma : bool; have_cyc : bool; timestamp : Z; tsc_timestamp : Z; ref_timestamp : Z; ctc_timestamp : Z;
  ctc_delta : Z; cycle_cnt : Z; cyc_ref_timestamp : Z; last_mtc : Z; cbr : Z; cbr_cyc_to_tsc : double;
  calc_cyc_to_tsc : double; have_calc_cyc_to_tsc : bool; timestamp_insn_cnt : Z }.

Record flow := mkFlow {
  pge : bool; last_ip : Z; ip : Z; cr3 : Z; ret_addr : Z; stack : intel_pt_stack; pkt_state : intel_pt_pkt_state;
  tnt : intel_pt_pkt; exec_mode : Z; overflow : bool; set_fup_tx_flags : bool; fup_tx_flags : Z; tx_flags : Z }.

Record progress := mkProgress {
  stuck_ip : Z; no_progress : Z; stuck_ip_prd : Z; stuck_ip_cnt : Z; mtc_insn : bool; tot_insn_cnt : Z;
  period_insn_cnt : Z; last_masked_timestamp : Z; continuous_period : bool }.

(** The result of a call of [intel_pt_decode]. *)
Record intel_pt_state := mkState {
  st_type : Z; st_err : Z; st_from_ip : Z; st_to_ip : Z; st_cr3 : Z; st_tot_insn_cnt : Z; st_timestamp : Z;
  st_est_timestamp : Z; st_trace_nr : Z; st_flags : Z; st_insn_op : intel_pt_insn_op; st_insn_len : Z }.

Record world := mkWorld { trace : list intel_pt_buffer; calls : nat; mallocs : nat }.

Record intel_pt_decoder := mkDecoder {
  cfg :> config; inp :> input; tim :> times; flw :> flow; prg :> progress; state :> intel_pt_state; env :> world }.

(** * Assignment to a member *)

Definition upd_inp (f : input -> input) (d : intel_pt_decoder) :=
  mkDecoder (cfg d) (f (inp d)) (tim d) (flw d) (prg d) (state d) (env d).
Definition upd_tim (f : times -> times) (d : intel_pt_decoder) :=
  mkDecoder (cfg d) (inp d) (f (tim d)) (flw d) (prg d) (state d) (env d).
Definition upd_flw (f : flow -> flow) (d : intel_pt_decoder) :=
  mkDecoder (cfg d) (inp d) (tim d) (f (flw d)) (prg d) (state d) (env d).
Definition upd_prg (f : progress -> progress) (d : intel_pt_decoder) :=
  mkDecoder (cfg d) (inp d) (tim d) (flw d) (f (prg d)) (state d) (env d).
Definition upd_state (f : intel_pt_state -> intel_pt_state) (d : intel_pt_decoder) :=
  mkDecoder (cfg d) (inp d) (tim d) (flw d) (prg d) (f (state d)) (env d).
Definition upd_env (f : world -> world) (d : intel_pt_decoder) :=
  mkDecoder (cfg d) (inp d) (tim d) (flw d) (prg d) (state d) (f (env d)).

Definition eta_inp (i : input) : input :=
  mkInput (buf i) (next_buf i) (pos i) (packet i) (pkt_step i) (pkt_len i) (last_packet_type i).
Definition eta_tim (t : times) : times :=
  mkTimes (have_tma t) (have_cyc t) (timestamp t) (tsc_timestamp t) (ref_timestamp t) (ctc_timestamp t)
    (ctc_delta t) (cycle_cnt t) (cyc_ref_timestamp t) (last_mtc t) (cbr t) (cbr_cyc_to_tsc t)
    (calc_cyc_to_tsc t) (have_calc_cyc_to_tsc t) (timestamp_insn_cnt t).
Definition eta_flw (f : flow) : flow :=
  mkFlow (pge f) (last_ip f) (ip f) (cr3 f) (ret_addr f) (stack f) (pkt_state f) (tnt f) (exec_mode f) (overflow f)
    (set_fup_tx_flags f) (fup_tx_flags f) (tx_flags f).
Definition eta_prg (p : progress) : progress :=
  mkProgress (stuck_ip p) (no_progress p) (stuck_ip_prd p) (stuck_ip_cnt p) (mtc_insn p) (tot_insn_cnt p)
    (period_insn_cnt p) (last_masked_timestamp p) (continuous_period p).
Definition eta_state (s : intel_pt_state) : intel_pt_state :=
  mkState (st_type s) (st_err s) (st_from_ip s) (st_to_ip s) (st_cr3 s) (st_tot_insn_cnt s) (st_timestamp s)
    (st_est_timestamp s) (st_trace_nr s) (st_flags s) (st_insn_op s) (st_insn_len s).
Definition eta_env (w : world) : world := mkWorld (trace w) (calls w) (mallocs w).

(** How to assign to the member [p] of the group [G]. *)
Class Member {G T : Type} (p : G -> T) := assign : T -> intel_pt_decoder -> intel_pt_decoder.

(** [eta] with the occurrence of [p] replaced by a constant. *)
Ltac member eta upd p :=
  let e := eval unfold eta in eta in
  match eval pattern p in e with ?s _ => exact (fun v => upd (s (fun _ => v))) end.

#[global] Hint Extern 1 (@Member input _ ?p) => member eta_inp upd_inp p : typeclass_instances.
#[global] Hint Extern 1 (@Member times _ ?p) => member eta_tim upd_tim p : typeclass_instances.
#[global] Hint Extern 1 (@Member flow _ ?p) => member eta_flw upd_flw p : typeclass_instances.
#[global] Hint Extern 1 (@Member progress _ ?p) => member eta_prg upd_prg p : typeclass_instances.
#[global] Hint Extern 1 (@Member intel_pt_state _ ?p) => member eta_state upd_state p : typeclass_instances.
#[global] Hint Extern 1 (@Member world _ ?p) => member eta_env upd_env p : typeclass_instances.

Declare Scope member_scope.
Notation "d <| p := v |>" := (assign (p := p) v d) (at level 1, left associativity, p constr at level 200, v at level 200)
  : member_scope.
#[global] Open Scope member_scope.

(** Sequencing, with the state known before the rest is read. *)
Definition obind {A B} (m : option A) (k : A -> option B) : option B :=
  match m with Some x => k x | None => None end.
Notation "'let?' x ':=' m 'in' k" := (obind m (fun x => k))
  (at level 10, x pattern, m at level 100, k at level 200) : member_scope.

Definition nz (x : Z) : bool := negb (x =? 0).
Definition is_type (t t' : intel_pt_pkt_type) : bool := bool_decide (t = t').

(** * Creation *)

(** [for (i = 0; x != 1; i++) x >>= 1;] *)
Fixpoint power_loop (fuel : nat) (x i : Z) : option (Z * Z) :=
  if x =? 1 then Some (x, i) else
  match fuel with
  | O => None
  | S fuel => power_loop fuel (Z.shiftr x 1) (i + 1)
  end.

(** A non-zero 64-bit number is 1 after at most 63 rounds. *)
Definition intel_pt_lower_power_of_2 (x : Z) : option Z :=
  let? (x, i) := power_loop 63 x 0 in Some (u64 (Z.shiftl x i)).

Definition intel_pt_setup_period (c : config) : option config :=
  if bool_decide (period_type c = INTEL_PT_PERIOD_TICKS) then
    let? p := intel_pt_lower_power_of_2 (period c) in
    Some (mkConfig (return_compression c) (period c) (period_type c) (u64 (Z.lnot (u64 (p - 1)))) p
      (tsc_ctc_ratio_n c) (tsc_ctc_ratio_d c) (tsc_ctc_mult c) (tsc_slip c) (ctc_rem_mask c) (mtc_shift c)
      (max_non_turbo_ratio c) (max_non_turbo_ratio_fp c))
  else Some c.

Definition multdiv (t n d : Z) : Z :=
  if d =? 0 then 0 else u64 (u64 ((t / d) * n) + u64 ((t mod d) * n) / d).

(** [struct intel_pt_params]; of the callbacks only whether they are given. *)
Record intel_pt_params := mkParams {
  p_get_trace : bool; p_walk_insn : bool; p_return_compression : bool; p_period : Z;
  p_period_type : intel_pt_period_type; p_max_non_turbo_ratio : Z; p_mtc_period : Z; p_tsc_ctc_ratio_n : Z;
  p_tsc_ctc_ratio_d : Z }.

(** What [zalloc] leaves in the members that [intel_pt_decoder_new] does not
    set. *)
Definition zeroed (c : config) (w : world) : intel_pt_decoder :=
  mkDecoder c
    (mkInput [] None 0 zero_pkt 0 0 INTEL_PT_BAD)
    (mkTimes false false 0 0 0 0 0 0 0 0 0 CDouble.zero CDouble.zero false 0)
    (mkFlow false 0 0 0 0 empty_stack INTEL_PT_STATE_NO_PSB zero_pkt 0 false false 0 0)
    (mkProgress 0 0 0 0 false 0 0 0 false)
    (mkState 0 0 0 0 0 0 0 0 0 0 INTEL_PT_OP_OTHER 0)
    w.

(** The configuration; [int] shifts by at most 29 are defined. *)
Definition new_config (params : intel_pt_params) : option config :=
  let c := mkConfig (p_return_compression params) (p_period params) (p_period_type params) 0 0 0 0 0 0 0 0
             (p_max_non_turbo_ratio params) (of_Z (p_max_non_turbo_ratio params)) in
  let? c := intel_pt_setup_period c in
  let shift := s32 (p_mtc_period params) in
  ub_unless ((0 <=? shift) && (shift <=? 30))
  (let rem_mask := Z.shiftl 1 shift - 1 in
   let n := p_tsc_ctc_ratio_n params in
   let den := if n =? 0 then 0 else p_tsc_ctc_ratio_d params in
   ub_unless ((den =? 0) || (shift <=? 29))
   (let mult := if negb (den =? 0) && (n mod den =? 0) then n / den else 0 in
    let slip := if den =? 0 then 0 else u32 (multdiv (Z.shiftl 2 shift) n den) in
    let slip := if slip <? 0x100 then 0x100 else slip in
    Some (mkConfig (return_compression c) (period c) (period_type c) (period_mask c) (period_ticks c) n den mult slip
      rem_mask shift (max_non_turbo_ratio c) (max_non_turbo_ratio_fp c)))).

(** [zalloc_ok]: whether there is memory.  A result [Some None] is [NULL]. *)
Definition intel_pt_decoder_new (zalloc_ok : bool) (params : intel_pt_params) (w : world) : option (option intel_pt_decoder) :=
  if negb (p_get_trace params) || negb (p_walk_insn params) then Some None else
  if negb zalloc_ok then Some None else
  let? c := new_config params in Some (Some (zeroed c w)).

Definition intel_pt_decoder_free (d : intel_pt_decoder) : option intel_pt_decoder :=
  let? s := intel_pt_free_stack (stack d) in Some (d <| stack := s |>).

(** * Errors *)

Definition intel_pt_ext_err (code : Z) : Z :=
  if code =? - ENOMEM then INTEL_PT_ERR_NOMEM else
  if code =? - ENOSYS then INTEL_PT_ERR_INTERN else
  if code =? - EBADMSG then INTEL_PT_ERR_BADPKT else
  if code =? - ENODATA then INTEL_PT_ERR_NODATA else
  if code =? - EILSEQ then INTEL_PT_ERR_NOINSN else
  if code =? - ENOENT then INTEL_PT_ERR_MISMAT else
  if code =? - EOVERFLOW then INTEL_PT_ERR_OVR else
  if code =? - ENOSPC then INTEL_PT_ERR_LOST else
  if code =? - ELOOP then INTEL_PT_ERR_NELOOP else
  INTEL_PT_ERR_UNK.

(** * Instruction pointers *)

Definition intel_pt_calc_ip (packet : intel_pt_pkt) (last_ip : Z) : Z :=
  if count packet =? 1 then Z.lor (Z.land last_ip 0xffffffffffff0000) (payload packet) else
  if count packet =? 2 then Z.lor (Z.land last_ip 0xffffffff00000000) (payload packet) else
  if count packet =? 3 then
    let ip := payload packet in
    if tst ip 0x800000000000 then Z.lor ip 0xffff000000000000 else ip
  else
  if count packet =? 4 then Z.lor (Z.land last_ip 0xffff000000000000) (payload packet) else
  if count packet =? 6 then payload packet else
  0.

Definition intel_pt_set_last_ip (d : intel_pt_decoder) : intel_pt_decoder :=
  d <| last_ip := intel_pt_calc_ip (packet d) (last_ip d) |>.

Definition intel_pt_set_ip (d : intel_pt_decoder) : intel_pt_decoder :=
  let d := intel_pt_set_last_ip d in d <| ip := last_ip d |>.

Definition intel_pt_bug (d : intel_pt_decoder) : Z * intel_pt_decoder :=
  (- ENOSYS, d <| pkt_state := INTEL_PT_STATE_NO_PSB |>).

Definition intel_pt_clear_tx_flags (d : intel_pt_decoder) : intel_pt_decoder := d <| tx_flags := 0 |>.

Definition intel_pt_update_in_tx (d : intel_pt_decoder) : intel_pt_decoder :=
  d <| tx_flags := Z.land (payload (packet d)) INTEL_PT_IN_TX |>.

(** * Fetching packets *)

(** [INTEL_PT_STATE_ERR1] is the current state. *)
Definition intel_pt_bad_packet (d : intel_pt_decoder) : Z * intel_pt_decoder :=
  let d := intel_pt_clear_tx_flags d in
  let d := d <| have_tma := false |> <| pkt_len := 1 |> <| pkt_step := 1 |> in
  (- EBADMSG, d).

(** The next answer of [get_trace]. *)
Definition get_trace (d : intel_pt_decoder) : intel_pt_buffer * intel_pt_decoder :=
  match trace d with
  | [] => (no_buffer, d)
  | b :: rest => (b, d <| trace := rest |>)
  end.

Definition intel_pt_get_data (d : intel_pt_decoder) : Z * intel_pt_decoder :=
  let d := d <| pkt_step := 0 |> in
  let '(buffer, d) := get_trace d in
  if nz (b_ret buffer) then (b_ret buffer, d) else
  let d := d <| buf := b_buf buffer |> in
  match buf d with
  | [] => (- ENODATA, d)
  | _ =>
      if negb (b_consecutive buffer) then
        let d := d <| ip := 0 |> <| pkt_state := INTEL_PT_STATE_NO_PSB |> <| ref_timestamp := b_ref_timestamp buffer |>
                   <| timestamp := 0 |> <| have_tma := false |> <| st_trace_nr := b_trace_nr buffer |> in
        (- ENOLINK, d)
      else (0, d)
  end.

Definition intel_pt_get_next_data (d : intel_pt_decoder) : Z * intel_pt_decoder :=
  match next_buf d with
  | None => intel_pt_get_data d
  | Some b => (0, d <| buf := b |> <| next_buf := None |>)
  end.

(** [temp_buf] holds [INTEL_PT_PKT_MAX_SZ] bytes. *)
Definition intel_pt_get_split_packet (d : intel_pt_decoder) : option (Z * intel_pt_decoder) :=
  let old := buf d in
  let old_len := Z.of_nat (length old) in
  ub_unless (old_len <=? INTEL_PT_PKT_MAX_SZ)
  (let '(ret, d) := intel_pt_get_data d in
   if nz ret then Some (if ret <? 0 then ret else - EINVAL, d <| pos := u64 (pos d + old_len) |>) else
   let n := INTEL_PT_PKT_MAX_SZ - old_len in
   let n := if n >? Z.of_nat (length (buf d)) then Z.of_nat (length (buf d)) else n in
   let temp_buf := old ++ take (Z.to_nat n) (buf d) in
   let? (ret, pkt) := intel_pt_get_packet temp_buf (old_len + n) in
   let d := d <| packet := pkt |> in
   if ret <? old_len then
     Some (intel_pt_bad_packet (d <| next_buf := Some (buf d) |> <| buf := old |>))
   else
     Some (ret, d <| next_buf := Some (drop (Z.to_nat (ret - old_len)) (buf d)) |>
                  <| buf := take (Z.to_nat ret) temp_buf |>)).

(** [decoder->pos += decoder->pkt_step; decoder->buf += decoder->pkt_step;
    decoder->len -= decoder->pkt_step;], undefined when that leaves the
    buffer. *)
Definition step_packet (d : intel_pt_decoder) : option intel_pt_decoder :=
  ub_unless ((0 <=? pkt_step d) && (pkt_step d <=? Z.of_nat (length (buf d))))
  (Some (d <| pos := u64 (pos d + pkt_step d) |> <| buf := drop (Z.to_nat (pkt_step d)) (buf d) |>)).

(** The rest of a round of the loop below: the packet at [decoder->buf]. *)
Definition fetch_packet (d : intel_pt_decoder) : option (Z * intel_pt_decoder) :=
  let len := Z.of_nat (length (buf d)) in
  let? (ret, pkt) := intel_pt_get_packet (buf d) len in
  let d := d <| packet := pkt |> in
  let split := (ret =? INTEL_PT_NEED_MORE_BYTES) && (len <? INTEL_PT_PKT_MAX_SZ)
               && match next_buf d with None => true | Some _ => false end in
  let? (ret, d) := if split then intel_pt_get_split_packet d else Some (ret, d) in
  if split && (ret <? 0) then Some (ret, d) else
  if ret <=? 0 then Some (intel_pt_bad_packet d) else
  Some (0, d <| pkt_len := ret |> <| pkt_step := ret |>).

(** [do ... while (decoder->packet.type == INTEL_PT_PAD)] *)
Fixpoint next_packet_loop (fuel : nat) (d : intel_pt_decoder) : option (Z * intel_pt_decoder) :=
  match fuel with
  | O => None
  | S fuel =>
      let? d := step_packet d in
      let '(ret, d) := match buf d with [] => intel_pt_get_next_data d | _ => (0, d) end in
      if nz ret then Some (ret, d) else
      let? (ret, d) := fetch_packet d in
      if nz ret then Some (ret, d) else
      if is_type (type (packet d)) INTEL_PT_PAD then next_packet_loop fuel d else Some (0, d)
  end.

Definition intel_pt_get_next_packet (fuel : nat) (d : intel_pt_decoder) : option (Z * intel_pt_decoder) :=
  next_packet_loop fuel (d <| last_packet_type := type (packet d) |>).

(** * Timestamps *)

(** [struct intel_pt_pkt_info] without what it copies from the decoder and
    without [pos], which is only logged. *)
Record intel_pt_pkt_info := mkInfo { pi_packet : intel_pt_pkt; pi_last_packet_type : intel_pt_pkt_type }.

(** Look ahead in the current buffer; the callback works on a state [S]. *)
Fixpoint lookahead_loop {S} (fuel : nat) (cb : intel_pt_pkt_info -> S -> option (Z * S)) (buf : list Z) (pkt_len : Z)
    (last : intel_pt_pkt_type) (s : S) : option (Z * S) :=
  match fuel with
  | O => None
  | Datatypes.S fuel =>
      ub_unless ((0 <=? pkt_len) && (pkt_len <=? Z.of_nat (length buf)))
      (let buf := drop (Z.to_nat pkt_len) buf in
       match buf with
       | [] => Some (INTEL_PT_NEED_MORE_BYTES, s)
       | _ =>
           let? (ret, pkt) := intel_pt_get_packet buf (Z.of_nat (length buf)) in
           if ret =? 0 then Some (INTEL_PT_NEED_MORE_BYTES, s) else
           if ret <? 0 then Some (ret, s) else
           if is_type (type pkt) INTEL_PT_PAD then lookahead_loop fuel cb buf ret last s else
           let? (stop, s) := cb (mkInfo pkt last) s in
           if nz stop then Some (0, s) else lookahead_loop fuel cb buf ret (type pkt) s
       end)
  end.

(** Every round but the last one consumes a byte. *)
Definition intel_pt_pkt_lookahead {S} (cb : intel_pt_pkt_info -> S -> option (Z * S)) (d : intel_pt_decoder) (s : S)
    : option (Z * S) :=
  lookahead_loop (Datatypes.S (length (buf d))) cb (buf d) (pkt_step d) (last_packet_type d) s.

Record intel_pt_calc_cyc_to_tsc_info := mkCyc {
  c_cycle_cnt : Z; c_cbr : Z; c_last_mtc : Z; c_ctc_timestamp : Z; c_ctc_delta : Z; c_tsc_timestamp : Z;
  c_timestamp : Z; c_have_tma : bool; c_from_mtc : bool; c_cbr_cyc_to_tsc : double }.

(** The times of an MTC packet: [ctc_timestamp] plus [ctc_delta] converted. *)
Definition ctc_time (c : config) (ctc_timestamp ctc_delta : Z) : Z :=
  if nz (tsc_ctc_mult c) then u64 (ctc_timestamp + u64 (ctc_delta * tsc_ctc_mult c))
  else u64 (ctc_timestamp + multdiv ctc_delta (tsc_ctc_ratio_n c) (tsc_ctc_ratio_d c)).

(** [mtc > last_mtc ? mtc - last_mtc : mtc + 256 - last_mtc], shifted; undefined
    when the shift is. *)
Definition mtc_ticks (c : config) (mtc last_mtc : Z) : option Z :=
  let delta := if mtc >? last_mtc then u32 (mtc - last_mtc) else u32 (mtc + 256 - last_mtc) in
  ub_unless ((0 <=? mtc_shift c) && (mtc_shift c <? 32)) (Some (u32 (Z.shiftl delta (mtc_shift c)))).

(** The CTC base of a TMA packet: [last_mtc] and [ctc_timestamp]. *)
Definition tma_base (c : config) (packet : intel_pt_pkt) (tsc_timestamp : Z) : option (Z * Z) :=
  let ctc := u32 (payload packet) in
  let fc := u32 (count packet) in
  let ctc_rem := Z.land ctc (ctc_rem_mask c) in
  ub_unless ((0 <=? mtc_shift c) && (mtc_shift c <? 32))
  (let last_mtc := Z.land (Z.shiftr ctc (mtc_shift c)) 0xff in
   let ctc_timestamp := u64 (tsc_timestamp - fc) in
   let ctc_timestamp :=
     if nz (tsc_ctc_mult c) then u64 (ctc_timestamp - u32 (ctc_rem * tsc_ctc_mult c))
     else u64 (ctc_timestamp - multdiv ctc_rem (tsc_ctc_ratio_n c) (tsc_ctc_ratio_d c)) in
   Some (last_mtc, ctc_timestamp)).

(** The end of [intel_pt_calc_cyc_cb], behind the switch: always stops. *)
Definition calc_cyc_finish (timestamp0 : Z) (data : intel_pt_calc_cyc_to_tsc_info) (d : intel_pt_decoder)
    : intel_pt_calc_cyc_to_tsc_info * intel_pt_decoder :=
  let data := if (c_cbr data =? 0) && nz (cbr d)
    then mkCyc (c_cycle_cnt data) (cbr d) (c_last_mtc data) (c_ctc_timestamp data) (c_ctc_delta data)
           (c_tsc_timestamp data) (c_timestamp data) (c_have_tma data) (c_from_mtc data) (cbr_cyc_to_tsc d)
    else data in
  if c_cycle_cnt data =? 0 then (data, d) else
  let cyc_to_tsc := CDouble.div (of_Z (u64 (timestamp0 - timestamp d))) (of_Z (c_cycle_cnt data)) in
  if nz (c_cbr data) && CDouble.gt cyc_to_tsc (c_cbr_cyc_to_tsc data)
     && CDouble.gt (CDouble.div cyc_to_tsc (c_cbr_cyc_to_tsc data)) five_quarters
  then (data, d)
  else (data, d <| calc_cyc_to_tsc := cyc_to_tsc |> <| have_calc_cyc_to_tsc := true |>).

Definition intel_pt_calc_cyc_cb (pi : intel_pt_pkt_info) (s : intel_pt_calc_cyc_to_tsc_info * intel_pt_decoder)
    : option (Z * (intel_pt_calc_cyc_to_tsc_info * intel_pt_decoder)) :=
  let '(data, d) := s in
  let pkt := pi_packet pi in
  let cyc_before := is_type (pi_last_packet_type pi) INTEL_PT_CYC in
  match type pkt with
  | INTEL_PT_TNT | INTEL_PT_TIP_PGE | INTEL_PT_TIP | INTEL_PT_FUP | INTEL_PT_PSB | INTEL_PT_PIP | INTEL_PT_MODE_EXEC
  | INTEL_PT_MODE_TSX | INTEL_PT_PSBEND | INTEL_PT_PAD | INTEL_PT_VMCS | INTEL_PT_MNT => Some (0, s)
  | INTEL_PT_MTC =>
      if negb (c_have_tma data) then Some (0, s) else
      let mtc := u32 (payload pkt) in
      let? ticks := mtc_ticks d mtc (c_last_mtc data) in
      let ctc_delta := u64 (c_ctc_delta data + ticks) in
      let timestamp := ctc_time d (c_ctc_timestamp data) ctc_delta in
      let upd ts := mkCyc (c_cycle_cnt data) (c_cbr data) mtc (c_ctc_timestamp data) ctc_delta (c_tsc_timestamp data)
                      ts (c_have_tma data) (c_from_mtc data) (c_cbr_cyc_to_tsc data) in
      if timestamp <? c_timestamp data then Some (1, (upd (c_timestamp data), d)) else
      if negb cyc_before then Some (0, (upd timestamp, d)) else
      Some (1, calc_cyc_finish timestamp (upd (c_timestamp data)) d)
  | INTEL_PT_TSC =>
      let timestamp := Z.lor (payload pkt) (Z.land (c_timestamp data) (0xff * 2 ^ 56)) in
      if c_from_mtc data && (timestamp <? c_timestamp data) && (u64 (c_timestamp data - timestamp) <? tsc_slip d)
      then Some (1, s) else
      let timestamp := if timestamp <? c_timestamp data then u64 (timestamp + 2 ^ 56) else timestamp in
      if negb cyc_before then
        if c_from_mtc data then Some (1, s) else
        Some (0, (mkCyc (c_cycle_cnt data) (c_cbr data) (c_last_mtc data) (c_ctc_timestamp data) (c_ctc_delta data)
                    timestamp timestamp (c_have_tma data) (c_from_mtc data) (c_cbr_cyc_to_tsc data), d))
      else Some (1, calc_cyc_finish timestamp data d)
  | INTEL_PT_TMA =>
      if c_from_mtc data then Some (1, s) else
      if tsc_ctc_ratio_d d =? 0 then Some (0, s) else
      let? (last_mtc, ctc_timestamp) := tma_base d pkt (c_tsc_timestamp data) in
      Some (0, (mkCyc (c_cycle_cnt data) (c_cbr data) last_mtc ctc_timestamp 0 (c_tsc_timestamp data) (c_timestamp data)
                  true (c_from_mtc data) (c_cbr_cyc_to_tsc data), d))
  | INTEL_PT_CYC =>
      Some (0, (mkCyc (u64 (c_cycle_cnt data + payload pkt)) (c_cbr data) (c_last_mtc data) (c_ctc_timestamp data)
                  (c_ctc_delta data) (c_tsc_timestamp data) (c_timestamp data) (c_have_tma data) (c_from_mtc data)
                  (c_cbr_cyc_to_tsc data), d))
  | INTEL_PT_CBR =>
      let cbr := u32 (payload pkt) in
      if nz (c_cbr data) && negb (c_cbr data =? cbr) then Some (1, s) else
      Some (0, (mkCyc (c_cycle_cnt data) cbr (c_last_mtc data) (c_ctc_timestamp data) (c_ctc_delta data)
                  (c_tsc_timestamp data) (c_timestamp data) (c_have_tma data) (c_from_mtc data)
                  (CDouble.div (max_non_turbo_ratio_fp d) (of_Z cbr)), d))
  | INTEL_PT_TIP_PGD | INTEL_PT_TRACESTOP | INTEL_PT_OVF | INTEL_PT_BAD => Some (1, s)
  end.

Definition intel_pt_calc_cyc_to_tsc (from_mtc : bool) (d : intel_pt_decoder) : option intel_pt_decoder :=
  let data := mkCyc 0 0 (last_mtc d) (ctc_timestamp d) (ctc_delta d) (tsc_timestamp d) (timestamp d) (have_tma d)
                from_mtc CDouble.zero in
  let? (_, (_, d)) := intel_pt_pkt_lookahead intel_pt_calc_cyc_cb d (data, d) in Some d.

(** The start of a new reference for cycle counts, in the two functions below. *)
Definition cyc_reference (from_mtc : bool) (d : intel_pt_decoder) : option intel_pt_decoder :=
  if is_type (last_packet_type d) INTEL_PT_CYC then
    intel_pt_calc_cyc_to_tsc from_mtc
      (d <| cyc_ref_timestamp := timestamp d |> <| cycle_cnt := 0 |> <| have_calc_cyc_to_tsc := false |>)
  else Some d.

Definition intel_pt_calc_tsc_timestamp (d : intel_pt_decoder) : option intel_pt_decoder :=
  let d := d <| have_tma := false |> in
  let d :=
    if nz (ref_timestamp d) then
      let ref := ref_timestamp d in
      let ts := Z.lor (payload (packet d)) (Z.land ref (0xff * 2 ^ 56)) in
      let ts := if ts <? ref then if u64 (ref - ts) >? 2 ^ 55 then u64 (ts + 2 ^ 56) else ts
                else if u64 (ts - ref) >? 2 ^ 55 then u64 (ts - 2 ^ 56) else ts in
      d <| tsc_timestamp := ts |> <| timestamp := ts |> <| ref_timestamp := 0 |> <| timestamp_insn_cnt := 0 |>
    else if nz (timestamp d) then
      let ts := Z.lor (payload (packet d)) (Z.land (timestamp d) (0xff * 2 ^ 56)) in
      let d := d <| tsc_timestamp := ts |> in
      let ts := if (ts <? timestamp d) && (u64 (timestamp d - ts) <? tsc_slip d) then timestamp d else ts in
      let '(ts, d) := if ts <? timestamp d
        then let ts := u64 (ts + 2 ^ 56) in (ts, d <| tsc_timestamp := ts |>) else (ts, d) in
      d <| timestamp := ts |> <| timestamp_insn_cnt := 0 |>
    else d in
  cyc_reference false d.

Definition intel_pt_overflow (d : intel_pt_decoder) : Z * intel_pt_decoder :=
  let d := intel_pt_clear_tx_flags d in
  (- EOVERFLOW, d <| have_tma := false |> <| cbr := 0 |> <| pkt_state := INTEL_PT_STATE_ERR_RESYNC |>
                  <| overflow := true |>).

Definition intel_pt_calc_tma (d : intel_pt_decoder) : option intel_pt_decoder :=
  if tsc_ctc_ratio_d d =? 0 then Some d else
  let? (last_mtc0, ctc) := tma_base d (packet d) (tsc_timestamp d) in
  Some (d <| last_mtc := last_mtc0 |> <| ctc_timestamp := ctc |> <| ctc_delta := 0 |> <| have_tma := true |>).

Definition intel_pt_calc_mtc_timestamp (d : intel_pt_decoder) : option intel_pt_decoder :=
  if negb (have_tma d) then Some d else
  let mtc := u32 (payload (packet d)) in
  let? ticks := mtc_ticks d mtc (last_mtc d) in
  let d := d <| ctc_delta := u64 (ctc_delta d + ticks) |> in
  let ts := ctc_time d (ctc_timestamp d) (ctc_delta d) in
  let d := if ts <? timestamp d then d else d <| timestamp := ts |> in
  cyc_reference true (d <| timestamp_insn_cnt := 0 |> <| last_mtc := mtc |>).

Definition intel_pt_calc_cbr (d : intel_pt_decoder) : intel_pt_decoder :=
  let cbr0 := u32 (payload (packet d)) in
  if cbr d =? cbr0 then d else
  d <| cbr := cbr0 |> <| cbr_cyc_to_tsc := CDouble.div (max_non_turbo_ratio_fp d) (of_Z cbr0) |>.

(** [timestamp += cycle_cnt * rate]: the addition is one of [double]s. *)
Definition add_cycles `{!PtEnv} (ts cycles : Z) (rate : double) : option Z :=
  to_u64 cvt_oob (CDouble.add (of_Z ts) (CDouble.mul (of_Z cycles) rate)).

(** The rate that the function below uses. *)
Definition cyc_rate (d : intel_pt_decoder) : option double :=
  if have_calc_cyc_to_tsc d then Some (calc_cyc_to_tsc d)
  else if nz (cbr d) then Some (cbr_cyc_to_tsc d) else None.

Definition intel_pt_calc_cyc_timestamp `{!PtEnv} (d : intel_pt_decoder) : option intel_pt_decoder :=
  let d := d <| have_cyc := true |> <| cycle_cnt := u64 (cycle_cnt d + payload (packet d)) |> in
  if cyc_ref_timestamp d =? 0 then Some d else
  match cyc_rate d with
  | None => Some d
  | Some rate =>
      let? ts := add_cycles (cyc_ref_timestamp d) (cycle_cnt d) rate in
      Some (if ts <? timestamp d then d else d <| timestamp := ts |>)
  end.

(** * Walking instructions *)

Definition intel_pt_next_period (d : intel_pt_decoder) : Z * intel_pt_decoder :=
  let ts := u64 (timestamp d + timestamp_insn_cnt d) in
  let masked := Z.land ts (period_mask d) in
  if continuous_period d then
    if negb (masked =? last_masked_timestamp d) then (1, d)
    else (u64 (period_ticks d - u64 (ts - masked)), d)
  else
    let ts := u64 (ts + 1) in
    let masked := Z.land ts (period_mask d) in
    let d := if negb (masked =? last_masked_timestamp d)
             then d <| last_masked_timestamp := masked |> <| continuous_period := true |> else d in
    (u64 (period_ticks d - u64 (ts - masked)), d).

Definition intel_pt_next_sample (d : intel_pt_decoder) : Z * intel_pt_decoder :=
  match period_type d with
  | INTEL_PT_PERIOD_INSTRUCTIONS => (u64 (period d - period_insn_cnt d), d)
  | INTEL_PT_PERIOD_TICKS => intel_pt_next_period d
  | INTEL_PT_PERIOD_NONE | INTEL_PT_PERIOD_MTC => (0, d)
  end.

Definition intel_pt_sample_insn (d : intel_pt_decoder) : intel_pt_decoder :=
  let d := match period_type d with
    | INTEL_PT_PERIOD_INSTRUCTIONS => d <| period_insn_cnt := 0 |>
    | INTEL_PT_PERIOD_TICKS =>
        d <| last_masked_timestamp := Z.land (u64 (timestamp d + timestamp_insn_cnt d)) (period_mask d) |>
    | INTEL_PT_PERIOD_NONE | INTEL_PT_PERIOD_MTC => d
    end in
  d <| st_type := Z.lor (st_type d) INTEL_PT_INSTRUCTION |>.

(** The call of [decoder->walk_insn] and the counters behind it. *)
Definition call_walk_insn `{!PtEnv} (d : intel_pt_decoder) (to_ip max_insn_cnt : Z) : walk_answer * intel_pt_decoder :=
  let a := walk_insn_cb (calls d) (ip d) to_ip max_insn_cnt in
  let d := d <| calls := S (calls d) |> <| ip := a_ip a |> in
  (a, d <| tot_insn_cnt := u64 (tot_insn_cnt d + a_insn_cnt a) |>
        <| timestamp_insn_cnt := u64 (timestamp_insn_cnt d + a_insn_cnt a) |>
        <| period_insn_cnt := u64 (period_insn_cnt d + a_insn_cnt a) |>).

(** The label [out_no_progress], and [out] in front of it. *)
Definition out_no_progress (insn : intel_pt_insn) (err : Z) (d : intel_pt_decoder) : Z * intel_pt_insn * intel_pt_decoder :=
  let d := d <| st_insn_op := op insn |> <| st_insn_len := length_ insn |> in
  let d := if tst (tx_flags d) INTEL_PT_IN_TX then d <| st_flags := Z.lor (st_flags d) INTEL_PT_IN_TX |> else d in
  (err, insn, d).

Definition out (insn : intel_pt_insn) (err : Z) (d : intel_pt_decoder) : Z * intel_pt_insn * intel_pt_decoder :=
  out_no_progress insn err (d <| no_progress := 0 |>).

(** [intel_pt_insn->length + intel_pt_insn->rel], an [int]. *)
Definition branch_offset (insn : intel_pt_insn) : option Z :=
  let v := length_ insn + rel insn in
  ub_unless ((- 2 ^ 31 <=? v) && (v <? 2 ^ 31)) (Some v).

(** [intel_pt_push(&decoder->stack, ip)] *)
Definition push_ip `{!PtEnv} (a : Z) (d : intel_pt_decoder) : option (Z * intel_pt_decoder) :=
  let? (err, s) := intel_pt_push (malloc_cb (mallocs d)) (stack d) a in
  Some (err, d <| stack := s |> <| mallocs := S (mallocs d) |>).

(** An unconditional branch, with the check for never-ending loops. *)
Definition walk_unconditional (insn : intel_pt_insn) (d : intel_pt_decoder) : option (Z * intel_pt_insn * intel_pt_decoder) :=
  let cnt := no_progress d in
  let d := d <| no_progress := cnt + 1 |> <| st_from_ip := ip d |> in
  let? off := branch_offset insn in
  let d := d <| ip := u64 (ip d + off) |> in
  let d := d <| st_to_ip := ip d |> in
  if cnt =? 0 then Some (out_no_progress insn INTEL_PT_RETURN d) else
  if cnt =? 1 then
    Some (out_no_progress insn INTEL_PT_RETURN
      (d <| stuck_ip := st_to_ip d |> <| stuck_ip_prd := 1 |> <| stuck_ip_cnt := 1 |>))
  else if (cnt >? INTEL_PT_MAX_LOOPS) || (st_to_ip d =? stuck_ip d) then
    Some (out insn (- ELOOP) (d <| pkt_state := INTEL_PT_STATE_ERR_RESYNC |>))
  else
    let d := d <| stuck_ip_cnt := stuck_ip_cnt d - 1 |> in
    let d := if stuck_ip_cnt d =? 0 then
        let d := d <| stuck_ip_prd := stuck_ip_prd d + 1 |> in
        d <| stuck_ip_cnt := stuck_ip_prd d |> <| stuck_ip := st_to_ip d |>
      else d in
    Some (out_no_progress insn INTEL_PT_RETURN d).

(** The rest of the function below, for an instruction that is a branch. *)
Definition walk_branch `{!PtEnv} (insn : intel_pt_insn) (d : intel_pt_decoder) : option (Z * intel_pt_insn * intel_pt_decoder) :=
  let call := bool_decide (op insn = INTEL_PT_OP_CALL) in
  let unconditional := bool_decide (branch insn = INTEL_PT_BR_UNCONDITIONAL) in
  let? (err, d) :=
    if call then
      if negb unconditional || nz (rel insn) then push_ip (u64 (ip d + length_ insn)) d else Some (0, d)
    else if bool_decide (op insn = INTEL_PT_OP_RET) then
      let? (a, s) := intel_pt_pop (stack d) in Some (0, d <| ret_addr := a |> <| stack := s |>)
    else Some (0, d) in
  if call && nz err then Some (out insn err d) else
  if unconditional then walk_unconditional insn d else
  Some (out insn 0 d).

Definition intel_pt_walk_insn `{!PtEnv} (d : intel_pt_decoder) (ip0 : Z) : option (Z * intel_pt_insn * intel_pt_decoder) :=
  let d := if negb (mtc_insn d) then d <| mtc_insn := true |> else d in
  let '(max_insn_cnt, d) := intel_pt_next_sample d in
  let '(a, d) := call_walk_insn d ip0 max_insn_cnt in
  let insn := a_insn a in
  if nz (a_err a) then
    let d := d <| no_progress := 0 |> <| pkt_state := INTEL_PT_STATE_NO_IP |> in
    Some (if a_err a =? - ENOENT then - ENOLINK else - EILSEQ, insn, d)
  else if nz ip0 && (ip d =? ip0) then Some (out insn (- EAGAIN) d)
  else
    let d := if nz max_insn_cnt && (a_insn_cnt a >=? max_insn_cnt) then intel_pt_sample_insn d else d in
    if bool_decide (branch insn = INTEL_PT_BR_NO_BRANCH) then
      let d := d <| st_type := INTEL_PT_INSTRUCTION |> <| st_from_ip := ip d |> <| st_to_ip := 0 |> in
      Some (out insn INTEL_PT_RETURN (d <| ip := u64 (ip d + length_ insn) |>))
    else walk_branch insn d.

(** The error exits: [ERR2] is [NO_IP], [ERR3] is [ERR_RESYNC] and [ERR4] is
    [IN_SYNC]. *)
Definition mismatch (d : intel_pt_decoder) : Z * intel_pt_decoder :=
  (- ENOENT, d <| pkt_state := INTEL_PT_STATE_ERR_RESYNC |>).

(** The loop goes round again only behind [intel_pt_bug]. *)
Fixpoint walk_fup_loop `{!PtEnv} (fuel : nat) (ip0 : Z) (d : intel_pt_decoder) : option (Z * intel_pt_decoder) :=
  match fuel with
  | O => None
  | S fuel =>
      let? (err, insn, d) := intel_pt_walk_insn d ip0 in
      if err =? INTEL_PT_RETURN then Some (0, d) else
      if err =? - EAGAIN then
        if set_fup_tx_flags d then
          let d := d <| set_fup_tx_flags := false |> <| tx_flags := fup_tx_flags d |> <| st_type := INTEL_PT_TRANSACTION |>
                     <| st_from_ip := ip d |> <| st_to_ip := 0 |> in
          Some (0, d <| st_flags := fup_tx_flags d |>)
        else Some (err, d)
      else
        let d := d <| set_fup_tx_flags := false |> in
        if nz err then Some (err, d) else
        if bool_decide (branch insn = INTEL_PT_BR_INDIRECT) then Some (mismatch d) else
        if bool_decide (branch insn = INTEL_PT_BR_CONDITIONAL) then Some (mismatch d) else
        walk_fup_loop fuel ip0 (intel_pt_bug d).2
  end.

Definition intel_pt_walk_fup `{!PtEnv} (d : intel_pt_decoder) : option (Z * intel_pt_decoder) :=
  walk_fup_loop 1 (last_ip d) d.

Definition intel_pt_walk_tip `{!PtEnv} (d : intel_pt_decoder) : option (Z * intel_pt_decoder) :=
  let? (err, insn, d) := intel_pt_walk_insn d 0 in
  if err =? INTEL_PT_RETURN then Some (0, d) else
  if nz err then Some (err, d) else
  if bool_decide (branch insn = INTEL_PT_BR_INDIRECT) then
    if bool_decide (pkt_state d = INTEL_PT_STATE_TIP_PGD) then
      let d := d <| pge := false |> <| continuous_period := false |> <| pkt_state := INTEL_PT_STATE_IN_SYNC |>
                 <| st_from_ip := ip d |> <| st_to_ip := 0 |> in
      Some (0, if nz (count (packet d)) then d <| ip := last_ip d |> else d)
    else
      let d := d <| pkt_state := INTEL_PT_STATE_IN_SYNC |> <| st_from_ip := ip d |> in
      Some (0, if count (packet d) =? 0 then d <| st_to_ip := 0 |>
               else d <| st_to_ip := last_ip d |> <| ip := last_ip d |>)
  else if bool_decide (branch insn = INTEL_PT_BR_CONDITIONAL) then Some (mismatch d)
  else Some (intel_pt_bug d).

(** One branch of the TNT packet is used up: [tnt.count -= 1], and the state
    when none is left. *)
Definition use_tnt (d : intel_pt_decoder) : intel_pt_decoder :=
  let d := d <| tnt := set_count (count (tnt d) - 1) (tnt d) |> in
  if count (tnt d) =? 0 then d <| pkt_state := INTEL_PT_STATE_IN_SYNC |> else d.
Definition shift_tnt (d : intel_pt_decoder) : intel_pt_decoder :=
  d <| tnt := set_payload (u64 (Z.shiftl (payload (tnt d)) 1)) (tnt d) |>.

(** A compressed return. *)
Definition tnt_ret (d : intel_pt_decoder) : Z * intel_pt_decoder :=
  if negb (return_compression d) then mismatch d else
  if ret_addr d =? 0 then mismatch d else
  if negb (tst (payload (tnt d)) BIT63) then mismatch d else
  let d := shift_tnt (use_tnt d) in
  let d := d <| st_from_ip := ip d |> <| ip := ret_addr d |> in
  (0, d <| st_to_ip := ip d |>).

(** A deferred TIP. *)
Definition tnt_indirect (fuel : nat) (d : intel_pt_decoder) : option (Z * intel_pt_decoder) :=
  let? (err, d) := intel_pt_get_next_packet fuel d in
  if nz err then Some (err, d) else
  if negb (is_type (type (packet d)) INTEL_PT_TIP) || (count (packet d) =? 0) then
    let '(err, d) := mismatch d in Some (err, d <| pkt_step := 0 |>)
  else
    let d := intel_pt_set_last_ip d in
    Some (0, d <| st_from_ip := ip d |> <| st_to_ip := last_ip d |> <| ip := last_ip d |>).

(** A conditional branch; [None] in the result is [continue]. *)
Definition tnt_conditional (insn : intel_pt_insn) (d : intel_pt_decoder) : option (option Z * intel_pt_decoder) :=
  let d := use_tnt d in
  if tst (payload (tnt d)) BIT63 then
    let d := (shift_tnt d) <| st_from_ip := ip d |> in
    let? off := branch_offset insn in
    let d := d <| ip := u64 (ip d + off) |> in
    Some (Some 0, d <| st_to_ip := ip d |>)
  else if tst (st_type d) INTEL_PT_INSTRUCTION then
    let d := (shift_tnt d) <| st_type := INTEL_PT_INSTRUCTION |> <| st_from_ip := ip d |> <| st_to_ip := 0 |> in
    Some (Some 0, d <| ip := u64 (ip d + length_ insn) |>)
  else
    let d := d <| ip := u64 (ip d + length_ insn) |> in
    if count (tnt d) =? 0 then Some (Some (- EAGAIN), d) else Some (None, shift_tnt d).

(** [n] bounds the rounds of the loop, each of which uses up a branch. *)
Fixpoint walk_tnt_loop `{!PtEnv} (n fuel : nat) (d : intel_pt_decoder) : option (Z * intel_pt_decoder) :=
  match n with
  | O => None
  | S n =>
      let? (err, insn, d) := intel_pt_walk_insn d 0 in
      if err =? INTEL_PT_RETURN then Some (0, d) else
      if nz err then Some (err, d) else
      if bool_decide (op insn = INTEL_PT_OP_RET) then Some (tnt_ret d) else
      if bool_decide (branch insn = INTEL_PT_BR_INDIRECT) then tnt_indirect fuel d else
      if bool_decide (branch insn = INTEL_PT_BR_CONDITIONAL) then
        let? (r, d) := tnt_conditional insn d in
        match r with Some err => Some (err, d) | None => walk_tnt_loop n fuel d end
      else Some (intel_pt_bug d)
  end.

Definition intel_pt_walk_tnt `{!PtEnv} (fuel : nat) (d : intel_pt_decoder) : option (Z * intel_pt_decoder) :=
  walk_tnt_loop (Z.to_nat (count (tnt d))) fuel d.

Definition intel_pt_mode_tsx (fuel : nat) (d : intel_pt_decoder) (no_tip : bool) : option (Z * bool * intel_pt_decoder) :=
  let fup := Z.land (payload (packet d)) (Z.lor INTEL_PT_IN_TX INTEL_PT_ABORT_TX) in
  let? (err, d) := intel_pt_get_next_packet fuel d in
  if nz err then Some (err, no_tip, d) else
  if is_type (type (packet d)) INTEL_PT_FUP then
    let d := d <| fup_tx_flags := fup |> <| set_fup_tx_flags := true |> in
    Some (0, if negb (tst (fup_tx_flags d) INTEL_PT_ABORT_TX) then true else no_tip, d)
  else Some (0, no_tip, intel_pt_update_in_tx d).

(** * Walking packets *)

(** How a case of a packet switch ends: with a [return], a [break] (and so the
    next round of the loop) or a [goto next]. *)
Inductive verdict := Return (err : Z) | Break | Goto_next.

(** [decoder->cr3 = decoder->packet.payload & (BIT63 - 1)] *)
Definition set_cr3 (d : intel_pt_decoder) : intel_pt_decoder := d <| cr3 := Z.land (payload (packet d)) (BIT63 - 1) |>.
(** [decoder->exec_mode = decoder->packet.payload], an [int]. *)
Definition set_exec_mode (d : intel_pt_decoder) : intel_pt_decoder := d <| exec_mode := s32 (payload (packet d)) |>.
Definition stop_trace (d : intel_pt_decoder) : intel_pt_decoder := d <| pge := false |> <| continuous_period := false |>.

(** The MTC case of the two functions below. *)
Definition mtc_sample (d : intel_pt_decoder) : option intel_pt_decoder :=
  let? d := intel_pt_calc_mtc_timestamp d in
  Some (if bool_decide (period_type d = INTEL_PT_PERIOD_MTC)
        then d <| st_type := Z.lor (st_type d) INTEL_PT_INSTRUCTION |> else d).

Definition psbend_step (d : intel_pt_decoder) : option (verdict * intel_pt_decoder) :=
  match type (packet d) with
  | INTEL_PT_PSBEND => Some (Return 0, d)
  | INTEL_PT_TIP_PGD | INTEL_PT_TIP_PGE | INTEL_PT_TIP | INTEL_PT_TNT | INTEL_PT_TRACESTOP | INTEL_PT_BAD | INTEL_PT_PSB =>
      Some (Return (- EAGAIN), d <| have_tma := false |>)
  | INTEL_PT_OVF => let '(err, d) := intel_pt_overflow d in Some (Return err, d)
  | INTEL_PT_TSC => let? d := intel_pt_calc_tsc_timestamp d in Some (Break, d)
  | INTEL_PT_TMA => let? d := intel_pt_calc_tma d in Some (Break, d)
  | INTEL_PT_CBR => Some (Break, intel_pt_calc_cbr d)
  | INTEL_PT_MODE_EXEC => Some (Break, set_exec_mode d)
  | INTEL_PT_PIP => Some (Break, set_cr3 d)
  | INTEL_PT_FUP => Some (Break, intel_pt_set_last_ip (d <| pge := true |>))
  | INTEL_PT_MODE_TSX => Some (Break, intel_pt_update_in_tx d)
  | INTEL_PT_MTC => let? d := mtc_sample d in Some (Break, d)
  | INTEL_PT_CYC | INTEL_PT_VMCS | INTEL_PT_MNT | INTEL_PT_PAD => Some (Break, d)
  end.

(** [while (1)]: the next packet, then the switch [step]. *)
Fixpoint packet_loop (step : intel_pt_decoder -> option (verdict * intel_pt_decoder)) (fuel n : nat) (d : intel_pt_decoder)
    : option (Z * intel_pt_decoder) :=
  match n with
  | O => None
  | S n =>
      let? (err, d) := intel_pt_get_next_packet fuel d in
      if nz err then Some (err, d) else
      let? (v, d) := step d in
      match v with Return err => Some (err, d) | _ => packet_loop step fuel n d end
  end.

Definition intel_pt_walk_psbend (fuel : nat) (d : intel_pt_decoder) : option (Z * intel_pt_decoder) :=
  packet_loop psbend_step fuel fuel d.

(** [state.from_ip] stays as it is set by the caller of this. *)
Definition to_packet_ip (d : intel_pt_decoder) : intel_pt_decoder :=
  if count (packet d) =? 0 then d <| st_to_ip := 0 |>
  else let d := intel_pt_set_ip d in d <| st_to_ip := ip d |>.

Section Walk.
Context `{!PtEnv}.

Definition fup_tip_step (d : intel_pt_decoder) : option (verdict * intel_pt_decoder) :=
  match type (packet d) with
  | INTEL_PT_TNT | INTEL_PT_FUP | INTEL_PT_TRACESTOP | INTEL_PT_PSB | INTEL_PT_TSC | INTEL_PT_TMA | INTEL_PT_CBR
  | INTEL_PT_MODE_TSX | INTEL_PT_BAD | INTEL_PT_PSBEND => let '(err, d) := mismatch d in Some (Return err, d)
  | INTEL_PT_OVF => let '(err, d) := intel_pt_overflow d in Some (Return err, d)
  | INTEL_PT_TIP_PGD =>
      let d := d <| st_from_ip := ip d |> <| st_to_ip := 0 |> in
      let d := if nz (count (packet d)) then intel_pt_set_ip d else d in
      Some (Return 0, stop_trace d)
  | INTEL_PT_TIP_PGE => Some (Return 0, to_packet_ip (d <| pge := true |> <| st_from_ip := 0 |>))
  | INTEL_PT_TIP => Some (Return 0, to_packet_ip (d <| st_from_ip := ip d |>))
  | INTEL_PT_PIP => Some (Break, set_cr3 d)
  | INTEL_PT_MTC => let? d := mtc_sample d in Some (Break, d)
  | INTEL_PT_CYC => let? d := intel_pt_calc_cyc_timestamp d in Some (Break, d)
  | INTEL_PT_MODE_EXEC => Some (Break, set_exec_mode d)
  | INTEL_PT_VMCS | INTEL_PT_MNT | INTEL_PT_PAD => Some (Break, d)
  end.

Definition intel_pt_walk_fup_tip (fuel : nat) (d : intel_pt_decoder) : option (Z * intel_pt_decoder) :=
  let d := if tst (tx_flags d) INTEL_PT_ABORT_TX then
      d <| tx_flags := 0 |> <| st_flags := Z.lor (Z.ldiff (st_flags d) INTEL_PT_IN_TX) INTEL_PT_ABORT_TX |>
    else d <| st_flags := Z.lor (st_flags d) INTEL_PT_ASYNC |> in
  packet_loop fup_tip_step fuel fuel d.

(** The FUP case of [intel_pt_walk_trace]. *)
Definition trace_fup (fuel : nat) (no_tip : bool) (d : intel_pt_decoder) : option (verdict * bool * intel_pt_decoder) :=
  if count (packet d) =? 0 then Some (Break, false, d) else
  let? (err, d) := intel_pt_walk_fup (intel_pt_set_last_ip d) in
  if negb (err =? - EAGAIN) then
    if nz err then Some (Return err, no_tip, d) else
    Some (Return 0, no_tip, d <| pkt_state := if no_tip then INTEL_PT_STATE_FUP_NO_TIP else INTEL_PT_STATE_FUP |>)
  else if no_tip then Some (Break, false, d)
  else let? (err, d) := intel_pt_walk_fup_tip fuel d in Some (Return err, no_tip, d).

(** The MTC case. *)
Definition trace_mtc (d : intel_pt_decoder) : option (verdict * intel_pt_decoder) :=
  let? d := intel_pt_calc_mtc_timestamp d in
  if negb (bool_decide (period_type d = INTEL_PT_PERIOD_MTC)) then Some (Break, d) else
  if negb (mtc_insn d) then Some (Break, d) else
  let d := d <| mtc_insn := false |> in
  if timestamp d =? 0 then Some (Break, d) else
  Some (Return 0, d <| st_type := INTEL_PT_INSTRUCTION |> <| st_from_ip := ip d |> <| st_to_ip := 0 |>
                    <| mtc_insn := false |>).

Definition trace_step (fuel : nat) (no_tip : bool) (d : intel_pt_decoder) : option (verdict * bool * intel_pt_decoder) :=
  let keep (r : option (verdict * intel_pt_decoder)) := let? (v, d) := r in Some (v, no_tip, d) in
  match type (packet d) with
  | INTEL_PT_TNT =>
      if count (packet d) =? 0 then keep (Some (Break, d)) else
      let? (err, d) := intel_pt_walk_tnt fuel (d <| tnt := packet d |> <| pkt_state := INTEL_PT_STATE_TNT |>) in
      keep (Some (if err =? - EAGAIN then Break else Return err, d))
  | INTEL_PT_TIP_PGD =>
      let d := if nz (count (packet d)) then intel_pt_set_last_ip d else d in
      let? (err, d) := intel_pt_walk_tip (d <| pkt_state := INTEL_PT_STATE_TIP_PGD |>) in keep (Some (Return err, d))
  | INTEL_PT_TIP_PGE =>
      let d := d <| pge := true |> in
      if count (packet d) =? 0 then keep (Some (Break, d)) else
      let d := intel_pt_set_ip d in keep (Some (Return 0, d <| st_from_ip := 0 |> <| st_to_ip := ip d |>))
  | INTEL_PT_OVF => let '(err, d) := intel_pt_overflow d in keep (Some (Return err, d))
  | INTEL_PT_TIP =>
      let d := if nz (count (packet d)) then intel_pt_set_last_ip d else d in
      let? (err, d) := intel_pt_walk_tip (d <| pkt_state := INTEL_PT_STATE_TIP |>) in keep (Some (Return err, d))
  | INTEL_PT_FUP => trace_fup fuel no_tip d
  | INTEL_PT_TRACESTOP => keep (Some (Break, (intel_pt_clear_tx_flags (stop_trace d)) <| have_tma := false |>))
  | INTEL_PT_PSB =>
      let? s := intel_pt_clear_stack (stack d) in
      let? (err, d) := intel_pt_walk_psbend fuel (d <| stack := s |>) in
      keep (Some (if err =? - EAGAIN then Goto_next else if nz err then Return err else Break, d))
  | INTEL_PT_PIP => keep (Some (Break, set_cr3 d))
  | INTEL_PT_MTC => keep (trace_mtc d)
  | INTEL_PT_TSC => let? d := intel_pt_calc_tsc_timestamp d in keep (Some (Break, d))
  | INTEL_PT_TMA => let? d := intel_pt_calc_tma d in keep (Some (Break, d))
  | INTEL_PT_CYC => let? d := intel_pt_calc_cyc_timestamp d in keep (Some (Break, d))
  | INTEL_PT_CBR => keep (Some (Break, intel_pt_calc_cbr d))
  | INTEL_PT_MODE_EXEC => keep (Some (Break, set_exec_mode d))
  | INTEL_PT_MODE_TSX =>
      if negb (pge d) then keep (Some (Break, intel_pt_update_in_tx d)) else
      let? (err, no_tip, d) := intel_pt_mode_tsx fuel d no_tip in
      Some (if nz err then Return err else Goto_next, no_tip, d)
  | INTEL_PT_BAD => let '(err, d) := intel_pt_bug d in keep (Some (Return err, d))
  | INTEL_PT_PSBEND | INTEL_PT_VMCS | INTEL_PT_MNT | INTEL_PT_PAD => keep (Some (Break, d))
  end.

(** [fetch]: whether the round starts with the next packet or at [next]. *)
Fixpoint walk_trace_loop (fuel n : nat) (fetch no_tip : bool) (d : intel_pt_decoder) : option (Z * intel_pt_decoder) :=
  match n with
  | O => None
  | S n =>
      let? (err, d) := if fetch then intel_pt_get_next_packet fuel d else Some (0, d) in
      if nz err then Some (err, d) else
      let? (v, no_tip, d) := trace_step fuel no_tip d in
      match v with
      | Return err => Some (err, d)
      | Break => walk_trace_loop fuel n true no_tip d
      | Goto_next => walk_trace_loop fuel n false no_tip d
      end
  end.

Definition intel_pt_walk_trace (fuel : nat) (d : intel_pt_decoder) : option (Z * intel_pt_decoder) :=
  walk_trace_loop fuel fuel true false d.

Definition intel_pt_have_ip (d : intel_pt_decoder) : bool :=
  nz (last_ip d) || (count (packet d) =? 0) || (count (packet d) =? 3) || (count (packet d) =? 6).

Definition psb_step (d : intel_pt_decoder) : option (verdict * intel_pt_decoder) :=
  let unexpected d :=
    let d := d <| have_tma := false |> in
    Some (Return (- ENOENT),
          d <| pkt_state := if nz (ip d) then INTEL_PT_STATE_IN_SYNC else INTEL_PT_STATE_ERR_RESYNC |>) in
  match type (packet d) with
  | INTEL_PT_TIP_PGD => Some (Return (- ENOENT), d <| continuous_period := false |>)
  | INTEL_PT_TIP_PGE | INTEL_PT_TIP => Some (Return (- ENOENT), d)
  | INTEL_PT_FUP =>
      let d := d <| pge := true |> in Some (Break, if intel_pt_have_ip d then intel_pt_set_ip d else d)
  | INTEL_PT_MTC => let? d := intel_pt_calc_mtc_timestamp d in Some (Break, d)
  | INTEL_PT_TSC => let? d := intel_pt_calc_tsc_timestamp d in Some (Break, d)
  | INTEL_PT_TMA => let? d := intel_pt_calc_tma d in Some (Break, d)
  | INTEL_PT_CYC => let? d := intel_pt_calc_cyc_timestamp d in Some (Break, d)
  | INTEL_PT_CBR => Some (Break, intel_pt_calc_cbr d)
  | INTEL_PT_PIP => Some (Break, set_cr3 d)
  | INTEL_PT_MODE_EXEC => Some (Break, set_exec_mode d)
  | INTEL_PT_MODE_TSX => Some (Break, intel_pt_update_in_tx d)
  | INTEL_PT_TRACESTOP => unexpected (intel_pt_clear_tx_flags (stop_trace d))
  | INTEL_PT_TNT => unexpected d
  | INTEL_PT_BAD => let '(err, d) := intel_pt_bug d in Some (Return err, d)
  | INTEL_PT_OVF => let '(err, d) := intel_pt_overflow d in Some (Return err, d)
  | INTEL_PT_PSBEND => Some (Return 0, d)
  | INTEL_PT_PSB | INTEL_PT_VMCS | INTEL_PT_MNT | INTEL_PT_PAD => Some (Break, d)
  end.

Definition intel_pt_walk_psb (fuel : nat) (d : intel_pt_decoder) : option (Z * intel_pt_decoder) :=
  packet_loop psb_step fuel fuel d.

(** The TIP cases of [intel_pt_walk_to_ip]. *)
Definition to_ip_tip (d : intel_pt_decoder) : verdict * intel_pt_decoder :=
  let d := d <| pge := negb (is_type (type (packet d)) INTEL_PT_TIP_PGD) |> in
  let d := if intel_pt_have_ip d then intel_pt_set_ip d else d in
  (if nz (ip d) then Return 0 else Break, d).

Definition to_ip_step (fuel : nat) (d : intel_pt_decoder) : option (verdict * intel_pt_decoder) :=
  match type (packet d) with
  | INTEL_PT_TIP_PGD => Some (to_ip_tip (d <| continuous_period := false |>))
  | INTEL_PT_TIP_PGE | INTEL_PT_TIP => Some (to_ip_tip d)
  | INTEL_PT_FUP =>
      let d := if overflow d && intel_pt_have_ip d then intel_pt_set_ip d else d in
      if overflow d && nz (ip d) then Some (Return 0, d) else
      Some (Break, if nz (count (packet d)) then intel_pt_set_last_ip d else d)
  | INTEL_PT_MTC => let? d := intel_pt_calc_mtc_timestamp d in Some (Break, d)
  | INTEL_PT_TSC => let? d := intel_pt_calc_tsc_timestamp d in Some (Break, d)
  | INTEL_PT_TMA => let? d := intel_pt_calc_tma d in Some (Break, d)
  | INTEL_PT_CYC => let? d := intel_pt_calc_cyc_timestamp d in Some (Break, d)
  | INTEL_PT_CBR => Some (Break, intel_pt_calc_cbr d)
  | INTEL_PT_PIP => Some (Break, set_cr3 d)
  | INTEL_PT_MODE_EXEC => Some (Break, set_exec_mode d)
  | INTEL_PT_MODE_TSX => Some (Break, intel_pt_update_in_tx d)
  | INTEL_PT_OVF => let '(err, d) := intel_pt_overflow d in Some (Return err, d)
  | INTEL_PT_BAD => let '(err, d) := intel_pt_bug d in Some (Return err, d)
  | INTEL_PT_TRACESTOP => Some (Break, (intel_pt_clear_tx_flags (stop_trace d)) <| have_tma := false |>)
  | INTEL_PT_PSB =>
      let? (err, d) := intel_pt_walk_psb fuel d in
      if nz err then Some (Return err, d) else
      if nz (ip d) then Some (Return 0, d <| st_type := 0 |>) else Some (Break, d)
  | INTEL_PT_TNT | INTEL_PT_PSBEND | INTEL_PT_VMCS | INTEL_PT_MNT | INTEL_PT_PAD => Some (Break, d)
  end.

Definition intel_pt_walk_to_ip (fuel : nat) (d : intel_pt_decoder) : option (Z * intel_pt_decoder) :=
  packet_loop (to_ip_step fuel) fuel fuel d.

Definition intel_pt_sync_ip (fuel : nat) (d : intel_pt_decoder) : option (Z * intel_pt_decoder) :=
  let? (err, d) := intel_pt_walk_to_ip fuel d in
  if nz err then Some (err, d) else
  Some (0, d <| pkt_state := INTEL_PT_STATE_IN_SYNC |> <| overflow := false |> <| st_from_ip := 0 |> <| st_to_ip := ip d |>).

(** * Synchronisation *)

(** [for (i = INTEL_PT_PSB_LEN - 1; i; i--)] *)
Fixpoint part_psb_loop (i : nat) (buf : list Z) : Z :=
  match i with
  | O => 0
  | S i' =>
      if (i <=? length buf)%nat && PtOverlap.is_prefix (take i PtOverlap.INTEL_PT_PSB_STR) (drop (length buf - i) buf)
      then Z.of_nat i else part_psb_loop i' buf
  end.

Definition intel_pt_part_psb (d : intel_pt_decoder) : Z := part_psb_loop 15 (buf d).

Definition intel_pt_rest_psb (d : intel_pt_decoder) (part_psb : Z) : Z :=
  let rest_psb := 16 - part_psb in
  if (rest_psb >? Z.of_nat (length (buf d)))
     || negb (PtOverlap.is_prefix (drop (Z.to_nat part_psb) PtOverlap.INTEL_PT_PSB_STR) (buf d))
  then 0 else rest_psb.

Definition intel_pt_get_split_psb (d : intel_pt_decoder) (part_psb : Z) : Z * intel_pt_decoder :=
  let d := d <| pos := u64 (pos d + Z.of_nat (length (buf d))) |> <| buf := [] |> in
  let '(ret, d) := intel_pt_get_next_data d in
  if nz ret then (ret, d) else
  let rest_psb := intel_pt_rest_psb d part_psb in
  if rest_psb =? 0 then (0, d) else
  (0, d <| pos := u64 (pos d - part_psb) |> <| next_buf := Some (drop (Z.to_nat rest_psb) (buf d)) |>
        <| buf := PtOverlap.INTEL_PT_PSB_STR |>).

Fixpoint scan_loop (fuel n : nat) (d : intel_pt_decoder) : option (Z * intel_pt_decoder) :=
  match n with
  | O => None
  | S n =>
      let '(ret, d) := match buf d with [] => intel_pt_get_next_data d | _ => (0, d) end in
      if nz ret then Some (ret, d) else
      match PtOverlap.find_sub (buf d) PtOverlap.INTEL_PT_PSB_STR with
      | Some k => intel_pt_get_next_packet fuel (d <| pkt_step := Z.of_nat k |>)
      | None =>
          let part_psb := intel_pt_part_psb d in
          if nz part_psb then
            let '(ret, d) := intel_pt_get_split_psb d part_psb in
            if nz ret then Some (ret, d) else scan_loop fuel n d
          else
            let d := d <| pos := u64 (pos d + Z.of_nat (length (buf d))) |> <| buf := [] |> in scan_loop fuel n d
      end
  end.

Definition intel_pt_scan_for_psb (fuel : nat) (d : intel_pt_decoder) : option (Z * intel_pt_decoder) :=
  scan_loop fuel fuel d.

Definition intel_pt_sync (fuel : nat) (d : intel_pt_decoder) : option (Z * intel_pt_decoder) :=
  let d := (stop_trace d) <| last_ip := 0 |> <| ip := 0 |> in
  let? s := intel_pt_clear_stack (stack d) in
  let? (err, d) := intel_pt_scan_for_psb fuel (d <| stack := s |>) in
  if nz err then Some (err, d) else
  let? (err, d) := intel_pt_walk_psb fuel (d <| pkt_state := INTEL_PT_STATE_NO_IP |>) in
  if nz err then Some (err, d) else
  if nz (ip d) then Some (0, d <| st_type := 0 |> <| pkt_state := INTEL_PT_STATE_IN_SYNC |>)
  else intel_pt_sync_ip fuel d.

Definition intel_pt_est_timestamp (d : intel_pt_decoder) : Z :=
  let est := u64 (Z.shiftl (timestamp_insn_cnt d) 1) in
  let est := if (cbr d =? 0) || (max_non_turbo_ratio d =? 0) then est
             else u64 (est * max_non_turbo_ratio d) / cbr d in
  u64 (timestamp d + est).

(** * The decoder *)

(** The switch of [intel_pt_decode]. *)
Definition decode_step (fuel : nat) (d : intel_pt_decoder) : option (Z * intel_pt_decoder) :=
  match pkt_state d with
  | INTEL_PT_STATE_NO_PSB => intel_pt_sync fuel d
  | INTEL_PT_STATE_NO_IP => intel_pt_sync_ip fuel (d <| last_ip := 0 |>)
  | INTEL_PT_STATE_ERR_RESYNC => intel_pt_sync_ip fuel d
  | INTEL_PT_STATE_IN_SYNC => intel_pt_walk_trace fuel d
  | INTEL_PT_STATE_TNT =>
      let? (err, d) := intel_pt_walk_tnt fuel d in
      if err =? - EAGAIN then intel_pt_walk_trace fuel d else Some (err, d)
  | INTEL_PT_STATE_TIP | INTEL_PT_STATE_TIP_PGD => intel_pt_walk_tip d
  | INTEL_PT_STATE_FUP =>
      let? (err, d) := intel_pt_walk_fup (d <| pkt_state := INTEL_PT_STATE_IN_SYNC |>) in
      if err =? - EAGAIN then intel_pt_walk_fup_tip fuel d else
      Some (err, if err =? 0 then d <| pkt_state := INTEL_PT_STATE_FUP |> else d)
  | INTEL_PT_STATE_FUP_NO_TIP =>
      let? (err, d) := intel_pt_walk_fup (d <| pkt_state := INTEL_PT_STATE_IN_SYNC |>) in
      if err =? - EAGAIN then intel_pt_walk_trace fuel d else Some (err, d)
  end.

(** [do ... while (err == -ENOLINK)] *)
Fixpoint decode_loop (fuel n : nat) (d : intel_pt_decoder) : option (Z * intel_pt_decoder) :=
  match n with
  | O => None
  | S n =>
      let d := d <| st_type := INTEL_PT_BRANCH |> <| st_flags := 0 |> in
      let? (err, d) := decode_step fuel d in
      if err =? - ENOLINK then decode_loop fuel n d else Some (err, d)
  end.

Definition intel_pt_decode (fuel : nat) (d : intel_pt_decoder) : option intel_pt_decoder :=
  let? (err, d) := decode_loop fuel fuel d in
  let d := d <| st_err := if nz err then intel_pt_ext_err err else 0 |> <| st_timestamp := timestamp d |>
             <| st_est_timestamp := intel_pt_est_timestamp d |> <| st_cr3 := cr3 d |>
             <| st_tot_insn_cnt := tot_insn_cnt d |> in
  Some (if nz err then d <| st_from_ip := ip d |> else d).

End Walk.

End PtDec.
