(* ===== verification/PtTime.v ===== *)
(** Properties of the arithmetic of the Intel PT decoder (PtDec.v): sampling
    periods, clock conversion, address compression and timestamps. *)

From stdpp Require Import base option list numbers.
From Stdlib Require Import ZArith Lia Bool SpecFloat.
From S2P Require Import Prelude PtPkt PtInsn PtStack PtOverlap PtDec.

Module PtTime.
Import PtPkt PtInsn PtDec CDouble.

(** * Sampling periods *)

Lemma power_loop_ok fuel x i : 0 < x -> Z.log2 x <= Z.of_nat fuel ->
  power_loop fuel x i = Some (1, i + Z.log2 x).
Proof.
  revert x i. induction fuel as [|fuel IH]; intros x i Hx Hf; cbn [power_loop]; destruct (Z.eqb_spec x 1) as [->|Hn];
    try (change (Z.log2 1) with 0; do 2 f_equal; lia).
  - assert (0 < Z.log2 x) by (apply Z.log2_pos; lia). lia.
  - assert (Z.log2 (Z.shiftr x 1) = Z.log2 x - 1) as Hl.
    { rewrite Z.log2_shiftr by lia. assert (0 < Z.log2 x) by (apply Z.log2_pos; lia). lia. }
    rewrite IH; rewrite ?Hl; [do 2 f_equal; lia| |lia].
    rewrite Z.shiftr_div_pow2 by lia. change (2 ^ 1) with 2. apply Z.div_str_pos. lia.
Qed.

Lemma power_loop_zero fuel i : power_loop fuel 0 i = None.
Proof. revert i. induction fuel as [|fuel IH]; intros i; [done|]. exact (IH (i + 1)). Qed.

Lemma lower_power_of_2_ok x : 0 < x < 2 ^ 64 -> intel_pt_lower_power_of_2 x = Some (2 ^ Z.log2 x).
Proof.
  intros Hx. unfold intel_pt_lower_power_of_2.
  assert (Z.log2 x < 64) as Hl by (apply Z.log2_lt_pow2; lia).
  rewrite power_loop_ok by lia. cbn [obind]. rewrite Z.shiftl_mul_pow2 by apply Z.log2_nonneg.
  rewrite Z.mul_1_l, u64_small; [done|]. split; [apply Z.pow_nonneg; lia|]. apply Z.pow_lt_mono_r; lia.
Qed.

(** A mask of ones above bit [k] rounds down. *)
Lemma land_period_mask ts k : 0 <= ts < 2 ^ 64 -> 0 <= k < 64 ->
  Z.land ts (u64 (Z.lnot (u64 (2 ^ k - 1)))) = ts / 2 ^ k * 2 ^ k.
Proof.
  intros Ht Hk. assert (0 < 2 ^ k < 2 ^ 64) as Hp by (split; [apply Z.pow_pos_nonneg|apply Z.pow_lt_mono_r]; lia).
  rewrite (u64_small (2 ^ k - 1)) by lia. unfold u64. rewrite <-Z.land_ones, Z.land_assoc by lia.
  rewrite (Z.land_comm ts), <-Z.land_assoc, Z.land_ones, (Z.mod_small ts) by lia.
  replace (2 ^ k - 1) with (Z.ones k) by (rewrite Z.ones_equiv; lia).
  rewrite Z.land_comm, <-Z.ldiff_land, Z.ldiff_ones_r, Z.shiftr_div_pow2, Z.shiftl_mul_pow2 by lia. done.
Qed.

(** C32: For sampling by ticks with a period other than zero,
    [intel_pt_setup_period] ends and chooses the greatest power of two that is
    not above the period; masking a time with [period_mask] then rounds it down
    to a multiple of [period_ticks].  For a period of zero the loop of
    [intel_pt_lower_power_of_2] never ends, however long it runs. *)
Theorem setup_period_ends (c : config) : period_type c = INTEL_PT_PERIOD_TICKS ->
  (0 < period c < 2 ^ 64 ->
   exists c' k, intel_pt_setup_period c = Some c' /\ 0 <= k /\ period_ticks c' = 2 ^ k /\
     2 ^ k <= period c < 2 * 2 ^ k /\
     forall ts, 0 <= ts < 2 ^ 64 -> Z.land ts (period_mask c') = ts / period_ticks c' * period_ticks c')
  /\ (period c = 0 -> forall fuel, power_loop fuel (period c) 0 = None).
Proof.
  intros Ht. split.
  - intros Hp. unfold intel_pt_setup_period. rewrite bool_decide_true by done. rewrite lower_power_of_2_ok by done.
    cbn [obind]. eexists _, (Z.log2 (period c)). split; [reflexivity|]. cbn [period_ticks period_mask].
    split; [apply Z.log2_nonneg|]. split; [done|]. split.
    + destruct (Z.log2_spec (period c)) as [H1 H2]; [lia|]. rewrite Z.pow_succ_r in H2 by apply Z.log2_nonneg. lia.
    + intros ts Hts. apply land_period_mask; [done|]. split; [apply Z.log2_nonneg|]. apply Z.log2_lt_pow2; lia.
  - intros -> fuel. apply power_loop_zero.
Qed.

Definition ticks_config (p : Z) : config :=
  mkConfig false p INTEL_PT_PERIOD_TICKS 0 0 0 0 0 0 0 0 0 CDouble.zero.

Lemma setup_period_ends_witness :
  (exists c' k, intel_pt_setup_period (ticks_config 1000) = Some c' /\ 0 <= k /\ period_ticks c' = 2 ^ k /\
     2 ^ k <= period (ticks_config 1000) < 2 * 2 ^ k /\
     forall ts, 0 <= ts < 2 ^ 64 -> Z.land ts (period_mask c') = ts / period_ticks c' * period_ticks c')
  /\ (forall fuel, power_loop fuel (period (ticks_config 0)) 0 = None).
Proof.
  split.
  - apply setup_period_ends; [reflexivity|vm_compute; split; reflexivity].
  - apply (setup_period_ends (ticks_config 0)); reflexivity.
Defined.

(** * Clock conversion *)

(** C31: [multdiv] is [t * n / d], rounded down and reduced to 64 bits, without
    an intermediate result that does not fit in 64 bits losing anything; a
    zero divisor gives zero. *)
Theorem multdiv_exact (t n d : Z) : 0 <= t < 2 ^ 64 -> 0 <= n < 2 ^ 32 -> 0 <= d < 2 ^ 32 ->
  multdiv t n d = if d =? 0 then 0 else (t * n / d) mod 2 ^ 64.
Proof.
  intros Ht Hn Hd. unfold multdiv. destruct (Z.eqb_spec d 0) as [|Hz]; [done|].
  pose proof (Z.mod_pos_bound t d ltac:(lia)) as Hm.
  rewrite (u64_small (t mod d * n)) by (split; nia). unfold u64. rewrite Zplus_mod_idemp_l. f_equal.
  rewrite (Z.div_mod t d) at 3 by done. rewrite Z.mul_add_distr_r.
  replace (d * (t / d) * n) with (t / d * n * d) by ring. rewrite Z.add_comm, (Z.add_comm (t / d * n * d)), Z.div_add by done. done.
Qed.

Lemma multdiv_exact_witness : multdiv (2 ^ 63 + 12345) 3000000 24000 = (2 ^ 63 + 12345) * 125 mod 2 ^ 64.
Proof. rewrite multdiv_exact; [vm_compute; reflexivity|vm_compute; split; congruence..]. Defined.

(** * Address compression *)

(** The high bytes of [ip] that a packet leaves out are those of [last_ip], or
    the sign. *)
Definition compressible (last_ip ip : Z) (c : ip_compr) : Prop :=
  match c with
  | IpNone => False
  | Ip16 => ip / 2 ^ 16 = last_ip / 2 ^ 16
  | Ip32 => ip / 2 ^ 32 = last_ip / 2 ^ 32
  | Ip48 => ip < 2 ^ 47 \/ 2 ^ 64 - 2 ^ 47 <= ip
  | Ip48s => ip / 2 ^ 48 = last_ip / 2 ^ 48
  | Ip64 => True
  end.

Lemma land_high x n : 0 <= n <= 64 -> 0 <= x < 2 ^ 64 ->
  Z.land x (Z.shiftl (Z.ones (64 - n)) n) = x / 2 ^ n * 2 ^ n.
Proof.
  intros Hn Hx. rewrite land_lane by lia. rewrite Z.mod_small; [done|].
  split; [apply Z.div_pos; [lia|apply Z.pow_pos_nonneg; lia]|].
  apply Z.div_lt_upper_bound; [apply Z.pow_pos_nonneg; lia|]. rewrite <-Z.pow_add_r by lia. replace (n + (64 - n)) with 64 by lia. apply Hx.
Qed.

Lemma splice x y n : 0 <= n <= 64 -> 0 <= x < 2 ^ 64 -> y / 2 ^ n = x / 2 ^ n ->
  Z.lor (Z.land x (Z.shiftl (Z.ones (64 - n)) n)) (y mod 2 ^ n) = y.
Proof.
  intros Hn Hx He. assert (0 < 2 ^ n) by (apply Z.pow_pos_nonneg; lia).
  rewrite land_high by done. rewrite Z.lor_comm, lor_add_disjoint by (try lia; apply Z.mod_pos_bound; lia).
  rewrite <-He. pose proof (Z.div_mod y (2 ^ n) ltac:(lia)). lia.
Qed.

Lemma sign_extend_48 ip : 0 <= ip < 2 ^ 64 -> ip < 2 ^ 47 \/ 2 ^ 64 - 2 ^ 47 <= ip ->
  (if tst (ip mod 2 ^ 48) 0x800000000000 then Z.lor (ip mod 2 ^ 48) 0xffff000000000000 else ip mod 2 ^ 48) = ip.
Proof.
  intros Hip Hc. change 0x800000000000 with (2 ^ 47). rewrite tst_pow2 by lia. rewrite Z.mod_pow2_bits_low by lia.
  change 0xffff000000000000 with (0xffff * 2 ^ 48).
  rewrite lor_add_disjoint by (try lia; apply Z.mod_pos_bound; lia).
  destruct Hc as [Hc|Hc].
  - assert (Z.testbit ip 47 = false) as -> by (apply (bounded_iff_bits 47 ip); lia).
    apply Z.mod_small. lia.
  - assert (ip mod 2 ^ 48 = ip - 0xffff * 2 ^ 48) as Hm.
    { symmetry. apply (Z.mod_unique_pos ip (2 ^ 48) 0xffff); lia. }
    assert (Z.testbit ip 47 = true) as ->; [|rewrite Hm; lia].
    apply Z.testbit_true; [lia|]. replace (ip / 2 ^ 47) with (2 ^ 17 - 1) by (apply (Z.div_unique_pos ip (2 ^ 47) _ (ip - (2 ^ 17 - 1) * 2 ^ 47)); lia). done.
Qed.

(** C24: Address packets carry their address: of an address [ip] and the
    address [last_ip] before it, whenever a compression can leave out its high
    bytes, decoding the bytes of the packet and [intel_pt_calc_ip] give back
    [ip]. *)
Theorem ip_packet_roundtrip (k : ip_kind) (c : ip_compr) (last_ip ip : Z) (rest : list Z) :
  0 <= last_ip < 2 ^ 64 -> 0 <= ip < 2 ^ 64 -> compressible last_ip ip c ->
  let bytes := encode (PIp k c (ip mod 2 ^ (8 * Z.of_nat (compr_bytes c)))) in
  exists p, intel_pt_do_get_packet (bytes ++ rest) (Z.of_nat (length (bytes ++ rest))) = Some (Z.of_nat (length bytes), p)
    /\ type p = ip_type k /\ intel_pt_calc_ip p last_ip = ip.
Proof.
  intros Hl Hip Hc bytes.
  destruct (do_get_packet_encode (PIp k c (ip mod 2 ^ (8 * Z.of_nat (compr_bytes c)))) rest (Z.of_nat (length (bytes ++ rest))))
    as (p & E & ->).
  { apply Z.mod_pos_bound. apply Z.pow_pos_nonneg; lia. }
  { fold bytes. rewrite length_app. lia. }
  eexists. split; [exact E|]. split; [done|]. unfold intel_pt_calc_ip. cbn [count payload].
  destruct c; cbn [compressible compr_code compr_bytes] in *; cbn [Z.eqb Pos.eqb]; [done|..].
  - exact (splice last_ip ip 16 ltac:(lia) Hl Hc).
  - exact (splice last_ip ip 32 ltac:(lia) Hl Hc).
  - apply (sign_extend_48 ip Hip Hc).
  - exact (splice last_ip ip 48 ltac:(lia) Hl Hc).
  - apply Z.mod_small. exact Hip.
Qed.

Lemma ip_packet_roundtrip_witness :
  exists p, intel_pt_do_get_packet (encode (PIp KTip Ip48 (0xffffffff81000010 mod 2 ^ 48)) ++ [7; 8]) 9 = Some (7, p)
    /\ type p = INTEL_PT_TIP /\ intel_pt_calc_ip p 0x400000 = 0xffffffff81000010.
Proof.
  apply (ip_packet_roundtrip KTip Ip48 0x400000 0xffffffff81000010 [7; 8]); [lia|lia|].
  right. vm_compute. congruence.
Defined.

(** * Looking ahead *)

(** The bytes at hand can be decoded, and the packet lies inside of them. *)
Record input_ok (i : input) : Prop := {
  io_bytes : Forall is_byte (buf i);
  io_cyc : PtOverlap.no_overlong_cyc (buf i) = true;
  io_step : 0 <= pkt_step i <= Z.of_nat (length (buf i));
}.

Lemma no_overlong_drop m k : PtOverlap.no_overlong_cyc m = true -> PtOverlap.no_overlong_cyc (drop k m) = true.
Proof.
  intros H. unfold PtOverlap.no_overlong_cyc in *. apply forallb_forall. intros i Hi%in_seq. rewrite length_drop in Hi.
  rewrite drop_drop. rewrite forallb_forall in H. apply H. apply in_seq. lia.
Qed.

Lemma no_overlong_head m : PtOverlap.no_overlong_cyc m = true -> overlong_cyc m = false.
Proof. intros H. pose proof (PtOverlap.no_overlong_view m 0 (length m) H) as Hv. by rewrite drop_0, firstn_all in Hv. Qed.

Lemma lookahead_loop_ok {S} (P : S -> Prop) fuel cb buf pkt_len last (s : S) :
  (forall pi s, pkt_wf (pi_packet pi) -> P s -> exists r s', cb pi s = Some (r, s') /\ P s') ->
  Forall is_byte buf -> PtOverlap.no_overlong_cyc buf = true -> 0 <= pkt_len <= Z.of_nat (length buf) ->
  Z.of_nat (length buf) - pkt_len < Z.of_nat fuel -> P s ->
  exists r s', lookahead_loop fuel cb buf pkt_len last s = Some (r, s') /\ P s'.
Proof.
  intros Hcb. revert buf pkt_len last s. induction fuel as [|fuel IH]; intros buf pkt_len last s Hb Hc Hl Hf Hs; [lia|].
  cbn [lookahead_loop]. rewrite (proj2 (Z.leb_le 0 _)), (proj2 (Z.leb_le pkt_len _)) by lia. cbn [andb ub_unless].
  set (b := drop (Z.to_nat pkt_len) buf). assert (length b = (length buf - Z.to_nat pkt_len)%nat) as Hlb by apply length_drop.
  destruct b as [|x b'] eqn:Eb; [eauto|]. rewrite <-Eb in *. clear x b' Eb.
  assert (PtOverlap.no_overlong_cyc b = true) as Hcb' by by apply no_overlong_drop.
  destruct (get_packet_ok b) as ([ret pkt] & -> & Hok); [by apply Forall_drop|by apply no_overlong_head|]. cbn [obind].
  unfold res_ok, INTEL_PT_NEED_MORE_BYTES, INTEL_PT_BAD_PACKET in Hok. cbn [fst snd] in Hok.
  destruct (Z.eqb_spec ret 0); [eauto|]. destruct (Z.ltb_spec ret 0); [eauto|].
  destruct Hok as [Hok|[Hok|(Hr & H16 & Hwf)]]; [lia..|].
  assert (forall last s, P s -> exists r s', lookahead_loop fuel cb b ret last s = Some (r, s') /\ P s') as Hgo.
  { intros last' s' Hs'. apply IH; try done; [by apply Forall_drop|lia|lia]. }
  destruct (is_type _ _); [by apply Hgo|]. destruct (Hcb (mkInfo pkt last) s Hwf Hs) as (stop & s' & -> & Hs'). cbn [obind].
  destruct (nz stop); [eauto|by apply Hgo].
Qed.

(** All but the measured cycle rate. *)
Definition but_rate (d : intel_pt_decoder) : intel_pt_decoder :=
  d <| calc_cyc_to_tsc := CDouble.zero |> <| have_calc_cyc_to_tsc := false |>.

Definition cfg_shift_ok (c : config) : Prop := 0 <= mtc_shift c <= 30.

Lemma mtc_ticks_ok c mtc last : cfg_shift_ok c -> exists t, mtc_ticks c mtc last = Some t /\ 0 <= t < 2 ^ 32.
Proof.
  intros H. unfold cfg_shift_ok in H. unfold mtc_ticks. rewrite (proj2 (Z.leb_le 0 _)), (proj2 (Z.ltb_lt _ 32)) by lia.
  eexists. split; [reflexivity|apply u32_range].
Qed.

Lemma tma_base_ok c pkt ts : cfg_shift_ok c -> exists m t, tma_base c pkt ts = Some (m, t) /\ 0 <= m <= 255 /\ 0 <= t < 2 ^ 64.
Proof.
  intros H. unfold cfg_shift_ok in H. unfold tma_base. rewrite (proj2 (Z.leb_le 0 _)), (proj2 (Z.ltb_lt _ 32)) by lia.
  cbn [andb ub_unless]. eexists _, _. split; [reflexivity|]. split; [by apply land_bounded_r|]. destruct (nz _); apply u64_range.
Qed.

Lemma calc_cyc_finish_rate ts data d : but_rate (calc_cyc_finish ts data d).2 = but_rate d.
Proof. unfold calc_cyc_finish. repeat case_match; reflexivity. Qed.

Lemma calc_cyc_cb_ok d0 pi s : cfg_shift_ok (cfg d0) -> but_rate s.2 = but_rate d0 ->
  exists r s', intel_pt_calc_cyc_cb pi s = Some (r, s') /\ but_rate s'.2 = but_rate d0.
Proof.
  intros Hc Hs. destruct s as [data d]. cbn [snd] in Hs. unfold intel_pt_calc_cyc_cb.
  assert (cfg_shift_ok (cfg d)) as Hd by (change (cfg d) with (cfg (but_rate d)); by rewrite Hs).
  destruct (type (pi_packet pi)); try (eexists _, _; split; [reflexivity|exact Hs]).
  - repeat case_match; try (eexists _, _; split; [reflexivity|exact Hs]).
    all: eexists _, _; split; [reflexivity|]; rewrite calc_cyc_finish_rate; exact Hs.
  - destruct (tma_base_ok (cfg d) (pi_packet pi) (c_tsc_timestamp data) Hd) as (m & t & -> & _).
    repeat case_match; eexists _, _; (split; [reflexivity|exact Hs]).
  - destruct (c_have_tma data); [|eexists _, _; split; [reflexivity|exact Hs]]. cbn [negb].
    destruct (mtc_ticks_ok (cfg d) (u32 (payload (pi_packet pi))) (c_last_mtc data) Hd) as (t & -> & _). cbn [obind].
    repeat case_match; eexists _, _; (split; [reflexivity|]); try exact Hs. rewrite calc_cyc_finish_rate. exact Hs.
  - repeat case_match; eexists _, _; (split; [reflexivity|exact Hs]).
Qed.

Lemma calc_cyc_to_tsc_ok b d : cfg_shift_ok (cfg d) -> input_ok (inp d) ->
  exists d', intel_pt_calc_cyc_to_tsc b d = Some d' /\ but_rate d' = but_rate d.
Proof.
  intros Hc [Hb Ho Hs]. unfold intel_pt_calc_cyc_to_tsc, intel_pt_pkt_lookahead.
  destruct (lookahead_loop_ok (fun s => but_rate s.2 = but_rate d) (S (length (buf d))) intel_pt_calc_cyc_cb (buf d) (pkt_step d)
    (last_packet_type d) (mkCyc 0 0 (last_mtc d) (ctc_timestamp d) (ctc_delta d) (tsc_timestamp d) (timestamp d) (have_tma d) b CDouble.zero, d))
    as (r & [data d'] & -> & Hd'); try done; [|lia|].
  - intros pi s _ HP. by apply calc_cyc_cb_ok.
  - eexists. split; [reflexivity|exact Hd'].
Qed.

(** * Timestamps *)

Definition u64_ok (x : Z) : Prop := 0 <= x < 2 ^ 64.
Definition u32_ok (x : Z) : Prop := 0 <= x < 2 ^ 32.
#[export] Hint Unfold u64_ok u32_ok : perf.

Lemma u64_u64_ok x : u64_ok (u64 x).
Proof. apply u64_range. Qed.
Lemma u32_u32_ok x : u32_ok (u32 x).
Proof. apply u32_range. Qed.
Lemma u64_ok_0 : u64_ok 0.
Proof. unfold u64_ok. lia. Qed.
Lemma to_u64_ok oob x y : to_u64 oob x = Some y -> u64_ok y.
Proof.
  assert (u64 <$> oob x = Some y -> u64_ok y) as Hoob by (intros (z & _ & ->)%fmap_Some; apply u64_u64_ok).
  unfold to_u64. destruct (trunc x) as [a|]; [|exact Hoob]. destruct (_ && _) eqn:E; [|exact Hoob].
  intros [= <-]. bprop. by split.
Qed.
#[export] Hint Resolve u64_u64_ok u32_u32_ok u64_ok_0 : perf.

(** The conversion that a CYC packet needs is defined. *)
Definition cyc_defined `{!PtEnv} (d : intel_pt_decoder) : Prop :=
  forall rate, cyc_ref_timestamp d <> 0 -> cyc_rate d = Some rate ->
    is_Some (add_cycles (cyc_ref_timestamp d) (u64 (cycle_cnt d + payload (packet d))) rate).

(** The widths of the members. *)
Record times_ok (t : times) : Prop := {
  ti_timestamp : u64_ok (timestamp t); ti_tsc : u64_ok (tsc_timestamp t); ti_ref : u64_ok (ref_timestamp t);
  ti_ctc : u64_ok (ctc_timestamp t); ti_delta : u64_ok (ctc_delta t); ti_cycle : u64_ok (cycle_cnt t);
  ti_cyc_ref : u64_ok (cyc_ref_timestamp t); ti_insn : u64_ok (timestamp_insn_cnt t); ti_mtc : u32_ok (last_mtc t);
  ti_cbr : u32_ok (cbr t);
}.

(** Only the times differ. *)
Record times_only (d d' : intel_pt_decoder) : Prop := {
  to_cfg : cfg d' = cfg d; to_inp : inp d' = inp d; to_flw : flw d' = flw d; to_prg : prg d' = prg d;
  to_state : state d' = state d; to_env : env d' = env d;
}.

Lemma times_only_trans d1 d2 d3 : times_only d1 d2 -> times_only d2 d3 -> times_only d1 d3.
Proof. intros [] []. constructor; congruence. Qed.

Ltac times_refl := constructor; reflexivity.

(** [but_rate] forgets nothing but the rate. *)
Lemma but_rate_only d d' : but_rate d' = but_rate d -> times_only d d' /\ timestamp d' = timestamp d /\
  ref_timestamp d' = ref_timestamp d /\ (times_ok (tim d) -> times_ok (tim d')).
Proof.
  intros H. assert (forall A (f : intel_pt_decoder -> A), f (but_rate d') = f (but_rate d)) as Hf by (intros; by rewrite H).
  split; [|split_and!].
  - constructor; [apply (Hf _ cfg)|apply (Hf _ inp)|apply (Hf _ flw)|apply (Hf _ prg)|apply (Hf _ state)|apply (Hf _ env)].
  - apply (Hf _ (fun d => timestamp d)).
  - apply (Hf _ (fun d => ref_timestamp d)).
  - intros [H1 H2 H3 H4 H5 H6 H7 H8 H9 H10]. constructor.
    + by rewrite (Hf _ (fun d => timestamp d) : timestamp d' = timestamp d).
    + by rewrite (Hf _ (fun d => tsc_timestamp d) : tsc_timestamp d' = tsc_timestamp d).
    + by rewrite (Hf _ (fun d => ref_timestamp d) : ref_timestamp d' = ref_timestamp d).
    + by rewrite (Hf _ (fun d => ctc_timestamp d) : ctc_timestamp d' = ctc_timestamp d).
    + by rewrite (Hf _ (fun d => ctc_delta d) : ctc_delta d' = ctc_delta d).
    + by rewrite (Hf _ (fun d => cycle_cnt d) : cycle_cnt d' = cycle_cnt d).
    + by rewrite (Hf _ (fun d => cyc_ref_timestamp d) : cyc_ref_timestamp d' = cyc_ref_timestamp d).
    + by rewrite (Hf _ (fun d => timestamp_insn_cnt d) : timestamp_insn_cnt d' = timestamp_insn_cnt d).
    + by rewrite (Hf _ (fun d => last_mtc d) : last_mtc d' = last_mtc d).
    + by rewrite (Hf _ (fun d => cbr d) : cbr d' = cbr d).
Qed.

(** What an operation on the times does to a decoder in order. *)
Definition times_step (r : option intel_pt_decoder) (d : intel_pt_decoder) (Q : intel_pt_decoder -> Prop) : Prop :=
  exists d', r = Some d' /\ times_only d d' /\ times_ok (tim d') /\ Q d'.

Lemma cyc_reference_ok b d0 d : cfg_shift_ok (cfg d) -> input_ok (inp d) -> times_ok (tim d) -> times_only d0 d ->
  times_step (cyc_reference b d) d0 (fun d' => timestamp d' = timestamp d /\ ref_timestamp d' = ref_timestamp d).
Proof.
  intros Hc Hi Ht H0. unfold cyc_reference. destruct (is_type _ _); [|exists d; split_and!; try done; apply Ht].
  set (d1 := assign _ _). assert (times_only d d1) as H1 by times_refl.
  assert (times_ok (tim d1)) as Ht1 by (destruct Ht; constructor; cbn; auto with perf).
  destruct (calc_cyc_to_tsc_ok b d1) as (d' & -> & He%but_rate_only); [done..|].
  destruct He as (Ho & Ht' & Hr & Hk). exists d'. split_and!; try done.
  - eapply times_only_trans; [exact H0|]. by eapply times_only_trans.
  - by apply Hk.
Qed.

Lemma top_byte_ok p t : 0 <= p < 2 ^ 56 -> u64_ok t -> u64_ok (Z.lor p (Z.land t (0xff * 2 ^ 56))) /\
  Z.lor p (Z.land t (0xff * 2 ^ 56)) = p + t / 2 ^ 56 * 2 ^ 56.
Proof.
  intros Hp Ht. unfold u64_ok in *. assert (Z.land t (0xff * 2 ^ 56) = t / 2 ^ 56 * 2 ^ 56) as ->.
  { change (0xff * 2 ^ 56) with (Z.shiftl (Z.ones (64 - 56)) 56). apply land_high; lia. }
  rewrite lor_add_disjoint by lia. split; [|done]. split; [|].
  - assert (0 <= t / 2 ^ 56) by (apply Z.div_pos; lia). lia.
  - assert (t / 2 ^ 56 < 2 ^ 8) by (apply Z.div_lt_upper_bound; lia). lia.
Qed.

(** The time of a TSC packet, given the time to go by. *)
Definition nearest (p ref : Z) : Z :=
  let ts := Z.lor p (Z.land ref (0xff * 2 ^ 56)) in
  if ts <? ref then if u64 (ref - ts) >? 2 ^ 55 then u64 (ts + 2 ^ 56) else ts
  else if u64 (ts - ref) >? 2 ^ 55 then u64 (ts - 2 ^ 56) else ts.
Definition slipped (slip p t : Z) : Z :=
  let ts := Z.lor p (Z.land t (0xff * 2 ^ 56)) in if (ts <? t) && (u64 (t - ts) <? slip) then t else ts.
Definition following (slip p t : Z) : Z :=
  if slipped slip p t <? t then u64 (slipped slip p t + 2 ^ 56) else slipped slip p t.

Lemma nearest_ok p ref T : 0 <= p < 2 ^ 56 -> u64_ok ref -> u64_ok T -> T mod 2 ^ 56 = p -> Z.abs (T - ref) < 2 ^ 55 ->
  nearest p ref = T.
Proof.
  intros Hp Hr HT Hm Ha. unfold nearest. destruct (top_byte_ok p ref Hp Hr) as [Hok ->]. unfold u64_ok in *.
  pose proof (Z.div_mod T (2 ^ 56) ltac:(lia)) as HT'. rewrite Hm in HT'.
  pose proof (Z.div_mod ref (2 ^ 56) ltac:(lia)) as Hr'. pose proof (Z.mod_pos_bound ref (2 ^ 56) ltac:(lia)).
  set (a := ref / 2 ^ 56) in *. set (b := T / 2 ^ 56) in *. assert (b = a - 1 \/ b = a \/ b = a + 1) by lia.
  destruct (Z.ltb_spec (p + a * 2 ^ 56) ref); rewrite (u64_small (_ - _)) by lia;
    match goal with |- context [?x >? ?y] => destruct (Z.gtb_spec x y) end; rewrite ?u64_small; lia.
Qed.

Lemma following_ok slip p t T : 0 <= p < 2 ^ 56 -> u64_ok t -> u64_ok T -> T mod 2 ^ 56 = p -> 0 <= slip ->
  t <= T < t + 2 ^ 56 - slip -> following slip p t = T.
Proof.
  intros Hp Ht HT Hm Hs Ha. unfold following, slipped. destruct (top_byte_ok p t Hp Ht) as [Hok ->]. unfold u64_ok in *.
  pose proof (Z.div_mod T (2 ^ 56) ltac:(lia)) as HT'. rewrite Hm in HT'.
  pose proof (Z.div_mod t (2 ^ 56) ltac:(lia)) as Ht'. pose proof (Z.mod_pos_bound t (2 ^ 56) ltac:(lia)).
  set (a := t / 2 ^ 56) in *. set (b := T / 2 ^ 56) in *. assert (b = a \/ b = a + 1) by lia.
  destruct (Z.ltb_spec (p + a * 2 ^ 56) t); cbn [andb].
  - rewrite u64_small by lia. rewrite (proj2 (Z.ltb_ge _ slip)) by lia. rewrite (proj2 (Z.ltb_lt _ t)) by lia. rewrite u64_small; lia.
  - rewrite (proj2 (Z.ltb_ge _ t)) by lia. lia.
Qed.

Lemma following_mono slip p t : 0 <= p < 2 ^ 56 -> 0 <= t < 2 ^ 64 - 2 ^ 56 -> t <= following slip p t.
Proof.
  intros Hp Ht. unfold following, slipped. destruct (top_byte_ok p t Hp) as [Hok ->]; [unfold u64_ok; lia|].
  pose proof (Z.div_mod t (2 ^ 56) ltac:(lia)) as Ht'. pose proof (Z.mod_pos_bound t (2 ^ 56) ltac:(lia)).
  set (a := t / 2 ^ 56) in *. destruct ((_ <? t) && _) eqn:E; [rewrite (proj2 (Z.ltb_ge t t)); lia|].
  destruct (Z.ltb_spec (p + a * 2 ^ 56) t); [|done]. rewrite u64_small; lia.
Qed.

Lemma top_byte_range p t : u64_ok p -> u64_ok t -> u64_ok (Z.lor p (Z.land t (0xff * 2 ^ 56))).
Proof.
  intros Hp Ht. apply (lor_bounded 64); [lia|exact Hp|]. pose proof (land_bounded_r t (0xff * 2 ^ 56) ltac:(lia)). lia.
Qed.
Lemma nearest_range p r : u64_ok p -> u64_ok r -> u64_ok (nearest p r).
Proof. intros Hp Hr. unfold nearest. pose proof (top_byte_range p r Hp Hr) as Hok. repeat case_match; auto with perf. Qed.
Lemma following_range s p t : u64_ok p -> u64_ok t -> u64_ok (following s p t).
Proof. intros Hp Hr. unfold following, slipped. pose proof (top_byte_range p t Hp Hr) as Hok. repeat case_match; auto with perf. Qed.

Definition tsc_time (d : intel_pt_decoder) : Z :=
  if nz (ref_timestamp d) then nearest (payload (packet d)) (ref_timestamp d)
  else if nz (timestamp d) then following (tsc_slip d) (payload (packet d)) (timestamp d) else timestamp d.

Lemma nz_false x : nz x = false -> x = 0.
Proof. unfold nz. intros H. bprop. done. Qed.

Section Ops.
Context (d : intel_pt_decoder) (Hc : cfg_shift_ok (cfg d)) (Hi : input_ok (inp d)) (Ht : times_ok (tim d)).

Lemma calc_tsc_ok : u64_ok (payload (packet d)) ->
  times_step (intel_pt_calc_tsc_timestamp d) d (fun d' => timestamp d' = tsc_time d /\ ref_timestamp d' = 0).
Proof using Hc Hi Ht.
  intros Hp. unfold intel_pt_calc_tsc_timestamp, tsc_time.
  change (ref_timestamp (d <| have_tma := false |>)) with (ref_timestamp d).
  change (timestamp (d <| have_tma := false |>)) with (timestamp d).
  assert (forall d1, cfg d1 = cfg d -> inp d1 = inp d -> times_ok (tim d1) -> times_only d d1 ->
    timestamp d1 = tsc_time d -> ref_timestamp d1 = 0 ->
    times_step (cyc_reference false d1) d (fun d' => timestamp d' = tsc_time d /\ ref_timestamp d' = 0)) as Hfin.
  { intros d1 Ec Ei Ht1 Ho E1 E2. destruct (cyc_reference_ok false d d1) as (d' & E & Ho' & Hk & Ha & Hb); try done;
      [by rewrite Ec|by rewrite Ei|]. exists d'. split_and!; try done; congruence. }
  unfold tsc_time in Hfin. destruct (nz (ref_timestamp d)) eqn:Er; [|destruct (nz (timestamp d)) eqn:Et].
  - assert (u64_ok (nearest (payload (packet d)) (ref_timestamp d))) by (apply nearest_range; [done|apply Ht]).
    apply Hfin; try reflexivity; [|times_refl]. destruct Ht. constructor; cbn; auto with perf.
  - assert (u64_ok (following (tsc_slip d) (payload (packet d)) (timestamp d))) as Hf by (apply following_range; [done|apply Ht]).
    assert (u64_ok (Z.lor (payload (packet d)) (Z.land (timestamp d) (0xff * 2 ^ 56)))) as Hl by (apply top_byte_range; [done|apply Ht]).
    apply nz_false in Er. unfold following in *.
    match goal with |- context [if ?a then (_, _) else _] =>
      destruct (slipped (tsc_slip d) (payload (packet d)) (timestamp d) <? timestamp d) eqn:Eb; change a with
        (slipped (tsc_slip d) (payload (packet d)) (timestamp d) <? timestamp d); rewrite Eb in * end.
    all: apply Hfin; try reflexivity; [destruct Ht; constructor; assumption || auto with perf|times_refl|exact Er].
  - apply Hfin; try reflexivity; [destruct Ht; constructor; cbn; auto|times_refl|]. by apply nz_false.
Qed.

Lemma calc_tma_ok : times_step (intel_pt_calc_tma d) d (fun d' => timestamp d' = timestamp d /\ ref_timestamp d' = ref_timestamp d).
Proof using Hc Ht.
  clear Hi. unfold intel_pt_calc_tma. destruct (tsc_ctc_ratio_d d =? 0); [exists d; split_and!; try done; apply Ht|].
  destruct (tma_base_ok (cfg d) (packet d) (tsc_timestamp d) Hc) as (m & t & -> & Hm & Hb). cbn [obind].
  eexists. split; [reflexivity|]. split; [times_refl|]. split; [|done]. destruct Ht. constructor; cbn; auto with perf.
  unfold u32_ok. lia.
Qed.

Lemma calc_mtc_ok :
  times_step (intel_pt_calc_mtc_timestamp d) d (fun d' => timestamp d <= timestamp d' /\ ref_timestamp d' = ref_timestamp d).
Proof using Hc Hi Ht.
  unfold intel_pt_calc_mtc_timestamp. destruct (have_tma d); cbn [negb]; [|exists d; split_and!; try done; apply Ht].
  destruct (mtc_ticks_ok (cfg d) (u32 (payload (packet d))) (last_mtc d) Hc) as (t & -> & Hr). cbn [obind].
  assert (u64_ok (ctc_time d (ctc_timestamp d) (u64 (ctc_delta d + t)))) as Hts by (unfold ctc_time; destruct (nz _); auto with perf).
  match goal with |- context [if ?c then _ else _] => destruct c eqn:Hlt end; match goal with |- times_step (cyc_reference _ ?d1) _ _ =>
    destruct (cyc_reference_ok true d d1) as (d' & -> & Ho & Hk & Ha & Hb) end; try done; try times_refl.
  1, 3: destruct Ht; constructor; first [assumption | exact Hts | cbn; auto with perf].
  - exists d'. split_and!; try done. rewrite Ha. done.
  - exists d'. split_and!; try done. rewrite Ha. apply Z.ltb_ge in Hlt. exact Hlt.
Qed.

Lemma calc_cbr_ok :
  times_step (Some (intel_pt_calc_cbr d)) d (fun d' => timestamp d' = timestamp d /\ ref_timestamp d' = ref_timestamp d).
Proof using Ht.
  clear Hc Hi. unfold intel_pt_calc_cbr. destruct (_ =? _); (eexists; split; [reflexivity|]; split; [times_refl|]; split; [|done]); [done|].
  destruct Ht. constructor; cbn; auto with perf.
Qed.

Lemma calc_cyc_ok `{!PtEnv} : cyc_defined d ->
  times_step (intel_pt_calc_cyc_timestamp d) d (fun d' => timestamp d <= timestamp d' /\ ref_timestamp d' = ref_timestamp d).
Proof using Ht.
  clear Hc Hi. intros Hdef. unfold intel_pt_calc_cyc_timestamp. set (d1 := assign _ _).
  assert (times_ok (tim d1)) as Ht1 by (destruct Ht; constructor; cbn; auto with perf).
  assert (times_only d d1) as Ho by times_refl.
  unfold cyc_defined in Hdef. change (cyc_rate d1) with (cyc_rate d). change (cyc_ref_timestamp d1) with (cyc_ref_timestamp d).
  destruct (cyc_ref_timestamp d =? 0) eqn:E0; [by exists d1|]. destruct (cyc_rate d) as [rate|] eqn:Er; [|by exists d1].
  destruct (Hdef rate) as [ts Ets]; [by apply Z.eqb_neq|done|]. change (cycle_cnt d1) with (u64 (cycle_cnt d + payload (packet d))).
  rewrite Ets. cbn [obind]. apply to_u64_ok in Ets. destruct (Z.ltb_spec ts (timestamp d1)); [by exists d1|].
  eexists. split; [reflexivity|]. split; [times_refl|]. split; [|split; [assumption|reflexivity]].
  destruct Ht1. constructor; cbn; auto.
Qed.

End Ops.


(** A decoder at a TSC packet with three padding bytes behind it. *)
Definition tsc_decoder (tsc ref : Z) : intel_pt_decoder :=
  (zeroed (ticks_config 16) (mkWorld [] 0 0)) <| packet := mkPkt INTEL_PT_TSC 0 tsc |> <| pkt_step := 8 |>
    <| buf := encode (PTsc tsc) ++ [0; 0; 0] |> <| last_packet_type := INTEL_PT_CYC |> <| ref_timestamp := ref |>.


(** The packets that carry time. *)
Inductive time_packet `{!PtEnv} (d : intel_pt_decoder) : option intel_pt_decoder -> Prop :=
  | tp_tsc : 0 <= payload (packet d) < 2 ^ 56 -> ref_timestamp d = 0 -> time_packet d (intel_pt_calc_tsc_timestamp d)
  | tp_tma : time_packet d (intel_pt_calc_tma d)
  | tp_mtc : time_packet d (intel_pt_calc_mtc_timestamp d)
  | tp_cbr : time_packet d (Some (intel_pt_calc_cbr d))
  | tp_cyc : cyc_defined d -> time_packet d (intel_pt_calc_cyc_timestamp d).


(** An environment without instructions and memory. *)
Definition no_env : PtEnv := {|
  walk_insn_cb := fun _ _ _ _ => mkAnswer (- ENOENT) (mkPtInsn INTEL_PT_OP_OTHER INTEL_PT_BR_NO_BRANCH 0 0 []) 0 0;
  malloc_cb := fun _ => None; cvt_oob := fun _ => None |}.


(** The addition of cycles to a time is one of [double]s: above [2 ^ 53] it
    loses the low bits of the time, even for no cycles. *)
Example cyc_time_rounds `{!PtEnv} : add_cycles (2 ^ 53 + 1) 0 (of_Z 1) = Some (2 ^ 53) /\ add_cycles (2 ^ 53 - 1) 1 (of_Z 1) = Some (2 ^ 53).
Proof. split; vm_compute; reflexivity. Qed.

End PtTime.
