(* ===== verification/PtFetch.v ===== *)
(** How the Intel PT decoder (PtDec.v) fetches packets: the buffers that
    [get_trace] hands out as one stream of bytes, the invariant of the decoder,
    and the packets of the stream, whatever the buffers are. *)

From stdpp Require Import base option list numbers.
From Stdlib Require Import ZArith Lia Bool.
From S2P Require Import Prelude PtPkt PtInsn PtStack PtOverlap PtDec PtTime.

Module PtFetch.
Import PtPkt PtInsn PtStack PtDec PtTime.

(** * Packets that are not there *)

Ltac fails :=
  repeat match goal with
  | H : (mbind _ _) = Some _ |- _ => apply bind_Some in H as (? & ? & H)
  | H : Some _ = Some _ |- _ => injection H as ?; subst
  | H : None = Some _ |- _ => discriminate H
  | H : (if ?b then _ else _) = Some _ |- _ => destruct b
  | H : (match ?x with (_, _) => _ end) = Some _ |- _ => destruct x
  | H : (match ?x with inl _ => _ | inr _ => _ end) = Some _ |- _ => destruct x as [?|[? ?]] eqn:?
  | H : ub_unless ?b _ = Some _ |- _ => destruct b; cbn [ub_unless] in H
  end.

Lemma cyc_loop_offs fuel buf len offs shift byte pl o v : cyc_loop fuel buf len offs shift byte pl = Some (inr (o, v)) -> offs <= o.
Proof.
  revert offs shift byte pl. induction fuel as [|fuel IH]; intros offs shift byte pl; [done|]. cbn [cyc_loop].
  repeat case_match; try done; [|intros [= <- _]; lia]. intros (b & _ & Hr)%bind_Some.
  destruct (shift <? 32); [|done]. apply IH in Hr. lia.
Qed.

(** The handlers of the packet decoder. *)
Ltac unfold_packets H :=
  unfold intel_pt_get_ext, intel_pt_get_long_tnt, intel_pt_get_pip, intel_pt_get_cbr, intel_pt_get_vmcs, intel_pt_get_psb,
    intel_pt_get_tma, intel_pt_get_3byte, intel_pt_get_mnt, intel_pt_get_cyc, intel_pt_get_ip, intel_pt_get_mode,
    intel_pt_get_tsc, intel_pt_get_mtc, intel_pt_get_short_tnt, intel_pt_get_pad, intel_pt_get_tracestop, intel_pt_get_psbend,
    intel_pt_get_ovf in H.

(** A parser that gives no packet leaves the payload cleared, and the count
    but for that of an address packet. *)
Lemma do_get_packet_fail buf len ret p : Forall is_byte buf -> intel_pt_do_get_packet buf len = Some (ret, p) -> ret <= 0 ->
  payload p = 0 /\ 0 <= count p < 8.
Proof.
  intros Hf H Hr. unfold intel_pt_do_get_packet in H. destruct (len =? 0); [injection H as <- <-; done|].
  apply bind_Some in H as (b & Hb & H). pose proof (rd_byte _ _ _ Hf Hb) as Hby. unfold is_byte in Hby.
  assert (0 <= Z.shiftr b 5 < 8) as Hs.
  { rewrite Z.shiftr_div_pow2 by lia. split; [apply Z.div_pos; lia|]. apply Z.div_lt_upper_bound; lia. }
  unfold_packets H.
  fails; try lia; try (split; [reflexivity|exact Hs]); try (split; [reflexivity|done]).
  - change (Z.shiftr (52 - 5) 3 + 2) with 7 in Hr. lia.
  - match goal with H : cyc_loop _ _ _ _ _ _ _ = Some (inr _) |- _ => apply cyc_loop_offs in H; lia end.
Qed.

Lemma get_packet_wf buf ret p : Forall is_byte buf ->
  intel_pt_get_packet buf (Z.of_nat (length buf)) = Some (ret, p) -> pkt_wf p.
Proof.
  intros Hf H. unfold intel_pt_get_packet in H. apply bind_Some in H as ([r q] & E & H).
  assert (p = q) as -> by (destruct (r >? 0); [apply bind_Some in H as (? & _ & H)|]; by injection H).
  destruct (do_get_packet_cases buf Hf) as [(x & E' & Hok)|[E' _]]; [|congruence]. rewrite E in E'. injection E' as <-.
  destruct (Z.lt_ge_cases 0 r) as [Hr|Hr].
  - unfold res_ok, INTEL_PT_NEED_MORE_BYTES, INTEL_PT_BAD_PACKET in Hok. cbn in Hok. destruct Hok as [|[|(_ & _ & Hw)]]; [lia..|done].
  - apply do_get_packet_fail in E as [Hp Hc]; [|done..]. unfold pkt_wf. rewrite Hp. split_and!; lia.
Qed.

Lemma get_packet_inv v ret p : intel_pt_get_packet v (Z.of_nat (length v)) = Some (ret, p) ->
  exists r, intel_pt_do_get_packet v (Z.of_nat (length v)) = Some (r, p) /\
    if r >? 0 then pad_loop 8 v (Z.of_nat (length v)) r = Some ret else ret = r.
Proof.
  unfold intel_pt_get_packet. intros ([r q] & E & H)%bind_Some. exists r. rewrite E. destruct (r >? 0).
  - apply bind_Some in H as (ret' & Hp & [= <- <-]). done.
  - by injection H as <- <-.
Qed.

Lemma cyc_loop_err fuel bs len offs shift byte pl e : cyc_loop fuel bs len offs shift byte pl = Some (inl e) -> e < 0.
Proof.
  revert offs shift byte pl. induction fuel as [|fuel IH]; intros offs shift byte pl; [done|]. cbn [cyc_loop].
  repeat case_match; try done; try (intros [= <-]; done). intros (b & _ & Hr)%bind_Some. destruct (shift <? 32); [|done]. eauto.
Qed.

(** A parser that gives a packet names its type. *)
Lemma do_get_packet_good buf len ret p : intel_pt_do_get_packet buf len = Some (ret, p) -> 0 < ret -> type p <> INTEL_PT_BAD.
Proof.
  intros H Hr. unfold intel_pt_do_get_packet in H. destruct (len =? 0); [injection H as <- <-; by unfold INTEL_PT_NEED_MORE_BYTES in Hr|].
  apply bind_Some in H as (b & Hb & H).
  unfold_packets H.
  fails; unfold INTEL_PT_NEED_MORE_BYTES, INTEL_PT_BAD_PACKET in *; try lia; try done.
  - by destruct (tst _ _).
  - match goal with H : cyc_loop _ _ _ _ _ _ _ = Some (inl _) |- _ => apply cyc_loop_err in H; lia end.
Qed.

Lemma get_packet_good v ret p : intel_pt_get_packet v (Z.of_nat (length v)) = Some (ret, p) -> 0 < ret -> type p <> INTEL_PT_BAD.
Proof.
  intros (r & E & H)%get_packet_inv Hr. eapply do_get_packet_good; [exact E|]. destruct (Z.gtb_spec r 0); [done|]. subst r. lia.
Qed.

(** * The stream *)

(** The data of an answer of [get_trace]. *)
Definition chunk (b : intel_pt_buffer) : list Z := if nz (b_ret b) then [] else b_buf b.
Definition to_come (t : list intel_pt_buffer) : list Z := concat (map chunk t).

(** The bytes at hand and the bytes to come. *)
Definition stream (i : input) (t : list intel_pt_buffer) : list Z := buf i ++ default [] (next_buf i) ++ to_come t.

(** How much there is: the bytes, and one for every answer to come. *)
Definition total (d : intel_pt_decoder) : Z := Z.of_nat (length (stream (inp d) (trace d))) + Z.of_nat (length (trace d)).
(** Behind the current packet. *)
Definition left_over (d : intel_pt_decoder) : Z := total d - pkt_step d.

(** An answer: an error, no data, or data of at least the size of a packet.
    The error is not [-EAGAIN], which the decoder uses for itself. *)
Definition answer_ok (b : intel_pt_buffer) : Prop :=
  b_ret b <> - EAGAIN /\ u64_ok (b_ref_timestamp b) /\ u64_ok (b_trace_nr b) /\
  (nz (b_ret b) = true \/ b_buf b = [] \/ 16 <= Z.of_nat (length (b_buf b))).
#[global] Instance answer_ok_dec b : Decision (answer_ok b).
Proof. unfold answer_ok, u64_ok. apply _. Defined.

Record fetch_ok (i : input) (t : list intel_pt_buffer) : Prop := {
  fo_bytes : Forall is_byte (stream i t);
  fo_cyc : PtOverlap.no_overlong_cyc (stream i t) = true;
  fo_step : 0 <= pkt_step i <= Z.of_nat (length (buf i));
  fo_next : forall b, next_buf i = Some b -> b <> [];
  fo_answers : Forall answer_ok t;
  fo_packet : pkt_wf (packet i);
}.

Lemma no_overlong_sub a b c : PtOverlap.no_overlong_cyc (a ++ b ++ c) = true -> PtOverlap.no_overlong_cyc b = true.
Proof.
  intros H. unfold PtOverlap.no_overlong_cyc. apply forallb_forall. intros i _.
  pose proof (PtOverlap.no_overlong_view (a ++ b ++ c) (length a + i) (length b - i) H) as Hv.
  rewrite <-drop_drop, drop_app_length, <-skipn_firstn_comm, take_app_length in Hv. by rewrite Hv.
Qed.

Lemma no_overlong_suffix a b : PtOverlap.no_overlong_cyc (a ++ b) = true -> PtOverlap.no_overlong_cyc b = true.
Proof. intros H. apply (no_overlong_sub a b []). by rewrite app_nil_r. Qed.

Lemma no_overlong_prefix a b : PtOverlap.no_overlong_cyc (a ++ b) = true -> PtOverlap.no_overlong_cyc a = true.
Proof. apply (no_overlong_sub []). Qed.

Lemma overlong_head b0 l : overlong_cyc (b0 :: l) = true -> Z.land b0 3 = 3.
Proof. destruct l as [|b1 [|b2 [|b3 [|b4 [|b5 l]]]]]; cbn [overlong_cyc]; try done. intros H. bprop. done. Qed.

(** No CYC packet starts inside of a PSB. *)
Lemma no_overlong_psb l : PtOverlap.no_overlong_cyc l = true -> PtOverlap.no_overlong_cyc (PtOverlap.INTEL_PT_PSB_STR ++ l) = true.
Proof.
  intros H. unfold PtOverlap.no_overlong_cyc in *. apply forallb_forall. intros i Hi%in_seq.
  rewrite length_app in Hi. change (length PtOverlap.INTEL_PT_PSB_STR) with 16%nat in Hi.
  destruct (Nat.lt_ge_cases i 16) as [Hlt|Hge].
  - apply negb_true_iff. do 16 (destruct i as [|i]; [apply not_true_is_false; intros Hc%overlong_head; done|]). lia.
  - rewrite drop_app_ge by (change (length PtOverlap.INTEL_PT_PSB_STR) with 16%nat; lia).
    rewrite forallb_forall in H. apply H. apply in_seq. change (length PtOverlap.INTEL_PT_PSB_STR) with 16%nat. lia.
Qed.

Lemma psb_bytes : Forall is_byte PtOverlap.INTEL_PT_PSB_STR.
Proof. apply (bool_decide_unpack _). vm_compute. exact I. Qed.

(** * The invariant of the decoder *)

Record flow_ok (f : flow) : Prop := {
  fl_stack : stack_ok (stack f); fl_contents : Forall u64_ok (contents (stack f));
  fl_last_ip : u64_ok (last_ip f); fl_ip : u64_ok (ip f); fl_cr3 : u64_ok (cr3 f); fl_ret : u64_ok (ret_addr f);
  fl_tnt : pkt_state f = INTEL_PT_STATE_TNT -> 0 < count (tnt f);
  fl_tnt_payload : u64_ok (payload (tnt f));
  fl_fup_tx : 0 <= fup_tx_flags f < 8; fl_tx : 0 <= tx_flags f < 8;
}.

Record progress_ok (p : progress) : Prop := {
  pg_count : 0 <= no_progress p <= INTEL_PT_MAX_LOOPS + 1; pg_tot : u64_ok (tot_insn_cnt p);
  pg_period : u64_ok (period_insn_cnt p); pg_masked : u64_ok (last_masked_timestamp p); pg_stuck : u64_ok (stuck_ip p);
}.

Record state_ok (s : intel_pt_state) : Prop := {
  sa_type : 0 <= st_type s < 8; sa_err : 0 <= st_err s < INTEL_PT_ERR_MAX; sa_from : u64_ok (st_from_ip s);
  sa_to : u64_ok (st_to_ip s); sa_cr3 : u64_ok (st_cr3 s); sa_tot : u64_ok (st_tot_insn_cnt s);
  sa_timestamp : u64_ok (st_timestamp s); sa_est : u64_ok (st_est_timestamp s); sa_nr : u64_ok (st_trace_nr s);
  sa_flags : 0 <= st_flags s < 8;
}.

Record decoder_ok (d : intel_pt_decoder) : Prop := {
  do_fetch : fetch_ok (inp d) (trace d); do_cfg : cfg_shift_ok (cfg d); do_times : times_ok (tim d);
  do_flow : flow_ok (flw d); do_progress : progress_ok (prg d); do_state : state_ok (state d);
}.

(** A group with an assignment is in order when the value is. *)
Ltac group H := first [exact H | destruct H; constructor; first [assumption | by auto with perf | cbn; by auto with perf | idtac]].
Ltac decoder_solve H :=
  pose proof (fl_ip _ (do_flow _ H)); pose proof (fl_last_ip _ (do_flow _ H)); pose proof (fl_ret _ (do_flow _ H));
  constructor; [group (do_fetch _ H)|exact (do_cfg _ H)|group (do_times _ H)|group (do_flow _ H)
               |group (do_progress _ H)|group (do_state _ H)].

Lemma decoder_input d : decoder_ok d -> input_ok (inp d).
Proof.
  intros [Hf _ _ _ _ _]. destruct Hf as [Hb Hc Hs _ _ _]. constructor; [|by eapply no_overlong_prefix|done].
  by apply Forall_app in Hb as [? _].
Qed.

(** * Fetching *)

(** The input after an answer is taken: the stream is the same, or its front
    part is gone. *)
Lemma fetch_ok_suffix i t i' t' gone : fetch_ok i t -> stream i t = gone ++ stream i' t' ->
  0 <= pkt_step i' <= Z.of_nat (length (buf i')) -> (forall b, next_buf i' = Some b -> b <> []) -> t' `suffix_of` t ->
  packet i' = packet i -> fetch_ok i' t'.
Proof.
  intros [Hb Hc Hs Hn Ha Hp] E Hs' Hn' [u Hu] Ep. rewrite E in Hb, Hc. constructor; try done.
  - by apply Forall_app in Hb as [_ ?].
  - by apply no_overlong_suffix in Hc.
  - rewrite Hu in Ha. by apply Forall_app in Ha as [_ ?].
  - by rewrite Ep.
Qed.

(** What [intel_pt_get_data] leaves alone when it finds consecutive data. *)
Record same_rest (d d' : intel_pt_decoder) : Prop := {
  sr_cfg : cfg d' = cfg d; sr_tim : tim d' = tim d; sr_flw : flw d' = flw d; sr_prg : prg d' = prg d;
  sr_state : state d' = state d;
}.

Definition data_post (d : intel_pt_decoder) (ret : Z) (d' : intel_pt_decoder) : Prop :=
  decoder_ok d' /\ pkt_step d' = 0 /\ next_buf d' = None /\ packet d' = packet d /\
  (if nz ret then total d' <= total d /\ (ret = - ENODATA \/ total d' < total d) /\ ret <> - EAGAIN
   else same_rest d d' /\ exists b, trace d = b :: trace d' /\ nz (b_ret b) = false /\ buf d' = b_buf b /\
          16 <= Z.of_nat (length (b_buf b)) /\ b_consecutive b = true).

Lemma get_data_ok d : decoder_ok d -> next_buf d = None ->
  exists ret d', intel_pt_get_data d = (ret, d') /\ data_post d ret d'.
Proof.
  intros Hd Hn. pose proof (do_fetch _ Hd) as Hf. unfold intel_pt_get_data, get_trace.
  change (trace (d <| pkt_step := 0 |>)) with (trace d).
  assert (forall (d1 : intel_pt_decoder) gone, trace d1 `suffix_of` trace d ->
    buf d ++ to_come (trace d) = gone ++ buf d1 ++ to_come (trace d1) ->
    pkt_step d1 = 0 -> next_buf d1 = None -> packet d1 = packet d -> fetch_ok (inp d1) (trace d1)) as Hfetch.
  { intros d1 gone Hsuf Est Hs1 Hn1 Hp1. eapply (fetch_ok_suffix _ _ _ _ gone); [exact Hf| |lia| |done|done].
    - unfold stream. by rewrite Hn, Hn1.
    - by rewrite Hn1. }
  assert (forall d1 : intel_pt_decoder, next_buf d1 = None ->
    total d1 = Z.of_nat (length (buf d1)) + Z.of_nat (length (to_come (trace d1))) + Z.of_nat (length (trace d1))) as Htot.
  { intros d1 H1. unfold total, stream. rewrite H1. cbn [default app]. rewrite length_app. lia. }
  destruct (trace d) as [|b t] eqn:Et.
  { eexists _, _. split; [reflexivity|]. split; [|split; [done|split; [exact Hn|split; [done|]]]].
    - constructor; [|apply Hd..]. apply (Hfetch _ (buf d)); try done; cbn; rewrite Et; done.
    - change (nz (- ENODATA)) with true. rewrite (Htot d), (Htot (d <| pkt_step := 0 |> <| buf := b_buf no_buffer |>)) by done.
      change (trace (d <| pkt_step := 0 |> <| buf := b_buf no_buffer |>)) with (trace d). rewrite Et. cbn. split; [lia|split; [by left|done]]. }
  assert (to_come (b :: t) = chunk b ++ to_come t) as Ec by done. unfold chunk in Ec.
  destruct (nz (b_ret b)) eqn:Er.
  { eexists _, _. split; [reflexivity|]. split; [|split; [done|split; [exact Hn|split; [done|]]]].
    - constructor; [|apply Hd..]. apply (Hfetch _ []); try done; [by exists [b]|by rewrite Ec].
    - rewrite Er. rewrite (Htot d), (Htot (d <| pkt_step := 0 |> <| trace := t |>)) by done.
      change (trace (d <| pkt_step := 0 |> <| trace := t |>)) with t. rewrite Et, Ec.
      change (buf (d <| pkt_step := 0 |> <| trace := t |>)) with (buf d). rewrite length_cons. cbn [app]. split; [lia|split; [right; lia|]].
      pose proof (fo_answers _ _ Hf) as Ha. by apply Forall_inv in Ha as [? _]. }
  set (d1 := (d <| pkt_step := 0 |> <| trace := t |>) <| buf := b_buf b |>).
  assert (fetch_ok (inp d1) (trace d1)) as Hf1.
  { apply (Hfetch _ (buf d)); try done; [by exists [b]|]. by rewrite Ec. }
  assert (total d1 < total d) as Hlt.
  { rewrite (Htot d), (Htot d1) by done. change (trace d1) with t. change (buf d1) with (b_buf b).
    rewrite Et, Ec, length_app, length_cons. lia. }
  change (buf (d <| pkt_step := 0 |> <| trace := t |> <| buf := b_buf b |>)) with (b_buf b).
  destruct (b_buf b) as [|x l] eqn:Eb.
  { eexists _, d1. split; [reflexivity|]. split; [constructor; [exact Hf1|apply Hd..]|].
    split; [done|split; [exact Hn|split; [done|]]]. change (nz (- ENODATA)) with true. split; [lia|split; [by left|done]]. }
  pose proof (fo_answers _ _ Hf) as Ha. change (buf d1) with (x :: l). cbn match. apply Forall_cons_1 in Ha as [(_ & Hu1 & Hu2 & Ha) _].
  destruct (b_consecutive b) eqn:Econ; cbn [negb].
  - exists 0, d1. split; [reflexivity|]. split; [constructor; [exact Hf1|apply Hd..]|].
    split; [done|split; [exact Hn|split; [done|]]]. change (nz 0) with false. split; [by constructor|].
    exists b. split_and!; try done. destruct Ha as [Ha|[Ha|Ha]]; [congruence|congruence|]. done.
  - eexists _, _. split; [reflexivity|]. split; [|split; [done|split; [exact Hn|split; [done|]]]].
    + constructor; [exact Hf1|exact (do_cfg _ Hd)|group (do_times _ Hd)|group (do_flow _ Hd)|exact (do_progress _ Hd)|group (do_state _ Hd)].
    + change (nz (- ENOLINK)) with true. split; [apply Z.lt_le_incl; exact Hlt|split; [right; exact Hlt|done]].
Qed.

(** A decoder whose [pkt_step] has been used up. *)
Definition stepped_ok (d : intel_pt_decoder) : Prop := decoder_ok (d <| pkt_step := 0 |>).

Definition whole (d : intel_pt_decoder) : list Z := stream (inp d) (trace d).

(** [v] is what the parser saw of the stream. *)
Definition parsed (d : intel_pt_decoder) (ret : Z) (p : intel_pt_pkt) (v : list Z) : Prop :=
  (exists ext, whole d = v ++ ext) /\ intel_pt_get_packet v (Z.of_nat (length v)) = Some (ret, p).

(** The ways to fail: at a bad packet, or without data. *)
Definition failure (d : intel_pt_decoder) (err : Z) (d' : intel_pt_decoder) : Prop :=
  err <> - EAGAIN /\ ((err = - EBADMSG /\ pkt_state d' = pkt_state d) \/ (pkt_step d' = 0 /\ next_buf d' = None)).

(** The end of a fetch with an error. *)
Definition error_post (d : intel_pt_decoder) (err : Z) (d' : intel_pt_decoder) : Prop :=
  decoder_ok d' /\ left_over d' <= total d /\ (err = - ENODATA \/ left_over d' < total d) /\ failure d err d'.

(** The end of a fetch with a packet; a packet put together in [temp_buf]
    fills it. *)
Definition packet_post (d : intel_pt_decoder) (d' : intel_pt_decoder) : Prop :=
  decoder_ok d' /\ same_rest d d' /\ 1 <= pkt_step d' /\ total d' <= total d /\ whole d' = whole d /\
  (exists v, parsed d (pkt_step d') (packet d') v) /\
  (next_buf d = None -> next_buf d' = None \/ pkt_step d' = Z.of_nat (length (buf d'))) /\ trace d' `suffix_of` trace d.

Definition fetch_post (d : intel_pt_decoder) (err : Z) (d' : intel_pt_decoder) : Prop :=
  if nz err then error_post d err d' else packet_post d d'.

Lemma same_rest_refl d : same_rest d d.
Proof. by constructor. Qed.
Lemma same_rest_trans d1 d2 d3 : same_rest d1 d2 -> same_rest d2 d3 -> same_rest d1 d3.
Proof. intros [] []. constructor; congruence. Qed.

Lemma failure_same d1 d2 err d3 : same_rest d1 d2 -> failure d2 err d3 -> failure d1 err d3.
Proof. intros [_ _ Hf _ _] [Hn [[-> E]|H]]; (split; [done|]); [left|by right]. split; [done|]. by rewrite E, Hf. Qed.

(** The parser on the front of the stream. *)
Lemma get_packet_front d v ext : stepped_ok d -> whole d = v ++ ext ->
  exists ret p, intel_pt_get_packet v (Z.of_nat (length v)) = Some (ret, p) /\ pkt_wf p /\
    (ret <= 0 \/ 1 <= ret <= Z.of_nat (length v) /\ ret <= 16).
Proof.
  intros Hd E. pose proof (do_fetch _ Hd) as Hf. destruct Hf as [Hb Hc _ _ _ _]. change (stream _ _) with (whole d) in Hb, Hc.
  rewrite E in Hb, Hc. apply Forall_app in Hb as [Hb _]. apply no_overlong_prefix, no_overlong_head in Hc.
  destruct (get_packet_ok v Hb Hc) as ([ret p] & Eg & Hok). exists ret, p. split; [done|].
  split; [by eapply get_packet_wf|]. unfold res_ok, INTEL_PT_NEED_MORE_BYTES, INTEL_PT_BAD_PACKET, INTEL_PT_PKT_MAX_SZ in Hok.
  cbn [fst snd] in Hok. destruct Hok as [[? _]|[?|(? & ? & _)]]; [left; lia|left; lia|right; done].
Qed.

(** [intel_pt_bad_packet] on a decoder with something at hand. *)
Lemma bad_packet_ok d : stepped_ok d -> buf d <> [] ->
  exists d', intel_pt_bad_packet d = (- EBADMSG, d') /\ decoder_ok d' /\ left_over d' = total d - 1 /\ pkt_state d' = pkt_state d.
Proof.
  intros Hd Hne. unfold intel_pt_bad_packet. eexists. split; [reflexivity|]. split; [|split; done].
  constructor; [|exact (do_cfg _ Hd)|group (do_times _ Hd)|group (do_flow _ Hd)|exact (do_progress _ Hd)|exact (do_state _ Hd)].
  destruct (do_fetch _ Hd). constructor; try assumption. cbn. destruct (buf d); [done|]. rewrite length_cons. lia.
Qed.

(** The stream of [d], with the data [b] fetched into [d1], cut anew into [a]
    and [c]. *)
Lemma rejoin_ok d d1 b p a c : stepped_ok d -> decoder_ok d1 -> same_rest (d <| pkt_step := 0 |>) d1 -> trace d = b :: trace d1 ->
  whole d = buf d ++ b_buf b ++ to_come (trace d1) -> pkt_wf p -> a ++ c = buf d ++ b_buf b -> c <> [] ->
  let d2 := d1 <| packet := p |> <| next_buf := Some c |> <| buf := a |> in
  stepped_ok d2 /\ whole d2 = whole d /\ total d2 = total d - 1 /\ same_rest d d2.
Proof.
  intros Hd Hok1 Hr Et Ew Hwf Eac Hc d2.
  assert (stream (inp d2) (trace d1) = whole d) as Es by (unfold stream; cbn; by rewrite app_assoc, Eac, <-app_assoc, Ew).
  split; [|split; [done|split]].
  - constructor; [|exact (do_cfg _ Hok1)|exact (do_times _ Hok1)|exact (do_flow _ Hok1)|exact (do_progress _ Hok1)|exact (do_state _ Hok1)].
    pose proof (do_fetch _ Hd) as [Hb' Hc' _ _ _ _]. constructor; cbn.
    + exact (eq_ind_r (Forall is_byte) Hb' Es).
    + exact (eq_ind_r (fun l => PtOverlap.no_overlong_cyc l = true) Hc' Es).
    + lia.
    + intros ? [= <-]. done.
    + exact (fo_answers _ _ (do_fetch _ Hok1)).
    + done.
  - unfold total. change (trace d2) with (trace d1). rewrite Es. unfold whole. rewrite Et, length_cons. lia.
  - destruct Hr. by constructor.
Qed.

(** The packet of which the front part is at hand. *)
Lemma split_packet_ok d : stepped_ok d -> buf d <> [] -> Z.of_nat (length (buf d)) < 16 -> next_buf d = None ->
  exists ret d', intel_pt_get_split_packet d = Some (ret, d') /\
    (if ret <=? 0 then error_post d ret d' /\ ret <> 0
     else packet_post d (d' <| pkt_len := ret |> <| pkt_step := ret |>)).
Proof.
  intros Hd Hne H16 Hn. unfold intel_pt_get_split_packet. set (old := buf d) in *.
  rewrite (proj2 (Z.leb_le _ INTEL_PT_PKT_MAX_SZ)) by (unfold INTEL_PT_PKT_MAX_SZ; lia). cbn [ub_unless].
  destruct (get_data_ok (d <| pkt_step := 0 |>) Hd Hn) as (ret & d1 & E1 & Hok1 & Hs1 & Hn1 & Hp1 & Hpost).
  change (intel_pt_get_data d = (ret, d1)) in E1. rewrite E1. change (total (d <| pkt_step := 0 |>)) with (total d) in Hpost.
  destruct (nz ret) eqn:Er.
  { eexists _, _. split; [reflexivity|]. destruct Hpost as (Ht1 & Ht2 & Hna).
    assert (ret <> 0) by (intros ->; done). set (err := if ret <? 0 then ret else - EINVAL).
    assert (err < 0 /\ (ret = - ENODATA -> err = - ENODATA) /\ err <> - EAGAIN) as (Herr & Hnd & Hna').
    { unfold err. destruct (Z.ltb_spec ret 0); [done|]. unfold EINVAL, ENODATA, EAGAIN in *. lia. }
    rewrite (proj2 (Z.leb_le err 0)) by lia. split; [|lia]. split; [decoder_solve Hok1|].
    unfold left_over. change (pkt_step (d1 <| pos := u64 (pos d1 + Z.of_nat (length old)) |>)) with (pkt_step d1).
    change (total (d1 <| pos := u64 (pos d1 + Z.of_nat (length old)) |>)) with (total d1). rewrite Hs1.
    split; [lia|]. split; [destruct Ht2; [left; auto|right; lia]|split; [done|by right; split]]. }
  destruct Hpost as (Hr & b & Et & Eret & Eb & Hlen & _).
  change (trace (d <| pkt_step := 0 |>)) with (trace d) in Et. change (packet d1 = packet d) in Hp1.
  assert (whole d = old ++ b_buf b ++ to_come (trace d1)) as Ew.
  { unfold whole, stream. rewrite Hn, Et. unfold to_come. cbn [map concat default app]. unfold chunk at 1. by rewrite Eret. }
  set (n := INTEL_PT_PKT_MAX_SZ - Z.of_nat (length old)). unfold INTEL_PT_PKT_MAX_SZ in n.
  assert (1 <= n <= 15) as Hnn by (unfold n; destruct old; [done|]; rewrite length_cons in *; lia).
  change (INTEL_PT_PKT_MAX_SZ - Z.of_nat (length old)) with n. rewrite Eb, Z.gtb_ltb, (proj2 (Z.ltb_ge _ n)) by lia.
  set (v := old ++ take (Z.to_nat n) (b_buf b)).
  assert (length v = 16%nat) as Hv by (unfold v, n; rewrite length_app, length_take; lia).
  assert (whole d = v ++ drop (Z.to_nat n) (b_buf b) ++ to_come (trace d1)) as Ev.
  { rewrite Ew. unfold v. rewrite <-app_assoc. f_equal. rewrite app_assoc. by rewrite take_drop. }
  destruct (get_packet_front d v _ Hd Ev) as (ret2 & p & Eg & Hwf & Hret). rewrite Hv in Hret.
  replace (Z.of_nat (length old) + n) with (Z.of_nat (length v)) by (rewrite Hv; unfold n; lia). rewrite Eg. cbn [obind].
  pose proof (fun a c => rejoin_ok d d1 b p a c Hd Hok1 Hr Et Ew Hwf) as Hd2. fold old in Hd2.
  destruct (Z.ltb_spec ret2 (Z.of_nat (length old))) as [Hlt|Hge].
  - destruct (Hd2 old (b_buf b)) as (Hok2 & Ew2 & Et2 & Hr2); [done|intros E0; rewrite E0 in Hlen; cbn in Hlen; lia|].
    destruct (bad_packet_ok _ Hok2) as (d' & Ebad & Hok' & Hl & Est); [done|].
    change (buf (d1 <| packet := p |>)) with (buf d1). rewrite Eb. exists (- EBADMSG), d'.
    split; [by rewrite <-Ebad|].
    change (- EBADMSG <=? 0) with true. cbn match. split; [|unfold EBADMSG; lia]. split; [done|]. rewrite Hl, Et2. split; [lia|]. split; [right; lia|split; [done|left]].
    split; [done|]. rewrite Est. destruct Hr2 as [_ _ Hfl _ _]. by rewrite <-Hfl.
  - assert (1 <= ret2 <= 16) as Hr2.
    { destruct Hret as [Hret|Hret]; [destruct old; [done|rewrite length_cons in *; lia]|lia]. }
    set (k := Z.to_nat (ret2 - Z.of_nat (length old))). assert (k <= Z.to_nat n)%nat by (unfold k, n; lia).
    destruct (Hd2 (take (Z.to_nat ret2) v) (drop k (b_buf b))) as (Hok2 & Ew2 & Et2 & Hsr).
    { unfold v. rewrite take_app, take_ge by lia. rewrite <-app_assoc. f_equal. rewrite take_take.
      replace (Z.to_nat ret2 - length old)%nat with k by (unfold k; lia). rewrite Nat.min_l by lia. by rewrite take_drop. }
    { intros E0. apply (f_equal length) in E0. rewrite length_drop in E0. cbn in E0. unfold k, n in *. lia. }
    eexists _, _. split; [change (buf (d1 <| packet := p |>)) with (buf d1); rewrite Eb; reflexivity|].
    rewrite (proj2 (Z.leb_gt ret2 0)) by lia.
    split; [|split; [destruct Hsr; by constructor|split; [cbn; lia|split; [|split; [exact Ew2|split; [|split]]]]]].
    + constructor; [|exact (do_cfg _ Hok2)|exact (do_times _ Hok2)|exact (do_flow _ Hok2)|exact (do_progress _ Hok2)|exact (do_state _ Hok2)].
      destruct (do_fetch _ Hok2). constructor; try assumption. cbn. rewrite length_take, Hv. lia.
    + etransitivity; [apply Z.eq_le_incl; exact Et2|lia].
    + exists v. split; [eauto|exact Eg].
    + intros _. right. cbn. rewrite length_take, Hv. lia.
    + rewrite Et. by exists [b].
Qed.

Lemma whole_front d : whole d = buf d ++ default [] (next_buf d) ++ to_come (trace d).
Proof. reflexivity. Qed.

Lemma fetch_packet_ok d : stepped_ok d -> buf d <> [] -> exists err d', fetch_packet d = Some (err, d') /\ fetch_post d err d'.
Proof.
  intros Hd Hne. unfold fetch_packet.
  destruct (get_packet_front d (buf d) _ Hd (whole_front d)) as (ret & p & E & Hwf & Hret). rewrite E. cbn [obind].
  set (d1 := d <| packet := p |>). assert (stepped_ok d1) as Hd1.
  { constructor; [|apply Hd..]. destruct (do_fetch _ Hd). by constructor. }
  change (next_buf d1) with (next_buf d).
  destruct ((ret =? INTEL_PT_NEED_MORE_BYTES) && (Z.of_nat (length (buf d)) <? INTEL_PT_PKT_MAX_SZ)
            && match next_buf d with None => true | Some _ => false end) eqn:Es.
  - bprop. unfold INTEL_PT_PKT_MAX_SZ in *. assert (next_buf d1 = None) as Hn1 by (change (next_buf d1) with (next_buf d); by destruct (next_buf d)).
    destruct (split_packet_ok d1 Hd1 Hne) as (ret2 & d2 & E2 & Hpost); [done|done|]. rewrite E2. cbn [obind andb].
    destruct (Z.leb_spec ret2 0) as [Hle|Hgt].
    + destruct Hpost as [Hpost Hnz]. rewrite (proj2 (Z.ltb_lt ret2 0)) by lia. exists ret2, d2. split; [done|].
      unfold fetch_post, nz. rewrite (proj2 (Z.eqb_neq ret2 0)) by done. exact Hpost.
    + rewrite (proj2 (Z.ltb_ge ret2 0)) by lia. eexists _, _. split; [reflexivity|].
      destruct Hpost as (? & Hr & ? & ? & ? & ? & ? & ?). split_and!; try done. destruct Hr. by constructor.
  - cbn [obind andb]. destruct (Z.leb_spec ret 0) as [Hle|Hgt].
    + destruct (bad_packet_ok d1 Hd1 Hne) as (d' & Eb & Hok & Hl & Est). rewrite Eb. eexists _, _. split; [reflexivity|].
      change (total d1) with (total d) in Hl. change (fetch_post d (- EBADMSG) d') with (error_post d (- EBADMSG) d').
      split; [done|]. split; [lia|]. split; [right; lia|split; [done|by left; split]].
    + eexists _, _. split; [reflexivity|]. change (fetch_post d 0) with (packet_post d).
      split; [|split; [by constructor|split; [cbn; lia|split; [done|split; [done|split; [|split]]]]]].
      * constructor; [|apply Hd..]. destruct (do_fetch _ Hd1). constructor; try assumption. cbn. lia.
      * exists (buf d). split; [by eexists|exact E].
      * intros Hn. by left.
      * done.
Qed.

(** The data when the buffer is used up. *)
Lemma next_data_ok d : stepped_ok d -> buf d = [] ->
  exists ret d', intel_pt_get_next_data d = (ret, d') /\
    (if nz ret then error_post d ret d'
     else stepped_ok d' /\ same_rest d d' /\ buf d' <> [] /\ next_buf d' = None /\ total d' <= total d /\ whole d' = whole d /\ trace d' `suffix_of` trace d).
Proof.
  intros Hd Hb. unfold intel_pt_get_next_data. destruct (next_buf d) as [c|] eqn:En.
  - eexists _, _. split; [reflexivity|]. change (nz 0) with false. cbn match.
    assert (stream (inp (d <| buf := c |> <| next_buf := None |>)) (trace d) = whole d) as Es.
    { rewrite whole_front, Hb, En. reflexivity. }
    split; [|split; [by constructor|split; [apply (fo_next _ _ (do_fetch _ Hd) c En)|split; [done|split; [|split; [exact Es|done]]]]]].
    + constructor; [|apply Hd..]. destruct (do_fetch _ Hd) as [H1 H2 H3 H4 H5 H6]. constructor; try assumption; [..|cbn; lia|done].
      * exact (eq_ind_r (Forall is_byte) H1 Es).
      * exact (eq_ind_r (fun l => PtOverlap.no_overlong_cyc l = true) H2 Es).
    + unfold total. change (trace (d <| buf := c |> <| next_buf := None |>)) with (trace d). rewrite Es. done.
  - destruct (get_data_ok (d <| pkt_step := 0 |>) Hd En) as (ret & d1 & E1 & Hok1 & Hs1 & Hn1 & Hp1 & Hpost).
    change (intel_pt_get_data d = (ret, d1)) in E1. change (total (d <| pkt_step := 0 |>)) with (total d) in Hpost.
    exists ret, d1. split; [done|]. destruct (nz ret).
    + destruct Hpost as (Ht1 & Ht2 & Hna). split; [done|]. unfold left_over. rewrite Hs1, Z.sub_0_r.
      split; [done|]. split; [done|]. split; [done|by right; split].
    + destruct Hpost as (Hr & b & Et & Eret & Eb & Hlen & _). change (trace (d <| pkt_step := 0 |>)) with (trace d) in Et.
      assert (whole d1 = whole d) as Ew.
      { rewrite !whole_front, Hb, En, Hn1, Et, Eb. unfold to_come. cbn [map concat default app]. unfold chunk at 2. by rewrite Eret. }
      split; [|split; [destruct Hr; by constructor|split; [|split; [done|split; [|split; [done|rewrite Et; by exists [b]]]]]]].
      * constructor; [|apply Hok1..]. destruct (do_fetch _ Hok1). constructor; try assumption. cbn. lia.
      * intros E0. rewrite E0 in Eb. rewrite <-Eb in Hlen. cbn in Hlen. lia.
      * change (Z.of_nat (length (whole d1)) + Z.of_nat (length (trace d1)) <= Z.of_nat (length (whole d)) + Z.of_nat (length (trace d))).
        rewrite Ew, Et, length_cons. lia.
Qed.

Lemma step_packet_ok d : decoder_ok d -> exists d', step_packet d = Some d' /\ stepped_ok d' /\ same_rest d d' /\
  whole d' = drop (Z.to_nat (pkt_step d)) (whole d) /\ total d' = left_over d /\ next_buf d' = next_buf d.
Proof.
  intros Hd. pose proof (fo_step _ _ (do_fetch _ Hd)) as Hs. unfold step_packet.
  rewrite (proj2 (Z.leb_le 0 _)), (proj2 (Z.leb_le (pkt_step d) _)) by lia. cbn [andb ub_unless].
  eexists. split; [reflexivity|]. set (d' := assign _ _).
  assert (whole d' = drop (Z.to_nat (pkt_step d)) (whole d)) as Ew.
  { rewrite !whole_front. rewrite drop_app_le by lia. reflexivity. }
  split; [|split; [by constructor|split; [done|split; [|done]]]].
  - constructor; [|apply Hd..]. eapply (fetch_ok_suffix _ _ _ _ (take (Z.to_nat (pkt_step d)) (whole d))); [exact (do_fetch _ Hd)| | | | |done].
    + transitivity (take (Z.to_nat (pkt_step d)) (whole d) ++ whole d'); [by rewrite Ew, take_drop|done].
    + cbn. lia.
    + exact (fo_next _ _ (do_fetch _ Hd)).
    + done.
  - unfold left_over. change (total d') with (Z.of_nat (length (whole d')) + Z.of_nat (length (trace d))).
    change (total d) with (Z.of_nat (length (whole d)) + Z.of_nat (length (trace d))).
    rewrite Ew, length_drop. assert (length (buf d) <= length (whole d))%nat by (rewrite whole_front, length_app; lia). lia.
Qed.

(** What a fetch does, measured by what is left behind the current packet. *)
Definition next_post (d : intel_pt_decoder) (err : Z) (d' : intel_pt_decoder) : Prop :=
  decoder_ok d' /\
  if nz err then left_over d' <= left_over d /\ (err = - ENODATA \/ left_over d' < left_over d) /\ failure d err d'
  else same_rest d d' /\ total d' <= left_over d /\ left_over d' < left_over d /\ type (packet d') <> INTEL_PT_BAD.

Lemma next_packet_loop_ok fuel d : decoder_ok d -> left_over d < Z.of_nat fuel ->
  exists err d', next_packet_loop fuel d = Some (err, d') /\ next_post d err d'.
Proof.
  revert d. induction fuel as [|fuel IH]; intros d Hd Hf.
  { pose proof (fo_step _ _ (do_fetch _ Hd)) as Hs. unfold left_over, total, stream in Hf. rewrite length_app in Hf. lia. }
  cbn [next_packet_loop]. destruct (step_packet_ok d Hd) as (d1 & -> & Hd1 & Hr1 & Ew1 & Et1 & _). cbn [obind].
  assert (exists ret d2, match buf d1 with [] => intel_pt_get_next_data d1 | _ => (0, d1) end = (ret, d2) /\
    (if nz ret then error_post d1 ret d2 else stepped_ok d2 /\ same_rest d1 d2 /\ buf d2 <> [] /\ total d2 <= total d1)) as (ret & d2 & E2 & H2).
  { destruct (buf d1) as [|x l] eqn:Eb.
    - destruct (next_data_ok d1 Hd1 Eb) as (ret & d2 & -> & H2). exists ret, d2. split; [done|]. destruct (nz ret); [done|].
      destruct H2 as (? & ? & ? & _ & ? & _). done.
    - exists 0, d1. split; [done|]. change (nz 0) with false. split_and!; [done|apply same_rest_refl..|by rewrite Eb|done]. }
  rewrite E2. destruct (nz ret) eqn:Er.
  { exists ret, d2. split; [done|]. destruct H2 as (? & ? & ? & ?). split; [done|]. rewrite Er, <-Et1. split_and!; try done. by eapply failure_same. }
  destruct H2 as (Hd2 & Hr2 & Hb2 & Ht2). destruct (fetch_packet_ok d2 Hd2 Hb2) as (err & d3 & -> & H3). cbn [obind].
  unfold fetch_post in H3. destruct (nz err) eqn:Ee.
  { exists err, d3. split; [done|]. destruct H3 as (? & ? & Hor & ?). split; [done|]. rewrite Ee. split; [lia|]. split; [destruct Hor; [by left|right; lia]|].
    eapply failure_same; [|done]. by eapply same_rest_trans. }
  destruct H3 as (Hd3 & Hr3 & Hs3 & Ht3 & _ & (v & (ext & Ev) & Eg) & _).
  assert (type (packet d3) <> INTEL_PT_BAD) as Hgood by (eapply get_packet_good; [exact Eg|lia]). assert (left_over d3 < left_over d) as Hlt by (unfold left_over at 1; lia).
  assert (same_rest d d3) as Hr by (eapply same_rest_trans; [exact Hr1|]; by eapply same_rest_trans).
  destruct (is_type _ _).
  - destruct (IH d3 Hd3) as (err' & d4 & -> & Hd4 & H4); [lia|]. exists err', d4. split; [done|]. split; [done|].
    destruct (nz err').
    + destruct H4 as (? & Hor & ?). split; [lia|]. split; [destruct Hor; [by left|right; lia]|by eapply failure_same].
    + destruct H4 as (? & ? & ? & ?). split; [by eapply same_rest_trans|]. split; [lia|]. split; [lia|done].
  - exists 0, d3. split; [done|]. split; [done|]. change (nz 0) with false. split; [done|]. split; [lia|]. split; [lia|done].
Qed.

Lemma get_next_packet_ok fuel d : decoder_ok d -> left_over d < Z.of_nat fuel ->
  exists err d', intel_pt_get_next_packet fuel d = Some (err, d') /\ next_post d err d'.
Proof.
  intros Hd Hf. unfold intel_pt_get_next_packet. set (d1 := assign _ _).
  assert (decoder_ok d1) as Hd1 by (decoder_solve Hd).
  destruct (next_packet_loop_ok fuel d1 Hd1 Hf) as (err & d' & -> & Hok & Hpost). exists err, d'. split; [done|].
  split; [done|]. destruct (nz err); [done|]. destruct Hpost as ([] & Hpost). split; [by constructor|done].
Qed.

(** * The packets of the stream *)

(** Parsers that ask for more would give a packet that is longer. *)
Definition grows (len : Z) (r r' : option (Z * intel_pt_pkt)) : Prop :=
  forall p ret' p', r = Some (INTEL_PT_NEED_MORE_BYTES, p) -> r' = Some (ret', p') -> 0 < ret' -> len < ret'.

Lemma cyc_loop_grows fuel buf ext len len' offs shift byte pl o v : len <= len' ->
  cyc_loop fuel buf len offs shift byte pl = Some (inl INTEL_PT_NEED_MORE_BYTES) ->
  cyc_loop fuel (buf ++ ext) len' offs shift byte pl = Some (inr (o, v)) -> len + 1 < o.
Proof.
  intros Hl. revert offs shift byte pl. induction fuel as [|fuel IH]; intros offs shift byte pl; [done|]. cbn [cyc_loop].
  destruct (tst byte 1); [|done]. destruct (offs >? 9); [done|]. destruct (Z.ltb_spec len offs) as [Hlt|Hge].
  - intros _. destruct (len' <? offs); [done|]. intros (b & _ & Hr)%bind_Some. destruct (shift <? 32); [|done].
    apply cyc_loop_offs in Hr. lia.
  - rewrite (proj2 (Z.ltb_ge len' offs)) by lia. intros (b & Hb & Hr)%bind_Some. rewrite (rd_app_l _ ext _ _ Hb). cbn [mbind option_bind].
    destruct (shift <? 32); [|done]. by apply IH.
Qed.

Lemma do_get_packet_grows bs ext : Forall is_byte bs ->
  grows (Z.of_nat (length bs)) (intel_pt_do_get_packet bs (Z.of_nat (length bs)))
        (intel_pt_do_get_packet (bs ++ ext) (Z.of_nat (length (bs ++ ext)))).
Proof.
  intros Hf. rewrite length_app. set (len := Z.of_nat (length bs)).
  assert (len <= Z.of_nat (length bs + length ext)) as Hl by lia.
  revert Hl. generalize (Z.of_nat (length bs + length ext)). intros len' Hl p ret' p' H H' Hr.
  unfold intel_pt_do_get_packet in H, H'. destruct (Z.eqb_spec len 0) as [->|Hz]; [lia|].
  assert (1 <= len) by (subst len; lia). rewrite (proj2 (Z.eqb_neq len' 0)) in H' by lia.
  apply bind_Some in H as (b & Hb & H). rewrite (rd_app_l _ ext _ _ Hb) in H'. cbn [mbind option_bind] in H'.
  unfold_packets H. unfold_packets H'. unfold INTEL_PT_NEED_MORE_BYTES, INTEL_PT_BAD_PACKET in H, H'.
  repeat match goal with
  | H : Some _ = Some (-1, _) |- _ => first [discriminate H | clear H]
  | H : (if ?c then _ else _) = Some (-1, _) |- _ => destruct c eqn:?
  | H : mbind _ _ = Some (-1, _) |- _ => apply bind_Some in H as (? & ? & H)
  | H : (let '(_, _) := ?x in _) = Some (-1, _) |- _ => destruct x
  end.
  all: repeat match goal with Hx : rd _ _ = Some _ |- _ =>
         rewrite (rd_app_l _ ext _ _ Hx) in H'; cbn [mbind option_bind] in H'; clear Hx end.
  all: repeat match goal with E : ?c = true |- _ => rewrite E in H' | E : ?c = false |- _ => rewrite E in H' end.
  all: fails; bprop; try lia.
  all: try (change (Z.shiftr (52 - 5) 3) with 5 in *; lia).
  all: try match goal with H : cyc_loop _ _ _ _ _ _ _ = Some (inl _) |- _ => apply cyc_loop_err in H; lia end.
  all: try match goal with H : cyc_loop _ _ _ _ _ _ _ = Some (inr _) |- _ => apply cyc_loop_offs in H; lia end.
  match goal with H : cyc_loop _ _ _ _ _ _ _ = Some (inl _), H' : cyc_loop _ _ _ _ _ _ _ = Some (inr _) |- _ =>
    pose proof (cyc_loop_grows _ _ _ (len - 1) (len' - 1) _ _ _ _ _ _ ltac:(lia) H H') end. lia.
Qed.

(** The stream behind leading padding. *)
Fixpoint strip_pad (s : list Z) : list Z :=
  match s with 0 :: s => strip_pad s | _ => s end.

(** The first packet that is no padding, and what follows it. *)
Definition parse (s : list Z) : option (intel_pt_pkt * list Z) :=
  let s := strip_pad s in
  match intel_pt_do_get_packet s (Z.of_nat (length s)) with
  | Some (ret, p) => if ret >? 0 then Some (p, drop (Z.to_nat ret) s) else None
  | None => None
  end.

Lemma strip_pad_idem s : strip_pad (strip_pad s) = strip_pad s.
Proof. induction s as [|[]]; done. Qed.

Lemma parse_strip s : parse (strip_pad s) = parse s.
Proof. unfold parse. by rewrite strip_pad_idem. Qed.

Lemma strip_pad_head b s : b <> 0 -> strip_pad (b :: s) = b :: s.
Proof. by destruct b. Qed.

Lemma pad_loop_strip fuel bs ext ret ret' : 1 <= ret -> pad_loop fuel bs (Z.of_nat (length bs)) ret = Some ret' ->
  ret <= ret' /\ strip_pad (drop (Z.to_nat ret') (bs ++ ext)) = strip_pad (drop (Z.to_nat ret) (bs ++ ext)).
Proof.
  revert ret. induction fuel as [|fuel IH]; intros ret Hr; cbn [pad_loop]; [intros [= <-]; done|].
  destruct (_ && _); [|intros [= <-]; done]. intros (b & Hb & H)%bind_Some.
  destruct (Z.eqb_spec b 0) as [->|]; [|injection H as <-; done].
  apply IH in H as [H1 H2]; [|lia]. split; [lia|]. rewrite H2. apply (rd_app_l _ ext) in Hb. unfold rd in Hb.
  rewrite (proj2 (Z.leb_le 0 ret)) in Hb by lia. replace (Z.to_nat (ret + 1)) with (S (Z.to_nat ret)) by lia.
  rewrite (drop_S _ _ _ Hb). done.
Qed.

(** Padding is a zero byte. *)
Lemma do_get_packet_pad bs len : len <> 0 -> intel_pt_do_get_packet (0 :: bs) len = Some (1, set_type INTEL_PT_PAD zero_pkt).
Proof. intros H. unfold intel_pt_do_get_packet. by rewrite (proj2 (Z.eqb_neq len 0)). Qed.

Lemma do_get_packet_not_pad b bs len ret p : b <> 0 ->
  intel_pt_do_get_packet (b :: bs) len = Some (ret, p) -> type p <> INTEL_PT_PAD.
Proof.
  intros Hb H. unfold intel_pt_do_get_packet in H. destruct (len =? 0); [by injection H as <- <-|].
  change (rd (b :: bs) 0) with (Some b) in H. cbn [mbind option_bind] in H. rewrite (proj2 (Z.eqb_neq b 0)) in H by done.
  unfold_packets H.
  fails; try done. destruct (tst _ 1); done.
Qed.

(** What the parser sees of a stream decides about the whole stream. *)
Lemma parse_packet v ext ret p : Forall is_byte v -> v <> [] -> intel_pt_get_packet v (Z.of_nat (length v)) = Some (ret, p) -> 0 < ret ->
  if is_type (type p) INTEL_PT_PAD then strip_pad (drop (Z.to_nat ret) (v ++ ext)) = strip_pad (v ++ ext)
  else exists r, parse (v ++ ext) = Some (p, r) /\ strip_pad (drop (Z.to_nat ret) (v ++ ext)) = strip_pad r.
Proof.
  intros Hf Hne (r & E & Hpad)%get_packet_inv Hr. destruct v as [|b v]; [done|].
  destruct (Z.gtb_spec r 0) as [Hr0|]; [|lia]. apply (pad_loop_strip _ _ ext) in Hpad as [Hle Hs]; [|lia]. unfold is_type.
  pose proof (do_get_packet_stable (b :: v) ext _ E) as Est. cbn [fst] in Est. specialize (Est ltac:(unfold INTEL_PT_NEED_MORE_BYTES; lia)).
  destruct (Z.eq_dec b 0) as [->|Hb].
  - rewrite do_get_packet_pad in E by (rewrite length_cons; lia). injection E as <- <-.
    rewrite bool_decide_true by done. exact Hs.
  - pose proof (do_get_packet_not_pad _ _ _ _ _ Hb E) as Hnp. rewrite bool_decide_false by done.
    exists (drop (Z.to_nat r) ((b :: v) ++ ext)). split; [|done]. unfold parse. cbn [app]. rewrite strip_pad_head by done.
    cbn [app] in Est. rewrite Est. by rewrite (proj2 (Z.gtb_lt r 0)).
Qed.

Lemma parse_bad v ext ret p : Forall is_byte v -> v <> [] -> intel_pt_get_packet v (Z.of_nat (length v)) = Some (ret, p) -> ret <= 0 ->
  ret <> INTEL_PT_NEED_MORE_BYTES \/ ext = [] -> parse (v ++ ext) = None.
Proof.
  intros Hf Hne (r & E & Hpad)%get_packet_inv Hr Hor. destruct v as [|b v]; [done|].
  destruct (Z.gtb_spec r 0) as [Hr0|Hr0]; [apply (pad_loop_strip _ _ ext) in Hpad as [Hle _]; lia|subst ret].
  destruct (Z.eq_dec b 0) as [->|Hb].
  { rewrite do_get_packet_pad in E by (rewrite length_cons; lia). injection E as <- <-. lia. }
  unfold parse. cbn [app]. rewrite strip_pad_head by done. assert (intel_pt_do_get_packet (b :: v ++ ext) (Z.of_nat (length (b :: v ++ ext))) = Some (r, p)) as ->.
  { destruct Hor as [Hn| ->]; [exact (do_get_packet_stable (b :: v) ext _ E Hn)|]. by rewrite app_nil_r. }
  by rewrite Z.gtb_ltb, (proj2 (Z.ltb_ge 0 r)) by lia.
Qed.

(** A trace of consecutive buffers. *)
Definition plain_answer (b : intel_pt_buffer) : Prop := b_ret b = 0 /\ b_consecutive b = true /\ 16 <= Z.of_nat (length (b_buf b)).
Definition plain (t : list intel_pt_buffer) : Prop := Forall plain_answer t.
#[global] Instance plain_answer_dec b : Decision (plain_answer b).
Proof. unfold plain_answer. apply _. Defined.

Lemma get_data_head (d : intel_pt_decoder) b t : trace d = b :: t -> plain_answer b ->
  intel_pt_get_data d = (0, d <| pkt_step := 0 |> <| trace := t |> <| buf := b_buf b |>).
Proof.
  intros Ht (Hr & Hc & Hl). unfold intel_pt_get_data, get_trace. change (trace (d <| pkt_step := 0 |>)) with (trace d).
  rewrite Ht, Hr. change (nz 0) with false.
  change (buf (d <| pkt_step := 0 |> <| trace := t |> <| buf := b_buf b |>)) with (b_buf b).
  destruct (b_buf b); [cbn in Hl; lia|]. by rewrite Hc.
Qed.

Lemma get_data_plain (d : intel_pt_decoder) : plain (trace d) ->
  match trace d with
  | [] => intel_pt_get_data d = (- ENODATA, d <| pkt_step := 0 |> <| buf := [] |>)
  | b :: t => intel_pt_get_data d = (0, d <| pkt_step := 0 |> <| trace := t |> <| buf := b_buf b |>)
  end.
Proof.
  intros Hp. destruct (trace d) as [|b t] eqn:Et; [|apply get_data_head; [done|by apply Forall_inv in Hp]].
  unfold intel_pt_get_data, get_trace. change (trace (d <| pkt_step := 0 |>)) with (trace d). by rewrite Et.
Qed.

(** The bytes and answers at hand, as far as the parser goes. *)
Lemma front_bytes (d : intel_pt_decoder) v ext : stepped_ok d -> whole d = v ++ ext -> Forall is_byte v.
Proof. intros Hd E. pose proof (fo_bytes _ _ (do_fetch _ Hd)) as Hb. change (Forall is_byte (whole d)) in Hb. rewrite E in Hb. by apply Forall_app in Hb as [? _]. Qed.

Lemma need_more_short d v ext ret p : stepped_ok d -> whole d = v ++ ext ->
  intel_pt_get_packet v (Z.of_nat (length v)) = Some (ret, p) -> ret = INTEL_PT_NEED_MORE_BYTES -> Z.of_nat (length v) < 16.
Proof.
  intros Hd E Hg ->. pose proof (fo_cyc _ _ (do_fetch _ Hd)) as Hc. change (PtOverlap.no_overlong_cyc (whole d) = true) in Hc.
  rewrite E in Hc. apply no_overlong_prefix, no_overlong_head in Hc.
  destruct (get_packet_ok v (front_bytes d v ext Hd E) Hc) as ([r q] & Eg & Hok). rewrite Hg in Eg. injection Eg as <- <-.
  unfold res_ok, INTEL_PT_NEED_MORE_BYTES, INTEL_PT_BAD_PACKET, INTEL_PT_PKT_MAX_SZ in Hok. cbn in Hok. lia.
Qed.

Lemma split_packet_plain d ret d' ret0 p0 : stepped_ok d -> buf d <> [] -> next_buf d = None -> plain (trace d) ->
  intel_pt_get_packet (buf d) (Z.of_nat (length (buf d))) = Some (ret0, p0) -> ret0 = INTEL_PT_NEED_MORE_BYTES ->
  intel_pt_get_split_packet d = Some (ret, d') -> ret <= 0 -> parse (whole d) = None.
Proof.
  intros Hd Hne Hn Hp E0 Hnm Es Hret. pose proof (get_data_plain d Hp) as Eg. unfold intel_pt_get_split_packet in Es.
  destruct (_ <=? INTEL_PT_PKT_MAX_SZ) eqn:H16; [|done]. cbn [ub_unless] in Es. unfold INTEL_PT_PKT_MAX_SZ in *. bprop.
  pose proof (whole_front d) as Ew. rewrite Hn in Ew. cbn [default app] in Ew. pose proof (front_bytes d _ _ Hd Ew) as Hby.
  destruct (trace d) as [|b t] eqn:Et.
  { rewrite Ew. eapply parse_bad; [done..|exact E0|rewrite Hnm; done|by right]. }
  rewrite Eg in Es. change (nz 0) with false in Es. cbn match in Es.
  change (buf (d <| pkt_step := 0 |> <| trace := t |> <| buf := b_buf b |>)) with (b_buf b) in Es.
  unfold plain in Hp. apply Forall_inv in Hp as (Hr & _ & Hl). assert (buf d <> []) as Hne' by done.
  assert (1 <= Z.of_nat (length (buf d))) by (destruct (buf d); [done|rewrite length_cons; lia]).
  rewrite Z.gtb_ltb, (proj2 (Z.ltb_ge _ _)) in Es by lia.
  set (n := 16 - Z.of_nat (length (buf d))) in *. set (v := buf d ++ take (Z.to_nat n) (b_buf b)) in *.
  assert (length v = 16%nat) as Hv by (unfold v, n; rewrite length_app, length_take; lia).
  assert (whole d = v ++ drop (Z.to_nat n) (b_buf b) ++ to_come t) as Ev.
  { rewrite Ew. unfold v. rewrite <-app_assoc. f_equal. rewrite app_assoc, take_drop. unfold to_come. cbn [map concat]. unfold chunk at 1. by rewrite Hr. }
  replace (Z.of_nat (length (buf d)) + n) with (Z.of_nat (length v)) in Es by (rewrite Hv; unfold n; lia).
  destruct (get_packet_front d v _ Hd Ev) as (ret2 & p & Eg2 & _ & _). rewrite Eg2 in Es. cbn [obind] in Es.
  pose proof (front_bytes d v _ Hd Ev) as Hbv. assert (v <> []) by (intros E; rewrite E in Hv; done).
  destruct (Z.lt_ge_cases 0 ret2) as [Hpos|Hneg].
  - destruct (Z.ltb_spec ret2 (Z.of_nat (length (buf d)))) as [Hlt|Hge]; [|injection Es as <- <-; lia]. exfalso.
    apply get_packet_inv in E0 as (r0 & E0 & Hr0). apply get_packet_inv in Eg2 as (r2 & Eg2 & Hr2).
    assert (r0 = INTEL_PT_NEED_MORE_BYTES) as ->.
    { destruct (Z.gtb_spec r0 0); [|by rewrite <-Hr0]. apply (pad_loop_strip _ _ []) in Hr0 as [? _]; [|lia]. unfold INTEL_PT_NEED_MORE_BYTES in *. lia. }
    destruct (Z.gtb_spec r2 0); [|lia]. apply (pad_loop_strip _ _ []) in Hr2 as [? _]; [|lia].
    pose proof (do_get_packet_grows (buf d) (take (Z.to_nat n) (b_buf b)) Hby _ _ _ E0 Eg2). lia.
  - rewrite Ev. eapply parse_bad; [done..|exact Eg2|done|]. left. intros Hnm2.
    pose proof (need_more_short d v _ _ _ Hd Ev Eg2 Hnm2). lia.
Qed.

Lemma fetch_packet_plain d err d' : stepped_ok d -> buf d <> [] -> next_buf d = None -> plain (trace d) ->
  fetch_packet d = Some (err, d') -> nz err = true -> parse (whole d) = None.
Proof.
  intros Hd Hne Hn Hp E Herr. unfold fetch_packet in E. pose proof (whole_front d) as Ew. pose proof (front_bytes d _ _ Hd Ew) as Hby.
  destruct (get_packet_front d (buf d) _ Hd Ew) as (ret & p & E0 & Hwf & _). rewrite E0 in E. cbn [obind] in E.
  set (d1 := d <| packet := p |>) in *. change (next_buf d1) with (next_buf d) in E. rewrite Hn in E. rewrite andb_true_r in E.
  assert (stepped_ok d1) as Hd1.
  { constructor; [|apply Hd..]. destruct (do_fetch _ Hd). by constructor. }
  destruct ((ret =? INTEL_PT_NEED_MORE_BYTES) && _) eqn:Es.
  - bprop. destruct (intel_pt_get_split_packet d1) as [[ret2 d2]|] eqn:E2; [|done]. cbn [obind andb] in E.
    change (whole d) with (whole d1). eapply split_packet_plain; [exact Hd1|done..|exact E2|].
    destruct (Z.ltb_spec ret2 0); [lia|]. destruct (Z.leb_spec ret2 0); [lia|]. injection E as <- <-. done.
  - cbn [obind andb] in E. destruct (Z.leb_spec ret 0); [|injection E as <- <-; done].
    rewrite Ew. eapply parse_bad; [done..|exact E0|done|]. left. intros Hnm.
    pose proof (need_more_short d (buf d) _ _ _ Hd Ew E0 Hnm) as Hlt. rewrite Hnm in Es. unfold INTEL_PT_PKT_MAX_SZ in Es.
    rewrite (proj2 (Z.ltb_lt _ 16)) in Es by done. done.
Qed.

(** What lies behind the current packet. *)
Definition rest (d : intel_pt_decoder) : list Z := drop (Z.to_nat (pkt_step d)) (whole d).

(** No part of a packet that could not be put together is left in
    [temp_buf]. *)
Definition clean (d : intel_pt_decoder) : Prop := next_buf d = None \/ pkt_step d = Z.of_nat (length (buf d)).

Lemma plain_suffix t t' : plain t -> t' `suffix_of` t -> plain t'.
Proof. intros H [u ->]. by apply Forall_app in H as [_ ?]. Qed.

(** The start of a round of the fetching loop. *)
Lemma round_plain d d1 : decoder_ok d -> clean d -> plain (trace d) -> step_packet d = Some d1 ->
  (exists ret d2, match buf d1 with [] => intel_pt_get_next_data d1 | _ => (0, d1) end = (ret, d2) /\
    if nz ret then parse (rest d) = None
    else stepped_ok d2 /\ buf d2 <> [] /\ next_buf d2 = None /\ plain (trace d2) /\ whole d2 = rest d /\ total d2 <= left_over d).
Proof.
  intros Hd Hc Hp E. destruct (step_packet_ok d Hd) as (d1' & E' & Hd1 & _ & Ew & Et & En). rewrite E in E'. injection E' as <-.
  assert (trace d1 = trace d) as Etr by (unfold step_packet in E; destruct (_ && _); [by injection E as <-|done]).
  assert (buf d1 = drop (Z.to_nat (pkt_step d)) (buf d)) as Ebuf by (unfold step_packet in E; destruct (_ && _); [by injection E as <-|done]).
  change (rest d) with (drop (Z.to_nat (pkt_step d)) (whole d)). rewrite <-Ew, <-Et.
  destruct (buf d1) as [|x l] eqn:Eb.
  - destruct (next_data_ok d1 Hd1 Eb) as (ret & d2 & E2 & H2). exists ret, d2. split; [done|]. destruct (nz ret) eqn:Er.
    + assert (next_buf d1 = None /\ trace d1 = []) as [Hn Htr].
      { unfold intel_pt_get_next_data in E2. destruct (next_buf d1) as [c|]; [injection E2 as <- _; done|]. split; [done|].
        pose proof (get_data_plain d1) as Hg. rewrite Etr in *. specialize (Hg Hp). destruct (trace d); [done|].
        rewrite Hg in E2. injection E2 as <- _. done. }
      rewrite whole_front, Eb, Hn, Htr. done.
    + destruct H2 as (? & _ & ? & ? & ? & ? & Hsuf). split_and!; try done. eapply plain_suffix; [|exact Hsuf]. by rewrite Etr.
  - exists 0, d1. split; [done|]. change (nz 0) with false. split_and!; try done; [by rewrite Eb| |by rewrite Etr].
    destruct Hc as [Hc|Hc]; [by rewrite En|]. rewrite Hc, Nat2Z.id, drop_all in Ebuf. done.
Qed.

Lemma next_packet_plain fuel d err d' : decoder_ok d -> clean d -> plain (trace d) -> next_packet_loop fuel d = Some (err, d') ->
  if nz err then parse (rest d) = None
  else decoder_ok d' /\ clean d' /\ plain (trace d') /\ exists r, parse (rest d) = Some (packet d', r) /\ strip_pad (rest d') = strip_pad r.
Proof.
  revert d. induction fuel as [|fuel IH]; intros d Hd Hc Hp; [done|]. cbn [next_packet_loop].
  destruct (step_packet_ok d Hd) as (d1 & E1 & _). rewrite E1. cbn [obind].
  destruct (round_plain d d1 Hd Hc Hp E1) as (ret & d2 & -> & H2). destruct (nz ret) eqn:Er; [intros [= <- <-]; by rewrite Er|].
  destruct H2 as (Hd2 & Hb2 & Hn2 & Hp2 & Ew2 & _).
  destruct (fetch_packet_ok d2 Hd2 Hb2) as (e & d3 & E3 & H3). rewrite E3. cbn [obind]. unfold fetch_post in H3.
  destruct (nz e) eqn:Ee; [intros [= <- <-]; rewrite Ee, <-Ew2; by eapply fetch_packet_plain|].
  destruct H3 as (Hd3 & _ & Hs3 & _ & Ew3 & (v & (ext & Ev) & Eg) & Hc3 & Hsuf).
  pose proof (front_bytes d2 v ext Hd2 Ev) as Hbv.
  assert (v <> []) as Hv. { intros ->. change (Some (-1, zero_pkt) = Some (pkt_step d3, packet d3)) in Eg. injection Eg as E0 _. lia. }
  pose proof (parse_packet v ext _ _ Hbv Hv Eg ltac:(lia)) as Hparse. rewrite <-Ev in Hparse.
  assert (rest d3 = drop (Z.to_nat (pkt_step d3)) (whole d2)) as Hrest by (unfold rest; by rewrite Ew3).
  assert (plain (trace d3)) by by eapply plain_suffix. specialize (Hc3 Hn2).
  destruct (is_type _ _).
  - intros E4. specialize (IH d3 Hd3 Hc3 ltac:(done) E4).
    assert (parse (rest d) = parse (rest d3)) as Ep.
    { rewrite <-(parse_strip (rest d)), <-(parse_strip (rest d3)). f_equal. rewrite Hrest. rewrite Hparse. by rewrite Ew2. }
    destruct (nz err); by rewrite Ep.
  - intros [= <- <-]. change (nz 0) with false. split_and!; try done. destruct Hparse as (r & Hpr & Hsr). exists r.
    rewrite <-Ew2. split; [done|]. by rewrite Hrest.
Qed.

(** The packets of up to [n] fetches, up to the first error. *)
Fixpoint packets (n fuel : nat) (d : intel_pt_decoder) : option (list intel_pt_pkt) :=
  match n with
  | O => Some []
  | S n =>
      let? (err, d) := intel_pt_get_next_packet fuel d in
      if nz err then Some [] else let? ps := packets n fuel d in Some (packet d :: ps)
  end.

(** The packets of a stream. *)
Fixpoint parse_all (n : nat) (s : list Z) : list intel_pt_pkt :=
  match n with
  | O => []
  | S n => match parse s with Some (p, r) => p :: parse_all n r | None => [] end
  end.

Lemma parse_all_strip n s s' : strip_pad s = strip_pad s' -> parse_all n s = parse_all n s'.
Proof. intros H. destruct n; [done|]. cbn [parse_all]. by rewrite <-(parse_strip s), H, parse_strip. Qed.


(** A decoder with three bytes of a TSC packet at hand. *)
Definition three_bytes (t : list intel_pt_buffer) : intel_pt_decoder :=
  (zeroed (ticks_config 16) (mkWorld t 0 0)) <| buf := [0x19; 1; 2] |>.
Definition data (l : list Z) : intel_pt_buffer := mkBuffer 0 l true 0 0.

Lemma stack_ok_empty : stack_ok empty_stack.
Proof. constructor; [constructor|done|cbn; lia|done]. Qed.

Lemma three_bytes_ok t : fetch_ok (inp (three_bytes t)) t -> decoder_ok (three_bytes t).
Proof.
  intros Hf. constructor; [exact Hf|unfold cfg_shift_ok; cbn; lia|..].
  1, 3, 4: constructor; vm_compute; try split; congruence.
  constructor; try exact stack_ok_empty; try constructor; try (vm_compute; congruence).
Qed.


(** C33: When a packet that is split between two buffers uses up the second one,
    [next_buf] stays set with a length of zero; if the buffer after that starts
    with a bad packet, [intel_pt_bad_packet] asks to step over one byte of the
    then empty [temp_buf], and the next fetch makes [len] wrap around: its
    behaviour is undefined. *)
Theorem used_up_buffer_underflow (d : intel_pt_decoder) (b : intel_pt_buffer) (t : list intel_pt_buffer) (ret : Z)
    (p : intel_pt_pkt) (fuel fuel' : nat) :
  pkt_step d = Z.of_nat (length (buf d)) -> next_buf d = Some [] -> trace d = b :: t -> plain_answer b ->
  intel_pt_get_packet (take 16 (b_buf b)) 16 = Some (ret, p) -> ret < 0 ->
  exists d1, intel_pt_get_next_packet (S fuel) d = Some (- EBADMSG, d1) /\ buf d1 = [] /\ pkt_step d1 = 1 /\
    next_buf d1 = Some (b_buf b) /\ intel_pt_get_next_packet fuel' d1 = None.
Proof.
  intros Hs Hn Ht (Hr & Hc & Hl) Hg Hneg. unfold intel_pt_get_next_packet at 1. cbn [next_packet_loop].
  set (d0 := assign _ _). assert (step_packet d0 = Some (d0 <| pos := u64 (pos d + pkt_step d) |> <| buf := [] |>)) as ->.
  { unfold step_packet. change (pkt_step d0) with (pkt_step d). change (buf d0) with (buf d). change (pos d0) with (pos d).
    rewrite (proj2 (Z.leb_le 0 _)), (proj2 (Z.leb_le (pkt_step d) _)) by lia. cbn [andb ub_unless]. by rewrite Hs, Nat2Z.id, drop_all. }
  cbn [obind]. set (d2 := assign _ _). change (buf d2) with (@nil Z). cbn match. unfold intel_pt_get_next_data.
  change (next_buf d2) with (next_buf d). rewrite Hn. cbn match. set (d3 := assign _ _). change (nz 0) with false. cbn match.
  unfold fetch_packet. change (buf d3) with (@nil Z).
  change (intel_pt_get_packet [] (Z.of_nat (length []))) with (Some (INTEL_PT_NEED_MORE_BYTES, zero_pkt)). cbn [obind].
  set (d4 := assign _ _). change (next_buf d4) with (@None (list Z)).
  change (INTEL_PT_NEED_MORE_BYTES =? INTEL_PT_NEED_MORE_BYTES) with true. change (Z.of_nat (length (@nil Z))) with 0.
  change (0 <? INTEL_PT_PKT_MAX_SZ) with true. cbn [andb]. unfold intel_pt_get_split_packet. change (buf d4) with (@nil Z).
  change (Z.of_nat (length (@nil Z))) with 0. change (0 <=? INTEL_PT_PKT_MAX_SZ) with true. cbn [ub_unless].
  rewrite (get_data_head d4 b t Ht (conj Hr (conj Hc Hl))). change (nz 0) with false. cbn match. set (d5 := assign _ _).
  change (buf d5) with (b_buf b). change (INTEL_PT_PKT_MAX_SZ - 0) with 16.
  rewrite Z.gtb_ltb, (proj2 (Z.ltb_ge (Z.of_nat (length (b_buf b))) 16)) by lia. cbn [app].
  change (Z.to_nat 16) with 16%nat. change (0 + 16) with 16. rewrite Hg. cbn [obind]. rewrite (proj2 (Z.ltb_lt ret 0)) by done.
  cbn [intel_pt_bad_packet obind andb]. change (- EBADMSG <? 0) with true. cbn match. change (nz (- EBADMSG)) with true. cbn match.
  eexists. split; [reflexivity|]. split_and!; try reflexivity. by destruct fuel'.
Qed.

(** Three bytes of a TSC packet, its last five bytes in a buffer of their own,
    and then a bad packet. *)
Definition underflow_start : intel_pt_decoder := three_bytes [data [4; 5; 6; 7; 8]; data (0x02 :: replicate 15 0xff)].

Lemma used_up_buffer_underflow_witness :
  exists d, intel_pt_get_next_packet 1 underflow_start = Some (0, d) /\
  exists d1, intel_pt_get_next_packet 1 d = Some (- EBADMSG, d1) /\ buf d1 = [] /\ pkt_step d1 = 1 /\
    next_buf d1 = Some (b_buf (data (0x02 :: replicate 15 0xff))) /\ intel_pt_get_next_packet 1 d1 = None.
Proof.
  eexists. split; [vm_compute; reflexivity|].
  apply (used_up_buffer_underflow _ (data (0x02 :: replicate 15 0xff)) [] (-2) zero_pkt 0 1); try reflexivity.
  apply (bool_decide_unpack _). vm_compute. exact I.
Defined.

End PtFetch.
