(* ===== verification/PtDecode.v ===== *)
(** The Intel PT decoder (PtDec.v) as a whole: it comes to an end, keeps its
    invariant, and does not stay in a loop of instructions.

    The fuel of the loops is bounded by what is left of the trace: every round
    of every loop consumes a packet or an answer of [get_trace], or uses up a
    branch of a TNT packet. *)

From stdpp Require Import base option list numbers.
From Stdlib Require Import ZArith Lia Bool.
From S2P Require Import Prelude PtPkt PtInsn PtStack PtOverlap PtDec PtTime PtFetch.

Module PtDecode.
Import PtPkt PtInsn PtStack PtDec PtTime PtFetch.

(** * The environment *)

(** The types of what [walk_insn] and [malloc] give: both counts are
    [uint64_t], and a block has the size that was asked for. *)
Class EnvOk `{!PtEnv} : Prop := {
  eo_walk : forall n ip to_ip max, let a := walk_insn_cb n ip to_ip max in u64_ok (a_ip a) /\ u64_ok (a_insn_cnt a);
  eo_malloc : forall n b, malloc_cb n = Some b -> blk_ok b;
}.

(** The length of a direct branch and its offset add up to an [int].  This is a
    condition on the code that is traced: [walk_insn] gives the offset as it is
    in the instruction, and [intel_pt_walk_next_insn] does not check it. *)
Definition fits (insn : intel_pt_insn) : Prop :=
  branch insn = INTEL_PT_BR_UNCONDITIONAL \/ branch insn = INTEL_PT_BR_CONDITIONAL ->
  - 2 ^ 31 <= length_ insn + rel insn < 2 ^ 31.
Class offsets_fit `{!PtEnv} : Prop :=
  offset_fits n ip to_ip max : let a := walk_insn_cb n ip to_ip max in a_err a = 0 -> fits (a_insn a).

(** The conversion of a [double] out of range gives a value: Annex F of ISO C,
    for implementations that define [__STDC_IEC_559__]. *)
Class conversions_defined `{!PtEnv} : Prop := conversion_defined x : is_Some (cvt_oob x).

(** * Walking instructions *)

(** A decoder that has found its place in the trace. *)
Definition synced (d : intel_pt_decoder) : Prop := pkt_state d <> INTEL_PT_STATE_NO_PSB.

(** Instructions consume nothing of the trace. *)
Record walked (d d' : intel_pt_decoder) : Prop := {
  wk_ok : decoder_ok d'; wk_inp : inp d' = inp d; wk_trace : trace d' = trace d; wk_synced : synced d -> synced d';
}.

Lemma walked_refl d : decoder_ok d -> walked d d.
Proof. by constructor. Qed.
Lemma walked_trans d1 d2 d3 : walked d1 d2 -> walked d2 d3 -> walked d1 d3.
Proof. intros [] []. constructor; [done|congruence..|auto]. Qed.
Lemma walked_left d d' : walked d d' -> left_over d' = left_over d /\ total d' = total d.
Proof. intros [_ Hi Ht _]. unfold left_over, total, stream. by rewrite Hi, Ht. Qed.

Lemma land_u64_ok x m : u64_ok x -> u64_ok (Z.land x m).
Proof. intros Hx. unfold u64_ok in *. rewrite Z.land_comm. pose proof (land_bounded_r m x ltac:(lia)). lia. Qed.
Lemma lor_flags a b : 0 <= a < 8 -> 0 <= b < 8 -> 0 <= Z.lor a b < 8.
Proof. apply (lor_bounded 3). lia. Qed.
Lemma ldiff_bounded n a b : 0 <= n -> 0 <= a < 2 ^ n -> 0 <= Z.ldiff a b < 2 ^ n.
Proof.
  intros Hn Ha. apply bounded_iff_bits; [done|]. split; [apply Z.ldiff_nonneg; lia|]. intros i Hi.
  rewrite Z.ldiff_spec. apply bounded_iff_bits in Ha as [_ Ha]; [|done]. by rewrite Ha.
Qed.
Lemma land_flags a m : 0 <= m < 8 -> 0 <= Z.land a m < 8.
Proof. intros Hm. pose proof (land_bounded_r a m ltac:(lia)). lia. Qed.
#[export] Hint Resolve land_u64_ok : perf.

Lemma next_sample_ok d : decoder_ok d -> walked d (intel_pt_next_sample d).2 /\ flw (intel_pt_next_sample d).2 = flw d.
Proof.
  intros Hd. unfold intel_pt_next_sample, intel_pt_next_period.
  destruct (period_type d); try (split; [by apply walked_refl|done]).
  repeat case_match; cbn [snd]; (split; [|done]); try (by apply walked_refl).
  constructor; [|done..]. decoder_solve Hd.
Qed.

Lemma sample_insn_ok d : decoder_ok d -> walked d (intel_pt_sample_insn d) /\ flw (intel_pt_sample_insn d) = flw d.
Proof.
  intros Hd. unfold intel_pt_sample_insn.
  assert (0 <= Z.lor (st_type d) INTEL_PT_INSTRUCTION < 8) by (apply lor_flags; [apply (do_state _ Hd)|unfold INTEL_PT_INSTRUCTION; lia]).
  destruct (period_type d); (split; [|done]); (constructor; [|done..]); decoder_solve Hd.
Qed.

Section Walk.
Context {Env : PtEnv} {HEnv : EnvOk} {HFit : offsets_fit} {HConv : conversions_defined}.

Lemma call_walk_insn_ok d to_ip max : decoder_ok d -> exists a d', call_walk_insn d to_ip max = (a, d') /\ (a_err a = 0 -> fits (a_insn a)) /\ walked d d' /\
  pkt_state d' = pkt_state d /\ tnt d' = tnt d.
Proof.
  intros Hd. unfold call_walk_insn. pose proof (eo_walk (calls d) (ip d) to_ip max) as (H1 & H2).
  eexists _, _. split; [reflexivity|]. split; [apply offset_fits|]. split; [|done]. constructor; [|done..]. decoder_solve Hd.
Qed.

(** The end of [intel_pt_walk_insn]. *)
Lemma out_no_progress_ok insn err d0 d : walked d0 d -> exists d', out_no_progress insn err d = (err, insn, d') /\ walked d0 d' /\ flw d' = flw d.
Proof.
  intros Hw. pose proof (wk_ok _ _ Hw) as Hd. unfold out_no_progress. eexists. split; [reflexivity|].
  assert (0 <= Z.lor (st_flags d) INTEL_PT_IN_TX < 8) by (apply lor_flags; [apply (do_state _ Hd)|unfold INTEL_PT_IN_TX; lia]).
  case_match; (split; [|done]); (eapply walked_trans; [exact Hw|]); (constructor; [|done..]); decoder_solve Hd.
Qed.

Lemma out_ok insn err d0 d : walked d0 d -> exists d', out insn err d = (err, insn, d') /\ walked d0 d' /\ flw d' = flw d.
Proof.
  intros Hw. unfold out. destruct (out_no_progress_ok insn err d0 (d <| no_progress := 0 |>)) as (d' & -> & Hwd & Ef).
  - pose proof (wk_ok _ _ Hw) as Hd. eapply walked_trans; [exact Hw|]. constructor; [|done..]. decoder_solve Hd.
  - by exists d'.
Qed.

Lemma branch_offset_ok insn : - 2 ^ 31 <= length_ insn + rel insn < 2 ^ 31 -> branch_offset insn = Some (length_ insn + rel insn).
Proof using. intros H. unfold branch_offset. rewrite (proj2 (Z.leb_le _ _)), (proj2 (Z.ltb_lt _ (2 ^ 31))) by lia. done. Qed.

Lemma push_ip_ok x d0 d : walked d0 d -> u64_ok x -> exists err d', push_ip x d = Some (err, d') /\ walked d0 d' /\
  pkt_state d' = pkt_state d /\ tnt d' = tnt d /\ (err = 0 \/ err = - ENOMEM).
Proof.
  intros Hw Hx. pose proof (wk_ok _ _ Hw) as Hd. unfold push_ip. pose proof (do_flow _ Hd) as Hf.
  destruct (push_contents (malloc_cb (mallocs d)) (stack d) x) as (err & s & -> & Hs & Hc);
    [apply Hf|apply eo_malloc|]. cbn [obind]. eexists _, _. split; [reflexivity|]. split; [|split_and!; try done].
  - eapply walked_trans; [exact Hw|]. constructor; [|done..]. assert (Forall u64_ok (contents s)).
    { pose proof (fl_contents _ Hf). destruct Hc as [[_ ->]|(_ & _ & ->)]; [by constructor|done]. }
    decoder_solve Hd.
  - destruct Hc as [[-> _]|(-> & _)]; [by left|by right].
Qed.

(** The decoder at the target of the branch. *)
Definition at_target (insn : intel_pt_insn) (d : intel_pt_decoder) : intel_pt_decoder :=
  d <| no_progress := no_progress d + 1 |> <| st_from_ip := ip d |> <| ip := u64 (ip d + (length_ insn + rel insn)) |>
    <| st_to_ip := u64 (ip d + (length_ insn + rel insn)) |>.

Lemma at_target_ok insn d0 d : walked d0 d -> no_progress d <= INTEL_PT_MAX_LOOPS -> walked d0 (at_target insn d).
Proof.
  intros Hw Hn. pose proof (wk_ok _ _ Hw) as Hd. pose proof (pg_count _ (do_progress _ Hd)).
  eapply walked_trans; [exact Hw|]. constructor; [|done..]. decoder_solve Hd. cbn. lia.
Qed.

Lemma walk_unconditional_ok a d0 d : - 2 ^ 31 <= length_ (a_insn a) + rel (a_insn a) < 2 ^ 31 -> walked d0 d ->
  exists err d', walk_unconditional (a_insn a) d = Some (err, a_insn a, d') /\ walked d0 d' /\ (err = INTEL_PT_RETURN \/ err = - ELOOP).
Proof.
  intros Ha Hw. pose proof (wk_ok _ _ Hw) as Hd. unfold walk_unconditional. rewrite (branch_offset_ok _ Ha). cbn [obind].
  assert (forall d2, walked d0 d2 -> exists err d', Some (out_no_progress (a_insn a) INTEL_PT_RETURN d2) = Some (err, a_insn a, d') /\
    walked d0 d' /\ (err = INTEL_PT_RETURN \/ err = - ELOOP)) as Hout.
  { intros d2 H2. destruct (out_no_progress_ok (a_insn a) INTEL_PT_RETURN d0 d2 H2) as (d' & -> & ? & _). eexists _, d'. eauto. }
  pose proof (at_target_ok (a_insn a) d0 d Hw) as Ht. unfold INTEL_PT_MAX_LOOPS in Ht.
  destruct (Z.eqb_spec (no_progress d) 0) as [H0|H0]; [apply Hout; exact (Ht ltac:(lia))|].
  destruct (Z.eqb_spec (no_progress d) 1) as [H1|H1].
  { specialize (Ht ltac:(lia)). pose proof (wk_ok _ _ Ht) as Hd2. apply Hout. eapply walked_trans; [exact Ht|].
    constructor; [|done..]. decoder_solve Hd2. }
  destruct (_ || _) eqn:Es.
  - match goal with |- context [out (a_insn a) (- ELOOP) ?x] => set (d3 := x) end.
    assert (walked d0 (d3 <| no_progress := 0 |>)) as H3.
    { eapply walked_trans; [exact Hw|]. constructor; [|done..]. decoder_solve Hd. }
    unfold out. destruct (out_no_progress_ok (a_insn a) (- ELOOP) d0 _ H3) as (d' & E & ? & _).
    exists (- ELOOP), d'. split; [by rewrite E|]. split; [done|by right].
  - bprop. specialize (Ht ltac:(unfold INTEL_PT_MAX_LOOPS in *; lia)). pose proof (wk_ok _ _ Ht) as Hd2. apply Hout.
    eapply walked_trans; [exact Ht|]. case_match; (constructor; [|done..]); decoder_solve Hd2.
Qed.

(** What [intel_pt_walk_insn] returns. *)
Definition insn_post (d : intel_pt_decoder) (ip0 err : Z) (insn : intel_pt_insn) (d' : intel_pt_decoder) : Prop :=
  walked d d' /\
  (err = 0 -> (branch insn = INTEL_PT_BR_INDIRECT \/ branch insn = INTEL_PT_BR_CONDITIONAL) /\ pkt_state d' = pkt_state d /\ tnt d' = tnt d) /\
  (err = - EAGAIN -> ip0 <> 0 /\ pkt_state d' = pkt_state d) /\
  (err = - ENOLINK -> pkt_state d' = INTEL_PT_STATE_NO_IP) /\
  (err = INTEL_PT_RETURN \/ err <= 0) /\ (err = 0 -> fits insn).

Lemma walk_branch_ok a d0 d : fits (a_insn a) -> walked d0 d -> branch (a_insn a) <> INTEL_PT_BR_NO_BRANCH ->
  exists err d', walk_branch (a_insn a) d = Some (err, a_insn a, d') /\ walked d0 d' /\
    ((err = 0 /\ (branch (a_insn a) = INTEL_PT_BR_INDIRECT \/ branch (a_insn a) = INTEL_PT_BR_CONDITIONAL) /\ pkt_state d' = pkt_state d /\ tnt d' = tnt d)
     \/ err = - ENOMEM \/ err = INTEL_PT_RETURN \/ err = - ELOOP).
Proof.
  intros Ha Hw Hnb. unfold walk_branch. set (insn := a_insn a) in *.
  assert (exists err d1, (if bool_decide (op insn = INTEL_PT_OP_CALL) then
      if negb (bool_decide (branch insn = INTEL_PT_BR_UNCONDITIONAL)) || nz (rel insn) then push_ip (u64 (ip d + length_ insn)) d else Some (0, d)
    else if bool_decide (op insn = INTEL_PT_OP_RET) then
      let? (a, s) := intel_pt_pop (stack d) in Some (0, d <| ret_addr := a |> <| stack := s |>)
    else Some (0, d)) = Some (err, d1) /\ walked d0 d1 /\ pkt_state d1 = pkt_state d /\ tnt d1 = tnt d /\
    (err = 0 \/ err = - ENOMEM /\ bool_decide (op insn = INTEL_PT_OP_CALL) = true)) as (err & d1 & -> & Hw1 & E1 & E2 & Herr).
  { destruct (bool_decide (op insn = INTEL_PT_OP_CALL)); [destruct (_ || _)|destruct (bool_decide (op insn = INTEL_PT_OP_RET))].
    - destruct (push_ip_ok (u64 (ip d + length_ insn)) d0 d Hw) as (err & d1 & -> & ? & ? & ? & [->| ->]); [apply u64_u64_ok|..];
        eexists _, d1; eauto 10.
    - exists 0, d. eauto 10.
    - pose proof (wk_ok _ _ Hw) as Hd. pose proof (do_flow _ Hd) as Hf.
      destruct (pop_contents (stack d)) as (s & -> & Ec & Hs); [apply Hf|]. cbn [obind]. eexists _, _. split; [reflexivity|].
      split; [|by eauto]. pose proof (fl_contents _ Hf) as Hc. eapply walked_trans; [exact Hw|]. constructor; [|done..].
      assert (Forall u64_ok (contents s)) by (rewrite Ec; destruct (contents (stack d)); [done|by apply Forall_inv_tail in Hc]).
      assert (u64_ok (default 0 (list.head (contents (stack d))))).
      { destruct (contents (stack d)); [apply u64_ok_0|by apply Forall_inv in Hc]. }
      decoder_solve Hd.
    - exists 0, d. eauto 10. }
  cbn [obind]. destruct Herr as [->|[-> Hcall]].
  - change (nz 0) with false. rewrite andb_false_r. destruct (bool_decide (branch insn = INTEL_PT_BR_UNCONDITIONAL)) eqn:Eu.
    + change (walk_unconditional insn d1) with (walk_unconditional (a_insn a) d1). apply bool_decide_eq_true in Eu.
      destruct (walk_unconditional_ok a d0 d1 (Ha (or_introl Eu)) Hw1) as (err & d' & -> & ? & [->| ->]); eexists _, d'; eauto 10.
    + destruct (out_ok insn 0 d0 d1 Hw1) as (d' & -> & ? & Ef). exists 0, d'. split; [done|]. split; [done|]. left.
      split; [done|]. split; [|by rewrite Ef]. apply bool_decide_eq_false in Eu. destruct (branch insn); eauto; done.
  - rewrite Hcall. change (nz (- ENOMEM)) with true. cbn [andb].
    destruct (out_ok insn (- ENOMEM) d0 d1 Hw1) as (d' & -> & ? & _). exists (- ENOMEM), d'. eauto 10.
Qed.

Lemma walk_insn_ok d ip0 : decoder_ok d -> exists err insn d', intel_pt_walk_insn d ip0 = Some (err, insn, d') /\ insn_post d ip0 err insn d'.
Proof.
  intros Hd. unfold intel_pt_walk_insn.
  match goal with |- context [intel_pt_next_sample ?x] => set (d1 := x) end.
  assert (walked d d1 /\ flw d1 = flw d) as [Hw1 Ef1].
  { unfold d1. case_match; (split; [|done]); [constructor; [decoder_solve Hd|done..]|by apply walked_refl]. }
  destruct (next_sample_ok d1 (wk_ok _ _ Hw1)) as [Hw2 Ef2]. destruct (intel_pt_next_sample d1) as [max d2]. cbn [snd] in Hw2, Ef2.
  destruct (call_walk_insn_ok d2 ip0 max (wk_ok _ _ Hw2)) as (a & d3 & -> & Ha & Hw3 & Es3 & Et3).
  assert (walked d d3) as Hw by (eapply walked_trans; [exact Hw1|]; by eapply walked_trans).
  assert (pkt_state d3 = pkt_state d /\ tnt d3 = tnt d) as [Es Et] by (rewrite Es3, Et3, Ef2, Ef1; done).
  destruct (nz (a_err a)) eqn:Ez.
  { eexists _, _, _. split; [reflexivity|]. split.
    - pose proof (wk_ok _ _ Hw) as Hd3. eapply walked_trans; [exact Hw|]. constructor; [|done..]. decoder_solve Hd3.
    - destruct (a_err a =? - ENOENT); split_and!; try done; right; unfold ENOLINK, EILSEQ; lia. }
  apply nz_false in Ez. specialize (Ha Ez).
  destruct (nz ip0 && (ip d3 =? ip0)) eqn:Eip.
  { destruct (out_ok (a_insn a) (- EAGAIN) d d3 Hw) as (d' & -> & Hw' & Ef'). eexists _, _, _. split; [reflexivity|].
    split; [done|]. split_and!; try done; [|by right]. intros _. split; [intros ->; done|]. by rewrite Ef'. }
  match goal with |- context [if ?c then intel_pt_sample_insn d3 else d3] => set (d4 := if c then intel_pt_sample_insn d3 else d3) end.
  assert (walked d d4 /\ flw d4 = flw d3) as [Hw4 Ef4].
  { unfold d4. case_match; [|done]. destruct (sample_insn_ok d3 (wk_ok _ _ Hw)) as [? ?]. split; [by eapply walked_trans|done]. }
  destruct (bool_decide (branch (a_insn a) = INTEL_PT_BR_NO_BRANCH)) eqn:Eb.
  - match goal with |- context [out _ _ ?x] => destruct (out_ok (a_insn a) INTEL_PT_RETURN d x) as (d' & -> & Hw' & _) end.
    + pose proof (wk_ok _ _ Hw4) as Hd4. eapply walked_trans; [exact Hw4|]. constructor; [|done..]. decoder_solve Hd4.
    + eexists _, _, d'. split; [reflexivity|]. split; [done|]. split_and!; try done. by left.
  - apply bool_decide_eq_false in Eb. destruct (walk_branch_ok a d d4 Ha Hw4 Eb) as (err & d' & -> & Hw' & Hcase).
    eexists _, _, d'. split; [reflexivity|]. split; [done|].
    destruct Hcase as [(-> & Hbr & Es' & Et')|[->|[->| ->]]]; split_and!; try done; try (by left); try (right; unfold ENOMEM, ELOOP; lia).
    intros _. split; [done|]. by rewrite Es', Et', Ef4.
Qed.

(** * Ends of functions *)

(** The current packet is one; [intel_pt_bug] is for the others. *)
Definition good (d : intel_pt_decoder) : Prop := type (packet d) <> INTEL_PT_BAD.

Lemma left_over_nonneg d : decoder_ok d -> 0 <= left_over d.
Proof. intros Hd. pose proof (fo_step _ _ (do_fetch _ Hd)). unfold left_over, total, stream. rewrite length_app. lia. Qed.

(** The decoder went on. *)
Definition onward (d d' : intel_pt_decoder) : Prop := left_over d' <= left_over d /\ (synced d -> synced d').

(** A decoder that has lost its place looks for the next PSB from the start of
    the data at hand; [next_buf] is not set then. *)
Definition ready (d : intel_pt_decoder) : Prop := synced d \/ next_buf d = None /\ pkt_step d = 0.
Definition settled (d : intel_pt_decoder) (err : Z) (d' : intel_pt_decoder) : Prop :=
  synced d -> synced d' \/ err <> 0 /\ err <> - EAGAIN /\ next_buf d' = None /\ pkt_step d' = 0.

(** The end of a function that walks packets only: what is left of the trace
    does not grow, and shrinks before a restart. *)
Definition sync_post (d : intel_pt_decoder) (err : Z) (d' : intel_pt_decoder) : Prop :=
  decoder_ok d' /\ left_over d' <= left_over d /\ settled d err d' /\ (err = - ENOLINK -> pkt_step d' = 0 /\ left_over d' < left_over d).

(** The end of a function that walks instructions too. *)
Definition post (d : intel_pt_decoder) (err : Z) (d' : intel_pt_decoder) : Prop :=
  decoder_ok d' /\ left_over d' <= left_over d /\ settled d err d' /\
  (err = - ENOLINK -> (pkt_step d' = 0 /\ left_over d' < left_over d) \/ pkt_state d' = INTEL_PT_STATE_NO_IP).

Lemma onward_trans d1 d2 d3 : onward d1 d2 -> onward d2 d3 -> onward d1 d3.
Proof. intros [? ?] [? ?]. split; [lia|auto]. Qed.
Lemma walked_onward d d' : walked d d' -> onward d d'.
Proof. intros Hw. destruct (walked_left _ _ Hw) as [El _]. split; [lia|apply Hw]. Qed.
Lemma same_rest_synced d d' : same_rest d d' -> synced d -> synced d'.
Proof. intros [_ _ Hf _ _]. unfold synced. by rewrite Hf. Qed.
Lemma next_onward d err d' : next_post d err d' -> nz err = false ->
  decoder_ok d' /\ onward d d' /\ total d' <= left_over d /\ left_over d' < left_over d /\ good d'.
Proof.
  intros [Hok H] He. rewrite He in H. destruct H as (Hr & Ht & Hl & Hg). split_and!; try done. split; [lia|by apply same_rest_synced].
Qed.
Lemma walked_good d d' : walked d d' -> good d -> good d'.
Proof. intros [_ Hi _ _]. unfold good. by rewrite Hi. Qed.

Lemma sync_post_post d err d' : sync_post d err d' -> post d err d'.
Proof. intros (? & ? & ? & Hl). split_and!; [done..|]. intros He. left. auto. Qed.
Lemma post_trans d1 d2 err d3 : onward d1 d2 -> post d2 err d3 -> post d1 err d3.
Proof.
  intros [Hl Hk] (? & ? & Hs & He). split; [done|]. split; [lia|]. split; [by intros H1%Hk; apply Hs|]. intros E.
  destruct (He E) as [[? ?]|?]; [left; split; [done|lia]|by right].
Qed.
Lemma sync_post_trans d1 d2 err d3 : onward d1 d2 -> sync_post d2 err d3 -> sync_post d1 err d3.
Proof.
  intros [Hl Hk] (? & ? & Hs & He). split; [done|]. split; [lia|]. split; [by intros H1%Hk; apply Hs|]. intros E.
  destruct (He E) as [? ?]. split; [done|lia].
Qed.

Lemma sync_onward d err d' : sync_post d err d' -> err = 0 \/ err = - EAGAIN -> onward d d'.
Proof. intros (_ & Hl & Hs & _) Ez. split; [done|]. intros H. destruct (Hs H) as [?|(? & ? & _)]; [done|]. by destruct Ez. Qed.

Lemma next_post_sync d err d' : next_post d err d' -> nz err = true -> sync_post d err d'.
Proof.
  intros [Hok H] He. rewrite He in H. destruct H as (Hl & Hs & Hp). split; [done|]. split; [done|]. split.
  - intros H1. destruct Hp as [Hna [[_ E]|[Es E]]]; [left|right; split_and!; [by intros ->|done..]]. unfold synced. by rewrite E.
  - intros ->. split; [by destruct Hp as [_ [[? _]|[? _]]]|by destruct Hs].
Qed.

Lemma walked_post d err d' : walked d d' -> (err = - ENOLINK -> pkt_state d' = INTEL_PT_STATE_NO_IP) -> post d err d'.
Proof.
  intros Hw He. destruct (walked_left _ _ Hw) as [El _]. split; [apply Hw|]. split; [lia|]. split; [|auto]. intros H. left. by apply Hw.
Qed.

Lemma walked_sync d err d' : walked d d' -> err <> - ENOLINK -> sync_post d err d'.
Proof.
  intros Hw He. destruct (walked_left _ _ Hw) as [El _]. split; [apply Hw|]. split; [lia|]. split; [|done]. intros H. left. by apply Hw.
Qed.

(** * Assignments of the packet handlers *)

Lemma calc_ip_ok p l : pkt_wf p -> u64_ok l -> u64_ok (intel_pt_calc_ip p l).
Proof.
  intros ([Hp Hp'] & _ & _) Hl. unfold intel_pt_calc_ip. assert (u64_ok (payload p)) as Hpl by done.
  assert (forall m, 0 <= m < 2 ^ 64 -> u64_ok (Z.lor (Z.land l m) (payload p))) as Hlor.
  { intros m Hm. apply (lor_bounded 64); [lia| |done]. pose proof (land_bounded_r l m ltac:(lia)). lia. }
  repeat case_match; try (apply Hlor; lia); try done; try apply u64_ok_0. apply (lor_bounded 64); [lia|done|lia].
Qed.

Lemma packet_wf d : decoder_ok d -> pkt_wf (packet d).
Proof. intros Hd. apply (fo_packet _ _ (do_fetch _ Hd)). Qed.

Ltac simple_walk Hd := constructor; [decoder_solve Hd|done|done|first [done | unfold synced; done | idtac]].

Lemma set_last_ip_ok d : decoder_ok d -> walked d (intel_pt_set_last_ip d).
Proof.
  intros Hd. assert (u64_ok (intel_pt_calc_ip (packet d) (last_ip d))) by (apply calc_ip_ok; [by apply packet_wf|apply (do_flow _ Hd)]).
  unfold intel_pt_set_last_ip. simple_walk Hd.
Qed.

Lemma set_ip_ok d : decoder_ok d -> walked d (intel_pt_set_ip d).
Proof.
  intros Hd. pose proof (set_last_ip_ok d Hd) as Hw. pose proof (wk_ok _ _ Hw) as Hd'. eapply walked_trans; [exact Hw|].
  unfold intel_pt_set_ip. simple_walk Hd'.
Qed.

Lemma update_in_tx_ok d : decoder_ok d -> walked d (intel_pt_update_in_tx d).
Proof.
  intros Hd. unfold intel_pt_update_in_tx. assert (0 <= Z.land (payload (packet d)) INTEL_PT_IN_TX < 8) by (apply land_flags; unfold INTEL_PT_IN_TX; lia).
  simple_walk Hd.
Qed.

Lemma set_cr3_ok d : decoder_ok d -> walked d (set_cr3 d).
Proof.
  intros Hd. unfold set_cr3. assert (u64_ok (Z.land (payload (packet d)) (BIT63 - 1))).
  { apply land_u64_ok. apply (packet_wf d Hd). } simple_walk Hd.
Qed.

Lemma times_walked d r Q : decoder_ok d -> times_step r d Q -> exists d', r = Some d' /\ walked d d' /\ flw d' = flw d /\ prg d' = prg d.
Proof.
  intros Hd (d' & -> & [Hc Hi Hf Hp Hs He] & Ht & _). exists d'. split; [done|]. split; [|done].
  constructor; [|done|by rewrite He|unfold synced; by rewrite Hf].
  constructor; [rewrite Hi, He; apply Hd|rewrite Hc; apply Hd|done|rewrite Hf; apply Hd|rewrite Hp; apply Hd|rewrite Hs; apply Hd].
Qed.

Lemma tsc_walked d : decoder_ok d -> exists d', intel_pt_calc_tsc_timestamp d = Some d' /\ walked d d' /\ flw d' = flw d /\ prg d' = prg d.
Proof. intros Hd. eapply times_walked, calc_tsc_ok; [done|apply Hd|by apply decoder_input|apply Hd|apply (packet_wf d Hd)]. Qed.
Lemma tma_walked d : decoder_ok d -> exists d', intel_pt_calc_tma d = Some d' /\ walked d d' /\ flw d' = flw d /\ prg d' = prg d.
Proof. intros Hd. eapply times_walked, calc_tma_ok; [done|apply Hd..]. Qed.
Lemma mtc_walked d : decoder_ok d -> exists d', intel_pt_calc_mtc_timestamp d = Some d' /\ walked d d' /\ flw d' = flw d /\ prg d' = prg d.
Proof. intros Hd. eapply times_walked, calc_mtc_ok; [done|apply Hd|by apply decoder_input|apply Hd]. Qed.
Lemma cbr_walked d : decoder_ok d -> walked d (intel_pt_calc_cbr d).
Proof. intros Hd. destruct (times_walked d _ _ Hd (calc_cbr_ok d (do_times _ Hd))) as (d' & [= <-] & ? & _). done. Qed.
Lemma cyc_defined_ok d : cyc_defined d.
Proof.
  intros rate _ _. unfold add_cycles, CDouble.to_u64. assert (forall x, is_Some (u64 <$> cvt_oob x)) as Hx
    by (intros x; apply fmap_is_Some, conversion_defined). repeat case_match; by eauto.
Qed.
Lemma cyc_walked d : decoder_ok d -> exists d', intel_pt_calc_cyc_timestamp d = Some d' /\ walked d d' /\ flw d' = flw d /\ prg d' = prg d.
Proof. intros Hd. eapply times_walked, calc_cyc_ok; [done|apply Hd|apply cyc_defined_ok]. Qed.

Lemma mismatch_ok d : decoder_ok d -> exists d', mismatch d = (- ENOENT, d') /\ walked d d'.
Proof. intros Hd. eexists. split; [reflexivity|]. simple_walk Hd. Qed.
Lemma overflow_ok d : decoder_ok d -> exists d', intel_pt_overflow d = (- EOVERFLOW, d') /\ walked d d'.
Proof. intros Hd. eexists. split; [reflexivity|]. simple_walk Hd; cbn; lia. Qed.

(** * The instruction walkers *)

Lemma insn_post_post d ip0 err insn d' : insn_post d ip0 err insn d' -> post d err d'.
Proof. intros (Hw & _ & _ & He & _). by apply walked_post. Qed.

(** One round is enough: [intel_pt_bug] is not reached. *)
Lemma walk_fup_ok d : decoder_ok d -> exists err d', intel_pt_walk_fup d = Some (err, d') /\ post d err d' /\ walked d d'.
Proof.
  intros Hd. unfold intel_pt_walk_fup. cbn [walk_fup_loop].
  destruct (walk_insn_ok d (last_ip d) Hd) as (err & insn & d1 & -> & Hpost). pose proof Hpost as (Hw & H0 & _ & Hlink & _).
  cbn [obind]. pose proof (wk_ok _ _ Hw) as Hd1.
  assert (forall e d', walked d1 d' -> e <> - ENOLINK -> exists err d'0, Some (e, d') = Some (err, d'0) /\ post d err d'0 /\ walked d d'0) as Hend.
  { intros e d' Hw' He. assert (walked d d') by by eapply walked_trans. eexists _, _. split; [reflexivity|].
    split; [by apply walked_post|done]. }
  destruct (Z.eqb_spec err INTEL_PT_RETURN) as [->|Hr]; [apply Hend; [by apply walked_refl|done]|].
  destruct (Z.eqb_spec err (- EAGAIN)) as [->|Hea].
  { destruct (set_fup_tx_flags d1); [|apply Hend; [by apply walked_refl|done]]. apply Hend; [|done].
    pose proof (fl_fup_tx _ (do_flow _ Hd1)). simple_walk Hd1; cbn; unfold INTEL_PT_TRANSACTION; lia. }
  destruct (nz err) eqn:Ez.
  { eexists _, _. split; [reflexivity|]. assert (walked d1 (d1 <| set_fup_tx_flags := false |>)) as Hw' by simple_walk Hd1.
    assert (walked d (d1 <| set_fup_tx_flags := false |>)) by by eapply walked_trans. split; [|done]. by apply walked_post. }
  apply nz_false in Ez. destruct (H0 Ez) as ([Hb|Hb] & _).
  - rewrite bool_decide_true by done. apply (Hend (- ENOENT)); [simple_walk Hd1|done].
  - rewrite bool_decide_false by congruence. rewrite bool_decide_true by done. apply (Hend (- ENOENT)); [simple_walk Hd1|done].
Qed.

Lemma walk_tip_ok d : decoder_ok d -> exists err d', intel_pt_walk_tip d = Some (err, d') /\ post d err d'.
Proof.
  intros Hd. unfold intel_pt_walk_tip.
  destruct (walk_insn_ok d 0 Hd) as (err & insn & d1 & -> & Hpost). pose proof Hpost as (Hw & H0 & _ & Hlink & _).
  cbn [obind]. pose proof (wk_ok _ _ Hw) as Hd1.
  assert (forall e d', walked d1 d' -> e <> - ENOLINK -> exists err d'0, Some (e, d') = Some (err, d'0) /\ post d err d'0) as Hend.
  { intros e d' Hw' He. eexists _, _. split; [reflexivity|]. apply walked_post; [by eapply walked_trans|done]. }
  destruct (Z.eqb_spec err INTEL_PT_RETURN) as [->|Hr]; [apply Hend; [by apply walked_refl|done]|].
  destruct (nz err) eqn:Ez; [eexists _, _; split; [reflexivity|by apply (insn_post_post _ 0 _ insn)]|].
  apply nz_false in Ez. destruct (H0 Ez) as ([Hb|Hb] & _).
  - rewrite bool_decide_true by done. repeat case_match; (apply Hend; [|done]); simple_walk Hd1.
  - rewrite bool_decide_false by congruence. rewrite bool_decide_true by done. apply (Hend (- ENOENT)); [simple_walk Hd1|done].
Qed.

Lemma use_tnt_ok d : decoder_ok d -> 0 < count (tnt d) -> walked d (use_tnt d) /\ count (tnt (use_tnt d)) = count (tnt d) - 1 /\
  (count (tnt (use_tnt d)) <> 0 -> pkt_state (use_tnt d) = pkt_state d).
Proof.
  intros Hd Hc. unfold use_tnt. change (count (tnt (d <| tnt := set_count (count (tnt d) - 1) (tnt d) |>))) with (count (tnt d) - 1).
  destruct (Z.eqb_spec (count (tnt d) - 1) 0) as [E|E]; (split; [|split; [done|done]]).
  - simple_walk Hd; try done.
  - simple_walk Hd. cbn. intros _. lia.
Qed.

Lemma shift_tnt_ok d : decoder_ok d -> walked d (shift_tnt d).
Proof. intros Hd. unfold shift_tnt. simple_walk Hd. Qed.

(** A return of a function with an assignment behind the fetch. *)
Lemma walked_pkt_step d : decoder_ok d -> decoder_ok (d <| pkt_step := 0 |>) /\ left_over (d <| pkt_step := 0 |>) = total d.
Proof.
  intros Hd. split; [|exact (Z.sub_0_r (total d))]. pose proof (fo_step _ _ (do_fetch _ Hd)). decoder_solve Hd. cbn. lia.
Qed.

Lemma tnt_ret_ok d : decoder_ok d -> 0 < count (tnt d) -> exists err d', tnt_ret d = (err, d') /\ walked d d' /\ (err = 0 \/ err = - ENOENT).
Proof.
  intros Hd Hc. unfold tnt_ret. destruct (mismatch_ok d Hd) as (dm & -> & Hm).
  destruct (negb _); [eauto 6|]. destruct (_ =? 0); [eauto 6|]. destruct (negb _); [eauto 6|]. eexists _, _. split; [reflexivity|].
  split; [|by left]. destruct (use_tnt_ok d Hd Hc) as [Hw _]. eapply walked_trans; [exact Hw|].
  pose proof (shift_tnt_ok _ (wk_ok _ _ Hw)) as Hw'. eapply walked_trans; [exact Hw'|]. pose proof (wk_ok _ _ Hw') as Hd'. simple_walk Hd'.
Qed.

Lemma tnt_indirect_ok fuel d : decoder_ok d -> left_over d < Z.of_nat fuel ->
  exists err d', tnt_indirect fuel d = Some (err, d') /\ sync_post d err d'.
Proof.
  intros Hd Hf. unfold tnt_indirect. destruct (get_next_packet_ok fuel d Hd Hf) as (err & d1 & -> & Hp). cbn [obind].
  destruct (nz err) eqn:Ez.
  { eexists _, _. split; [reflexivity|]. by apply next_post_sync. }
  destruct (next_onward _ _ _ Hp Ez) as (Hd1 & Hon & Ht & Hl & _).
  destruct (_ || _).
  - destruct (mismatch_ok d1 Hd1) as (d2 & -> & Hw). destruct (walked_pkt_step d2 (wk_ok _ _ Hw)) as [Hd2 E2].
    eexists _, _. split; [reflexivity|]. destruct (walked_left _ _ Hw) as [_ Et2].
    split; [done|]. rewrite E2, Et2. split; [done|]. split; [|done]. intros Hs. left. by apply (wk_synced _ _ Hw), Hon.
  - eexists _, _. split; [reflexivity|]. pose proof (set_last_ip_ok d1 Hd1) as Hw. pose proof (wk_ok _ _ Hw) as Hd2.
    apply (sync_post_trans d d1); [done|]. apply walked_sync; [|done]. eapply walked_trans; [exact Hw|]. simple_walk Hd2.
Qed.

Lemma tnt_conditional_ok insn d : decoder_ok d -> 0 < count (tnt d) -> - 2 ^ 31 <= length_ insn + rel insn < 2 ^ 31 ->
  exists r d', tnt_conditional insn d = Some (r, d') /\ walked d d' /\
    match r with Some err => err = 0 \/ err = - EAGAIN | None => 0 < count (tnt d') /\ count (tnt d') = count (tnt d) - 1 end.
Proof.
  intros Hd Hc Hl. unfold tnt_conditional, branch_offset. destruct (use_tnt_ok d Hd Hc) as (Hw & Ec & _).
  set (d1 := use_tnt d) in *. pose proof (wk_ok _ _ Hw) as Hd1. pose proof (shift_tnt_ok d1 Hd1) as Hw2. pose proof (wk_ok _ _ Hw2) as Hd2.
  assert (walked d (shift_tnt d1)) as Hw3 by by eapply walked_trans.
  rewrite (proj2 (Z.leb_le _ _)), (proj2 (Z.ltb_lt _ (2 ^ 31))) by lia. cbn [andb ub_unless obind].
  destruct (tst _ BIT63); [|destruct (tst _ _)].
  - eexists _, _. split; [reflexivity|]. split; [|by left]. eapply walked_trans; [exact Hw3|]. simple_walk Hd2.
  - eexists _, _. split; [reflexivity|]. split; [|by left]. eapply walked_trans; [exact Hw3|]. simple_walk Hd2.
  - set (d3 := d1 <| ip := _ |>). assert (walked d d3) as Hw4 by (eapply walked_trans; [exact Hw|]; simple_walk Hd1).
    change (count (tnt d3)) with (count (tnt d1)). destruct (Z.eqb_spec (count (tnt d1)) 0) as [E|E].
    + eexists _, _. split; [reflexivity|]. split; [done|by right].
    + eexists _, _. split; [reflexivity|]. split; [eapply walked_trans; [exact Hw4|]; apply shift_tnt_ok; apply Hw4|].
      change (count (tnt (shift_tnt d3))) with (count (tnt d1)). lia.
Qed.

Lemma walk_tnt_loop_ok n fuel d : decoder_ok d -> left_over d < Z.of_nat fuel -> 0 < count (tnt d) <= Z.of_nat n ->
  exists err d', walk_tnt_loop n fuel d = Some (err, d') /\ post d err d'.
Proof.
  revert d. induction n as [|n IH]; intros d Hd Hf Hc; [lia|]. cbn [walk_tnt_loop].
  destruct (walk_insn_ok d 0 Hd) as (err & insn & d1 & -> & Hpost). pose proof Hpost as (Hw & H0 & _ & Hlink & _ & Hlen).
  cbn [obind]. pose proof (wk_ok _ _ Hw) as Hd1. destruct (walked_left _ _ Hw) as [El _].
  assert (forall e d', walked d1 d' -> e <> - ENOLINK -> exists err d'0, Some (e, d') = Some (err, d'0) /\ post d err d'0) as Hend.
  { intros e d' Hw' He. eexists _, _. split; [reflexivity|]. apply walked_post; [by eapply walked_trans|done]. }
  destruct (Z.eqb_spec err INTEL_PT_RETURN) as [->|Hr]; [apply Hend; [by apply walked_refl|done]|].
  destruct (nz err) eqn:Ez; [eexists _, _; split; [reflexivity|by apply (insn_post_post _ 0 _ insn)]|].
  apply nz_false in Ez. destruct (H0 Ez) as (Hbr & _ & Et). rewrite <-Et in Hc.
  destruct (bool_decide (op insn = INTEL_PT_OP_RET)).
  { destruct (tnt_ret_ok d1 Hd1) as (e & d2 & -> & Hw2 & [->| ->]); [lia|..]; by apply Hend. }
  destruct Hbr as [Hb|Hb].
  - rewrite bool_decide_true by done. destruct (tnt_indirect_ok fuel d1 Hd1) as (e & d2 & -> & Hp); [lia|].
    eexists _, _. split; [reflexivity|]. apply (post_trans d d1); [by apply walked_onward|]. by apply sync_post_post.
  - rewrite bool_decide_false by congruence. rewrite bool_decide_true by done.
    destruct (tnt_conditional_ok insn d1 Hd1) as (r & d2 & -> & Hw2 & Hr2); [lia|apply (Hlen Ez); by right|]. cbn [obind].
    destruct r as [e|]; [destruct Hr2 as [->| ->]; by apply Hend|]. destruct (walked_left _ _ Hw2) as [El2 _].
    destruct (IH d2 (wk_ok _ _ Hw2)) as (e & d3 & -> & Hp); [lia|lia|]. eexists _, _. split; [reflexivity|].
    apply (post_trans d d2); [|done]. apply walked_onward. by eapply walked_trans.
Qed.

Lemma walk_tnt_ok fuel d : decoder_ok d -> left_over d < Z.of_nat fuel -> 0 < count (tnt d) ->
  exists err d', intel_pt_walk_tnt fuel d = Some (err, d') /\ post d err d'.
Proof. intros Hd Hf Hc. apply walk_tnt_loop_ok; [done|done|lia]. Qed.

(** A fetch and what is done with the packet; the end of the fetch is that of
    the function. *)
Lemma mode_tsx_ok fuel d no_tip : decoder_ok d -> left_over d < Z.of_nat fuel ->
  exists err no_tip' d', intel_pt_mode_tsx fuel d no_tip = Some (err, no_tip', d') /\ sync_post d err d' /\
    (nz err = false -> onward d d' /\ left_over d' < left_over d /\ good d').
Proof.
  intros Hd Hf. unfold intel_pt_mode_tsx. set (fup := Z.land _ _).
  assert (0 <= fup < 8) by (apply land_flags; vm_compute; split; congruence).
  destruct (get_next_packet_ok fuel d Hd Hf) as (err & d1 & -> & Hp). cbn [obind].
  destruct (nz err) eqn:Ez; [eexists _, _, _; split; [reflexivity|]; split; [by apply next_post_sync|congruence]|].
  destruct (next_onward _ _ _ Hp Ez) as (Hd1 & Hon & Ht & Hl & Hg).
  assert (forall d2, walked d1 d2 -> sync_post d 0 d2 /\ (nz 0 = false -> onward d d2 /\ left_over d2 < left_over d /\ good d2)) as Hend.
  { intros d2 Hw. destruct (walked_left _ _ Hw) as [El _]. split; [apply (sync_post_trans d d1); [done|by apply walked_sync]|]. intros _.
    split; [eapply onward_trans; [exact Hon|by apply walked_onward]|]. split; [lia|by eapply walked_good]. }
  destruct (is_type _ _); (eexists _, _, _; split; [reflexivity|]; apply Hend); [simple_walk Hd1|by apply update_in_tx_ok].
Qed.

(** * The loops over packets *)

(** What a switch over the packet does. *)
Definition step_ok (d : intel_pt_decoder) (r : option (verdict * intel_pt_decoder)) : Prop :=
  exists v d', r = Some (v, d') /\ match v with
    | Return err => sync_post d err d' /\ (err = - EAGAIN -> good d')
    | _ => decoder_ok d' /\ onward d d'
    end.

(** The end of such a loop: it has fetched, or there is no more data. *)
Definition loop_post (d : intel_pt_decoder) (err : Z) (d' : intel_pt_decoder) : Prop :=
  sync_post d err d' /\ (err = - ENODATA \/ left_over d' < left_over d) /\ (err = - EAGAIN -> good d').

Lemma loop_post_trans d1 d2 err d3 : onward d1 d2 -> loop_post d2 err d3 -> loop_post d1 err d3.
Proof. intros Ho (H1 & H2 & H3). split; [by eapply sync_post_trans|]. destruct Ho as [Hl _]. split; [|done]. destruct H2; [by left|right; lia]. Qed.

Lemma packet_loop_ok step fuel n d : 
  (forall d1, decoder_ok d1 -> good d1 -> left_over d1 < left_over d -> step_ok d1 (step d1)) ->
  decoder_ok d -> left_over d < Z.of_nat fuel -> left_over d < Z.of_nat n ->
  exists err d', packet_loop step fuel n d = Some (err, d') /\ loop_post d err d'.
Proof.
  revert d. induction n as [|n IH]; intros d Hs Hd Hf Hn.
  { pose proof (left_over_nonneg d Hd). lia. }
  cbn [packet_loop]. destruct (get_next_packet_ok fuel d Hd Hf) as (err & d1 & -> & Hp). cbn [obind].
  destruct (nz err) eqn:Ez.
  { eexists _, _. split; [reflexivity|]. split; [by apply next_post_sync|].
    destruct Hp as [_ Hp]. rewrite Ez in Hp. destruct Hp as (_ & Hor & [Hna _]). split; [exact Hor|done]. }
  destruct (next_onward _ _ _ Hp Ez) as (Hd1 & Hon & _ & Hl & Hg).
  destruct (Hs d1 Hd1 Hg Hl) as (v & d2 & -> & Hv). cbn [obind].
  assert (decoder_ok d2 /\ onward d1 d2 -> exists err d', packet_loop step fuel n d2 = Some (err, d') /\ loop_post d err d') as Hnext.
  { intros [Hd2 Ho2]. destruct (IH d2) as (e & d3 & -> & Hq); [intros; apply Hs; [done..|]|done| | |]; try (destruct Ho2; lia).
    eexists _, _. split; [reflexivity|]. eapply loop_post_trans; [|exact Hq]. by eapply onward_trans. }
  destruct v as [e| |]; [|by apply Hnext..]. destruct Hv as [Hv Hgd]. eexists _, _. split; [reflexivity|].
  split; [eapply sync_post_trans; [|exact Hv]; done|]. split; [right; destruct Hv as (_ & Hv & _); lia|done].
Qed.

Lemma return_step d err d' : good d -> walked d d' -> err <> - ENOLINK -> step_ok d (Some (Return err, d')).
Proof. intros Hg Hw He. eexists _, _. split; [reflexivity|]. split; [by apply walked_sync|]. intros _. by eapply walked_good. Qed.
Lemma break_step d d' : walked d d' -> step_ok d (Some (Break, d')).
Proof. intros Hw. eexists _, _. split; [reflexivity|]. split; [apply Hw|by apply walked_onward]. Qed.

Lemma tsc_step d : decoder_ok d -> step_ok d (let? d := intel_pt_calc_tsc_timestamp d in Some (Break, d)).
Proof. intros Hd. destruct (tsc_walked d Hd) as (d' & -> & Hw & _). by apply break_step. Qed.
Lemma tma_step d : decoder_ok d -> step_ok d (let? d := intel_pt_calc_tma d in Some (Break, d)).
Proof. intros Hd. destruct (tma_walked d Hd) as (d' & -> & Hw & _). by apply break_step. Qed.
Lemma cyc_step d : decoder_ok d -> step_ok d (let? d := intel_pt_calc_cyc_timestamp d in Some (Break, d)).
Proof. intros Hd. destruct (cyc_walked d Hd) as (d' & -> & Hw & _). by apply break_step. Qed.
Lemma mtc_step d : decoder_ok d -> step_ok d (let? d := intel_pt_calc_mtc_timestamp d in Some (Break, d)).
Proof. intros Hd. destruct (mtc_walked d Hd) as (d' & -> & Hw & _). by apply break_step. Qed.

Lemma sample_type_ok d : decoder_ok d -> walked d (d <| st_type := Z.lor (st_type d) INTEL_PT_INSTRUCTION |>).
Proof.
  intros Hd. assert (0 <= Z.lor (st_type d) INTEL_PT_INSTRUCTION < 8) by (apply lor_flags; [apply (do_state _ Hd)|vm_compute; split; congruence]).
  simple_walk Hd.
Qed.

Lemma mtc_sample_step d : decoder_ok d -> step_ok d (let? d := mtc_sample d in Some (Break, d)).
Proof.
  intros Hd. unfold mtc_sample. destruct (mtc_walked d Hd) as (d' & -> & Hw & _). cbn [obind]. apply break_step.
  case_match; [|done]. eapply walked_trans; [exact Hw|]. apply sample_type_ok. apply Hw.
Qed.

Lemma overflow_step d : decoder_ok d -> good d -> step_ok d (let '(err, d) := intel_pt_overflow d in Some (Return err, d)).
Proof. intros Hd Hg. destruct (overflow_ok d Hd) as (d' & -> & Hw). by apply return_step. Qed.
Lemma mismatch_step d : decoder_ok d -> good d -> step_ok d (let '(err, d) := mismatch d in Some (Return err, d)).
Proof. intros Hd Hg. destruct (mismatch_ok d Hd) as (d' & -> & Hw). by apply return_step. Qed.
Lemma set_exec_mode_ok d : decoder_ok d -> walked d (set_exec_mode d).
Proof. intros Hd. unfold set_exec_mode. simple_walk Hd. Qed.
Lemma stop_trace_ok d : decoder_ok d -> walked d (stop_trace d).
Proof. intros Hd. unfold stop_trace. simple_walk Hd. Qed.
Lemma clear_tx_flags_ok d : decoder_ok d -> walked d (intel_pt_clear_tx_flags d).
Proof. intros Hd. unfold intel_pt_clear_tx_flags. simple_walk Hd; cbn; lia. Qed.

Lemma tracestop_ok d : decoder_ok d -> walked d ((intel_pt_clear_tx_flags (stop_trace d)) <| have_tma := false |>).
Proof.
  intros Hd. pose proof (stop_trace_ok d Hd) as Hw. pose proof (clear_tx_flags_ok _ (wk_ok _ _ Hw)) as Hw'.
  pose proof (wk_ok _ _ Hw') as Hd'. eapply walked_trans; [exact Hw|]. eapply walked_trans; [exact Hw'|]. simple_walk Hd'.
Qed.

(** The cases that the switches share. *)
Ltac common_steps Hd Hg := first
  [ apply (overflow_step _ Hd Hg) | apply (mismatch_step _ Hd Hg) | apply (tsc_step _ Hd) | apply (tma_step _ Hd) | apply (cyc_step _ Hd)
  | apply (mtc_step _ Hd) | apply (mtc_sample_step _ Hd)
  | apply break_step; first [ by apply walked_refl | apply (set_cr3_ok _ Hd) | apply (set_exec_mode_ok _ Hd) | apply (update_in_tx_ok _ Hd)
                            | apply (cbr_walked _ Hd) ]
  | apply return_step; [exact Hg| |done]; first [ by apply walked_refl | solve [simple_walk Hd] ] | idtac ].

Lemma psbend_step_ok d : decoder_ok d -> good d -> step_ok d (psbend_step d).
Proof.
  intros Hd Hg. unfold psbend_step. pose proof Hg as Hg'. unfold good in Hg'. destruct (type (packet d)); [done|..]; common_steps Hd Hg.
  apply break_step. assert (walked d (d <| pge := true |>)) as Hw by simple_walk Hd. eapply walked_trans; [exact Hw|].
  apply set_last_ip_ok. apply Hw.
Qed.

Lemma to_packet_ip_ok d0 d : walked d0 d -> walked d0 (to_packet_ip d).
Proof.
  intros Hw. pose proof (wk_ok _ _ Hw) as Hd. unfold to_packet_ip. eapply walked_trans; [exact Hw|]. case_match; [simple_walk Hd|].
  pose proof (set_ip_ok d Hd) as Hw'. eapply walked_trans; [exact Hw'|]. pose proof (wk_ok _ _ Hw') as Hd'. simple_walk Hd'.
Qed.

Lemma fup_tip_step_ok d : decoder_ok d -> good d -> step_ok d (fup_tip_step d).
Proof.
  intros Hd Hg. unfold fup_tip_step. pose proof Hg as Hg'. unfold good in Hg'. destruct (type (packet d)); [done|..]; common_steps Hd Hg; (apply return_step; [done| |done]).
  - set (d1 := d <| st_from_ip := _ |> <| st_to_ip := _ |>). assert (walked d d1) as Hw by simple_walk Hd.
    pose proof (wk_ok _ _ Hw) as Hd1. eapply walked_trans; [exact Hw|]. case_match; [|by apply stop_trace_ok].
    pose proof (set_ip_ok d1 Hd1) as Hw'. eapply walked_trans; [exact Hw'|]. apply stop_trace_ok. apply Hw'.
  - apply to_packet_ip_ok. simple_walk Hd.
  - apply to_packet_ip_ok. simple_walk Hd.
Qed.

Lemma have_ip_ok d0 d : walked d0 d -> walked d0 (if intel_pt_have_ip d then intel_pt_set_ip d else d).
Proof. intros Hw. case_match; [|done]. eapply walked_trans; [exact Hw|]. apply set_ip_ok, Hw. Qed.

Lemma psb_step_ok d : decoder_ok d -> good d -> step_ok d (psb_step d).
Proof.
  intros Hd Hg. assert (forall d1, walked d d1 -> step_ok d (Some (Return (- ENOENT), (d1 <| have_tma := false |>)
    <| pkt_state := if nz (ip d1) then INTEL_PT_STATE_IN_SYNC else INTEL_PT_STATE_ERR_RESYNC |>))) as Hun.
  { intros d1 Hw. pose proof (wk_ok _ _ Hw) as Hd1. apply return_step; [done| |done]. eapply walked_trans; [exact Hw|].
    case_match; simple_walk Hd1; done. }
  unfold psb_step. pose proof Hg as Hg'. unfold good in Hg'. destruct (type (packet d)); [done|..]; common_steps Hd Hg.
  - apply (Hun d). by apply walked_refl.
  - apply break_step. apply have_ip_ok. simple_walk Hd.
  - pose proof (stop_trace_ok d Hd) as Hw. apply (Hun (intel_pt_clear_tx_flags (stop_trace d))).
    eapply walked_trans; [exact Hw|]. apply clear_tx_flags_ok. apply Hw.
Qed.

Lemma walk_psb_ok fuel d : decoder_ok d -> left_over d < Z.of_nat fuel ->
  exists err d', intel_pt_walk_psb fuel d = Some (err, d') /\ loop_post d err d'.
Proof. intros Hd Hf. apply packet_loop_ok; [intros; by apply psb_step_ok|done..]. Qed.

Lemma walk_psbend_ok fuel d : decoder_ok d -> left_over d < Z.of_nat fuel ->
  exists err d', intel_pt_walk_psbend fuel d = Some (err, d') /\ loop_post d err d'.
Proof. intros Hd Hf. apply packet_loop_ok; [intros; by apply psbend_step_ok|done..]. Qed.

Lemma walk_fup_tip_ok fuel d : decoder_ok d -> left_over d < Z.of_nat fuel ->
  exists err d', intel_pt_walk_fup_tip fuel d = Some (err, d') /\ loop_post d err d'.
Proof.
  intros Hd Hf. unfold intel_pt_walk_fup_tip. set (d1 := if tst (tx_flags d) _ then _ else _). assert (walked d d1) as Hw.
  { pose proof (sa_flags _ (do_state _ Hd)) as Hfl. unfold d1. case_match; simple_walk Hd; cbn; try lia; apply lor_flags;
      try (vm_compute; split; congruence); [|done]. apply (ldiff_bounded 3); lia. }
  destruct (walked_left _ _ Hw) as [El _]. pose proof (wk_ok _ _ Hw) as Hd1.
  destruct (packet_loop_ok fup_tip_step fuel fuel d1) as (err & d' & -> & Hp); [intros; by apply fup_tip_step_ok|done|lia|lia|].
  eexists _, _. split; [reflexivity|]. eapply loop_post_trans; [|exact Hp]. by apply walked_onward.
Qed.

Lemma to_ip_tip_ok d0 d : good d0 -> walked d0 d -> step_ok d0 (Some (to_ip_tip d)).
Proof.
  intros Hg Hw. pose proof (wk_ok _ _ Hw) as Hd. unfold to_ip_tip. set (d1 := d <| pge := _ |>).
  assert (walked d0 (if intel_pt_have_ip d1 then intel_pt_set_ip d1 else d1)) as Hw1.
  { eapply walked_trans; [exact Hw|]. apply have_ip_ok. simple_walk Hd. }
  set (d2 := if intel_pt_have_ip d1 then _ else _) in *. destruct (nz (ip d2)); [by apply return_step|by apply break_step].
Qed.

Lemma to_ip_step_ok fuel d : decoder_ok d -> good d -> left_over d < Z.of_nat fuel -> step_ok d (to_ip_step fuel d).
Proof.
  intros Hd Hg Hf. unfold to_ip_step. pose proof Hg as Hg'. unfold good in Hg'. destruct (type (packet d)); [done|..]; common_steps Hd Hg.
  - apply to_ip_tip_ok; [done|]. simple_walk Hd.
  - apply to_ip_tip_ok; [done|]. by apply walked_refl.
  - apply to_ip_tip_ok; [done|]. by apply walked_refl.
  - set (d1 := if overflow d && _ then _ else _). assert (walked d d1) as Hw.
    { unfold d1. case_match; [by apply set_ip_ok|by apply walked_refl]. }
    case_match; [by apply return_step|]. apply break_step. case_match; [|done]. eapply walked_trans; [exact Hw|]. apply set_last_ip_ok, Hw.
  - destruct (walk_psb_ok fuel d Hd Hf) as (err & d1 & -> & Hp & _ & Hga). cbn [obind]. pose proof Hp as (Hd1 & Hl & _).
    destruct (nz err) eqn:Ez; [eexists _, _; by split|]. apply nz_false in Ez as ->. pose proof (sync_onward _ _ _ Hp (or_introl eq_refl)) as Ho.
    destruct (nz (ip d1)); [|eexists _, _; by split]. eexists _, _. split; [reflexivity|].
    split; [|done]. apply (sync_post_trans d d1); [done|]. apply walked_sync; [|done]. simple_walk Hd1; cbn; lia.
  - by apply break_step, tracestop_ok.
Qed.

Lemma sync_ip_ok fuel d : decoder_ok d -> left_over d < Z.of_nat fuel ->
  exists err d', intel_pt_sync_ip fuel d = Some (err, d') /\ loop_post d err d'.
Proof.
  intros Hd Hf. unfold intel_pt_sync_ip, intel_pt_walk_to_ip.
  destruct (packet_loop_ok (to_ip_step fuel) fuel fuel d) as (err & d1 & -> & Hp); [intros; apply to_ip_step_ok; [done|done|lia]|done..|].
  cbn [obind]. destruct (nz err) eqn:Ez; [eexists _, _; by split|]. destruct Hp as (Hp & Hor & _).
  apply nz_false in Ez as ->. pose proof (sync_onward _ _ _ Hp (or_introl eq_refl)) as Ho. destruct Hor as [|Hl]; [done|]. destruct Hp as (Hd1 & _).
  eexists _, _. split; [reflexivity|]. assert (forall d2, walked d1 d2 -> loop_post d 0 d2) as Hend.
  { intros d2 Hw. destruct (walked_left _ _ Hw) as [El _]. split; [|split; [right; lia|done]]. apply (sync_post_trans d d1); [done|].
    by apply walked_sync. }
  apply Hend. simple_walk Hd1; try done.
Qed.

(** * Walking the trace *)

(** What the switch of [intel_pt_walk_trace] does. *)
Definition trace_ok (d : intel_pt_decoder) (r : option (verdict * bool * intel_pt_decoder)) : Prop :=
  exists v no_tip d', r = Some (v, no_tip, d') /\
    match v with
    | Return err => post d err d'
    | Break => decoder_ok d' /\ onward d d'
    | Goto_next => decoder_ok d' /\ onward d d' /\ left_over d' < left_over d /\ good d'
    end.

Lemma trace_return no_tip d err d' : post d err d' -> trace_ok d (Some (Return err, no_tip, d')).
Proof. intros Hp. eexists _, _, _. split; [reflexivity|done]. Qed.
Lemma trace_break no_tip d d' : walked d d' -> trace_ok d (Some (Break, no_tip, d')).
Proof. intros Hw. eexists _, _, _. split; [reflexivity|]. split; [apply Hw|by apply walked_onward]. Qed.
Lemma trace_exit no_tip d err d' : walked d d' -> err <> - ENOLINK -> trace_ok d (Some (Return err, no_tip, d')).
Proof. intros Hw He. apply trace_return. by apply walked_post. Qed.

Lemma trace_fup_ok fuel no_tip d : decoder_ok d -> left_over d < Z.of_nat fuel -> trace_ok d (trace_fup fuel no_tip d).
Proof.
  intros Hd Hf. unfold trace_fup. destruct (_ =? 0); [by apply trace_break, walked_refl|].
  pose proof (set_last_ip_ok d Hd) as Hw. destruct (walk_fup_ok _ (wk_ok _ _ Hw)) as (err & d1 & -> & Hp & Hw1). cbn [obind].
  assert (walked d d1) as Hw2 by by eapply walked_trans. pose proof (wk_ok _ _ Hw2) as Hd1. destruct (walked_left _ _ Hw2) as [El _].
  destruct (Z.eqb_spec err (- EAGAIN)) as [->|]; cbn [negb].
  - destruct no_tip; [by apply trace_break|]. destruct (walk_fup_tip_ok fuel d1 Hd1) as (err & d2 & -> & Hp2 & _); [lia|]. cbn [obind].
    apply trace_return. apply sync_post_post. eapply sync_post_trans; [|exact Hp2]. by apply walked_onward.
  - destruct (nz err) eqn:Ez.
    + apply trace_return. eapply post_trans; [|exact Hp]. by apply walked_onward.
    + apply trace_exit; [|done]. eapply walked_trans; [exact Hw2|]. destruct no_tip; simple_walk Hd1; done.
Qed.

Lemma trace_mtc_ok no_tip d : decoder_ok d -> trace_ok d (let? (v, d) := trace_mtc d in Some (v, no_tip, d)).
Proof.
  intros Hd. unfold trace_mtc. destruct (mtc_walked d Hd) as (d1 & -> & Hw & _). cbn [obind]. pose proof (wk_ok _ _ Hw) as Hd1.
  repeat case_match; cbn [obind]; try (by apply trace_break).
  - apply trace_break. eapply walked_trans; [exact Hw|]. simple_walk Hd1.
  - apply trace_exit; [|done]. eapply walked_trans; [exact Hw|]. simple_walk Hd1; cbn; unfold INTEL_PT_INSTRUCTION; lia.
Qed.

Lemma trace_psb_ok fuel no_tip d : decoder_ok d -> left_over d < Z.of_nat fuel ->
  trace_ok d (let? s := intel_pt_clear_stack (stack d) in
    let? (err, d) := intel_pt_walk_psbend fuel (d <| stack := s |>) in
    let? (v, d) := Some (if err =? - EAGAIN then Goto_next else if nz err then Return err else Break, d) in Some (v, no_tip, d)).
Proof.
  intros Hd Hf. pose proof (do_flow _ Hd) as Hfl. destruct (clear_contents (stack d)) as (s & -> & Hc & Hs); [apply Hfl|]. cbn [obind].
  assert (walked d (d <| stack := s |>)) as Hw. { assert (Forall u64_ok (contents s)) by (rewrite Hc; constructor). simple_walk Hd. }
  destruct (walked_left _ _ Hw) as [El _]. destruct (walk_psbend_ok fuel _ (wk_ok _ _ Hw)) as (err & d1 & -> & Hp); [lia|]. cbn [obind].
  apply (loop_post_trans d) in Hp as (Hp & Hor & Hg); [|by apply walked_onward]. destruct (Z.eqb_spec err (- EAGAIN)) as [->|Hne].
  - eexists _, _, _. split; [reflexivity|]. destruct Hor as [|Hl]; [done|]. pose proof (sync_onward _ _ _ Hp (or_intror eq_refl)).
    split; [apply Hp|]. split; [done|]. split; [done|by apply Hg].
  - destruct (nz err) eqn:Ez; [by apply trace_return, sync_post_post|]. eexists _, _, _. split; [reflexivity|].
    apply nz_false in Ez as ->. split; [apply Hp|]. apply (sync_onward _ 0); [done|by left].
Qed.

Lemma trace_tip_ok no_tip d d1 : walked d d1 ->
  trace_ok d (let? (err, d) := intel_pt_walk_tip d1 in let? (v, d) := Some (Return err, d) in Some (v, no_tip, d)).
Proof.
  intros Hw. destruct (walk_tip_ok d1 (wk_ok _ _ Hw)) as (err & d2 & -> & Hp). cbn [obind]. apply trace_return.
  eapply post_trans; [|exact Hp]. by apply walked_onward.
Qed.

Lemma maybe_last_ip_ok d : decoder_ok d -> walked d (if nz (count (packet d)) then intel_pt_set_last_ip d else d).
Proof. intros Hd. case_match; [by apply set_last_ip_ok|by apply walked_refl]. Qed.

Lemma trace_tnt_ok fuel no_tip d : decoder_ok d -> left_over d < Z.of_nat fuel -> (count (packet d) =? 0) = false ->
  trace_ok d (let? (err, d) := intel_pt_walk_tnt fuel (d <| tnt := packet d |> <| pkt_state := INTEL_PT_STATE_TNT |>) in
    let? (v, d) := Some (if err =? - EAGAIN then Break else Return err, d) in Some (v, no_tip, d)).
Proof.
  intros Hd Hf Hc. apply Z.eqb_neq in Hc. destruct (packet_wf d Hd) as (Hp1 & Hp2 & _). set (d1 := assign _ _).
  assert (walked d d1) as Hw by (simple_walk Hd; cbn; intros _; lia). destruct (walked_left _ _ Hw) as [El _].
  destruct (walk_tnt_ok fuel d1 (wk_ok _ _ Hw)) as (err & d2 & -> & Hp); [lia|cbn; lia|]. cbn [obind].
  apply (post_trans d) in Hp; [|by apply walked_onward]. destruct (Z.eqb_spec err (- EAGAIN)) as [->|]; [|by apply trace_return].
  eexists _, _, _. split; [reflexivity|]. destruct Hp as (Hd2 & Hl & Hs & _). split; [done|]. split; [done|]. intros H.
  by destruct (Hs H) as [?|(_ & ? & _)].
Qed.

Lemma trace_step_ok fuel no_tip d : decoder_ok d -> good d -> left_over d < Z.of_nat fuel -> trace_ok d (trace_step fuel no_tip d).
Proof.
  intros Hd Hg Hf. unfold trace_step. unfold good in Hg. destruct (type (packet d)); [done|..]; cbn [obind].
  all: try (by apply trace_break, walked_refl).
  - destruct (count (packet d) =? 0) eqn:Ec; [by apply trace_break, walked_refl|by apply trace_tnt_ok].
  - pose proof (maybe_last_ip_ok d Hd) as Hw. pose proof (wk_ok _ _ Hw) as Hd1. apply trace_tip_ok. eapply walked_trans; [exact Hw|].
    simple_walk Hd1; done.
  - set (d1 := d <| pge := true |>). assert (walked d d1) as Hw by simple_walk Hd. change (count (packet d1)) with (count (packet d)).
    destruct (_ =? 0); [by apply trace_break|]. pose proof (set_ip_ok d1 (wk_ok _ _ Hw)) as Hw1. pose proof (wk_ok _ _ Hw1) as Hd2.
    apply trace_exit; [|done]. eapply walked_trans; [exact Hw|]. eapply walked_trans; [exact Hw1|]. simple_walk Hd2.
  - destruct (tsc_walked d Hd) as (d1 & -> & Hw & _). by apply trace_break.
  - destruct (tma_walked d Hd) as (d1 & -> & Hw & _). by apply trace_break.
  - by apply trace_break, set_exec_mode_ok.
  - destruct (negb _); [by apply trace_break, update_in_tx_ok|].
    destruct (mode_tsx_ok fuel d no_tip Hd Hf) as (err & nt & d1 & -> & Hp & H0). cbn [obind].
    destruct (nz err); [by apply trace_return, sync_post_post|]. eexists _, _, _. split; [reflexivity|]. split; [apply Hp|by apply H0].
  - by apply trace_mtc_ok.
  - pose proof (maybe_last_ip_ok d Hd) as Hw. pose proof (wk_ok _ _ Hw) as Hd1. apply trace_tip_ok. eapply walked_trans; [exact Hw|].
    simple_walk Hd1; done.
  - by apply trace_fup_ok.
  - destruct (cyc_walked d Hd) as (d1 & -> & Hw & _). by apply trace_break.
  - by apply trace_psb_ok.
  - by apply trace_break, cbr_walked.
  - apply trace_break. by apply tracestop_ok.
  - by apply trace_break, set_cr3_ok.
  - destruct (overflow_ok d Hd) as (d1 & -> & Hw). by apply trace_exit.
Qed.

(** Every round but one at [next] consumes a packet, and such a round follows
    one that has consumed two. *)
Lemma walk_trace_loop_ok fuel n fetch no_tip d : decoder_ok d -> (fetch = false -> good d) -> left_over d < Z.of_nat fuel ->
  left_over d + (if fetch then 0 else 1) < Z.of_nat n -> exists err d', walk_trace_loop fuel n fetch no_tip d = Some (err, d') /\ post d err d'.
Proof.
  revert fetch no_tip d. induction n as [|n IH]; intros fetch no_tip d Hd Hg Hf Hn.
  { pose proof (left_over_nonneg d Hd). destruct fetch; lia. }
  cbn [walk_trace_loop].
  assert (exists err d1, (if fetch then intel_pt_get_next_packet fuel d else Some (0, d)) = Some (err, d1) /\
    (if nz err then sync_post d err d1 else decoder_ok d1 /\ onward d d1 /\ good d1 /\ left_over d1 + (if fetch then 1 else 0) <= left_over d))
    as (err & d1 & -> & H1).
  { destruct fetch.
    - destruct (get_next_packet_ok fuel d Hd Hf) as (err & d1 & -> & Hp). eexists _, _. split; [reflexivity|].
      destruct (nz err) eqn:Ez; [by apply next_post_sync|]. destruct (next_onward _ _ _ Hp Ez) as (? & ? & _ & ? & ?). split_and!; try done. lia.
    - exists 0, d. split; [done|]. change (nz 0) with false. split; [done|]. split; [by apply walked_onward, walked_refl|]. split; [by apply Hg|lia]. }
  cbn [obind]. destruct (nz err); [eexists _, _; split; [reflexivity|by apply sync_post_post]|]. destruct H1 as (Hd1 & Ho1 & Hg1 & Hl1).
  destruct (trace_step_ok fuel no_tip d1 Hd1 Hg1) as (v & nt & d2 & -> & Hv); [destruct fetch; lia|]. cbn [obind]. destruct v as [e| |].
  - eexists _, _. split; [reflexivity|]. by eapply post_trans.
  - destruct Hv as [Hd2 Ho2]. pose proof Ho2 as [Hl2 _].
    destruct (IH true nt d2 Hd2) as (e & d3 & -> & Hp); [done|destruct fetch; lia|destruct fetch; lia|].
    eexists _, _. split; [reflexivity|]. eapply post_trans; [|exact Hp]. by eapply onward_trans.
  - destruct Hv as (Hd2 & Ho2 & Hl2 & Hg2).
    destruct (IH false nt d2 Hd2) as (e & d3 & -> & Hp); [done|destruct fetch; lia|destruct fetch; lia|].
    eexists _, _. split; [reflexivity|]. eapply post_trans; [|exact Hp]. by eapply onward_trans.
Qed.

Lemma walk_trace_ok fuel d : decoder_ok d -> left_over d < Z.of_nat fuel ->
  exists err d', intel_pt_walk_trace fuel d = Some (err, d') /\ post d err d'.
Proof. intros Hd Hf. apply walk_trace_loop_ok; [done|done|done|lia]. Qed.

(** * Synchronisation *)

(** At a PSB the fetch succeeds. *)
Lemma psb_fetch d r : stepped_ok d -> buf d = PtOverlap.INTEL_PT_PSB_STR ++ r ->
  exists d', fetch_packet d = Some (0, d') /\ is_type (type (packet d')) INTEL_PT_PAD = false.
Proof.
  intros Hd Hb. unfold fetch_packet. destruct (get_packet_front d (buf d) _ Hd (whole_front d)) as (ret & p & E & _ & _).
  rewrite E. cbn [obind]. apply get_packet_inv in E as (ret0 & E & Hpad). rewrite Hb in E. rewrite (psb_encode r) in E.
  - injection E as <- <-. change (16 >? 0) with true in Hpad. cbn match in Hpad. apply (pad_loop_strip _ _ []) in Hpad as [Hle _]; [|lia].
    unfold INTEL_PT_NEED_MORE_BYTES. rewrite (proj2 (Z.eqb_neq ret _)) by lia. cbn [andb obind]. rewrite (proj2 (Z.leb_gt ret 0)) by lia.
    eexists. split; [reflexivity|done].
  - rewrite length_app. change (length PtOverlap.INTEL_PT_PSB_STR) with 16%nat. lia.
Qed.

Lemma psb_next_packet fuel d r : decoder_ok d -> left_over d < Z.of_nat fuel ->
  drop (Z.to_nat (pkt_step d)) (buf d) = PtOverlap.INTEL_PT_PSB_STR ++ r ->
  exists d', intel_pt_get_next_packet fuel d = Some (0, d') /\ next_post d 0 d'.
Proof.
  intros Hd Hf Hb. destruct (get_next_packet_ok fuel d Hd Hf) as (err & d' & E & Hp). rewrite E. exists d'. enough (err = 0) as -> by done.
  unfold intel_pt_get_next_packet in E. set (d0 := assign _ _) in E. assert (decoder_ok d0) as Hd0 by decoder_solve Hd.
  destruct fuel as [|fuel]; [done|]. cbn [next_packet_loop] in E. destruct (step_packet_ok d0 Hd0) as (d1 & E1 & Hd1 & _). rewrite E1 in E. cbn [obind] in E.
  assert (buf d1 = PtOverlap.INTEL_PT_PSB_STR ++ r) as Hb1.
  { rewrite <-Hb. unfold step_packet in E1. destruct (_ && _); [|done]. by injection E1 as <-. }
  destruct (psb_fetch d1 r Hd1 Hb1) as (d2 & E2 & Hnp). rewrite Hb1 in E. cbn [app PtOverlap.INTEL_PT_PSB_STR] in E.
  change (nz 0) with false in E. cbn match in E. rewrite E2 in E. cbn [obind] in E. change (nz 0) with false in E. cbn match in E.
  rewrite Hnp in E. by injection E.
Qed.

Lemma part_psb_loop_ok i l : 0 <= part_psb_loop i l <= Z.of_nat i /\ part_psb_loop i l <= Z.of_nat (length l).
Proof.
  induction i as [|i IH]; cbn [part_psb_loop]; [lia|]. destruct (_ && _) eqn:E; [|lia]. apply andb_true_iff in E as [E%Nat.leb_le _]. lia.
Qed.

(** The end of a scan with an error. *)
Definition scan_error (d : intel_pt_decoder) (err : Z) (d' : intel_pt_decoder) : Prop :=
  decoder_ok d' /\ next_buf d' = None /\ pkt_step d' = 0 /\ total d' <= total d /\ (err = - ENODATA \/ total d' < total d).

(** Between two buffers there is nothing in [next_buf], or a PSB has been put
    together. *)
Definition scanning (d : intel_pt_decoder) : Prop :=
  stepped_ok d /\ (next_buf d = None \/ exists r, buf d = PtOverlap.INTEL_PT_PSB_STR ++ r).

Lemma scan_error_trans d1 d2 err d3 : total d2 <= total d1 -> scan_error d2 err d3 -> scan_error d1 err d3.
Proof. intros Hl (? & ? & ? & ? & Hor). split_and!; try done; [lia|]. destruct Hor; [by left|right; lia]. Qed.

(** The data behind what has been scanned. *)
Definition skip_buf (d : intel_pt_decoder) : intel_pt_decoder := d <| pos := u64 (pos d + Z.of_nat (length (buf d))) |> <| buf := [] |>.

Lemma skip_buf_ok d : stepped_ok d -> stepped_ok (skip_buf d) /\ total (skip_buf d) = total d - Z.of_nat (length (buf d)).
Proof.
  intros Hd. split.
  - constructor; [|apply Hd..]. eapply (fetch_ok_suffix _ _ _ _ (buf d)); [exact (do_fetch _ Hd)|done|cbn; lia| |done|done].
    exact (fo_next _ _ (do_fetch _ Hd)).
  - change (total d) with (Z.of_nat (length (whole d)) + Z.of_nat (length (trace d))).
    change (total (skip_buf d)) with (Z.of_nat (length (whole (skip_buf d))) + Z.of_nat (length (trace d))).
    rewrite (whole_front d), length_app. change (whole (skip_buf d)) with (default [] (next_buf d) ++ to_come (trace d)). lia.
Qed.

Lemma scan_data_ok d : stepped_ok d -> next_buf d = None -> exists ret d', intel_pt_get_next_data d = (ret, d') /\
  if nz ret then scan_error d ret d'
  else stepped_ok d' /\ next_buf d' = None /\ 16 <= Z.of_nat (length (buf d')) /\
       total d' = total d - Z.of_nat (length (buf d)) - 1.
Proof.
  intros Hd Hn. unfold intel_pt_get_next_data. rewrite Hn.
  destruct (get_data_ok (d <| pkt_step := 0 |>) Hd Hn) as (ret & d1 & E1 & Hok1 & Hs1 & Hn1 & _ & Hpost).
  change (intel_pt_get_data d = (ret, d1)) in E1. change (total (d <| pkt_step := 0 |>)) with (total d) in Hpost.
  exists ret, d1. split; [done|]. destruct (nz ret); [destruct Hpost as (? & ? & _); split_and!; done|].
  destruct Hpost as (_ & b & Et & Er & Eb & Hl & _). change (trace (d <| pkt_step := 0 |>)) with (trace d) in Et.
  split; [apply walked_pkt_step, Hok1|]. split; [done|]. split; [by rewrite Eb|].
  unfold total, stream. rewrite Hn, Hn1, Et, Eb. unfold to_come. cbn [map concat default app]. unfold chunk at 2. rewrite Er.
  rewrite !length_app, length_cons. lia.
Qed.

Lemma split_psb_ok d part : stepped_ok d -> next_buf d = None -> 1 <= part <= 15 -> part <= Z.of_nat (length (buf d)) ->
  exists ret d', intel_pt_get_split_psb d part = (ret, d') /\ if nz ret then scan_error d ret d' else scanning d' /\ total d' < total d.
Proof.
  intros Hd Hn Hp Hl. unfold intel_pt_get_split_psb. destruct (skip_buf_ok d Hd) as [Hd0 Et0]. fold (skip_buf d).
  destruct (scan_data_ok (skip_buf d) Hd0 Hn) as (ret & d1 & -> & H1). destruct (nz ret) eqn:Ez.
  { exists ret, d1. split; [done|]. rewrite Ez. eapply scan_error_trans; [|exact H1]. lia. }
  change (length (buf (skip_buf d))) with 0%nat in H1. destruct H1 as (Hd1 & Hn1 & Hl1 & Et1). apply nz_false in Ez as ->. change (nz 0) with false.
  destruct (Z.eqb_spec (intel_pt_rest_psb d1 part) 0) as [|Hr].
  { exists 0, d1. split; [done|]. split; [split; [done|by left]|lia]. }
  assert (intel_pt_rest_psb d1 part = 16 - part) as Er by (unfold intel_pt_rest_psb in *; by destruct (_ || _)). rewrite Er.
  eexists _, _. split; [reflexivity|]. cbn match. set (d2 := assign _ _).
  assert (whole d2 = PtOverlap.INTEL_PT_PSB_STR ++ drop (Z.to_nat (16 - part)) (buf d1) ++ to_come (trace d1)) as Ew by done.
  pose proof (do_fetch _ Hd1) as [Hb1 Hc1 _ _ Ha1 Hp1].
  assert (whole d1 = take (Z.to_nat (16 - part)) (buf d1) ++ drop (Z.to_nat (16 - part)) (buf d1) ++ to_come (trace d1)) as Ew1.
  { rewrite whole_front, Hn1. cbn [default app]. rewrite app_assoc. by rewrite take_drop. }
  change (stream _ _) with (whole d1) in Hb1, Hc1. rewrite Ew1 in Hb1, Hc1. apply Forall_app in Hb1 as [_ Hb1]. apply no_overlong_suffix in Hc1.
  split.
  - split; [|right; exists []; by rewrite app_nil_r]. constructor; [|apply Hd1..]. constructor; try done.
    + change (stream _ _) with (whole d2). rewrite Ew. apply Forall_app. split; [apply psb_bytes|done].
    + change (stream _ _) with (whole d2). rewrite Ew. by apply no_overlong_psb.
    + intros ? [= <-] E. apply (f_equal length) in E. rewrite length_drop in E. cbn in E. lia.
  - change (total d2) with (Z.of_nat (length (whole d2)) + Z.of_nat (length (trace d1))). rewrite Ew, !length_app, length_drop.
    change (length PtOverlap.INTEL_PT_PSB_STR) with 16%nat.
    assert (total d1 = Z.of_nat (length (whole d1)) + Z.of_nat (length (trace d1))) as E1 by done.
    rewrite Ew1, !length_app, length_take, length_drop in E1. lia.
Qed.

(** Every round of the scan drops a buffer. *)
Lemma scan_loop_ok fuel n d : scanning d -> total d < Z.of_nat fuel -> total d < Z.of_nat n ->
  exists err d', scan_loop fuel n d = Some (err, d') /\ if nz err then scan_error d err d' else decoder_ok d' /\ left_over d' < total d.
Proof.
  revert d. induction n as [|n IH]; intros d [Hd Hs] Hf Hn; [unfold total in Hn; lia|]. cbn [scan_loop].
  assert (exists ret d1, match buf d with [] => intel_pt_get_next_data d | _ => (0, d) end = (ret, d1) /\
    if nz ret then scan_error d ret d1 else scanning d1 /\ buf d1 <> [] /\ total d1 <= total d) as (ret & d1 & -> & H1).
  { destruct (buf d) as [|x l] eqn:Eb.
    - destruct Hs as [Hs|[r Hr]]; [|done]. destruct (scan_data_ok d Hd Hs) as (ret & d1 & -> & H1). exists ret, d1. split; [done|].
      destruct (nz ret); [done|]. destruct H1 as (? & ? & ? & ?). split; [split; [done|by left]|].
      split; [intros E; rewrite E in *; done|rewrite Eb in *; cbn in *; lia].
    - exists 0, d. split; [done|]. change (nz 0) with false. split; [by split; [|rewrite Eb]|]. split; [by rewrite Eb|lia]. }
  destruct (nz ret) eqn:Er; [exists ret, d1; rewrite Er; done|]. destruct H1 as ([Hd1 Hs1] & Hb1 & Ht1).
  destruct (PtOverlap.find_sub (buf d1) PtOverlap.INTEL_PT_PSB_STR) as [k|] eqn:Ek.
  - apply PtOverlap.find_sub_Some in Ek as [[r Hr]%PtOverlap.is_prefix_spec _]. pose proof (f_equal length Hr) as Hlen.
    rewrite length_drop, length_app in Hlen. change (length PtOverlap.INTEL_PT_PSB_STR) with 16%nat in Hlen.
    set (d2 := d1 <| pkt_step := Z.of_nat k |>). assert (decoder_ok d2) as Hd2.
    { constructor; [|apply Hd1..]. destruct (do_fetch _ Hd1). constructor; try assumption. cbn. lia. }
    assert (left_over d2 = total d1 - Z.of_nat k) as El by done.
    destruct (psb_next_packet fuel d2 r Hd2) as (d3 & -> & Hp); [lia|by change (pkt_step d2) with (Z.of_nat k); rewrite Nat2Z.id|].
    exists 0, d3. split; [done|]. destruct (next_onward _ _ _ Hp eq_refl) as (? & _ & _ & ? & _). cbn match. split; [done|lia].
  - assert (next_buf d1 = None) as Hn1.
    { destruct Hs1 as [?|[r Hr]]; [done|]. apply (PtOverlap.find_sub_None _ _ 0) in Ek. rewrite drop_0 in Ek.
      exfalso. apply not_true_iff_false in Ek. apply Ek. apply PtOverlap.is_prefix_spec. eauto. }
    assert (forall d2, scanning d2 -> total d2 < total d1 -> exists err d', scan_loop fuel n d2 = Some (err, d') /\
      if nz err then scan_error d err d' else decoder_ok d' /\ left_over d' < total d) as Hnext.
    { intros d2 Hd2 Ht2. destruct (IH d2 Hd2) as (err & d3 & -> & H3); [lia|lia|]. exists err, d3. split; [done|].
      destruct (nz err); [eapply scan_error_trans; [|exact H3]; lia|]. split; [apply H3|lia]. }
    pose proof (part_psb_loop_ok 15 (buf d1)) as [Hp1 Hp2]. fold (intel_pt_part_psb d1) in Hp1, Hp2.
    destruct (nz (intel_pt_part_psb d1)) eqn:Ep.
    + unfold nz in Ep. apply negb_true_iff, Z.eqb_neq in Ep.
      destruct (split_psb_ok d1 (intel_pt_part_psb d1) Hd1 Hn1) as (e & d2 & -> & H2); [lia|done|].
      destruct (nz e) eqn:Ee; [exists e, d2; rewrite Ee; split; [done|]; by eapply scan_error_trans|]. destruct H2. by apply Hnext.
    + destruct (skip_buf_ok d1 Hd1) as [Hd2 Et2]. apply Hnext; [split; [done|by left]|].
      assert (1 <= Z.of_nat (length (buf d1))) by (destruct (buf d1); [done|rewrite length_cons; lia]).
      change (total (skip_buf d1) < total d1). lia.
Qed.

(** The end of [intel_pt_sync]. *)
Definition psb_post (d : intel_pt_decoder) (err : Z) (d' : intel_pt_decoder) : Prop :=
  decoder_ok d' /\ left_over d' <= total d /\ ready d' /\ (err = - ENOLINK -> pkt_step d' = 0 /\ left_over d' < total d).

Lemma sync_psb_post d d1 err d' : left_over d1 <= total d -> synced d1 -> sync_post d1 err d' -> psb_post d err d'.
Proof.
  intros Hl Hs (? & ? & Hset & He). split; [done|]. split; [lia|]. split.
  - destruct (Hset Hs) as [?|(_ & _ & ?)]; [by left|by right].
  - intros E. destruct (He E). split; [done|lia].
Qed.

Lemma sync_ok fuel d : decoder_ok d -> next_buf d = None -> total d < Z.of_nat fuel ->
  exists err d', intel_pt_sync fuel d = Some (err, d') /\ psb_post d err d'.
Proof.
  intros Hd Hn Hf. unfold intel_pt_sync. set (d0 := assign _ _).
  pose proof (do_flow _ Hd) as Hfl. destruct (clear_contents (stack d)) as (s & Es & Hc & Hs); [apply Hfl|].
  change (stack d0) with (stack d). rewrite Es. cbn [obind]. assert (Forall u64_ok (contents s)) by (rewrite Hc; constructor).
  set (d1 := d0 <| stack := s |>). assert (stepped_ok d1) as Hd1.
  { destruct (walked_pkt_step d Hd) as [Hd' _]. unfold stepped_ok. decoder_solve Hd'. }
  destruct (scan_loop_ok fuel fuel d1) as (err & d2 & E2 & H2); [split; [done|by left]|done|done|].
  unfold intel_pt_scan_for_psb. rewrite E2. cbn [obind]. change (total d1) with (total d) in H2. destruct (nz err) eqn:Ez.
  { exists err, d2. split; [done|]. destruct H2 as (? & ? & Hs2 & ? & Hor). change (total d1) with (total d) in *. unfold psb_post, left_over.
    rewrite Hs2. split; [done|]. split; [lia|]. split; [by right|]. intros ->. split; [done|]. by destruct Hor; [|lia]. }
  destruct H2 as [Hd2 Hl2]. set (d3 := d2 <| pkt_state := INTEL_PT_STATE_NO_IP |>).
  assert (walked d2 d3) as Hw3 by (simple_walk Hd2; done). destruct (walked_left _ _ Hw3) as [El3 _]. pose proof (wk_ok _ _ Hw3) as Hd3.
  destruct (walk_psb_ok fuel d3 Hd3) as (e & d4 & -> & Hp4 & _); [lia|]. cbn [obind].
  assert (synced d3) as Hs3 by done.
  destruct (nz e) eqn:Ee; [exists e, d4; split; [done|]; by apply (sync_psb_post d d3); [lia|..]|].
  apply nz_false in Ee as ->. pose proof (sync_onward _ _ _ Hp4 (or_introl eq_refl)) as [Hl4 Hs4]. specialize (Hs4 Hs3). pose proof Hp4 as (Hd4 & _).
  destruct (nz (ip d4)).
  - eexists _, _. split; [reflexivity|]. apply (sync_psb_post d d4); [lia|done|]. apply walked_sync; [|done].
    simple_walk Hd4; try done; cbn; lia.
  - destruct (sync_ip_ok fuel d4 Hd4) as (e & d5 & -> & Hp5 & _); [lia|]. eexists _, _. split; [reflexivity|]. by apply (sync_psb_post d d4); [lia|..].
Qed.

(** * The decoder as a whole *)

(** A restart consumes something of the trace, or follows a walk of
    instructions that looks for an address next. *)
Definition rank (d : intel_pt_decoder) : Z :=
  2 * left_over d + match pkt_state d with INTEL_PT_STATE_NO_PSB | INTEL_PT_STATE_NO_IP | INTEL_PT_STATE_ERR_RESYNC => 0 | _ => 1 end.

Definition decode_post (d : intel_pt_decoder) (err : Z) (d' : intel_pt_decoder) : Prop :=
  decoder_ok d' /\ ready d' /\ left_over d' <= left_over d /\ (err = - ENOLINK -> rank d' < rank d).

Lemma rank_bounds d : 2 * left_over d <= rank d <= 2 * left_over d + 1.
Proof. unfold rank. destruct (pkt_state d); lia. Qed.

Lemma sync_decode d err d' : synced d -> sync_post d err d' -> decode_post d err d'.
Proof.
  intros Hs (Hd & Hl & Hset & He). split; [done|]. split; [|split; [done|]].
  - destruct (Hset Hs) as [?|(_ & _ & ?)]; [by left|by right].
  - intros E. destruct (He E) as [_ Hlt]. pose proof (rank_bounds d). pose proof (rank_bounds d'). lia.
Qed.

Lemma post_decode d err d' : synced d -> rank d = 2 * left_over d + 1 -> post d err d' -> decode_post d err d'.
Proof.
  intros Hs Hr (Hd & Hl & Hset & He). split; [done|]. split; [|split; [done|]].
  - destruct (Hset Hs) as [?|(_ & _ & ?)]; [by left|by right].
  - intros E. pose proof (rank_bounds d'). destruct (He E) as [[_ Hlt]|Est]; [lia|]. unfold rank in *. rewrite Est. lia.
Qed.

Lemma psb_decode d err d' : ready d -> pkt_state d = INTEL_PT_STATE_NO_PSB -> psb_post d err d' -> decode_post d err d'.
Proof.
  intros [Hs|[_ Hs]] Est (Hd & Hl & Hr & He); [done|]. assert (total d = left_over d) as Et by (unfold left_over; lia). rewrite Et in *.
  split; [done|]. split; [done|]. split; [done|]. intros E. destruct (He E) as [_ Hlt]. pose proof (rank_bounds d). pose proof (rank_bounds d'). lia.
Qed.

Lemma decode_step_ok fuel d : decoder_ok d -> ready d -> left_over d < Z.of_nat fuel ->
  exists err d', decode_step fuel d = Some (err, d') /\ decode_post d err d'.
Proof.
  intros Hd Hr Hf. unfold decode_step.
  assert (forall r, (exists err d', r = Some (err, d') /\ post d err d') -> synced d -> rank d = 2 * left_over d + 1 ->
    exists err d', r = Some (err, d') /\ decode_post d err d') as Hpost.
  { intros r (err & d' & -> & Hp) Hs Hrk. eexists _, _. split; [reflexivity|by apply post_decode]. }
  assert (walked d (d <| pkt_state := INTEL_PT_STATE_IN_SYNC |>)) as Hwf by (simple_walk Hd; done).
  assert (exists err d', intel_pt_walk_fup (d <| pkt_state := INTEL_PT_STATE_IN_SYNC |>) = Some (err, d') /\ post d err d' /\ walked d d')
    as (efup & dfup & Efup & Hpfup & Hwfup).
  { destruct (walk_fup_ok _ (wk_ok _ _ Hwf)) as (err & d' & -> & Hp & Hw). eexists _, _. split; [reflexivity|].
    split; [eapply post_trans; [by apply walked_onward|done]|by eapply walked_trans]. }
  pose proof (wk_ok _ _ Hwfup) as Hdf. destruct (walked_left _ _ Hwfup) as [Elf _].
  destruct (pkt_state d) eqn:Est.
  - destruct Hr as [Hr|[Hn Hs]]; [done|]. assert (total d = left_over d) by (unfold left_over; lia).
    destruct (sync_ok fuel d Hd Hn) as (err & d' & -> & Hp); [lia|]. eexists _, _. split; [reflexivity|].
    apply psb_decode; [by right|done|done].
  - assert (walked d (d <| last_ip := 0 |>)) as Hw by simple_walk Hd. destruct (walked_left _ _ Hw) as [El _].
    destruct (sync_ip_ok fuel _ (wk_ok _ _ Hw)) as (err & d' & -> & Hp & _); [lia|]. eexists _, _. split; [reflexivity|].
    apply sync_decode; [unfold synced; by rewrite Est|]. eapply sync_post_trans; [by apply walked_onward|done].
  - destruct (sync_ip_ok fuel d Hd Hf) as (err & d' & -> & Hp & _). eexists _, _. split; [reflexivity|]. apply sync_decode; [unfold synced; by rewrite Est|done].
  - apply Hpost; [by apply walk_trace_ok|unfold synced; by rewrite Est|unfold rank; by rewrite Est].
  - apply Hpost; [|unfold synced; by rewrite Est|unfold rank; by rewrite Est].
    destruct (walk_tnt_ok fuel d Hd Hf) as (err & d' & -> & Hp); [by apply (do_flow _ Hd)|]. cbn [obind].
    destruct (Z.eqb_spec err (- EAGAIN)) as [->|]; [|by eexists _, _]. destruct Hp as (Hd' & Hl & Hs & _).
    destruct (walk_trace_ok fuel d' Hd') as (err & d2 & -> & Hp); [lia|]. eexists _, _. split; [reflexivity|].
    eapply post_trans; [|done]. split; [done|]. intros H. by destruct (Hs H) as [?|(_ & ? & _)].
  - apply Hpost; [by apply walk_tip_ok|unfold synced; by rewrite Est|unfold rank; by rewrite Est].
  - apply Hpost; [by apply walk_tip_ok|unfold synced; by rewrite Est|unfold rank; by rewrite Est].
  - apply Hpost; [|unfold synced; by rewrite Est|unfold rank; by rewrite Est]. rewrite Efup. cbn [obind]. destruct (Z.eqb_spec efup (- EAGAIN)) as [->|].
    + destruct (walk_fup_tip_ok fuel dfup Hdf) as (err & d2 & -> & Hp & _); [lia|]. eexists _, _. split; [reflexivity|].
      eapply post_trans; [by apply walked_onward|]. by apply sync_post_post.
    + eexists _, _. split; [reflexivity|]. destruct (Z.eqb_spec efup 0) as [->|]; [|done]. apply walked_post; [|done].
      eapply walked_trans; [exact Hwfup|]. simple_walk Hdf; done.
  - apply Hpost; [|unfold synced; by rewrite Est|unfold rank; by rewrite Est]. rewrite Efup. cbn [obind]. destruct (Z.eqb_spec efup (- EAGAIN)) as [->|].
    + destruct (walk_trace_ok fuel dfup Hdf) as (err & d2 & -> & Hp); [lia|]. eexists _, _. split; [reflexivity|].
      eapply post_trans; [by apply walked_onward|done].
    + by eexists _, _.
Qed.

Lemma decode_loop_ok fuel n d : decoder_ok d -> ready d -> left_over d < Z.of_nat fuel -> rank d < Z.of_nat n ->
  exists err d', decode_loop fuel n d = Some (err, d') /\ decoder_ok d' /\ ready d' /\ left_over d' <= left_over d.
Proof.
  revert d. induction n as [|n IH]; intros d Hd Hr Hf Hn; [pose proof (rank_bounds d); pose proof (left_over_nonneg d Hd); lia|].
  cbn [decode_loop]. set (d1 := d <| st_type := _ |> <| st_flags := _ |>).
  assert (decoder_ok d1) as Hd1 by (decoder_solve Hd; cbn; unfold INTEL_PT_BRANCH; lia).
  assert (ready d1) as Hr1 by exact Hr. assert (left_over d1 = left_over d /\ rank d1 = rank d) as [El Erk] by done.
  destruct (decode_step_ok fuel d1 Hd1 Hr1) as (err & d2 & -> & Hd2 & Hr2 & Hl2 & He); [lia|]. cbn [obind].
  destruct (Z.eqb_spec err (- ENOLINK)) as [E|].
  - destruct (IH d2 Hd2 Hr2) as (e & d3 & -> & ? & ? & ?); [lia|specialize (He E); lia|]. eexists _, _. split; [reflexivity|]. split_and!; try done. lia.
  - eexists _, _. split; [reflexivity|]. split_and!; done || lia.
Qed.

Lemma ext_err_range e : 0 <= intel_pt_ext_err e < INTEL_PT_ERR_MAX.
Proof. unfold intel_pt_ext_err. repeat case_match; vm_compute; split; congruence. Qed.

Lemma est_timestamp_ok d : u64_ok (intel_pt_est_timestamp d).
Proof. apply u64_u64_ok. Qed.

(** The decoder between two calls. *)
Definition decoder_ready (d : intel_pt_decoder) : Prop := decoder_ok d /\ ready d.

Lemma decode_ok fuel d : decoder_ready d -> 2 * left_over d + 1 < Z.of_nat fuel ->
  exists d', intel_pt_decode fuel d = Some d' /\ decoder_ready d' /\ left_over d' <= left_over d.
Proof.
  intros [Hd Hr] Hf. unfold intel_pt_decode. pose proof (rank_bounds d). pose proof (left_over_nonneg d Hd).
  destruct (decode_loop_ok fuel fuel d Hd Hr) as (err & d1 & -> & Hd1 & Hr1 & Hl1); [lia|lia|]. cbn [obind].
  pose proof (ext_err_range err). pose proof (est_timestamp_ok d1). pose proof (ti_timestamp _ (do_times _ Hd1)).
  pose proof (fl_cr3 _ (do_flow _ Hd1)). pose proof (pg_tot _ (do_progress _ Hd1)).
  assert (0 <= (if nz err then intel_pt_ext_err err else 0) < INTEL_PT_ERR_MAX) by (case_match; [done|vm_compute; split; congruence]).
  eexists. split; [reflexivity|]. destruct (nz err); (split; [split; [decoder_solve Hd1|exact Hr1]|exact Hl1]).
Qed.

(** The states that a sequence of calls returns. *)
Fixpoint decode_calls (fuel n : nat) (d : intel_pt_decoder) : option (list intel_pt_state) :=
  match n with
  | O => Some []
  | S n => let? d := intel_pt_decode fuel d in let? l := decode_calls fuel n d in Some (state d :: l)
  end.

Lemma decode_calls_ok fuel n d : decoder_ready d -> 2 * left_over d + 1 < Z.of_nat fuel ->
  exists l, decode_calls fuel n d = Some l /\ length l = n /\ Forall state_ok l.
Proof.
  revert d. induction n as [|n IH]; intros d Hd Hf; [by exists []|]. cbn [decode_calls].
  destruct (decode_ok fuel d Hd Hf) as (d1 & -> & Hd1 & Hl). cbn [obind].
  destruct (IH d1 Hd1) as (l & -> & Hlen & Hl1); [lia|]. cbn [obind]. eexists. split; [reflexivity|]. split; [by cbn; rewrite Hlen|].
  constructor; [|done]. destruct Hd1 as [Hok _]. apply Hok.
Qed.

(** Parameters that [intel_pt_decoder_new] is given. *)
Record params_ok (p : intel_pt_params) : Prop := {
  pa_callbacks : p_get_trace p = true /\ p_walk_insn p = true; pa_mtc : 0 <= p_mtc_period p <= 29;
  pa_period : p_period_type p = INTEL_PT_PERIOD_TICKS -> 0 < p_period p < 2 ^ 64;
}.

(** A trace: answers of [get_trace] with bytes in them. *)
Record trace_data_ok (t : list intel_pt_buffer) : Prop := {
  td_bytes : Forall is_byte (to_come t); td_cyc : PtOverlap.no_overlong_cyc (to_come t) = true; td_answers : Forall answer_ok t;
}.

Definition trace_size (t : list intel_pt_buffer) : Z := Z.of_nat (length (to_come t)) + Z.of_nat (length t).

Lemma setup_period_ok c : (period_type c = INTEL_PT_PERIOD_TICKS -> 0 < period c < 2 ^ 64) -> exists c', intel_pt_setup_period c = Some c'.
Proof.
  intros Hp. unfold intel_pt_setup_period. destruct (bool_decide (period_type c = _)) eqn:E; [|by eexists].
  apply bool_decide_eq_true in E. rewrite lower_power_of_2_ok by auto. by eexists.
Qed.

Lemma decoder_new_ok p w : params_ok p -> trace_data_ok (trace w) ->
  exists d, intel_pt_decoder_new true p w = Some (Some d) /\ decoder_ready d /\ left_over d = trace_size (trace w).
Proof.
  intros [[Hc1 Hc2] Hm Hp] [Hb Hc Ha]. unfold intel_pt_decoder_new, new_config. rewrite Hc1, Hc2. cbn [negb orb].
  match goal with |- context [intel_pt_setup_period ?c] => destruct (setup_period_ok c) as [c' ->]; [exact Hp|] end. cbn [obind].
  rewrite (s32_small (p_mtc_period p)) by lia. rewrite (proj2 (Z.leb_le 0 _)), (proj2 (Z.leb_le _ 30)), (proj2 (Z.leb_le _ 29)) by lia.
  rewrite orb_true_r. cbn [andb ub_unless obind]. eexists. split; [reflexivity|]. split; [|unfold trace_size, left_over, total; cbn; lia].
  split; [|right; done]. constructor.
  - constructor; try done; cbn; lia.
  - unfold cfg_shift_ok. cbn. lia.
  - constructor; vm_compute; split; congruence.
  - constructor; try exact stack_ok_empty; try constructor; try (vm_compute; congruence).
  - constructor; vm_compute; split; congruence.
  - constructor; vm_compute; split; congruence.
Qed.

End Walk.


(** The sum of length and offset is undefined exactly when it is not an [int]:
    so is then the jump. *)
Lemma branch_offset_undefined insn d : ~ (- 2 ^ 31 <= length_ insn + rel insn < 2 ^ 31) -> walk_unconditional insn d = None.
Proof.
  intros H. unfold walk_unconditional, branch_offset. destruct (Z.leb_spec (- 2 ^ 31) (length_ insn + rel insn)); [|done].
  destruct (Z.ltb_spec (length_ insn + rel insn) (2 ^ 31)); [lia|done].
Qed.

(** So is the conversion of a time at the end of the range, where Annex F does
    not hold. *)
Example cyc_time_undefined : add_cycles (H := no_env) (2 ^ 64 - 1) 1 (CDouble.of_Z 1) = None
  /\ intel_pt_calc_cyc_timestamp (H := no_env) ((tsc_decoder 1 0) <| cyc_ref_timestamp := 2 ^ 64 - 1 |>
       <| have_calc_cyc_to_tsc := true |> <| calc_cyc_to_tsc := CDouble.of_Z 1 |>) = None.
Proof. split; vm_compute; reflexivity. Qed.

(** * Never-ending loops *)

(** A direct jump. *)
Definition jump (a : walk_answer) : Prop :=
  a_err a = 0 /\ op (a_insn a) = INTEL_PT_OP_JMP /\ branch (a_insn a) = INTEL_PT_BR_UNCONDITIONAL.

(** In the middle of the instructions behind a packet. *)
Definition in_branches (d : intel_pt_decoder) : Prop :=
  pkt_state d = INTEL_PT_STATE_TNT \/ pkt_state d = INTEL_PT_STATE_TIP \/ pkt_state d = INTEL_PT_STATE_TIP_PGD.

Section Loops.
Context {Env : PtEnv} {HEnv : EnvOk} {HFit : offsets_fit}.

Lemma next_sample_keeps d : env (intel_pt_next_sample d).2 = env d /\ no_progress (intel_pt_next_sample d).2 = no_progress d.
Proof. unfold intel_pt_next_sample, intel_pt_next_period. repeat case_match; done. Qed.
Lemma sample_insn_keeps d : env (intel_pt_sample_insn d) = env d /\ no_progress (intel_pt_sample_insn d) = no_progress d.
Proof. unfold intel_pt_sample_insn. repeat case_match; done. Qed.

(** A round of the loop check: another branch is counted, or the loop is
    reported. *)
Definition round_ok (d : intel_pt_decoder) (err : Z) (d' : intel_pt_decoder) : Prop :=
  err = - ELOOP \/
  err = INTEL_PT_RETURN /\ no_progress d <= INTEL_PT_MAX_LOOPS /\ no_progress d' = no_progress d + 1 /\
    calls d' = calls d /\ pkt_state d' = pkt_state d /\ tnt d' = tnt d.

Lemma unconditional_loop a d : - 2 ^ 31 <= length_ (a_insn a) + rel (a_insn a) < 2 ^ 31 -> exists err d', walk_unconditional (a_insn a) d = Some (err, a_insn a, d') /\ round_ok d err d'.
Proof.
  intros Ha. unfold walk_unconditional. rewrite (branch_offset_ok _ Ha). cbn [obind].
  assert (forall d1 : intel_pt_decoder, no_progress d <= INTEL_PT_MAX_LOOPS -> no_progress d1 = no_progress d + 1 -> calls d1 = calls d -> pkt_state d1 = pkt_state d ->
    tnt d1 = tnt d -> exists err d', Some (out_no_progress (a_insn a) INTEL_PT_RETURN d1) = Some (err, a_insn a, d') /\ round_ok d err d') as Hout.
  { intros d1 H1 H2 H3 H4 H5. eexists _, _. split; [reflexivity|]. right. case_match; done. }
  destruct (Z.eqb_spec (no_progress d) 0) as [E|]; [apply Hout; try done; rewrite E; done|].
  destruct (Z.eqb_spec (no_progress d) 1) as [E|]; [apply Hout; try done; rewrite E; done|].
  destruct (_ || _) eqn:Es; [eexists _, _; split; [reflexivity|by left]|]. bprop.
  case_match; apply Hout; try done; lia.
Qed.

Lemma walk_jump d : decoder_ok d -> (forall ip to_ip max, jump (walk_insn_cb (calls d) ip to_ip max)) ->
  exists err insn d', intel_pt_walk_insn d 0 = Some (err, insn, d') /\ walked d d' /\
    (err = - ELOOP \/ err = INTEL_PT_RETURN /\ no_progress d <= INTEL_PT_MAX_LOOPS /\ no_progress d' = no_progress d + 1 /\
       calls d' = S (calls d) /\ pkt_state d' = pkt_state d /\ tnt d' = tnt d).
Proof.
  intros Hd Hj. destruct (walk_insn_ok d 0 Hd) as (err0 & insn0 & d0 & E0 & Hw0 & _). revert E0.
  unfold intel_pt_walk_insn. set (d1 := if negb (mtc_insn d) then _ else _).
  assert (calls d1 = calls d /\ no_progress d1 = no_progress d /\ flw d1 = flw d) as (Ec1 & En1 & Ef1) by (unfold d1; by case_match).
  assert (decoder_ok d1) as Hd1 by (unfold d1; case_match; [decoder_solve Hd|done]).
  destruct (next_sample_keeps d1) as [Ee2 En2]. destruct (next_sample_ok d1 Hd1) as [_ Ef2].
  destruct (intel_pt_next_sample d1) as [max d2]. cbn [snd] in *. unfold call_walk_insn.
  replace (calls d2) with (calls d) by (rewrite Ee2; done). destruct (Hj (ip d2) 0 max) as (H1 & H2 & H3).
  pose proof (offset_fits (calls d) (ip d2) 0 max H1 (or_introl H3)) as Ha. set (a := walk_insn_cb _ _ _ _) in *. rewrite H1. change (nz 0) with false. cbn [andb].
  rewrite H3, bool_decide_false by done. set (d3 := assign _ _). set (d4 := if nz max && _ then _ else _).
  assert (calls d4 = S (calls d) /\ no_progress d4 = no_progress d /\ pkt_state d4 = pkt_state d /\ tnt d4 = tnt d) as (Ec & En & Es & Et).
  { assert (calls d3 = S (calls d) /\ no_progress d3 = no_progress d /\ pkt_state d3 = pkt_state d /\ tnt d3 = tnt d) as Hd3.
    { split; [done|]. rewrite <-En1, <-Ef1, <-Ef2, <-En2. done. }
    unfold d4. case_match; [|done]. destruct (sample_insn_keeps d3) as [E1 E2].
    assert (flw (intel_pt_sample_insn d3) = flw d3) as E3 by (unfold intel_pt_sample_insn; by case_match). by rewrite E1, E2, E3. }
  unfold walk_branch. rewrite H2, H3, !bool_decide_false, !bool_decide_true by done. cbn [obind andb].
  destruct (unconditional_loop a d4 Ha) as (err & d' & -> & Hr). intros [= <- <- <-]. eexists _, _, _. split; [reflexivity|]. split; [done|].
  destruct Hr as [->|(-> & ? & ? & ? & ? & ?)]; [by left|right]. rewrite <-En, <-Es, <-Et, <-Ec. done.
Qed.

(** What is left of the loop check. *)
Definition rounds_left (d : intel_pt_decoder) : nat := Z.to_nat (INTEL_PT_MAX_LOOPS + 1 - no_progress d).

Lemma step_jump fuel d : decoder_ok d -> in_branches d -> (forall ip to_ip max, jump (walk_insn_cb (calls d) ip to_ip max)) ->
  exists err d', decode_step fuel d = Some (err, d') /\ walked d d' /\
    (err = - ELOOP \/ err = 0 /\ no_progress d <= INTEL_PT_MAX_LOOPS /\ no_progress d' = no_progress d + 1 /\ calls d' = S (calls d) /\ in_branches d').
Proof.
  intros Hd Hb Hj. destruct (walk_jump d Hd Hj) as (err & insn & d' & E & Hw & Hr). unfold decode_step.
  assert (intel_pt_walk_tnt fuel d = Some (if err =? INTEL_PT_RETURN then 0 else err, d') \/ pkt_state d <> INTEL_PT_STATE_TNT) as Htnt.
  { destruct (decide (pkt_state d = INTEL_PT_STATE_TNT)) as [Et|]; [left|by right]. unfold intel_pt_walk_tnt.
    pose proof (fl_tnt _ (do_flow _ Hd) Et). destruct (Z.to_nat (count (tnt d))) as [|k] eqn:Ek; [lia|]. cbn [walk_tnt_loop]. rewrite E. cbn [obind].
    destruct Hr as [->|(-> & _)]; done. }
  assert (intel_pt_walk_tip d = Some (if err =? INTEL_PT_RETURN then 0 else err, d')) as Htip.
  { unfold intel_pt_walk_tip. rewrite E. cbn [obind]. destruct Hr as [->|(-> & _)]; done. }
  exists (if err =? INTEL_PT_RETURN then 0 else err), d'. split.
  - destruct Hb as [Hb|[Hb|Hb]]; rewrite Hb; [|exact Htip|exact Htip]. destruct Htnt as [->|]; [|done]. cbn [obind].
    destruct Hr as [->|(-> & _)]; done.
  - split; [done|]. destruct Hr as [->|(-> & ? & ? & ? & Es & _)]; [by left|right]. split_and!; try done. unfold in_branches. by rewrite Es.
Qed.

Lemma decode_jump fuel d : decoder_ok d -> in_branches d -> (forall ip to_ip max, jump (walk_insn_cb (calls d) ip to_ip max)) ->
  (0 < fuel)%nat -> exists d', intel_pt_decode fuel d = Some d' /\ decoder_ok d' /\
    (st_err d' = INTEL_PT_ERR_NELOOP \/
     st_err d' = 0 /\ no_progress d <= INTEL_PT_MAX_LOOPS /\ no_progress d' = no_progress d + 1 /\ calls d' = S (calls d) /\ in_branches d').
Proof.
  intros Hd Hb Hj Hf. unfold intel_pt_decode. destruct fuel as [|fuel]; [lia|]. cbn [decode_loop]. set (d1 := d <| st_type := _ |> <| st_flags := _ |>).
  assert (decoder_ok d1) as Hd1 by (decoder_solve Hd; cbn; unfold INTEL_PT_BRANCH; lia).
  destruct (step_jump (S fuel) d1 Hd1 Hb Hj) as (err & d' & -> & Hw & Hr). cbn [obind]. pose proof (wk_ok _ _ Hw) as Hd'.
  pose proof (est_timestamp_ok d'). pose proof (ti_timestamp _ (do_times _ Hd')). pose proof (fl_cr3 _ (do_flow _ Hd')).
  pose proof (pg_tot _ (do_progress _ Hd')).
  destruct Hr as [->|(-> & ? & ? & ? & ?)]; cbn [obind]; eexists; (split; [reflexivity|]).
  - split; [|by left]. decoder_solve Hd'; vm_compute; split; congruence.
  - split; [|by right]. decoder_solve Hd'; vm_compute; split; congruence.
Qed.

Lemma loop_found fuel m d : (rounds_left d <= m)%nat -> decoder_ok d -> in_branches d ->
  (forall n ip to_ip max, (calls d <= n)%nat -> jump (walk_insn_cb n ip to_ip max)) -> (0 < fuel)%nat ->
  exists l st, (length l <= m)%nat /\ decode_calls fuel (S (length l)) d = Some (l ++ [st]) /\
    Forall (fun s => st_err s = 0) l /\ st_err st = INTEL_PT_ERR_NELOOP.
Proof.
  revert d. induction m as [|m IH]; intros d Hm Hd Hb Hj Hf;
    destruct (decode_jump fuel d Hd Hb) as (d1 & E1 & Hd1 & Hr); try (intros; apply Hj; lia); try done.
  all: destruct Hr as [Hr|(Hr & Hn & Hn' & Hc & Hb')].
  1, 3: exists [], (state d1); cbn [length decode_calls app]; rewrite E1; cbn [obind]; split_and!; try done; lia.
  - unfold rounds_left in Hm. lia.
  - destruct (IH d1) as (l & st & Hl & El & Hz & Hst); [unfold rounds_left in *; lia|done|done|intros; apply Hj; lia|done|].
    exists (state d1 :: l), st. cbn [length]. split; [lia|]. split; [|split; [by constructor|done]].
    change (decode_calls fuel (S (S (length l))) d) with (let? d := intel_pt_decode fuel d in let? r := decode_calls fuel (S (length l)) d in Some (state d :: r)).
    rewrite E1. cbn [obind]. rewrite El. done.
Qed.

End Loops.

(** C14: A never-ending loop is reported.  When the code behind a branch packet
    is an endless sequence of direct jumps, whatever they jump to, the decoder
    returns a state without an error for each of them, and within
    [INTEL_PT_MAX_LOOPS] + 2 calls a state with [INTEL_PT_ERR_NELOOP].  (The
    lengths and offsets add up to an [int], [offsets_fit]: the sum is not
    defined otherwise.) *)
Theorem never_ending_loop {Env : PtEnv} {HEnv : EnvOk} (fuel : nat) (d : intel_pt_decoder) : offsets_fit -> decoder_ok d -> in_branches d ->
  (forall n ip to_ip max, (calls d <= n)%nat -> jump (walk_insn_cb n ip to_ip max)) -> (0 < fuel)%nat ->
  exists l st, Z.of_nat (length l) <= INTEL_PT_MAX_LOOPS + 1 /\ decode_calls fuel (S (length l)) d = Some (l ++ [st]) /\
    Forall (fun s => st_err s = 0) l /\ st_err st = INTEL_PT_ERR_NELOOP.
Proof.
  intros Hfit Hd Hb Hj Hf. destruct (loop_found fuel (rounds_left d) d) as (l & st & Hl & H); [lia|done..|]. exists l, st. split; [|done].
  pose proof (pg_count _ (do_progress _ Hd)). unfold rounds_left in Hl. unfold INTEL_PT_MAX_LOOPS in *. lia.
Qed.

(** * Instances *)

(** A jump to itself. *)
Definition jump_env : PtEnv := {|
  walk_insn_cb := fun _ ip _ _ => mkAnswer 0 (mkPtInsn INTEL_PT_OP_JMP INTEL_PT_BR_UNCONDITIONAL 2 (-2) []) 1 (u64 ip);
  malloc_cb := fun _ => None; cvt_oob := fun _ => Some 0 |}.

Lemma jump_env_ok : EnvOk (H := jump_env).
Proof. constructor; [|done]. intros n ip to_ip max. split; [apply u64_u64_ok|]. vm_compute; split; congruence. Qed.
Lemma jump_env_fits : offsets_fit (H := jump_env).
Proof. intros n ip to_ip max a _ _. vm_compute. split; congruence. Qed.

(** A PSB with an address, and a TIP packet. *)
Definition demo_trace : list intel_pt_buffer :=
  [data (encode PPsb ++ encode (PIp KFup Ip64 0x400000) ++ encode PPsbend ++ encode (PIp KTip Ip64 0x400010))].
Definition demo_params : intel_pt_params := mkParams true true false 0 INTEL_PT_PERIOD_NONE 0 3 0 0.


(** The first call finds the address, without a sample; the next ones follow
    the jumps. *)
Example demo_decodes :
  (match intel_pt_decoder_new true demo_params (mkWorld demo_trace 0 0) with
   | Some (Some d) => decode_calls (Env := jump_env) 100 4 d
   | _ => None
   end) ≫= (fun l => Some (map (fun s => (st_err s, st_from_ip s, st_to_ip s)) l)) =
  Some [(0, 0, 0); (0, 0x400000, 0x400000); (0, 0x400000, 0x400000); (INTEL_PT_ERR_NELOOP, 0x400000, 0x400000)].
Proof. vm_compute. reflexivity. Qed.

Lemma never_ending_loop_witness :
  exists l st, Z.of_nat (length l) <= INTEL_PT_MAX_LOOPS + 1 /\
    decode_calls (Env := jump_env) 100 (S (length l)) ((three_bytes []) <| pkt_state := INTEL_PT_STATE_TIP |>) = Some (l ++ [st]) /\
    Forall (fun s => st_err s = 0) l /\ st_err st = INTEL_PT_ERR_NELOOP.
Proof.
  apply (@never_ending_loop jump_env jump_env_ok 100 _ jump_env_fits).
  - assert (decoder_ok (three_bytes [])) as Hd.
    { apply three_bytes_ok. constructor; try (apply (bool_decide_unpack _); vm_compute; exact I); try (vm_compute; congruence). }
    decoder_solve Hd.
  - right. by left.
  - intros n ip to_ip max _. done.
  - lia.
Defined.

End PtDecode.
